(* ===== verification/_CoqProject ===== *)
-Q . S2P
Prelude.v
CString.v
Bitmap.v
NList.v
Hash.v
Machine.v
Confined.v
Interrupt.v
Mips.v
Host.v
Disk.v
Console.v
FileHdr.v
OpenFile.v
PBitmap.v
Directory.v
FileSys.v
FileSysStub.v
AddrSpace.v
Syscalls.v
Exception.v
Threads.v
Sched.v
Locks.v
Effects.v
Conds.v
SynchProto.v
SynchLists.v
Main.v
Network.v
Post.v
KernelTests.v
LoadDelay.v
UserRun.v
Debugger.v
LibTests.v
ProgramConfined.v
UserSwitch.v
