(* ===== verification/Prelude.v ===== *)
(** * A verification library for the Nachos kernel and machine simulator

    The program is the instructional operating system Nachos (C++, under
    src/code): a simulated MIPS machine with its devices (machine/), the kernel
    that runs on it (threads/, userprog/, filesys/, network/) and the utility
    classes both use (lib/).  This library translates the parts listed below into
    executable definitions, named after the C++ functions, and proves what makes
    them correct.

    ** How code is modelled

    This file defines the outcomes of C++ code ([result]: a value, a failed ASSERT,
    undefined behaviour, the end of the process, fuel used up), 32-bit integers
    with their wrap-around, arrays whose accesses are checked ([zget], [zset],
    [zslice], [zsplice]), counted loops ([forZ], [searchZ]) and the tactics and
    lemmas that the other files share.  State is passed explicitly.  Uninitialised
    memory is an argument of the definitions that leave it uninitialised.  Code
    outside src/ (the host system calls, the C library's rand) is a parameter; what
    is relied on is a type class with an instance ([HostOS], [RegularFile],
    [CharDevices] in Host.v and Console.v, [SocketOS], [Datagrams] and [Struct] in
    Network.v).  Interfaces between components are
    classes as well: [Terminal] (Console.v) is what the system calls need of the
    console, [BlockDevice] (Disk.v) and [BitAllocator] (Bitmap.v) are what the file
    system needs of the disk and the free map, [Handlers] (Interrupt.v) is
    what the interrupt controller needs of the devices.

    ** Files

    - CString.v: C strings in arrays (strlen, strcmp), no code of its own.
    - Bitmap.v: lib/bitmap.  The operations against the set of marked bits.
    - NList.v: lib/list.  Module [Heap] has the pointer code on a store of cells,
      module [Seq] the sequences it refines; sorted insertion.
    - Hash.v: lib/hash.  The self-expanding hash table and its iterator, over
      [Seq]; it refines a finite map.
    - Machine.v: machine/machine, machine/translate.  Registers, memory,
      translation by page table or TLB, traps; the abstract MMU [mmu_access].
      Confined.v: the preorder of machines that says what a program cannot change.
    - Interrupt.v: machine/interrupt, machine/timer, threads/alarm, the tick
      counters of machine/stats.  Simulated time and the order of interrupts.
    - Mips.v: machine/mipssim.  Decoding and every instruction.
    - Host.v: the wrappers of lib/sysdep for files.
    - Disk.v: machine/disk, filesys/synchdisk.  Timing and the array of sectors.
    - Console.v: machine/console, userprog/synchconsole.
    - FileHdr.v, OpenFile.v, PBitmap.v, Directory.v, FileSys.v: filesys/ with the
      file system on the simulated disk.
    - FileSysStub.v: the FILESYS_STUB part of filesys/filesys.h and
      filesys/openfile.h, on the host's files, with the table of open files that
      the system calls use.
    - AddrSpace.v: userprog/addrspace, userprog/noff.h.  Loading and starting
      user programs.
    - Syscalls.v: userprog/ksyscall.h.  Exception.v: userprog/exception.cc, the
      system call handlers and the copies between user and kernel memory.
    - Threads.v: threads/thread, threads/scheduler, threads/synch, with what
      threads see of interrupts.  An abstract machine: a thread object holds the
      kernel frames that it has still to execute, a step executes one, and SWITCH
      goes on with the frames of another thread.
    - Sched.v: the invariant of that machine and what follows for the scheduler and
      semaphores.  Locks.v: locks.  Effects.v: every step as a move of the running
      thread together with signals of devices, which the next files build on.
      Conds.v: condition variables.
    - SynchProto.v, SynchLists.v: threads/synchlist.  The protocol that the functions
      of a synchronised list follow, abstractly, and the simulation of the machine of
      Threads.v by it.
    - Main.v: threads/main.cc and the constructor of threads/kernel.cc.  The options,
      and the commands that copy, print and remove files.
    - Network.v: machine/network and the socket wrappers of lib/sysdep.  Post.v:
      network/post, mail boxes on top of the device.  KernelTests.v: the console test
      and the network test of threads/kernel.cc, the latter on two machines.
    - LoadDelay.v: an instruction with a load pending and with the load completed.
      UserRun.v: Machine::Run of machine/mipssim.cc with the clock, the timer and
      Thread::Yield.  Debugger.v: Machine::Debugger, Machine::DumpState and
      Interrupt::DumpState, with the C++ streams they use.
    - ProgramConfined.v: the composition of AddrSpace.v, Mips.v, Exception.v and
      UserRun.v: what a loaded program can change.  UserSwitch.v: what Scheduler::Run
      does for threads with user programs.
    - LibTests.v: the list iterator and the self tests of lib/list and lib/libtest, the
      flags of lib/debug.

    ** What the theorems show

    - Memory protection: translation stays in bounds, raises each exception exactly
      when documented, and no write reaches a frame that no writable entry maps;
      a TLB that caches a page table refines it, with a page fault for a page it does
      not have, and goes on caching it; the kernel's own translation agrees with the hardware's.
    - The processor: every instruction keeps the machine well formed (the one
      exception is INT_MIN divided by -1), products are exact, overflow traps are
      exact, unaligned loads and stores assemble words.
    - Data structures: the pointer lists refine sequences, hash tables refine
      finite maps across rehashing, bit maps account for free bits, directories
      refine maps from names to sectors.
    - The file system: formatting establishes, and Create and Remove keep, an
      invariant that ties directory, headers and free map together; data written
      to a file is read back after mounting again; reads and writes of open files
      are exactly slices and updates of the file's bytes.
    - Devices: the synchronous disk is an array of sectors, seeks take their
      documented time while the clock, an [int], does not overflow; the console delivers
      characters in order in both directions, whenever its interrupts fire; interrupts fire in
      order of time, each at its time, and the loop that fires them ends.
    - User programs: loading yields the image of the object file and the identity
      mapping; system calls change nothing but the result register and the program
      counter; strings and numbers survive the way between keyboard, user memory
      and display; the stub file system reads back what it wrote.  Running a program
      with interrupts is the same as running its instructions alone, if it leaves its
      load slots unused, with the time of both known exactly; a program that uses a slot
      sees the interrupts.  Over a whole run, with system calls and interrupts, a program
      changes nothing beyond the end of its address space; a program that is switched off
      and on again finds its registers and its translations as they were.
    - Concurrency, for any number of threads, any client code and interrupts at any
      point: no assertion of the scheduler or of a semaphore fails, every thread is
      in exactly one place, no wakeup is lost, the threads that the
      context switches run are the ready ones, first come first served, the machine stops
      only when nothing can run; a lock excludes; Signal of a condition variable wakes one
      waiting thread, once, and Broadcast goes on until none waits; a synchronised list is
      used by one thread at a time, gives out the arguments of Append first in first out,
      and no consumer is left waiting for an item that is there.
    - The post office: sending and receiving implement one queue of messages per mail
      box, and no packet, whatever its bytes, makes the kernel leave its buffers; the
      network test of two machines finishes in every fair interleaving.
    - Start-up: the command that copies a file of the host into Nachos and the one that
      prints it give back the bytes of the host's file.
    - Defects: overruns, lost error results and non-termination found on the way
      are stated as theorems next to the claims, with the exact conditions.

    ** Bounds and fuel

    A loop with a counter runs that many times.  Loops over linked lists get one
    pass more than the recorded length, which the refinement shows to be enough;
    the decimal loops of the number calls get one pass more than an [int] has
    digits; [Close] of the stub gets one call per slot; the exception handler gets
    a nesting depth, and depth 2 is shown to be enough; the interrupt loop gets one
    pass per pending interrupt, which is shown to be enough; waiting for a key gets
    one turn for every entry of simulated time that the environment gives, the longest
    delay between keys that the host promises, and one more, and waiting for the display
    needs no more; receiving a message gets
    two turns of worker and device per packet, and one more; copying and printing get
    one turn more than the largest file has pieces; a yield with no other thread ready
    may yield once more from its own clock tick; the debugger gets one turn per character
    that is typed, and one more.  Machine::Run is endless: theorems are about any number of
    its turns.  Threads need no fuel: a step of the machine is one frame, and theorems are about all reachable states.
    Where the code itself does not end, the model runs out of fuel, and a theorem says
    so.

    ** Not modelled

    - The use of semaphores and locks inside the devices: in Disk.v, Console.v and
      Post.v, which follow one thread, a semaphore is a counter and a lock a flag.  In
      Disk.v and Post.v waiting runs the device that will signal; in Console.v interrupts
      fire at every point where they are enabled and whenever the machine idles, in any
      order.  The timer keeps an idle machine running, so a thread that waits for a
      keyboard that has stopped waits for ever.
    - In Threads.v, threads have no user programs; what Scheduler::Run does for them is
      in UserSwitch.v, on its own.  AddrSpace::Execute ends before Machine::Run.  The
      fences at the end of kernel stacks and the self tests of threads/.
    - Time that passes inside a system call, in UserRun.v; the line that Machine::Run
      prints when debugging is on; Statistics::Print.
    - The construction order in Kernel::Initialize, but for the main thread and the
      enabling of interrupts; ThreadSelfTest.
    - Floating point: the reliability of the network is a rational number, and atof a
      parameter.
    - Signals, memory protection and timing of the host in lib/sysdep; test programs (MIPS code), switch.S and the build files. *)

From stdpp Require Export base list gmap strings numbers option sorting.
From Stdlib Require Export ZArith Lia Bool.
From Stdlib Require Strings.Byte.
From coqutil Require Export Byte.
From coqutil Require Export Word.LittleEndianList.

#[global] Open Scope Z_scope.

(** ** Outcomes of C++ code

    A fragment of the kernel either returns a value, fails an [ASSERT]
    (lib/debug.h prints the location and calls [Abort]), leaves the objects it
    may touch (an index outside an array, a null or freed pointer, an integer
    division the hardware traps on: undefined behaviour in C++), reaches the
    end of the process ([Interrupt::Halt] deletes the kernel, whose destructor
    calls [Exit]), or is still inside a loop when the fuel given to the model
    of that loop is used up. *)

Inductive result (A : Type) : Type :=
  | Ret (a : A)
  | AssertFail
  | Fault
  | Halted
  | NoFuel.
Arguments Ret {A} a.
Arguments AssertFail {A}.
Arguments Fault {A}.
Arguments Halted {A}.
Arguments NoFuel {A}.

Definition rbind {A B} (c : result A) (k : A -> result B) : result B :=
  match c with
  | Ret a => k a
  | AssertFail => AssertFail
  | Fault => Fault
  | Halted => Halted
  | NoFuel => NoFuel
  end.

Declare Scope nachos_scope.
Delimit Scope nachos_scope with nachos.
#[global] Open Scope nachos_scope.

Notation "'let*' x := c 'in' k" := (rbind c (fun x => k))
  (at level 10, x pattern, c at level 100, k at level 200,
   format "'[v' 'let*'  x  :=  c  'in' '/' k ']'") : nachos_scope.

(** The [ASSERT] macro of lib/debug.h: nothing when the condition holds,
    otherwise a message and [Abort()]. *)
Definition ASSERT (condition : bool) : result unit :=
  if condition then Ret tt else AssertFail.

Notation "'assert*' b 'in' k" := (rbind (ASSERT b) (fun _ => k))
  (at level 10, b at level 100, k at level 200,
   format "'[v' 'assert*'  b  'in' '/' k ']'") : nachos_scope.

(** ** Machine integers: [unsigned int], [int], [char] of the 32-bit build *)

Definition u32 (z : Z) : Z := z mod 2 ^ 32.
Definition s32 (z : Z) : Z := (z + 2 ^ 31) mod 2 ^ 32 - 2 ^ 31.
Definition u16 (z : Z) : Z := z mod 2 ^ 16.

Definition is_u32 (z : Z) : Prop := 0 <= z < 2 ^ 32.
Definition is_s32 (z : Z) : Prop := - 2 ^ 31 <= z < 2 ^ 31.

(** A byte read as a [char], which is signed on this host. *)
Definition schar (b : byte) : Z :=
  if byte.unsigned b <? 2 ^ 7 then byte.unsigned b else byte.unsigned b - 2 ^ 8.

(** [divRoundDown] and [divRoundUp] of lib/utility.h; C++ division truncates. *)
Definition divRoundDown (n s : Z) : Z := Z.quot n s.
Definition divRoundUp (n s : Z) : Z :=
  Z.quot n s + (if Z.rem n s >? 0 then 1 else 0).

(** ** Arrays: an access outside the object is a [Fault] *)

Definition zget {A} (l : list A) (i : Z) : result A :=
  if 0 <=? i then
    match l !! Z.to_nat i with Some x => Ret x | None => Fault end
  else Fault.

Definition zset {A} (l : list A) (i : Z) (x : A) : result (list A) :=
  if (0 <=? i) && (i <? Z.of_nat (length l)) then Ret (<[Z.to_nat i := x]> l)
  else Fault.

(** [n] consecutive elements from index [i] (the source of a [bcopy]). *)
Definition zslice {A} (l : list A) (i n : Z) : result (list A) :=
  if (0 <=? i) && (0 <=? n) && (i + n <=? Z.of_nat (length l))
  then Ret (take (Z.to_nat n) (drop (Z.to_nat i) l))
  else Fault.

(** Overwrite the elements from index [i] on with [xs] (the destination). *)
Definition zsplice {A} (l : list A) (i : Z) (xs : list A) : result (list A) :=
  if (0 <=? i) && (i + Z.of_nat (length xs) <=? Z.of_nat (length l))
  then Ret (take (Z.to_nat i) l ++ xs ++ drop (Z.to_nat i + length xs) l)
  else Fault.

(** Contents of a fresh allocation that the code does not initialise. *)
Definition uninit {A} (garbage : nat -> A) (n : nat) : list A :=
  garbage <$> seq 0 n.

(** ** Counted loops: [for (i = lo; i < hi; i++)] *)

Fixpoint for_count {S} (n : nat) (i : Z) (body : Z -> S -> result S) (s : S)
    : result S :=
  match n with
  | O => Ret s
  | Datatypes.S n' => let* s' := body i s in for_count n' (i + 1) body s'
  end.

Definition forZ {S} (lo hi : Z) (body : Z -> S -> result S) (s : S) : result S :=
  for_count (Z.to_nat (hi - lo)) lo body s.

(** A loop that returns from inside: the first [Some] ends it. *)
Fixpoint search_count {A} (n : nat) (i : Z) (body : Z -> result (option A))
    : result (option A) :=
  match n with
  | O => Ret None
  | Datatypes.S n' =>
      let* r := body i in
      match r with
      | Some a => Ret (Some a)
      | None => search_count n' (i + 1) body
      end
  end.

Definition searchZ {A} (lo hi : Z) (body : Z -> result (option A))
    : result (option A) :=
  search_count (Z.to_nat (hi - lo)) lo body.

(** ** Tactics *)

(** Split the conjunctions and existentials of the context. *)
Ltac destr_ctx :=
  repeat match goal with
         | H : _ /\ _ |- _ => destruct H
         | H : exists _, _ |- _ => destruct H
         end.

(** Turn the boolean tests of the code into propositions. *)
Ltac to_prop :=
  repeat match goal with
         | H : (_ && _) = true |- _ => apply andb_prop in H; destruct H
         | H : (_ && _) = false |- _ => apply andb_false_iff in H
         | H : (_ || _) = true |- _ => apply orb_prop in H
         | H : (_ || _) = false |- _ => apply orb_false_iff in H; destruct H
         | H : negb _ = true |- _ => apply negb_true_iff in H
         | H : negb _ = false |- _ => apply negb_false_iff in H
         | H : (_ <? _) = true |- _ => apply Z.ltb_lt in H
         | H : (_ <? _) = false |- _ => apply Z.ltb_ge in H
         | H : (_ <=? _) = true |- _ => apply Z.leb_le in H
         | H : (_ <=? _) = false |- _ => apply Z.leb_gt in H
         | H : (_ >? _) = _ |- _ => rewrite Z.gtb_ltb in H
         | H : (_ >=? _) = _ |- _ => rewrite Z.geb_leb in H
         | H : (_ =? _) = true |- _ => apply Z.eqb_eq in H
         | H : (_ =? _) = false |- _ => apply Z.eqb_neq in H
         end.

(** Case analysis on the innermost test of a conditional, in the goal. *)
Ltac case_if :=
  match goal with
  | |- context [if ?b then _ else _] =>
      lazymatch b with
      | context [if _ then _ else _] => fail
      | _ => let E := fresh "E" in destruct b eqn:E
      end
  end.

(** The same in a hypothesis. *)
Ltac case_if_in H :=
  match type of H with
  | context [if ?b then _ else _] =>
      lazymatch b with
      | context [if _ then _ else _] => fail
      | _ => let E := fresh "E" in destruct b eqn:E
      end
  end.

(** [inv_bind H] peels the first step off a computation known to return. *)
Ltac inv_bind H :=
  match type of H with
  | rbind ?c _ = Ret _ =>
      let E := fresh "E" in destruct c eqn:E; simpl in H; try discriminate H
  end.

Create HintDb nachos discriminated.

(** ** Lemmas: outcomes *)

Lemma rbind_Ret {A B} (a : A) (k : A -> result B) : rbind (Ret a) k = k a.
Proof. done. Qed.

Lemma rbind_assoc {A B C} (c : result A) (k : A -> result B) (h : B -> result C) :
  rbind (rbind c k) h = rbind c (fun x => rbind (k x) h).
Proof. by destruct c. Qed.

Lemma rbind_eq_Ret {A B} (c : result A) (k : A -> result B) (b : B) :
  rbind c k = Ret b <-> exists a, c = Ret a /\ k a = Ret b.
Proof.
  split; [|by intros (a & -> & ?)]. destruct c; simpl; naive_solver.
Qed.

Lemma ASSERT_true b : b = true -> ASSERT b = Ret tt.
Proof. by intros ->. Qed.

Lemma ASSERT_Ret b u : ASSERT b = Ret u <-> b = true.
Proof. destruct b, u; naive_solver. Qed.

#[global] Instance byte_eq_decision : EqDecision Init.Byte.byte := Strings.Byte.byte_eq_dec.

#[global] Program Instance byte_countable : Countable Init.Byte.byte :=
  inj_countable' byte.unsigned byte.of_Z _.
Next Obligation. intros b. apply byte.of_Z_unsigned. Qed.

#[global] Instance result_eq_dec {A} `{EqDecision A} : EqDecision (result A).
Proof. solve_decision. Defined.

(** ** Lemmas: machine integers *)

Lemma u32_range z : is_u32 (u32 z).
Proof. unfold is_u32, u32. apply Z.mod_pos_bound. lia. Qed.

Lemma s32_range z : is_s32 (s32 z).
Proof.
  unfold is_s32, s32. pose proof (Z.mod_pos_bound (z + 2 ^ 31) (2 ^ 32)). lia.
Qed.

Lemma u32_id z : is_u32 z -> u32 z = z.
Proof. intros. apply Z.mod_small. done. Qed.

Lemma s32_id z : is_s32 z -> s32 z = z.
Proof.
  unfold is_s32, s32. intros. rewrite Z.mod_small; lia.
Qed.

Lemma u32_s32 z : u32 (s32 z) = u32 z.
Proof.
  unfold u32, s32. rewrite Zminus_mod_idemp_l. f_equal. lia.
Qed.

Lemma s32_u32 z : s32 (u32 z) = s32 z.
Proof. unfold s32, u32. by rewrite Zplus_mod_idemp_l. Qed.

Lemma u32_cong a b : u32 a = u32 b <-> s32 a = s32 b.
Proof.
  split; intros H.
  - by rewrite <- (s32_u32 a), <- (s32_u32 b), H.
  - by rewrite <- (u32_s32 a), <- (u32_s32 b), H.
Qed.

Lemma u32_of_s32 z : is_s32 z -> u32 z = if z <? 0 then z + 2 ^ 32 else z.
Proof.
  unfold is_s32, u32. intros. destruct (Z.ltb_spec z 0).
  - rewrite <- (Z_mod_plus_full _ 1), Z.mod_small; lia.
  - rewrite Z.mod_small; lia.
Qed.

(** A signed sum that leaves the range comes back shifted by [2^32]. *)
Lemma s32_cases z : - 2 ^ 32 <= z < 2 ^ 32 ->
  s32 z = if z <? - 2 ^ 31 then z + 2 ^ 32
          else if 2 ^ 31 <=? z then z - 2 ^ 32 else z.
Proof.
  intros Hz. unfold s32.
  destruct (Z.ltb_spec z (- 2 ^ 31)).
  - rewrite <- (Z_mod_plus_full _ 1), Z.mod_small; lia.
  - destruct (Z.leb_spec (2 ^ 31) z).
    + rewrite <- (Z_mod_plus_full _ (-1)), Z.mod_small; lia.
    + rewrite Z.mod_small; lia.
Qed.

#[export] Hint Resolve u32_range s32_range : nachos.

Lemma schar_range b : - 2 ^ 7 <= schar b < 2 ^ 7.
Proof.
  unfold schar. pose proof (byte.unsigned_range b). case_if; to_prop; lia.
Qed.

(** Storing an integer in a [char] and reading it back keeps the low byte. *)
Lemma schar_of_Z z : schar (byte.of_Z z) = (z + 2 ^ 7) mod 2 ^ 8 - 2 ^ 7.
Proof.
  unfold schar. rewrite byte.unsigned_of_Z. unfold byte.wrap.
  pose proof (Z.mod_pos_bound z (2 ^ 8)). pose proof (Z.div_mod z (2 ^ 8)).
  case_if; to_prop.
  - rewrite <- (Zmod_unique (z + 2 ^ 7) (2 ^ 8) (z / 2 ^ 8) (z mod 2 ^ 8 + 2 ^ 7)); lia.
  - rewrite <- (Zmod_unique (z + 2 ^ 7) (2 ^ 8) (z / 2 ^ 8 + 1) (z mod 2 ^ 8 - 2 ^ 7)); lia.
Qed.

Lemma schar_small z : - 2 ^ 7 <= z < 2 ^ 7 -> schar (byte.of_Z z) = z.
Proof. intros. rewrite schar_of_Z, Z.mod_small; lia. Qed.

Lemma of_schar b : byte.of_Z (schar b) = b.
Proof. by destruct b. Qed.

(** ** Lemmas: bit operations on machine integers *)

Lemma shiftl1_u32 k : 0 <= k < 32 -> u32 (Z.shiftl 1 k) = 2 ^ k.
Proof.
  intros. rewrite Z.shiftl_1_l. apply u32_id. unfold is_u32.
  pose proof (Z.pow_lt_mono_r 2 k 32). lia.
Qed.

Lemma land_pow2_testbit w k : 0 <= k ->
  negb (Z.land w (2 ^ k) =? 0) = Z.testbit w k.
Proof.
  intros Hk. destruct (Z.testbit w k) eqn:Hw.
  - apply negb_true_iff, Z.eqb_neq. intros H.
    assert (Z.testbit (Z.land w (2 ^ k)) k = false) as Hb by (by rewrite H, Z.bits_0).
    rewrite Z.land_spec, Z.pow2_bits_true, Hw in Hb by lia. done.
  - apply negb_false_iff, Z.eqb_eq, Z.bits_inj'. intros j Hj.
    rewrite Z.land_spec, Z.pow2_bits_eqb, Z.bits_0 by lia.
    destruct (Z.eqb_spec k j); subst; [by rewrite Hw|by rewrite andb_false_r].
Qed.

Lemma is_u32_bits w : 0 <= w ->
  is_u32 w <-> forall k, 32 <= k -> Z.testbit w k = false.
Proof.
  intros Hw. unfold is_u32. split.
  - intros ? k ?. apply (@prove_Zeq_bitwise.testbit_above 32); lia.
  - intros Hb. split; [done|].
    rewrite <- (Z.mod_small w (2 ^ Z.max 32 (Z.log2 w + 1))).
    + replace (w mod _) with (w mod 2 ^ 32); [apply Z.mod_pos_bound; lia|].
      apply Z.bits_inj'. intros j Hj.
      destruct (Z.ltb_spec j 32).
      * rewrite !Z.mod_pow2_bits_low; first [lia | done].
      * rewrite Z.mod_pow2_bits_high by lia.
        destruct (Z.ltb_spec j (Z.max 32 (Z.log2 w + 1))).
        -- rewrite Z.mod_pow2_bits_low by lia. rewrite Hb; first [lia | done].
        -- rewrite Z.mod_pow2_bits_high; first [lia | done].
    + split; [done|]. destruct (decide (w = 0)); [subst; apply Z.pow_pos_nonneg; lia|].
      apply Z.log2_lt_pow2; lia.
Qed.

Lemma lor_is_u32 w v : is_u32 w -> is_u32 v -> is_u32 (Z.lor w v).
Proof.
  intros Hw Hv. pose proof Hw as [? _]. pose proof Hv as [? _].
  apply is_u32_bits; [apply Z.lor_nonneg; lia|].
  intros k Hk. rewrite Z.lor_spec.
  by rewrite (proj1 (is_u32_bits w ltac:(lia)) Hw k Hk),
             (proj1 (is_u32_bits v ltac:(lia)) Hv k Hk).
Qed.

Lemma land_is_u32 w v : is_u32 w -> 0 <= v -> is_u32 (Z.land w v).
Proof.
  intros Hw Hv. pose proof Hw as [? _].
  apply is_u32_bits; [apply Z.land_nonneg; lia|].
  intros k Hk. rewrite Z.land_spec.
  by rewrite (proj1 (is_u32_bits w ltac:(lia)) Hw k Hk).
Qed.

(** An [int] is a number whose bits from 31 on are all equal: what keeps the
    bitwise operations of the code inside the range. *)
Lemma is_s32_shiftr z : is_s32 z <-> Z.shiftr z 31 = 0 \/ Z.shiftr z 31 = -1.
Proof.
  rewrite Z.shiftr_div_pow2 by lia. unfold is_s32.
  pose proof (Z.div_mod z (2 ^ 31)). pose proof (Z.mod_pos_bound z (2 ^ 31)). lia.
Qed.

Lemma lor_is_s32 a b : is_s32 a -> is_s32 b -> is_s32 (Z.lor a b).
Proof.
  rewrite !is_s32_shiftr, Z.shiftr_lor. intros [-> | ->] [-> | ->]; simpl; auto.
Qed.

Lemma land_is_s32 a b : is_s32 a -> is_s32 b -> is_s32 (Z.land a b).
Proof.
  rewrite !is_s32_shiftr, Z.shiftr_land. intros [-> | ->] [-> | ->]; simpl; auto.
Qed.

Lemma lxor_is_s32 a b : is_s32 a -> is_s32 b -> is_s32 (Z.lxor a b).
Proof.
  rewrite !is_s32_shiftr, Z.shiftr_lxor. intros [-> | ->] [-> | ->]; simpl; auto.
Qed.

Lemma lnot_is_s32 a : is_s32 a -> is_s32 (Z.lnot a).
Proof. unfold is_s32, Z.lnot. lia. Qed.

Lemma shiftr_is_s32 a k : 0 <= k -> is_s32 a -> is_s32 (Z.shiftr a k).
Proof.
  intros Hk. rewrite !is_s32_shiftr, !Z.shiftr_shiftr by lia.
  rewrite (Z.add_comm k), <- Z.shiftr_shiftr by lia. intros [-> | ->].
  - rewrite Z.shiftr_0_l. auto.
  - rewrite Z.shiftr_div_pow2 by lia. right.
    pose proof (Z.pow_pos_nonneg 2 k). symmetry.
    apply (Z.div_unique_pos _ _ _ (2 ^ k - 1)); lia.
Qed.

Lemma land_mask_range a k : 0 <= k -> 0 <= Z.land a (2 ^ k - 1) < 2 ^ k.
Proof.
  intros.
  replace (2 ^ k - 1) with (Z.ones k) by (rewrite Z.ones_equiv; lia).
  rewrite Z.land_ones by lia. apply Z.mod_pos_bound, Z.pow_pos_nonneg; lia.
Qed.

#[export] Hint Resolve lor_is_s32 land_is_s32 lxor_is_s32 lnot_is_s32 : nachos.

(** ** Lemmas: division *)

Lemma divRoundUp_spec n s : 0 <= n -> 0 < s ->
  s * (divRoundUp n s - 1) < n <= s * divRoundUp n s.
Proof.
  intros. unfold divRoundUp. rewrite Z.quot_div_nonneg, Z.rem_mod_nonneg by lia.
  pose proof (Z.mod_pos_bound n s). pose proof (Z.div_mod n s).
  rewrite Z.gtb_ltb. destruct (Z.ltb_spec 0 (n mod s)); nia.
Qed.

Lemma divRoundUp_nonneg n s : 0 <= n -> 0 < s -> 0 <= divRoundUp n s.
Proof. intros. pose proof (divRoundUp_spec n s). nia. Qed.

(** ** Lemmas: arrays *)

Lemma zget_spec {A} (l : list A) i : 0 <= i < Z.of_nat (length l) ->
  exists x, zget l i = Ret x /\ l !! Z.to_nat i = Some x.
Proof.
  intros. unfold zget. rewrite (proj2 (Z.leb_le 0 i)) by lia.
  destruct (lookup_lt_is_Some_2 l (Z.to_nat i)) as [x Hx]; [lia|].
  rewrite Hx. eauto.
Qed.

Lemma zget_lookup {A} (l : list A) i x : 0 <= i -> l !! Z.to_nat i = Some x ->
  zget l i = Ret x.
Proof. intros ? H. unfold zget. rewrite (proj2 (Z.leb_le 0 i)), H by lia. done. Qed.

Lemma zget_Ret {A} (l : list A) i x :
  zget l i = Ret x -> 0 <= i < Z.of_nat (length l) /\ l !! Z.to_nat i = Some x.
Proof.
  unfold zget. case_if; [|done]. to_prop.
  destruct (l !! Z.to_nat i) eqn:Hl; [|done]. intros [= ->].
  apply lookup_lt_Some in Hl as ?. split; [lia|done].
Qed.

Lemma zset_Ret {A} (l l' : list A) i x : zset l i x = Ret l' ->
  0 <= i < Z.of_nat (length l) /\ l' = <[Z.to_nat i := x]> l.
Proof. unfold zset. case_if; [|done]. to_prop. intros [= <-]. split; [lia|done]. Qed.

Lemma zset_in {A} (l : list A) i x : 0 <= i < Z.of_nat (length l) ->
  zset l i x = Ret (<[Z.to_nat i := x]> l).
Proof.
  intros. unfold zset.
  rewrite (proj2 (Z.leb_le 0 i)), (proj2 (Z.ltb_lt i _)) by lia. done.
Qed.

Lemma zset_out {A} (l : list A) i x :
  i < 0 \/ Z.of_nat (length l) <= i -> zset l i x = Fault.
Proof.
  intros. unfold zset. case_if; [|done]. to_prop. lia.
Qed.

Lemma zslice_in {A} (l : list A) i n :
  0 <= i -> 0 <= n -> i + n <= Z.of_nat (length l) ->
  zslice l i n = Ret (take (Z.to_nat n) (drop (Z.to_nat i) l)).
Proof. intros. unfold zslice. rewrite !(proj2 (Z.leb_le _ _)) by lia. done. Qed.

Lemma zsplice_in {A} (l : list A) i xs :
  0 <= i -> i + Z.of_nat (length xs) <= Z.of_nat (length l) ->
  zsplice l i xs = Ret (take (Z.to_nat i) l ++ xs ++ drop (Z.to_nat i + length xs) l).
Proof. intros. unfold zsplice. rewrite !(proj2 (Z.leb_le _ _)) by lia. done. Qed.

Lemma zslice_Ret {A} (l r : list A) i n : zslice l i n = Ret r ->
  0 <= i /\ 0 <= n /\ i + n <= Z.of_nat (length l) /\
  r = take (Z.to_nat n) (drop (Z.to_nat i) l).
Proof. unfold zslice. case_if; [|done]. to_prop. by intros [= <-]. Qed.

Lemma zsplice_Ret {A} (l r xs : list A) i : zsplice l i xs = Ret r ->
  0 <= i /\ i + Z.of_nat (length xs) <= Z.of_nat (length l) /\
  r = take (Z.to_nat i) l ++ xs ++ drop (Z.to_nat i + length xs) l.
Proof. unfold zsplice. case_if; [|done]. to_prop. by intros [= <-]. Qed.

Lemma length_splice {A} (l xs : list A) i :
  (i + length xs <= length l)%nat ->
  length (take i l ++ xs ++ drop (i + length xs) l) = length l.
Proof. intros. rewrite !length_app, length_take, length_drop. lia. Qed.

Lemma length_uninit {A} (g : nat -> A) n : length (uninit g n) = n.
Proof. unfold uninit. by rewrite length_fmap, length_seq. Qed.

Lemma splice_slice {A} (l xs : list A) i :
  (i + length xs <= length l)%nat ->
  take (length xs) (drop i (take i l ++ xs ++ drop (i + length xs) l)) = xs.
Proof.
  intros. rewrite drop_app_length' by (rewrite length_take; lia).
  by rewrite take_app_length.
Qed.

Lemma lookup_splice_out {A} (l xs : list A) (i j : nat) :
  (i + length xs <= length l)%nat -> (j < i \/ i + length xs <= j)%nat ->
  (take i l ++ xs ++ drop (i + length xs) l) !! j = l !! j.
Proof.
  intros Hl [Hj|Hj].
  - rewrite lookup_app_l by (rewrite length_take; lia).
    by rewrite lookup_take_lt by lia.
  - rewrite lookup_app_r, length_take, Nat.min_l by (rewrite ?length_take; lia).
    rewrite lookup_app_r by lia. rewrite lookup_drop. f_equal. lia.
Qed.

Lemma lookup_splice_in {A} (l xs : list A) (i j : nat) :
  (i + length xs <= length l)%nat -> (i <= j < i + length xs)%nat ->
  (take i l ++ xs ++ drop (i + length xs) l) !! j = xs !! (j - i)%nat.
Proof.
  intros Hl Hj. rewrite lookup_app_r, length_take, Nat.min_l by (rewrite ?length_take; lia).
  by rewrite lookup_app_l by lia.
Qed.

(** ** Lemmas: lists of equal chunks *)

Section chunks.
Context {A : Type} (n : nat).
Implicit Types (ss : list (list A)).

Lemma length_chunks ss : Forall (fun s => length s = n) ss ->
  length (concat ss) = (length ss * n)%nat.
Proof.
  induction 1 as [|s ss Hs _ IH]; [done|]. simpl. rewrite length_app, IH, Hs. lia.
Qed.

(** The chunk at an index, in the flat list. *)
Lemma chunk_slice ss (i : nat) s : Forall (fun s => length s = n) ss -> ss !! i = Some s ->
  take n (drop (i * n) (concat ss)) = s.
Proof.
  intros H. revert i. induction H as [|s0 ss Hs Hss IH]; intros [|i] Hi; try done; simpl in *.
  - injection Hi as ->. rewrite drop_0, <- Hs. apply take_app_length.
  - rewrite <- Hs at 2. rewrite <- drop_drop, drop_app_length. by apply IH.
Qed.

(** Replacing a chunk. *)
Lemma chunk_insert ss (i : nat) s : Forall (fun s => length s = n) ss -> (i < length ss)%nat ->
  concat (<[i := s]> ss) = take (i * n) (concat ss) ++ s ++ drop (i * n + n) (concat ss).
Proof.
  intros H. revert i. induction H as [|s0 ss Hs Hss IH]; intros [|i] Hi; simpl in *; try lia.
  - by rewrite <- Hs, drop_app_length.
  - rewrite IH by lia. replace (n + i * n)%nat with (length s0 + i * n)%nat by lia.
    rewrite take_app_add, <- app_assoc.
    replace (length s0 + i * n + n)%nat with (length s0 + (i * n + n))%nat by lia.
    by rewrite drop_app_add.
Qed.
End chunks.

(** ** Lemmas: loops *)

Section loops.
Context {S : Type}.
Implicit Types (body : Z -> S -> result S) (s : S).

Lemma forZ_nil lo hi body s : hi <= lo -> forZ lo hi body s = Ret s.
Proof. intros. unfold forZ. by replace (Z.to_nat (hi - lo)) with 0%nat by lia. Qed.

Lemma forZ_step lo hi body s : lo < hi ->
  forZ lo hi body s = rbind (body lo s) (forZ (lo + 1) hi body).
Proof.
  intros. unfold forZ.
  replace (Z.to_nat (hi - lo)) with (Datatypes.S (Z.to_nat (hi - (lo + 1)))) by lia.
  done.
Qed.

(** The invariant rule: an invariant that every iteration establishes for the
    next index holds at the end, and the loop returns. *)
Lemma forZ_inv (P : Z -> S -> Prop) lo hi body s :
  lo <= hi -> P lo s ->
  (forall i s, lo <= i < hi -> P i s -> exists s', body i s = Ret s' /\ P (i + 1) s') ->
  exists s', forZ lo hi body s = Ret s' /\ P hi s'.
Proof.
  intros Hle HP Hbody.
  remember (Z.to_nat (hi - lo)) as n eqn:Hn.
  revert lo s Hle HP Hbody Hn. induction n as [|n IH]; intros lo s Hle HP Hbody Hn.
  - rewrite forZ_nil by lia. exists s. by replace hi with lo by lia.
  - rewrite forZ_step by lia.
    destruct (Hbody lo s ltac:(lia) HP) as (s1 & -> & HP1). simpl.
    apply IH; [lia|done| |lia]. intros. apply Hbody; [lia|done].
Qed.

(** Partial version: what holds whenever the loop returns. *)
Lemma forZ_inv_Ret (P : Z -> S -> Prop) lo hi body s s' :
  lo <= hi -> P lo s ->
  (forall i s s', lo <= i < hi -> P i s -> body i s = Ret s' -> P (i + 1) s') ->
  forZ lo hi body s = Ret s' -> P hi s'.
Proof.
  intros Hle HP Hbody.
  remember (Z.to_nat (hi - lo)) as n eqn:Hn.
  revert lo s Hle HP Hbody Hn. induction n as [|n IH]; intros lo s Hle HP Hbody Hn.
  - rewrite forZ_nil by lia. intros [= <-]. by replace hi with lo by lia.
  - rewrite forZ_step by lia. intros H. inv_bind H.
    eapply (IH (lo + 1)); [lia| | |lia|exact H].
    + eapply Hbody; [|done|done]. lia.
    + intros. eapply Hbody; [|done|done]. lia.
Qed.

Lemma forZ_snoc lo hi body s : lo <= hi ->
  forZ lo (hi + 1) body s = rbind (forZ lo hi body s) (body hi).
Proof.
  intros Hle. remember (Z.to_nat (hi - lo)) as n eqn:Hn.
  revert lo s Hle Hn. induction n as [|n IH]; intros lo s Hle Hn.
  - replace hi with lo by lia. rewrite forZ_step, forZ_nil by lia. simpl.
    destruct (body lo s); simpl; try done. by rewrite forZ_nil by lia.
  - rewrite forZ_step, (forZ_step lo hi) by lia. rewrite rbind_assoc.
    destruct (body lo s); simpl; try done. apply IH; lia.
Qed.

(** A loop in two parts. *)
Lemma forZ_app lo mid hi body s : lo <= mid <= hi ->
  forZ lo hi body s = rbind (forZ lo mid body s) (forZ mid hi body).
Proof.
  intros Hle. remember (Z.to_nat (mid - lo)) as n eqn:Hn.
  revert lo s Hle Hn. induction n as [|n IH]; intros lo s Hle Hn.
  - replace mid with lo by lia. by rewrite (forZ_nil lo lo) by lia.
  - rewrite forZ_step, (forZ_step lo mid) by lia. rewrite rbind_assoc.
    destruct (body lo s); simpl; try done. apply IH; lia.
Qed.

End loops.

(** A loop that assigns every element of an array. *)
Lemma forZ_fill {A} (f : A -> A) (l : list A) (n : Z)
    (body : Z -> list A -> result (list A)) :
  n = Z.of_nat (length l) ->
  (forall i (l' : list A) x, length l' = length l -> 0 <= i -> l' !! Z.to_nat i = Some x ->
     body i l' = Ret (<[Z.to_nat i := f x]> l')) ->
  forZ 0 n body l = Ret (f <$> l).
Proof.
  intros -> Hb.
  destruct (forZ_inv
    (fun i l' => l' = (f <$> take (Z.to_nat i) l) ++ drop (Z.to_nat i) l)
    0 (Z.of_nat (length l)) body l) as (l' & -> & ->);
    [lia|done| |].
  - intros i l' Hi ->.
    destruct (lookup_lt_is_Some_2 l (Z.to_nat i)) as [x Hx]; [lia|].
    set (pre := f <$> take (Z.to_nat i) l).
    assert (Hpre : length pre = Z.to_nat i)
      by (unfold pre; rewrite length_fmap, length_take; lia).
    rewrite (drop_S _ _ _ Hx).
    eexists. split.
    + apply (Hb i _ x); [|lia|].
      * rewrite length_app, Hpre. simpl. rewrite length_drop. lia.
      * rewrite lookup_app_r, Hpre, Nat.sub_diag by lia. done.
    + rewrite insert_app_r_alt, Hpre, Nat.sub_diag by lia. simpl.
      replace (Z.to_nat (i + 1)) with (Datatypes.S (Z.to_nat i)) by lia.
      rewrite (take_S_r _ _ _ Hx), fmap_app. by rewrite <- app_assoc.
  - rewrite Nat2Z.id, firstn_all, drop_all, app_nil_r. done.
Qed.

Lemma searchZ_nil {A} lo hi (body : Z -> result (option A)) :
  hi <= lo -> searchZ lo hi body = Ret None.
Proof. intros. unfold searchZ. by replace (Z.to_nat (hi - lo)) with 0%nat by lia. Qed.

Lemma searchZ_step {A} lo hi (body : Z -> result (option A)) : lo < hi ->
  searchZ lo hi body =
  let* r := body lo in
  match r with Some a => Ret (Some a) | None => searchZ (lo + 1) hi body end.
Proof.
  intros. unfold searchZ.
  replace (Z.to_nat (hi - lo)) with (Datatypes.S (Z.to_nat (hi - (lo + 1)))) by lia.
  done.
Qed.

(** A search whose body always returns finds the first index that answers. *)
Lemma searchZ_spec {A} (f : Z -> option A) lo hi (body : Z -> result (option A)) :
  lo <= hi -> (forall i, lo <= i < hi -> body i = Ret (f i)) ->
  (exists i a, lo <= i < hi /\ f i = Some a /\ (forall j, lo <= j < i -> f j = None) /\
     searchZ lo hi body = Ret (Some a)) \/
  ((forall j, lo <= j < hi -> f j = None) /\ searchZ lo hi body = Ret None).
Proof.
  remember (Z.to_nat (hi - lo)) as n eqn:Hn. revert lo Hn.
  induction n as [|n IH]; intros lo Hn Hle Hb.
  - right. rewrite searchZ_nil by lia. split; [lia|done].
  - rewrite searchZ_step, Hb by lia. simpl. destruct (f lo) as [a|] eqn:Hf.
    + left. exists lo, a. repeat split; auto; lia.
    + destruct (IH (lo + 1)) as [(i & a & ? & ? & Hj & Hs)|[Hj Hs]]; try lia.
      { intros. apply Hb. lia. }
      * left. exists i, a. repeat split; auto; try lia.
        intros j ?. destruct (decide (j = lo)); subst; [done|apply Hj; lia].
      * right. split; [|done].
        intros j ?. destruct (decide (j = lo)); subst; [done|apply Hj; lia].
Qed.

(** A search through an array for the first element with a property. *)
Lemma searchZ_list_find {A B} (P : A -> Prop) `{!forall x, Decision (P x)} (f : nat -> A -> B)
    (t : list A) (n : Z) (body : Z -> result (option B)) :
  n = Z.of_nat (length t) ->
  (forall i x, t !! i = Some x ->
     body (Z.of_nat i) = Ret (if decide (P x) then Some (f i x) else None)) ->
  searchZ 0 n body =
  Ret (match list_find P t with Some (i, x) => Some (f i x) | None => None end).
Proof.
  intros -> Hb.
  assert (Hgen : forall (t2 t1 : list A), t = t1 ++ t2 ->
    searchZ (Z.of_nat (length t1)) (Z.of_nat (length t)) body =
    Ret (match list_find P t2 with
         | Some (i, x) => Some (f (length t1 + i)%nat x) | None => None end)).
  { induction t2 as [|x t2 IH]; intros t1 Ht.
    - rewrite Ht, app_nil_r, searchZ_nil by lia. done.
    - assert (Hx : t !! length t1 = Some x)
        by (rewrite Ht, lookup_app_r, Nat.sub_diag by lia; done).
      rewrite searchZ_step by (rewrite Ht, length_app; simpl; lia).
      rewrite (Hb _ _ Hx), rbind_Ret. simpl. destruct (decide (P x)).
      + by rewrite Nat.add_0_r.
      + specialize (IH (t1 ++ [x])). rewrite length_app in IH. simpl in IH.
        replace (Z.of_nat (length t1) + 1) with (Z.of_nat (length t1 + 1)) by lia.
        rewrite IH by (by rewrite <- app_assoc).
        destruct (list_find P t2) as [[i y]|]; [|done]. simpl. do 3 f_equal. lia. }
  specialize (Hgen t [] eq_refl). simpl in Hgen. change 0 with (Z.of_nat 0).
  rewrite Hgen.
  by destruct (list_find P t) as [[i x]|].
Qed.

(** ** Sums over a finite map *)

Definition total {A} (f : nat -> A -> Z) (m : gmap nat A) : Z :=
  map_fold (fun i x acc => f i x + acc) 0 m.

Section total.
Context {A : Type}.
Implicit Types (f g : nat -> A -> Z) (m : gmap nat A).

Lemma total_empty f : total f ∅ = 0.
Proof. apply map_fold_empty. Qed.

Lemma total_insert_new f m i x : m !! i = None -> total f (<[i := x]> m) = f i x + total f m.
Proof. intros. unfold total. rewrite map_fold_insert_L; auto; intros; lia. Qed.

Lemma total_delete f m i x : m !! i = Some x -> total f (delete i m) = total f m - f i x.
Proof.
  intros H. unfold total. rewrite (map_fold_delete_L _ _ _ _ m) by (eauto; intros; lia). lia.
Qed.

Lemma total_ext f g m : (forall i x, m !! i = Some x -> f i x = g i x) -> total f m = total g m.
Proof.
  induction m as [|i x m Hi IH] using map_ind; intros H; [by rewrite !total_empty|].
  rewrite !total_insert_new by done. rewrite (H i x) by apply lookup_insert_eq.
  rewrite IH; [done|]. intros j y Hj. apply H. rewrite lookup_insert_ne; congruence.
Qed.

(** One entry changes, and the summand changes at that entry only. *)
Lemma total_change f g m i x y : m !! i = Some x ->
  (forall j z, m !! j = Some z -> j <> i -> g j z = f j z) ->
  total g (<[i := y]> m) = total f m - f i x + g i y.
Proof.
  intros Hx H. rewrite <- insert_delete_eq.
  rewrite total_insert_new by apply lookup_delete_eq.
  rewrite (total_ext g f) by (intros j z Hj; apply lookup_delete_Some in Hj; apply H; naive_solver).
  rewrite (total_delete _ _ _ x) by done. lia.
Qed.

Lemma total_insert f m i x y : m !! i = Some x ->
  total f (<[i := y]> m) = total f m - f i x + f i y.
Proof. intros. apply total_change; auto. Qed.

Lemma total_nonneg f m : (forall i x, m !! i = Some x -> 0 <= f i x) -> 0 <= total f m.
Proof.
  induction m as [|i x m Hi IH] using map_ind; intros H; [by rewrite total_empty|].
  rewrite total_insert_new by done. pose proof (H i x (lookup_insert_eq _ _ _)) as Hx.
  assert (0 <= total f m); [|lia]. apply IH. intros j y Hj.
  apply H. rewrite lookup_insert_ne; congruence.
Qed.

(** An entry is at most the sum of entries that are not negative. *)
Lemma total_ge f m i x : (forall j y, m !! j = Some y -> 0 <= f j y) -> m !! i = Some x ->
  f i x <= total f m.
Proof.
  intros H Hi. assert (0 <= total f (delete i m)).
  { apply total_nonneg. intros j y Hj. apply lookup_delete_Some in Hj. naive_solver. }
  rewrite (total_delete _ _ _ x) in *; auto. lia.
Qed.

(** A positive sum has a positive entry. *)
Lemma total_pos f m : 0 < total f m -> exists i x, m !! i = Some x /\ 0 < f i x.
Proof.
  induction m as [|i x m Hi IH] using map_ind; [rewrite total_empty; lia|].
  rewrite total_insert_new by done. intros H.
  destruct (decide (0 < f i x)) as [|Hx]; [exists i, x; by rewrite lookup_insert_eq|].
  destruct IH as (j & y & Hj & ?); [lia|]. exists j, y.
  rewrite lookup_insert_ne; [done|congruence].
Qed.

Lemma total_zero f m : (forall i x, m !! i = Some x -> f i x = 0) -> total f m = 0.
Proof.
  induction m as [|i x m Hi IH] using map_ind; intros H; [apply total_empty|].
  rewrite total_insert_new by done. rewrite (H i x) by apply lookup_insert_eq.
  rewrite IH; [done|]. intros j y Hj. apply H. rewrite lookup_insert_ne; congruence.
Qed.

Lemma total_mono f g m : (forall i x, m !! i = Some x -> f i x <= g i x) -> total f m <= total g m.
Proof.
  induction m as [|i x m Hi IH] using map_ind; intros H; [by rewrite !total_empty|].
  rewrite !total_insert_new by done. specialize (H i x (lookup_insert_eq _ _ _)) as Hx.
  assert (total f m <= total g m); [|lia]. apply IH. intros j y Hj. apply H. rewrite lookup_insert_ne; congruence.
Qed.

(** At most one positive entry, when the sum is at most one. *)
Lemma total_unique f m i j x y : (forall j y, m !! j = Some y -> 0 <= f j y) -> total f m <= 1 ->
  m !! i = Some x -> m !! j = Some y -> 0 < f i x -> 0 < f j y -> i = j.
Proof.
  intros H H1 Hi Hj Hx Hy. destruct (decide (i = j)) as [|Hn]; [done|].
  assert (f j y <= total f (delete i m)).
  { apply total_ge; [|by rewrite lookup_delete_ne]. intros u z [_ Hu]%lookup_delete_Some. by apply H. }
  rewrite (total_delete _ _ _ x) in *; auto. lia.
Qed.

End total.

(** How often a number occurs in a list. *)
Definition occurs (x : nat) (l : list nat) : Z := Z.of_nat (length (filter (eq x) l)).

Lemma occurs_nonneg x l : 0 <= occurs x l.
Proof. unfold occurs. lia. Qed.

Lemma occurs_app x l l' : occurs x (l ++ l') = occurs x l + occurs x l'.
Proof. unfold occurs. rewrite filter_app, length_app. lia. Qed.

Lemma occurs_cons x y l : occurs x (y :: l) = (if decide (x = y) then 1 else 0) + occurs x l.
Proof. unfold occurs. rewrite filter_cons. case_decide; simpl; lia. Qed.

Lemma occurs_nil x : occurs x [] = 0.
Proof. done. Qed.

Lemma occurs_elem x l : x ∈ l <-> 0 < occurs x l.
Proof.
  induction l as [|y l IH]; [rewrite occurs_nil; set_solver by lia|].
  rewrite occurs_cons, elem_of_cons, IH. pose proof (occurs_nonneg x l).
  case_decide; intuition lia.
Qed.

Lemma occurs_NoDup l : (forall x, occurs x l <= 1) -> NoDup l.
Proof.
  induction l as [|y l IH]; intros H; constructor.
  - rewrite occurs_elem. specialize (H y). rewrite occurs_cons, decide_True in H by done. lia.
  - apply IH. intros x. specialize (H x). rewrite occurs_cons in H. case_decide; lia.
Qed.
