(* ===== verification/CString.v ===== *)
(** * C strings

    [strlen], [strcmp] and the reading of a string, as the C library defines
    them, on arrays of [char]: a function that reaches the end of the array
    before a terminating zero leaves it, which is a [Fault]. *)

From S2P Require Import Prelude.

Definition NUL : byte := byte.of_Z 0.

(** The characters before the terminating zero. *)
Fixpoint c_str (a : list byte) : result (list byte) :=
  match a with
  | [] => Fault
  | x :: a' => if bool_decide (x = NUL) then Ret [] else let* r := c_str a' in Ret (x :: r)
  end.

Definition strlen (a : list byte) : result Z :=
  let* s := c_str a in Ret (Z.of_nat (length s)).

(** [strcmp(a, b) == 0] *)
Fixpoint strcmp_eq (a b : list byte) : result bool :=
  match a, b with
  | x :: a', y :: b' =>
      if bool_decide (x = y) then
        if bool_decide (x = NUL) then Ret true else strcmp_eq a' b'
      else Ret false
  | _, _ => Fault
  end.

Definition is_cstring (a : list byte) : Prop := NUL ∈ a.

(** [s] is the string at the start of the array [a]. *)
Definition holds_str (a s : list byte) : Prop :=
  (NUL ∉ s) /\ exists rest, a = s ++ NUL :: rest.

Lemma c_str_holds a s : holds_str a s -> c_str a = Ret s.
Proof.
  intros [Hs [rest ->]]. induction s as [|x s IH]; simpl.
  - done.
  - rewrite bool_decide_eq_false_2 by set_solver. by rewrite IH by set_solver.
Qed.

Lemma c_str_spec a s : c_str a = Ret s <-> holds_str a s.
Proof.
  split; [|apply c_str_holds]. revert s. induction a as [|x a IH]; intros s; [done|]. simpl.
  destruct (decide (x = NUL)) as [->|Hx].
  - rewrite bool_decide_eq_true_2 by done. intros [= <-]. split; [set_solver|by exists a].
  - rewrite bool_decide_eq_false_2 by done. destruct (c_str a) as [s'| | | |]; simpl; try done.
    intros [= <-]. destruct (IH s' eq_refl) as [Hs [rest ->]]. split; [set_solver|by exists rest].
Qed.

Lemma is_cstring_holds a : is_cstring a -> exists s, holds_str a s.
Proof.
  unfold is_cstring. induction a as [|x a IH]; [by intros ?%elem_of_nil|].
  destruct (decide (x = NUL)) as [->|Hx].
  - intros _. exists []. split; [set_solver|by exists a].
  - intros [?|Hin]%elem_of_cons; [congruence|]. destruct (IH Hin) as (s & Hs & rest & ->).
    exists (x :: s). split; [set_solver|by exists rest].
Qed.

Lemma strlen_holds a s : holds_str a s -> strlen a = Ret (Z.of_nat (length s)).
Proof. intros Hs. unfold strlen. by rewrite (c_str_holds a s Hs). Qed.

Lemma strcmp_eq_holds a b s t : holds_str a s -> holds_str b t ->
  strcmp_eq a b = Ret (bool_decide (s = t)).
Proof.
  intros [Hs [ra ->]] [Ht [rb ->]]. revert t Ht. induction s as [|x s IH]; intros [|y t] Ht; simpl.
  - done.
  - rewrite bool_decide_eq_false_2 by set_solver. done.
  - rewrite bool_decide_eq_false_2 by set_solver. done.
  - destruct (decide (x = y)) as [->|Hne].
    + rewrite (bool_decide_eq_true_2 (y = y)), (bool_decide_eq_false_2 (y = NUL)) by set_solver.
      rewrite IH by set_solver. f_equal. apply bool_decide_ext. split; [by intros ->|by intros [= ->]].
    + rewrite bool_decide_eq_false_2 by done. by rewrite bool_decide_eq_false_2 by congruence.
Qed.

(** Comparing with an array that has the string without its terminator. *)
Lemma strcmp_eq_unterminated a s : holds_str a s -> strcmp_eq a s = Fault.
Proof.
  intros [Hs [r ->]]. induction s as [|x s IH]; simpl; [done|].
  rewrite bool_decide_eq_true_2, bool_decide_eq_false_2 by set_solver. apply IH. set_solver.
Qed.
