(* ===== verification/Bitmap.v ===== *)
(** * Bitmaps (lib/bitmap.h, lib/bitmap.cc)

    A [Bitmap] is an array of 32-bit words with one bit per managed item.  The
    operations are translated with their assertions; [bit] is the abstract
    value, a predicate on item numbers, and the lemmas refine every operation
    to it.  [BitAllocator] is the contract the file system relies on: its
    clients are verified against the class, and [Bitmap] is its instance. *)

From S2P Require Import Prelude.

Definition BitsInByte : Z := 8.
Definition BitsInWord : Z := 4 * BitsInByte.

Record Bitmap := mkBitmap {
  numBits : Z;
  numWords : Z;
  map : list Z
}.

Definition Test (b : Bitmap) (which : Z) : result bool :=
  assert* (which >=? 0) && (which <? numBits b) in
  let* w := zget (map b) (Z.quot which BitsInWord) in
  if negb (Z.land w (u32 (Z.shiftl 1 (Z.rem which BitsInWord))) =? 0)
  then Ret true else Ret false.

Definition Mark (b : Bitmap) (which : Z) : result Bitmap :=
  assert* (which >=? 0) && (which <? numBits b) in
  let* w := zget (map b) (Z.quot which BitsInWord) in
  let* m := zset (map b) (Z.quot which BitsInWord)
              (Z.lor w (u32 (Z.shiftl 1 (Z.rem which BitsInWord)))) in
  let b' := mkBitmap (numBits b) (numWords b) m in
  let* t := Test b' which in
  assert* t in Ret b'.

Definition Clear (b : Bitmap) (which : Z) : result Bitmap :=
  assert* (which >=? 0) && (which <? numBits b) in
  let* w := zget (map b) (Z.quot which BitsInWord) in
  let* m := zset (map b) (Z.quot which BitsInWord)
              (Z.land w (u32 (Z.lnot (Z.shiftl 1 (Z.rem which BitsInWord))))) in
  let b' := mkBitmap (numBits b) (numWords b) m in
  let* t := Test b' which in
  assert* negb t in Ret b'.

(** The constructor: [map] is fresh memory, zeroed by the first loop. *)
Definition new_Bitmap (garbage : nat -> Z) (numItems : Z) : result Bitmap :=
  assert* numItems >? 0 in
  let words := divRoundUp numItems BitsInWord in
  let* m := forZ 0 words (fun i m => zset m i 0)
              (uninit garbage (Z.to_nat words)) in
  forZ 0 numItems (fun i b => Clear b i) (mkBitmap numItems words m).

Definition FindAndSet (b : Bitmap) : result (Z * Bitmap) :=
  let* r := searchZ 0 (numBits b) (fun i =>
              let* t := Test b i in
              if negb t then let* b' := Mark b i in Ret (Some (i, b'))
              else Ret None) in
  match r with Some ib => Ret ib | None => Ret (-1, b) end.

Definition NumClear (b : Bitmap) : result Z :=
  forZ 0 (numBits b) (fun i count =>
    let* t := Test b i in
    if negb t then Ret (count + 1) else Ret count) 0.

(** [Print] writes the numbers of the set bits to [cout]; the model returns
    them in the order they are written. *)
Definition Print (b : Bitmap) : result (list Z) :=
  forZ 0 (numBits b) (fun i out =>
    let* t := Test b i in
    if t then Ret (out ++ [i]) else Ret out) [].

Definition SelfTest (b : Bitmap) : result Bitmap :=
  assert* numBits b >=? BitsInWord in
  let* c := NumClear b in
  assert* c =? numBits b in
  let* (i, b) := FindAndSet b in
  assert* i =? 0 in
  let* b := Mark b 31 in
  let* t0 := Test b 0 in
  let* t31 := Test b 31 in
  assert* t0 && t31 in
  let* (i, b) := FindAndSet b in
  assert* i =? 1 in
  let* b := Clear b 0 in
  let* b := Clear b 1 in
  let* b := Clear b 31 in
  let* b := forZ 0 (numBits b) (fun i b => Mark b i) b in
  let* (i, b) := FindAndSet b in
  assert* i =? -1 in
  forZ 0 (numBits b) (fun i b => Clear b i) b.

(** ** Abstract value and well-formedness *)

(** The bit of item [i], [false] outside the storage. *)
Definition bit (b : Bitmap) (i : Z) : bool :=
  match map b !! Z.to_nat (i / 32) with
  | Some w => Z.testbit w (i mod 32)
  | None => false
  end.

Definition wf_bitmap (b : Bitmap) : Prop :=
  0 < numBits b /\ numWords b = divRoundUp (numBits b) BitsInWord /\
  Z.of_nat (length (map b)) = numWords b /\ Forall is_u32 (map b).

(** Clear bits among the items [0 .. n-1]: the reference for [NumClear]. *)
Definition clear_below (f : Z -> bool) (n : Z) : Z :=
  Z.of_nat (length (filter (fun i => f i = false) (seqZ 0 n))).

(** ** The contract of a bit allocator *)

(** What the allocators of disk sectors need from a bitmap: a number of items,
    an in-use predicate, and operations that test, release, count and claim.
    [al_find] claims the lowest free item or reports that none is left. *)
Class BitAllocator (B : Type) := {
  al_wf : B -> Prop;
  al_size : B -> Z;
  al_bit : B -> Z -> bool;
  al_test : B -> Z -> result bool;
  al_mark : B -> Z -> result B;
  al_clear : B -> Z -> result B;
  al_numclear : B -> result Z;
  al_find : B -> result (Z * B);
  al_test_spec : forall b i, al_wf b -> 0 <= i < al_size b ->
    al_test b i = Ret (al_bit b i);
  al_mark_spec : forall b i, al_wf b -> 0 <= i < al_size b ->
    exists b', al_mark b i = Ret b' /\ al_wf b' /\ al_size b' = al_size b /\
      forall j, 0 <= j -> al_bit b' j = bool_decide (j = i) || al_bit b j;
  al_clear_spec : forall b i, al_wf b -> 0 <= i < al_size b ->
    exists b', al_clear b i = Ret b' /\ al_wf b' /\ al_size b' = al_size b /\
      forall j, 0 <= j -> al_bit b' j = negb (bool_decide (j = i)) && al_bit b j;
  al_numclear_spec : forall b, al_wf b ->
    al_numclear b = Ret (clear_below (al_bit b) (al_size b));
  al_find_spec : forall b, al_wf b ->
    (exists i b', al_find b = Ret (i, b') /\ 0 <= i < al_size b /\
       al_bit b i = false /\ (forall j, 0 <= j < i -> al_bit b j = true) /\
       al_wf b' /\ al_size b' = al_size b /\
       forall j, 0 <= j -> al_bit b' j = bool_decide (j = i) || al_bit b j) \/
    (al_find b = Ret (-1, b) /\ forall j, 0 <= j < al_size b -> al_bit b j = true)
}.

(** ** Lemmas *)

(** Bits of the mask that [Clear] intersects a word with. *)
Lemma clear_mask_bit k j : 0 <= k < 32 -> 0 <= j < 32 ->
  Z.testbit (u32 (Z.lnot (Z.shiftl 1 k))) j = negb (j =? k).
Proof.
  intros. unfold u32. rewrite Z.mod_pow2_bits_low, Z.lnot_spec by lia.
  rewrite Z.shiftl_1_l, Z.pow2_bits_eqb by lia. by rewrite Z.eqb_sym.
Qed.

Section word_index.
Context (b : Bitmap) (Hwf : wf_bitmap b).

Lemma word_lookup i : 0 <= i < numBits b ->
  exists w, map b !! Z.to_nat (i / 32) = Some w /\ is_u32 w.
Proof.
  destruct Hwf as (Hn & Hw & Hl & Hall). intros.
  assert (i / 32 < numWords b).
  { rewrite Hw. pose proof (divRoundUp_spec (numBits b) BitsInWord).
    unfold BitsInWord, BitsInByte in *. apply Z.div_lt_upper_bound; lia. }
  destruct (lookup_lt_is_Some_2 (map b) (Z.to_nat (i / 32))) as [w Hlk].
  { pose proof (Z.div_pos i 32). lia. }
  exists w. split; [done|]. by eapply Forall_lookup_1.
Qed.

Lemma word_get i w : 0 <= i < numBits b -> map b !! Z.to_nat (i / 32) = Some w ->
  zget (map b) (Z.quot i BitsInWord) = Ret w /\ Z.rem i BitsInWord = i mod 32.
Proof.
  intros. change BitsInWord with 32. rewrite Z.quot_div_nonneg, Z.rem_mod_nonneg by lia.
  split; [|done]. apply zget_lookup; [|done]. apply Z.div_pos; lia.
Qed.

End word_index.

Lemma in_range_true b i : 0 <= i < numBits b ->
  (i >=? 0) && (i <? numBits b) = true.
Proof. intros. rewrite Z.geb_leb. apply andb_true_intro. lia. Qed.

Lemma in_range_false b i : ~ (0 <= i < numBits b) ->
  (i >=? 0) && (i <? numBits b) = false.
Proof. intros. rewrite Z.geb_leb. lia. Qed.

Lemma Test_spec b i : wf_bitmap b -> 0 <= i < numBits b -> Test b i = Ret (bit b i).
Proof.
  intros Hwf Hi. destruct (word_lookup b Hwf i Hi) as (w & Hw & _).
  destruct (word_get b i w Hi Hw) as [Hg Hr].
  unfold Test. rewrite in_range_true, ASSERT_true by done. simpl.
  rewrite Hg, Hr. simpl. unfold bit. rewrite Hw.
  pose proof (Z.mod_pos_bound i 32).
  rewrite shiftl1_u32, land_pow2_testbit by lia. by destruct (Z.testbit _ _).
Qed.

Lemma split_item i j : 0 <= i -> 0 <= j ->
  i = j <-> Z.to_nat (i / 32) = Z.to_nat (j / 32) /\ i mod 32 = j mod 32.
Proof.
  intros. pose proof (Z.div_mod i 32). pose proof (Z.div_mod j 32).
  pose proof (Z.div_pos i 32). pose proof (Z.div_pos j 32). split; [by intros ->|lia].
Qed.

(** Replacing the word of item [i] changes the abstract bit of [i] only, when
    the new word agrees with the old one elsewhere. *)
Lemma bit_update b i w w' v :
  wf_bitmap b -> 0 <= i < numBits b -> map b !! Z.to_nat (i / 32) = Some w ->
  is_u32 w' ->
  (forall k, 0 <= k < 32 -> Z.testbit w' k = if k =? i mod 32 then v else Z.testbit w k) ->
  let b' := mkBitmap (numBits b) (numWords b) (<[Z.to_nat (i / 32) := w']> (map b)) in
  wf_bitmap b' /\
  forall j, 0 <= j -> bit b' j = if decide (j = i) then v else bit b j.
Proof.
  intros Hwf Hi Hw Hw' Hbits b'. pose proof Hwf as (Hn & Hnw & Hl & Hall).
  apply lookup_lt_Some in Hw as Hlt. split.
  - repeat split; simpl; auto; [by rewrite length_insert|].
    by apply Forall_insert.
  - intros j Hj. unfold bit, b'; simpl.
    pose proof (Z.mod_pos_bound j 32).
    destruct (decide (Z.to_nat (j / 32) = Z.to_nat (i / 32))) as [E|E].
    + rewrite E, list_lookup_insert_eq, Hw by lia. rewrite Hbits by lia.
      destruct (Z.eqb_spec (j mod 32) (i mod 32)).
      * rewrite decide_True; [done|]. apply split_item; [lia|lia|done].
      * rewrite decide_False; [done|]. intros ->. done.
    + rewrite list_lookup_insert_ne by done. rewrite decide_False; [done|].
      intros ->. done.
Qed.

Lemma Mark_spec b i : wf_bitmap b -> 0 <= i < numBits b ->
  exists b', Mark b i = Ret b' /\ wf_bitmap b' /\ numBits b' = numBits b /\
    forall j, 0 <= j -> bit b' j = bool_decide (j = i) || bit b j.
Proof.
  intros Hwf Hi. destruct (word_lookup b Hwf i Hi) as (w & Hw & Hu).
  destruct (word_get b i w Hi Hw) as [Hg Hr].
  pose proof (Z.mod_pos_bound i 32). pose proof (Z.div_pos i 32).
  destruct (bit_update b i w (Z.lor w (2 ^ (i mod 32))) true) as [Hwf' Hb']; auto.
  { apply lor_is_u32; [done|]. unfold is_u32. pose proof (Z.pow_lt_mono_r 2 (i mod 32) 32).
    lia. }
  { intros k ?. rewrite Z.lor_spec, Z.pow2_bits_eqb, Z.eqb_sym by lia.
    destruct (k =? _); [apply orb_true_r|apply orb_false_r]. }
  unfold Mark. rewrite in_range_true, ASSERT_true by done. simpl.
  rewrite Hg, Hr, shiftl1_u32 by lia. simpl.
  apply lookup_lt_Some in Hw as ?.
  change BitsInWord with 32.
  rewrite zset_in by (rewrite Z.quot_div_nonneg; lia). simpl.
  rewrite Z.quot_div_nonneg by lia.
  rewrite (Test_spec _ i Hwf') by done. simpl.
  rewrite Hb', decide_True by first [lia | done]. simpl.
  eexists. split; [done|]. split; [done|]. split; [done|].
  intros j Hj. rewrite Hb' by done.
  by destruct (decide (j = i)); [rewrite bool_decide_true|rewrite bool_decide_false].
Qed.

Lemma Clear_spec b i : wf_bitmap b -> 0 <= i < numBits b ->
  exists b', Clear b i = Ret b' /\ wf_bitmap b' /\ numBits b' = numBits b /\
    forall j, 0 <= j -> bit b' j = negb (bool_decide (j = i)) && bit b j.
Proof.
  intros Hwf Hi. destruct (word_lookup b Hwf i Hi) as (w & Hw & Hu).
  destruct (word_get b i w Hi Hw) as [Hg Hr].
  pose proof (Z.mod_pos_bound i 32). pose proof (Z.div_pos i 32).
  destruct (bit_update b i w (Z.land w (u32 (Z.lnot (Z.shiftl 1 (i mod 32))))) false)
    as [Hwf' Hb']; auto.
  { apply land_is_u32; [done|]. apply u32_range. }
  { intros k ?. rewrite Z.land_spec, clear_mask_bit by lia.
    destruct (k =? _); [apply andb_false_r|apply andb_true_r]. }
  unfold Clear. rewrite in_range_true, ASSERT_true by done. simpl.
  rewrite Hg, Hr. simpl.
  apply lookup_lt_Some in Hw as ?.
  change BitsInWord with 32.
  rewrite zset_in by (rewrite Z.quot_div_nonneg; lia). simpl.
  rewrite Z.quot_div_nonneg by lia.
  rewrite (Test_spec _ i Hwf') by done. simpl.
  rewrite Hb', decide_True by first [lia | done]. simpl.
  eexists. split; [done|]. split; [done|]. split; [done|].
  intros j Hj. rewrite Hb' by done.
  by destruct (decide (j = i)); [rewrite bool_decide_true|rewrite bool_decide_false].
Qed.

Lemma Test_out b i : ~ (0 <= i < numBits b) -> Test b i = AssertFail.
Proof. intros. unfold Test. by rewrite in_range_false. Qed.

Lemma FindAndSet_spec b : wf_bitmap b ->
  (exists i b', FindAndSet b = Ret (i, b') /\ 0 <= i < numBits b /\
     bit b i = false /\ (forall j, 0 <= j < i -> bit b j = true) /\
     wf_bitmap b' /\ numBits b' = numBits b /\
     forall j, 0 <= j -> bit b' j = bool_decide (j = i) || bit b j) \/
  (FindAndSet b = Ret (-1, b) /\ forall j, 0 <= j < numBits b -> bit b j = true).
Proof.
  intros Hwf. pose proof Hwf as [Hn _].
  set (f i := if bit b i then None
              else match Mark b i with Ret b' => Some (i, b') | _ => None end).
  destruct (searchZ_spec f 0 (numBits b) (fun i =>
              let* t := Test b i in
              if negb t then let* b' := Mark b i in Ret (Some (i, b'))
              else Ret None)) as [(i & a & Hi & Hf & Hlt & Hs)|[Hall Hs]]; [lia| | |].
  - intros i Hi. rewrite Test_spec by done. simpl. unfold f.
    destruct (Mark_spec b i Hwf Hi) as (b' & -> & _). by destruct (bit b i).
  - left. unfold FindAndSet. rewrite Hs. simpl. unfold f in Hf.
    destruct (bit b i) eqn:Hb; [done|].
    destruct (Mark_spec b i Hwf Hi) as (b' & HM & Hwf' & Hnb & Hbits).
    rewrite HM in Hf. injection Hf as <-. exists i, b'.
    split; [done|]. split; [done|]. split; [done|]. split; [|done].
    intros j Hj. specialize (Hlt j Hj). unfold f in Hlt.
    destruct (bit b j) eqn:Hbj; [done|].
    destruct (Mark_spec b j Hwf) as (b2 & HM2 & _); [lia|]. by rewrite HM2 in Hlt.
  - right. unfold FindAndSet. rewrite Hs. simpl. split; [done|].
    intros j Hj. specialize (Hall j Hj). unfold f in Hall.
    destruct (bit b j) eqn:Hbj; [done|].
    destruct (Mark_spec b j Hwf) as (b2 & HM2 & _); [lia|]. by rewrite HM2 in Hall.
Qed.

Lemma clear_below_0 f : clear_below f 0 = 0.
Proof. done. Qed.

Lemma clear_below_succ f n : 0 <= n ->
  clear_below f (n + 1) = clear_below f n + (if f n then 0 else 1).
Proof.
  intros. unfold clear_below. rewrite seqZ_app, filter_app, length_app by lia.
  assert (seqZ (0 + n) 1 = [n]) as -> by (unfold seqZ; simpl; f_equal; lia).
  rewrite filter_cons.
  destruct (decide (f n = false)) as [E|E]; simpl.
  - rewrite E. lia.
  - destruct (f n); [lia|done].
Qed.

Lemma clear_below_nonneg f n : 0 <= clear_below f n.
Proof. unfold clear_below. lia. Qed.

Lemma clear_below_ext f g n :
  (forall j, 0 <= j < n -> f j = g j) -> clear_below f n = clear_below g n.
Proof.
  intros Heq. destruct (decide (n <= 0)) as [Hn|Hn].
  { unfold clear_below. by rewrite seqZ_nil. }
  assert (0 <= n) as H0 by lia. clear Hn. revert H0 Heq. revert n.
  apply (natlike_ind (fun n => (forall j, 0 <= j < n -> f j = g j) ->
                               clear_below f n = clear_below g n)); [done|].
  intros n Hn IH Heq. unfold Z.succ. rewrite !clear_below_succ by lia.
  rewrite IH, Heq; [done|lia|]. intros. apply Heq. lia.
Qed.

(** Setting a clear bit below the bound removes one clear bit. *)
Lemma clear_below_set f g i n :
  0 <= i < n -> f i = false ->
  (forall j, 0 <= j -> g j = bool_decide (j = i) || f j) ->
  clear_below g n = clear_below f n - 1.
Proof.
  intros Hi Hfi Hg.
  assert (forall k, 0 <= k -> clear_below g k = clear_below f k - (if i <? k then 1 else 0)) as H.
  { apply natlike_ind; [simpl; rewrite !clear_below_0; destruct (Z.ltb_spec i 0); lia|].
    intros k Hk IH. unfold Z.succ. rewrite !clear_below_succ, IH, Hg by lia.
    destruct (decide (k = i)) as [->|Hne].
    - rewrite bool_decide_true, Hfi by done. simpl.
      destruct (Z.ltb_spec i i), (Z.ltb_spec i (i + 1)); lia.
    - rewrite bool_decide_false by done. simpl.
      destruct (f k), (Z.ltb_spec i k), (Z.ltb_spec i (k + 1)); lia. }
  rewrite H by lia. destruct (Z.ltb_spec i n); lia.
Qed.

Lemma clear_below_zero f n j :
  0 <= j < n -> f j = false -> 0 < clear_below f n.
Proof.
  intros Hj Hf. set (g k := bool_decide (k = j) || f k).
  pose proof (clear_below_set f g j n Hj Hf ltac:(done)).
  pose proof (clear_below_nonneg g n). lia.
Qed.

Lemma clear_below_full f n :
  (forall j, 0 <= j < n -> f j = true) -> clear_below f n = 0.
Proof.
  intros H. rewrite (clear_below_ext f (fun _ => true)) by done.
  unfold clear_below. induction (seqZ 0 n) as [|x l IH]; [done|].
  rewrite filter_cons_False by done. done.
Qed.

Lemma clear_below_empty f n : 0 <= n ->
  (forall j, 0 <= j < n -> f j = false) -> clear_below f n = n.
Proof.
  intros Hn. revert n Hn.
  apply (natlike_ind (fun n => (forall j, 0 <= j < n -> f j = false) -> clear_below f n = n)).
  - done.
  - intros n Hn IH H. unfold Z.succ in *. rewrite clear_below_succ, IH, H by auto with lia. done.
Qed.

Lemma NumClear_spec b : wf_bitmap b ->
  NumClear b = Ret (clear_below (bit b) (numBits b)).
Proof.
  intros Hwf. pose proof Hwf as [Hn _]. unfold NumClear.
  edestruct (forZ_inv (fun i c => c = clear_below (bit b) i) 0 (numBits b)) as (c & HR & ->);
    [lia|done| |exact HR].
  simpl. intros i c Hi ->. rewrite Test_spec by done. simpl.
  rewrite clear_below_succ by lia.
  destruct (bit b i); simpl; eexists; split; try done; lia.
Qed.

(** A loop that marks (or clears) every item below [n]. *)
Lemma fill_spec b v (op : Z -> Bitmap -> result Bitmap) :
  wf_bitmap b ->
  (forall b i, wf_bitmap b -> 0 <= i < numBits b ->
     exists b', op i b = Ret b' /\ wf_bitmap b' /\ numBits b' = numBits b /\
       forall j, 0 <= j -> bit b' j = if decide (j = i) then v else bit b j) ->
  exists b', forZ 0 (numBits b) op b = Ret b' /\ wf_bitmap b' /\ numBits b' = numBits b /\
    forall j, 0 <= j < numBits b -> bit b' j = v.
Proof.
  intros Hwf Hop. pose proof Hwf as [Hn _].
  destruct (forZ_inv (fun i b' => wf_bitmap b' /\ numBits b' = numBits b /\
              forall j, 0 <= j < i -> bit b' j = v) 0 (numBits b) op b)
    as (b' & HR & Hwf' & Hnb & Hb); [lia| | |].
  - split; [done|]. split; [done|]. lia.
  - intros i c Hi (Hc & Hnc & Hbc). destruct (Hop c i Hc) as (d & -> & Hd & Hnd & Hbd); [lia|].
    exists d. split; [done|]. split; [done|]. split; [lia|].
    intros j Hj. rewrite Hbd by lia. destruct (decide (j = i)); [done|]. apply Hbc. lia.
  - exists b'. auto.
Qed.

Lemma Mark_all b : wf_bitmap b ->
  exists b', forZ 0 (numBits b) (fun i b => Mark b i) b = Ret b' /\ wf_bitmap b' /\
    numBits b' = numBits b /\ forall j, 0 <= j < numBits b -> bit b' j = true.
Proof.
  intros Hwf. apply fill_spec; [done|]. intros c i Hc Hi.
  destruct (Mark_spec c i Hc Hi) as (d & Hd & Hw & Hn & Hb). exists d.
  split; [done|]. split; [done|]. split; [done|]. intros j Hj. rewrite Hb by done.
  by destruct (decide (j = i)); [rewrite bool_decide_true|rewrite bool_decide_false].
Qed.

Lemma Clear_all b : wf_bitmap b ->
  exists b', forZ 0 (numBits b) (fun i b => Clear b i) b = Ret b' /\ wf_bitmap b' /\
    numBits b' = numBits b /\ forall j, 0 <= j < numBits b -> bit b' j = false.
Proof.
  intros Hwf. apply fill_spec; [done|]. intros c i Hc Hi.
  destruct (Clear_spec c i Hc Hi) as (d & Hd & Hw & Hn & Hb). exists d.
  split; [done|]. split; [done|]. split; [done|]. intros j Hj. rewrite Hb by done.
  by destruct (decide (j = i)); [rewrite bool_decide_true|rewrite bool_decide_false].
Qed.

(** The first loop of the constructor zeroes the words it allocated. *)
Lemma zero_words g n : 0 <= n ->
  forZ 0 n (fun i m => zset m i 0) (uninit g (Z.to_nat n)) = Ret (replicate (Z.to_nat n) 0).
Proof.
  intros Hn.
  edestruct (forZ_inv (fun i m => length m = Z.to_nat n /\
               forall k, (k < Z.to_nat i)%nat -> m !! k = Some 0) 0 n
               (fun i m => zset m i 0) (uninit g (Z.to_nat n))) as (m & HR & Hlen & Hm).
  - lia.
  - rewrite length_uninit. split; [done|]. lia.
  - intros i m Hi [Hlen Hm]. rewrite zset_in by lia. eexists. split; [done|].
    rewrite length_insert. split; [done|]. intros k Hk.
    destruct (decide (k = Z.to_nat i)) as [->|].
    + rewrite list_lookup_insert_eq; [done|lia].
    + rewrite list_lookup_insert_ne by done. apply Hm. lia.
  - rewrite HR. f_equal. apply list_eq. intros k.
    destruct (decide (k < Z.to_nat n)%nat).
    + rewrite lookup_replicate_2 by done. auto.
    + rewrite !lookup_ge_None_2; [done| |]; rewrite ?length_replicate; lia.
Qed.

Lemma new_Bitmap_spec g n : 0 < n ->
  exists b, new_Bitmap g n = Ret b /\ wf_bitmap b /\ numBits b = n /\
    forall j, 0 <= j < n -> bit b j = false.
Proof.
  intros Hn. unfold new_Bitmap.
  rewrite ASSERT_true by (rewrite Z.gtb_ltb; lia). simpl.
  pose proof (divRoundUp_nonneg n BitsInWord ltac:(lia) ltac:(done)).
  rewrite zero_words by lia. simpl.
  apply (Clear_all (mkBitmap n (divRoundUp n BitsInWord) (replicate _ 0))).
  repeat split; simpl; auto; [rewrite length_replicate; lia|].
  apply Forall_replicate. by vm_compute.
Qed.

#[export] Instance Bitmap_allocator : BitAllocator Bitmap := {|
  al_wf := wf_bitmap; al_size := numBits; al_bit := bit;
  al_test := Test; al_mark := Mark; al_clear := Clear;
  al_numclear := NumClear; al_find := FindAndSet;
  al_test_spec := Test_spec; al_mark_spec := Mark_spec; al_clear_spec := Clear_spec;
  al_numclear_spec := NumClear_spec; al_find_spec := FindAndSet_spec
|}.

(** ** Properties *)

(** [Test], [Mark] and [Clear] never touch memory outside the word array:
    on a well-formed bitmap each returns exactly for the items [0 <= i < numBits]
    and fails its range assertion for every other argument; where it returns, the
    abstract bits are read, set or cleared at [i] and unchanged elsewhere. *)
Theorem bitmap_ops_safe b i : wf_bitmap b ->
  if decide (0 <= i < numBits b) then
    Test b i = Ret (bit b i) /\
    (exists b', Mark b i = Ret b' /\ wf_bitmap b' /\
       forall j, 0 <= j -> bit b' j = bool_decide (j = i) || bit b j) /\
    (exists b', Clear b i = Ret b' /\ wf_bitmap b' /\
       forall j, 0 <= j -> bit b' j = negb (bool_decide (j = i)) && bit b j)
  else Test b i = AssertFail /\ Mark b i = AssertFail /\ Clear b i = AssertFail.
Proof.
  intros Hwf. destruct (decide _) as [Hi|Hi].
  - destruct (Mark_spec b i Hwf Hi) as (? & ? & ? & ? & ?).
    destruct (Clear_spec b i Hwf Hi) as (? & ? & ? & ? & ?).
    split; [by apply Test_spec|]. split; eauto.
  - unfold Mark, Clear. by rewrite Test_out, in_range_false.
Qed.

Definition sample : Bitmap := mkBitmap 40 2 [2 ^ 32 - 1; 3].

Lemma sample_wf : wf_bitmap sample.
Proof. repeat split; simpl; try done. repeat constructor; unfold is_u32; lia. Qed.

Lemma bitmap_ops_safe_witness :
  if decide (0 <= 34 < numBits sample) then
    Test sample 34 = Ret (bit sample 34) /\
    (exists b', Mark sample 34 = Ret b' /\ wf_bitmap b' /\
       forall j, 0 <= j -> bit b' j = bool_decide (j = 34) || bit sample j) /\
    (exists b', Clear sample 34 = Ret b' /\ wf_bitmap b' /\
       forall j, 0 <= j -> bit b' j = negb (bool_decide (j = 34)) && bit sample j)
  else Test sample 34 = AssertFail /\ Mark sample 34 = AssertFail /\
       Clear sample 34 = AssertFail.
Proof. apply (bitmap_ops_safe sample 34). exact sample_wf. Defined.

(** Allocation is exact.  [NumClear] counts the free items; [FindAndSet]
    fails (returning -1, bitmap unchanged) exactly when the count is zero, and
    otherwise claims the lowest free item, leaving one free item fewer; clearing
    the claimed item gives the previous allocation back. *)
Theorem find_accounting b : wf_bitmap b ->
  exists c, NumClear b = Ret c /\ 0 <= c /\
    (c = 0 -> FindAndSet b = Ret (-1, b)) /\
    (0 < c -> exists i b', FindAndSet b = Ret (i, b') /\ bit b i = false /\
       (forall j, 0 <= j < i -> bit b j = true) /\ NumClear b' = Ret (c - 1) /\
       exists b'', Clear b' i = Ret b'' /\ forall j, 0 <= j -> bit b'' j = bit b j).
Proof.
  intros Hwf. exists (clear_below (bit b) (numBits b)). rewrite NumClear_spec by done.
  split; [done|]. split; [apply clear_below_nonneg|].
  destruct (FindAndSet_spec b Hwf) as [(i & b' & HF & Hi & Hb & Hlt & Hwf' & Hn & Hb')|[HF Hall]].
  - pose proof (clear_below_zero _ _ _ Hi Hb). split; [lia|]. intros _.
    exists i, b'. do 3 (split; [done|]).
    rewrite NumClear_spec, Hn, (clear_below_set _ _ _ _ Hi Hb Hb') by done. split; [done|].
    destruct (Clear_spec b' i Hwf') as (b'' & HC & _ & _ & Hb''); [lia|].
    exists b''. split; [done|]. intros j Hj. rewrite Hb'', Hb' by done.
    destruct (decide (j = i)) as [->|]; [by rewrite bool_decide_true|by rewrite bool_decide_false].
  - rewrite (clear_below_full _ _ Hall). split; [done|]. lia.
Qed.

Lemma find_accounting_witness :
  exists c, NumClear sample = Ret c /\ 0 <= c /\
    (c = 0 -> FindAndSet sample = Ret (-1, sample)) /\
    (0 < c -> exists i b', FindAndSet sample = Ret (i, b') /\ bit sample i = false /\
       (forall j, 0 <= j < i -> bit sample j = true) /\ NumClear b' = Ret (c - 1) /\
       exists b'', Clear b' i = Ret b'' /\ forall j, 0 <= j -> bit b'' j = bit sample j).
Proof. apply (find_accounting sample). exact sample_wf. Defined.

(** The module's own test succeeds: on a bitmap fresh from the constructor
    with at least one word of bits, whatever the allocated memory held, no
    assertion of [SelfTest] fails and every bit is clear afterwards. *)
Theorem SelfTest_fresh garbage n : BitsInWord <= n ->
  exists b b', new_Bitmap garbage n = Ret b /\ SelfTest b = Ret b' /\
    forall j, 0 <= j < n -> bit b' j = false.
Proof.
  change BitsInWord with 32. intros Hn.
  destruct (new_Bitmap_spec garbage n) as (b & -> & Hwf & Hnb & Hb); [lia|].
  exists b. unfold SelfTest. change BitsInWord with 32.
  rewrite ASSERT_true by (rewrite Z.geb_leb; lia). simpl.
  rewrite NumClear_spec, clear_below_empty by (rewrite ?Hnb; auto with lia). simpl.
  rewrite Z.eqb_refl. simpl.
  destruct (FindAndSet_spec b Hwf) as
    [(i & b1 & -> & Hi & _ & Hlt & Hwf1 & Hn1 & Hb1)|[_ Hall]];
    [|specialize (Hall 0 ltac:(lia)); by rewrite Hb in Hall by lia].
  assert (i = 0) as ->.
  { destruct (decide (i = 0)); [done|]. specialize (Hlt 0 ltac:(lia)). by rewrite Hb in Hlt by lia. }
  simpl. destruct (Mark_spec b1 31) as (b2 & -> & Hwf2 & Hn2 & Hb2); [done|lia|]. simpl.
  rewrite !Test_spec by (done || lia). simpl.
  rewrite !Hb2, !Hb1 by lia. simpl.
  destruct (FindAndSet_spec b2 Hwf2) as
    [(i & b3 & -> & Hi3 & Hbi & Hlt3 & Hwf3 & Hn3 & Hb3)|[_ Hall]];
    [|specialize (Hall 1 ltac:(lia)); rewrite Hb2, Hb1, Hb in Hall by lia; done].
  assert (i = 1) as ->.
  { assert (i <> 0). { intros ->. by rewrite Hb2, Hb1 in Hbi by lia. }
    destruct (decide (i = 1)); [done|]. specialize (Hlt3 1 ltac:(lia)).
    by rewrite Hb2, Hb1, Hb in Hlt3 by lia. }
  simpl. destruct (Clear_spec b3 0) as (b4 & -> & Hwf4 & Hn4 & _); [done|lia|]. simpl.
  destruct (Clear_spec b4 1) as (b5 & -> & Hwf5 & Hn5 & _); [done|lia|]. simpl.
  destruct (Clear_spec b5 31) as (b6 & -> & Hwf6 & Hn6 & _); [done|lia|]. simpl.
  destruct (Mark_all b6) as (b7 & -> & Hwf7 & Hn7 & Hb7); [done|]. simpl.
  destruct (FindAndSet_spec b7 Hwf7) as [(i & b8 & _ & Hi8 & Hf & _)|[-> _]];
    [rewrite Hb7 in Hf by lia; done|]. simpl.
  destruct (Clear_all b7) as (b8 & -> & _ & Hn8 & Hb8); [done|].
  exists b8. split; [done|]. split; [done|]. intros. apply Hb8. lia.
Qed.

Lemma SelfTest_fresh_witness :
  exists b b', new_Bitmap (fun k => Z.of_nat k) 200 = Ret b /\ SelfTest b = Ret b' /\
    forall j, 0 <= j < 200 -> bit b' j = false.
Proof. apply (SelfTest_fresh (fun k => Z.of_nat k) 200). vm_compute. discriminate. Defined.
