(* ===== verification/NList.v ===== *)
(** * Linked lists (lib/list.h, lib/list.cc)

    [List<T>] and [SortedList<T>] are modelled twice.  The operations of module
    [Heap] translate the C++ code: list elements live in a store of cells, the
    list holds a first and a last pointer and a count, and loops follow [next]
    pointers.  The operations of module [Seq] are the same interface on
    mathematical sequences.  The theorems show that every operation of [Heap]
    refines the one of [Seq], for any store that represents the sequence, and
    leaves all other cells of the store alone; the rest of the library uses
    [Seq].  A loop over the elements is given as fuel one more than the recorded
    element count, which the refinement shows to be enough. *)

From S2P Require Import Prelude.

(** ** Sequences: what a list promises to its clients *)

Module Seq.
Section ops.
Context {T : Type} `{EqDecision T}.

Definition IsInList (xs : list T) (item : T) : bool := bool_decide (item ∈ xs).
Definition IsEmpty (xs : list T) : bool := Z.of_nat (length xs) =? 0.
Definition NumInList (xs : list T) : Z := Z.of_nat (length xs).

Definition Append (xs : list T) (item : T) : result (list T) :=
  assert* negb (IsInList xs item) in Ret (xs ++ [item]).

Definition Prepend (xs : list T) (item : T) : result (list T) :=
  assert* negb (IsInList xs item) in Ret (item :: xs).

Definition Front (xs : list T) : result T :=
  match xs with [] => Fault | x :: _ => Ret x end.

Definition RemoveFront (xs : list T) : result (T * list T) :=
  match xs with [] => AssertFail | x :: xs' => Ret (x, xs') end.

(** The sequence without the first occurrence of [item]. *)
Fixpoint remove_first (item : T) (xs : list T) : list T :=
  match xs with
  | [] => []
  | x :: xs' => if decide (item = x) then xs' else x :: remove_first item xs'
  end.

Definition Remove (xs : list T) (item : T) : result (list T) :=
  assert* IsInList xs item in
  assert* negb (IsInList (remove_first item xs) item) in
  Ret (remove_first item xs).

(** [SortedList::Insert]: before the first element that [item] precedes. *)
Fixpoint insert_sorted (compare : T -> T -> Z) (item : T) (xs : list T) : list T :=
  match xs with
  | [] => [item]
  | x :: xs' => if compare item x <? 0 then item :: x :: xs'
                else x :: insert_sorted compare item xs'
  end.

Definition Insert (compare : T -> T -> Z) (xs : list T) (item : T) : result (list T) :=
  assert* negb (IsInList xs item) in Ret (insert_sorted compare item xs).

End ops.
End Seq.

(** ** The C++ objects *)

Abbreviation list_last := last (only parsing).

Module Heap.
Section ops.
Context {T : Type} `{EqDecision T}.

Record ListElement := mkElem { item : T; next : option positive }.

(** The store: the live elements, and the next address [new] gives out. *)
Record Store := mkStore { cells : gmap positive ListElement; brk : positive }.

Record List := mkList {
  first : option positive;
  last : option positive;
  numInList : Z
}.

Definition deref (h : Store) (p : option positive) : result ListElement :=
  match p with
  | None => Fault
  | Some l => match cells h !! l with Some e => Ret e | None => Fault end
  end.

(** [new ListElement<T>(itm)]: [next] starts as [NULL]. *)
Definition new_ListElement (h : Store) (itm : T) : positive * Store :=
  (brk h, mkStore (<[brk h := mkElem itm None]> (cells h)) (Pos.succ (brk h))).

(** [p->next = n] *)
Definition set_next (h : Store) (p n : option positive) : result Store :=
  match p with
  | None => Fault
  | Some l =>
      match cells h !! l with
      | Some e => Ret (mkStore (<[l := mkElem (item e) n]> (cells h)) (brk h))
      | None => Fault
      end
  end.

(** [delete p] *)
Definition delete_elem (h : Store) (p : option positive) : result Store :=
  match p with
  | None => Ret h
  | Some l =>
      match cells h !! l with
      | Some _ => Ret (mkStore (delete l (cells h)) (brk h))
      | None => Fault
      end
  end.

Definition new_List : List := mkList None None 0.

Definition IsEmpty (L : List) : bool := numInList L =? 0.

Definition fuel (L : List) : nat := S (Z.to_nat (numInList L)).

Fixpoint in_loop (n : nat) (h : Store) (ptr : option positive) (itm : T) : result bool :=
  match ptr with
  | None => Ret false
  | Some _ =>
      match n with
      | O => NoFuel
      | S n' =>
          let* e := deref h ptr in
          if decide (itm = item e) then Ret true else in_loop n' h (next e) itm
      end
  end.

Definition IsInList (h : Store) (L : List) (itm : T) : result bool :=
  in_loop (fuel L) h (first L) itm.

Definition Append (h : Store) (L : List) (itm : T) : result (Store * List) :=
  let (element, h) := new_ListElement h itm in
  let* found := IsInList h L itm in
  assert* negb found in
  let* (h, L) :=
    if IsEmpty L then Ret (h, mkList (Some element) (Some element) (numInList L))
    else let* h := set_next h (last L) (Some element) in
         Ret (h, mkList (first L) (Some element) (numInList L)) in
  let L := mkList (first L) (last L) (numInList L + 1) in
  let* found := IsInList h L itm in
  assert* found in Ret (h, L).

Definition Prepend (h : Store) (L : List) (itm : T) : result (Store * List) :=
  let (element, h) := new_ListElement h itm in
  let* found := IsInList h L itm in
  assert* negb found in
  let* (h, L) :=
    if IsEmpty L then Ret (h, mkList (Some element) (Some element) (numInList L))
    else let* h := set_next h (Some element) (first L) in
         Ret (h, mkList (Some element) (last L) (numInList L)) in
  let L := mkList (first L) (last L) (numInList L + 1) in
  let* found := IsInList h L itm in
  assert* found in Ret (h, L).

Definition Front (h : Store) (L : List) : result T :=
  let* e := deref h (first L) in Ret (item e).

Definition RemoveFront (h : Store) (L : List) : result (T * Store * List) :=
  let element := first L in
  assert* negb (IsEmpty L) in
  let* e := deref h (first L) in
  let thing := item e in
  let* L :=
    if decide (first L = last L) then Ret (mkList None None (numInList L))
    else let* e := deref h element in
         Ret (mkList (next e) (last L) (numInList L)) in
  let L := mkList (first L) (last L) (numInList L - 1) in
  let* h := delete_elem h element in
  Ret (thing, h, L).

(** The loop of [Remove]: [Some] when the item was found and unlinked. *)
Fixpoint remove_loop (n : nat) (h : Store) (L : List) (prev ptr : option positive) (itm : T)
    : result (option (Store * List)) :=
  match ptr with
  | None => Ret None
  | Some _ =>
      match n with
      | O => NoFuel
      | S n' =>
          let* e := deref h ptr in
          if decide (itm = item e) then
            let* h := set_next h prev (next e) in
            let* p := deref h prev in
            let L := if decide (next p = None)
                     then mkList (first L) prev (numInList L) else L in
            let* h := delete_elem h ptr in
            Ret (Some (h, mkList (first L) (last L) (numInList L - 1)))
          else remove_loop n' h L ptr (next e) itm
      end
  end.

Definition Remove (h : Store) (L : List) (itm : T) : result (Store * List) :=
  let* found := IsInList h L itm in
  assert* found in
  let* e := deref h (first L) in
  let* (h, L) :=
    if decide (itm = item e) then
      let* (removed, h, L) := RemoveFront h L in
      assert* bool_decide (itm = removed) in Ret (h, L)
    else
      let* r := remove_loop (fuel L) h L (first L) (next e) itm in
      match r with Some hl => Ret hl | None => AssertFail end in
  let* found := IsInList h L itm in
  assert* negb found in Ret (h, L).

(** The loop of [SortedList::Insert]: [Some] when the item was linked in before
    an element, [None] when the loop ran off the end. *)
Fixpoint insert_loop (compare : T -> T -> Z) (n : nat) (h : Store) (L : List)
    (element : positive) (ptr : option positive) (itm : T)
    : result (option (Store * List)) :=
  let* p := deref h ptr in
  match next p with
  | None => Ret None
  | Some _ =>
      match n with
      | O => NoFuel
      | S n' =>
          let* e := deref h (next p) in
          if compare itm (item e) <? 0 then
            let* h := set_next h (Some element) (next p) in
            let* h := set_next h ptr (Some element) in
            Ret (Some (h, mkList (first L) (last L) (numInList L + 1)))
          else insert_loop compare n' h L element (next p) itm
      end
  end.

Definition Insert (compare : T -> T -> Z) (h : Store) (L : List) (itm : T)
    : result (Store * List) :=
  let (element, h) := new_ListElement h itm in
  let* found := IsInList h L itm in
  assert* negb found in
  let finish h L :=
    let L := mkList (first L) (last L) (numInList L + 1) in
    let* found := IsInList h L itm in
    assert* found in Ret (h, L) in
  if IsEmpty L then finish h (mkList (Some element) (Some element) (numInList L))
  else
    let* f := deref h (first L) in
    if compare itm (item f) <? 0 then
      let* h := set_next h (Some element) (first L) in
      finish h (mkList (Some element) (last L) (numInList L))
    else
      let* r := insert_loop compare (fuel L) h L element (first L) itm in
      match r with
      | Some hl => Ret hl
      | None =>
          let* h := set_next h (last L) (Some element) in
          finish h (mkList (first L) (Some element) (numInList L))
      end.

(** [SanityCheck]: the loop counts elements until it reaches [last]. *)
Fixpoint sanity_loop (n : nat) (h : Store) (L : List) (numFound : Z) (ptr : option positive)
    : result Z :=
  if decide (ptr = last L) then Ret numFound
  else match n with
       | O => NoFuel
       | S n' =>
           assert* numFound + 1 <=? numInList L in
           let* e := deref h ptr in
           sanity_loop n' h L (numFound + 1) (next e)
       end.

Definition SanityCheck (h : Store) (L : List) : result unit :=
  if decide (first L = None) then
    ASSERT ((numInList L =? 0) && bool_decide (last L = None))
  else if decide (first L = last L) then
    let* e := deref h (last L) in
    ASSERT ((numInList L =? 1) && bool_decide (next e = None))
  else
    let* numFound := sanity_loop (fuel L) h L 1 (first L) in
    assert* numFound =? numInList L in
    let* e := deref h (last L) in
    ASSERT (bool_decide (next e = None)).

(** [Apply] calls the function on the items in order; with [S] the state the
    function acts on.  [ListIterator] walks the list the same way. *)
Fixpoint apply_loop {S} (n : nat) (h : Store) (ptr : option positive)
    (func : T -> S -> result S) (s : S) : result S :=
  match ptr with
  | None => Ret s
  | Some _ =>
      match n with
      | O => NoFuel
      | Datatypes.S n' =>
          let* e := deref h ptr in
          let* s := func (item e) s in
          apply_loop n' h (next e) func s
      end
  end.

Definition Apply {S} (h : Store) (L : List) (func : T -> S -> result S) (s : S) : result S :=
  apply_loop (fuel L) h (first L) func s.

(** ** Representation: the cells [ls], linked from [p] to [q], hold [xs] *)

Fixpoint lseg (c : gmap positive ListElement) (p : option positive)
    (ls : list positive) (xs : list T) (q : option positive) : Prop :=
  match ls, xs with
  | [], [] => p = q
  | l :: ls', x :: xs' =>
      p = Some l /\ exists n, c !! l = Some (mkElem x n) /\ lseg c n ls' xs' q
  | _, _ => False
  end.

Record repr (h : Store) (L : List) (ls : list positive) (xs : list T) : Prop := mkRepr {
  repr_seg : lseg (cells h) (first L) ls xs None;
  repr_nodup : NoDup ls;
  repr_last : last L = list_last ls;
  repr_num : numInList L = Z.of_nat (length xs);
  repr_brk : forall l, is_Some (cells h !! l) -> (l < brk h)%positive
}.

(** Cells that existed before and are not part of the list keep their contents. *)
Definition frame (h h' : Store) (ls : list positive) : Prop :=
  forall l, l ∉ ls -> (l < brk h)%positive -> cells h' !! l = cells h !! l.

(** The outcome of an operation on the store matches the outcome on the
    sequence: same failure, or the new store represents the new sequence. *)
Definition sim (h : Store) (ls : list positive) (conc : result (Store * List))
    (abs : result (list T)) : Prop :=
  match abs with
  | Ret xs => exists h' L' ls', conc = Ret (h', L') /\ repr h' L' ls' xs /\ frame h h' ls
  | AssertFail => conc = AssertFail
  | Fault => conc = Fault
  | _ => False
  end.

(** ** Lemmas: segments *)

Lemma lseg_length c p ls xs q : lseg c p ls xs q -> length ls = length xs.
Proof.
  revert p xs. induction ls as [|l ls IH]; intros p [|x xs]; simpl; try done.
  intros (_ & n & _ & H). f_equal. eauto.
Qed.

Lemma lseg_app c p ls1 ls2 xs1 xs2 q : length ls1 = length xs1 ->
  lseg c p (ls1 ++ ls2) (xs1 ++ xs2) q <->
  exists m, lseg c p ls1 xs1 m /\ lseg c m ls2 xs2 q.
Proof.
  revert p xs1. induction ls1 as [|l ls1 IH]; intros p [|x xs1]; simpl; try done.
  - intros _. split; [by exists p|]. by intros (m & -> & ?).
  - intros [= Hlen]. split.
    + intros (-> & n & Hc & H). apply IH in H as (m & ? & ?); [|done]. eauto 10.
    + intros (m & (-> & n & Hc & H) & H2). split; [done|]. exists n. split; [done|].
      apply IH; eauto.
Qed.

Lemma lseg_ext c c' p ls xs q :
  (forall l, l ∈ ls -> c' !! l = c !! l) -> lseg c p ls xs q -> lseg c' p ls xs q.
Proof.
  revert p xs. induction ls as [|l ls IH]; intros p [|x xs] Hc; simpl; try done.
  intros (-> & n & Hl & H). split; [done|]. exists n.
  rewrite Hc by set_solver. split; [done|]. apply IH; [|done]. set_solver.
Qed.

Lemma lseg_insert_ne c l e p ls xs q : l ∉ ls ->
  lseg c p ls xs q -> lseg (<[l := e]> c) p ls xs q.
Proof.
  intros Hl. apply lseg_ext. intros k Hk. rewrite lookup_insert_ne; [done|set_solver].
Qed.

Lemma lseg_delete_ne c l p ls xs q : l ∉ ls ->
  lseg c p ls xs q -> lseg (delete l c) p ls xs q.
Proof.
  intros Hl. apply lseg_ext. intros k Hk. rewrite lookup_delete_ne; [done|set_solver].
Qed.

(** The last cell of a segment: its contents, and the effect of relinking it. *)
Lemma lseg_snoc c p ls l xs x q : length ls = length xs ->
  lseg c p (ls ++ [l]) (xs ++ [x]) q <->
  lseg c p ls xs (Some l) /\ c !! l = Some (mkElem x q).
Proof.
  intros Hlen. rewrite lseg_app by done. simpl. split.
  - intros (m & H & -> & n & Hc & ->). done.
  - intros [H Hc]. exists (Some l). eauto.
Qed.

Lemma lseg_relink c p ls l xs x q q' : length ls = length xs -> NoDup (ls ++ [l]) ->
  lseg c p (ls ++ [l]) (xs ++ [x]) q ->
  lseg (<[l := mkElem x q']> c) p (ls ++ [l]) (xs ++ [x]) q'.
Proof.
  intros Hlen Hnd. rewrite !lseg_snoc by done. intros [H _].
  rewrite lookup_insert_eq. split; [|done].
  apply lseg_insert_ne; [|done]. apply NoDup_app in Hnd. set_solver.
Qed.

Lemma lseg_some c p ls xs q l : lseg c p ls xs q -> l ∈ ls -> is_Some (c !! l).
Proof.
  revert p xs. induction ls as [|k ls IH]; intros p [|x xs]; simpl; try done.
  - intros _ Hl. by apply not_elem_of_nil in Hl.
  - intros (-> & n & Hc & H) Hl. apply elem_of_cons in Hl as [->|Hl]; eauto.
Qed.

(** A non-empty segment ends in a cell; a list of locations and its items split
    together. *)
Lemma snoc_split {A} (xs : list A) : xs <> [] -> exists ys y, xs = ys ++ [y].
Proof.
  intros. destruct (list_last xs) as [y|] eqn:E.
  - apply last_Some in E as [ys ->]. eauto.
  - by apply last_None in E.
Qed.

Lemma repr_snoc h L ls xs : repr h L ls xs -> xs <> [] ->
  exists ls' l xs' x, ls = ls' ++ [l] /\ xs = xs' ++ [x] /\ length ls' = length xs' /\
    last L = Some l /\ lseg (cells h) (first L) ls' xs' (Some l) /\
    cells h !! l = Some (mkElem x None).
Proof.
  intros [Hs Hnd Hl Hn Hb] Hne. pose proof (lseg_length _ _ _ _ _ Hs) as Hlen.
  destruct (snoc_split xs Hne) as (xs' & x & ->).
  destruct (snoc_split ls) as (ls' & l & ->).
  { intros ->. rewrite length_app in Hlen. simpl in Hlen. lia. }
  rewrite !length_app in Hlen. simpl in Hlen. apply lseg_snoc in Hs as [? ?]; [|lia].
  exists ls', l, xs', x. rewrite last_snoc in Hl. repeat split; auto; lia.
Qed.

Lemma repr_cons h L ls x xs : repr h L ls (x :: xs) ->
  exists l ls' n, ls = l :: ls' /\ first L = Some l /\
    cells h !! l = Some (mkElem x n) /\ lseg (cells h) n ls' xs None /\ l ∉ ls'.
Proof.
  intros [Hs Hnd _ _ _]. destruct ls as [|l ls]; [done|].
  destruct Hs as (Hf & n & Hc & Hs). apply NoDup_cons in Hnd as [? ?]. eauto 10.
Qed.

Lemma IsEmpty_spec h L ls xs : repr h L ls xs -> IsEmpty L = Seq.IsEmpty xs.
Proof. intros []. unfold IsEmpty, Seq.IsEmpty. congruence. Qed.

Lemma repr_alloc h L ls xs itm : repr h L ls xs ->
  repr (snd (new_ListElement h itm)) L ls xs /\ brk h ∉ ls.
Proof.
  intros [Hs Hnd Hl Hn Hb].
  assert (brk h ∉ ls) as Hfresh.
  { intros Hin. eapply lseg_some, Hb in Hs; [|done]. lia. }
  split; [|done]. constructor; simpl; auto.
  - by apply lseg_insert_ne.
  - intros l. rewrite lookup_insert. case_decide; [lia|]. intros ?%Hb. lia.
Qed.

(** ** Lemmas: operations *)

Lemma in_loop_spec n h p ls xs itm :
  lseg (cells h) p ls xs None -> (length xs <= n)%nat ->
  in_loop n h p itm = Ret (bool_decide (itm ∈ xs)).
Proof.
  revert p ls xs. induction n as [|n IH]; intros p [|l ls] [|x xs]; simpl; try done;
    try (intros; lia).
  - by intros ->.
  - by intros ->.
  - intros (-> & m & Hc & H) Hlen. simpl. rewrite Hc. simpl.
    destruct (decide (itm = x)) as [->|Hne].
    + rewrite bool_decide_true; set_solver.
    + rewrite (IH _ _ _ H) by lia. f_equal. apply bool_decide_ext. set_solver.
Qed.

Lemma IsInList_spec h L ls xs itm :
  repr h L ls xs -> IsInList h L itm = Ret (bool_decide (itm ∈ xs)).
Proof.
  intros [Hs _ _ Hn _]. eapply in_loop_spec; [done|]. unfold fuel. lia.
Qed.

(** The closing part shared by the insertions: count, then check. *)
Lemma finish_spec h0 ls0 h L ls xs itm :
  repr h (mkList (first L) (last L) (numInList L + 1)) ls xs -> itm ∈ xs ->
  frame h0 h ls0 ->
  sim h0 ls0 (let L := mkList (first L) (last L) (numInList L + 1) in
              let* found := IsInList h L itm in assert* found in Ret (h, L)) (Ret xs).
Proof.
  intros Hr Hin Hf. simpl. rewrite (IsInList_spec _ _ _ _ _ Hr), bool_decide_true by done.
  simpl. eauto 10.
Qed.

Lemma frame_alloc h itm h' ls :
  frame (snd (new_ListElement h itm)) h' (brk h :: ls) -> frame h h' ls.
Proof.
  intros Hf l Hl Hlt. rewrite Hf; simpl; [|set_solver by lia|lia].
  rewrite lookup_insert_ne; [done|lia].
Qed.

Lemma isempty_true (xs : list T) : Seq.IsEmpty xs = true <-> xs = [].
Proof. unfold Seq.IsEmpty. rewrite Z.eqb_eq. destruct xs; simpl; split; (done || lia). Qed.

Lemma set_next_some h l e n : cells h !! l = Some e ->
  set_next h (Some l) n = Ret (mkStore (<[l := mkElem (item e) n]> (cells h)) (brk h)).
Proof. intros H. simpl. by rewrite H. Qed.

(** Linking a fresh cell [k] after the last cell of a represented list. *)
Lemma repr_link_last h L ls xs k itm :
  repr h L ls xs -> k ∉ ls -> cells h !! k = Some (mkElem itm None) -> xs <> [] ->
  exists h', set_next h (last L) (Some k) = Ret h' /\
    repr h' (mkList (first L) (Some k) (numInList L + 1)) (ls ++ [k]) (xs ++ [itm]) /\
    frame h h' ls.
Proof.
  intros Hr Hk Hck Hne. pose proof Hr as [Hs Hnd _ Hn Hb].
  destruct (repr_snoc _ _ _ _ Hr Hne) as (ls' & l & xs' & x & -> & -> & Hlen & Hl & Hs' & Hc).
  rewrite Hl, (set_next_some _ _ _ _ Hc). eexists. split; [done|]. split.
  - constructor; simpl.
    + apply lseg_snoc; [rewrite !length_app; simpl; lia|]. split.
      * by eapply lseg_relink.
      * rewrite lookup_insert_ne by set_solver. done.
    + apply NoDup_app. split; [done|]. split; [set_solver|]. apply NoDup_singleton.
    + by rewrite last_snoc.
    + rewrite Hn, !length_app. simpl. lia.
    + intros j. rewrite lookup_insert. case_decide; [|by apply Hb].
      intros _. subst. apply Hb. by rewrite Hc.
  - intros j Hj Hlt. simpl. rewrite lookup_insert_ne; [done|set_solver].
Qed.

(** Linking a fresh cell [k] before the first cell. *)
Lemma repr_link_first h L ls xs k itm :
  repr h L ls xs -> k ∉ ls -> cells h !! k = Some (mkElem itm None) -> xs <> [] ->
  exists h', set_next h (Some k) (first L) = Ret h' /\
    repr h' (mkList (Some k) (last L) (numInList L + 1)) (k :: ls) (itm :: xs) /\
    frame h h' (k :: ls).
Proof.
  intros Hr Hk Hck Hne. pose proof Hr as [Hs Hnd Hla Hn Hb].
  rewrite (set_next_some _ _ _ _ Hck). eexists. split; [done|]. split.
  - constructor; simpl.
    + split; [done|]. exists (first L). rewrite lookup_insert_eq. split; [done|].
      by apply lseg_insert_ne.
    + by constructor.
    + rewrite Hla. destruct ls; [|done]. apply lseg_length in Hs. by destruct xs.
    + rewrite Hn. lia.
    + intros j. rewrite lookup_insert. case_decide; [|by apply Hb].
      intros _. subst. apply Hb. by rewrite Hck.
  - intros j Hj Hlt. simpl. rewrite lookup_insert_ne; [done|set_solver].
Qed.

(** A list with the fresh cell [k] as its only element. *)
Lemma repr_single h L ls k itm :
  repr h L ls [] -> cells h !! k = Some (mkElem itm None) ->
  repr h (mkList (Some k) (Some k) (numInList L + 1)) [k] [itm].
Proof.
  intros [Hs Hnd _ Hn Hb] Hck. constructor; simpl; auto.
  - split; [done|]. eauto.
  - apply NoDup_singleton.
  - rewrite Hn. simpl. done.
Qed.

Lemma frame_refl h ls : frame h h ls.
Proof. by intros l. Qed.

Lemma frame_mono h h' ls ls' : (forall l, l ∈ ls -> l ∈ ls') -> frame h h' ls -> frame h h' ls'.
Proof. intros Hsub Hf l Hl ?. apply Hf; [|done]. auto. Qed.

(** The opening part shared by the insertions: allocate the element, then check
    that the item is new.  What remains runs in a store that still represents
    the list and holds the item in the fresh cell [brk h]. *)
Lemma with_fresh h L ls xs itm (k : positive -> Store -> result (Store * List)) ys :
  repr h L ls xs ->
  (forall h1, itm ∉ xs -> repr h1 L ls xs -> brk h ∉ ls ->
     cells h1 !! brk h = Some (mkElem itm None) ->
     (forall h' ls', frame h1 h' ls' -> (forall l, l ∈ ls' -> l ∈ brk h :: ls) -> frame h h' ls) ->
     sim h ls (k (brk h) h1) (Ret ys)) ->
  sim h ls (let (element, h) := new_ListElement h itm in
            let* found := IsInList h L itm in
            assert* negb found in k element h)
           (assert* negb (Seq.IsInList xs itm) in Ret ys).
Proof.
  intros Hr Hk. destruct (repr_alloc h L ls xs itm Hr) as [Hr1 Hfresh].
  change (new_ListElement h itm) with (brk h, snd (new_ListElement h itm)). cbn iota beta.
  rewrite (IsInList_spec _ _ _ _ _ Hr1). unfold Seq.IsInList.
  destruct (bool_decide (itm ∈ xs)) eqn:E; [done|]. apply bool_decide_eq_false in E.
  apply Hk; auto.
  - simpl. by rewrite lookup_insert_eq.
  - intros h' ls' Hf Hsub. eapply (frame_alloc h itm). by eapply frame_mono.
Qed.

(** An insertion into an empty list, as both kinds of list do it. *)
Lemma insert_empty_sim h h1 L ls itm :
  repr h1 L ls [] -> cells h1 !! brk h = Some (mkElem itm None) -> frame h h1 ls ->
  sim h ls (let L := mkList (Some (brk h)) (Some (brk h)) (numInList L + 1) in
            let* found := IsInList h1 L itm in assert* found in Ret (h1, L)) (Ret [itm]).
Proof.
  intros Hr Hck Hf.
  apply (finish_spec h ls h1 (mkList (Some (brk h)) (Some (brk h)) (numInList L)) [brk h]);
    [exact (repr_single _ _ _ _ _ Hr Hck)|set_solver|done].
Qed.

Lemma nonempty_ne (xs : list T) : Seq.IsEmpty xs = false -> xs <> [].
Proof. intros E Hx. apply isempty_true in Hx. congruence. Qed.

Lemma Append_sim h L ls xs itm :
  repr h L ls xs -> sim h ls (Append h L itm) (Seq.Append xs itm).
Proof.
  intros Hr. apply with_fresh; [done|]. intros h1 _ Hr1 Hk Hck Hfr.
  rewrite (IsEmpty_spec _ _ _ _ Hr1). destruct (Seq.IsEmpty xs) eqn:Ex.
  - apply isempty_true in Ex as ->. apply (insert_empty_sim h h1 L); [done|done|].
    eapply (Hfr h1 []); [apply frame_refl|set_solver].
  - destruct (repr_link_last _ _ _ _ _ _ Hr1 Hk Hck (nonempty_ne _ Ex)) as (h' & -> & Hr' & Hf).
    apply (finish_spec h ls h' (mkList (first L) (Some (brk h)) (numInList L)) (ls ++ [brk h]));
      [done|set_solver|]. eapply Hfr; [done|set_solver].
Qed.

Lemma Prepend_sim h L ls xs itm :
  repr h L ls xs -> sim h ls (Prepend h L itm) (Seq.Prepend xs itm).
Proof.
  intros Hr. apply with_fresh; [done|]. intros h1 _ Hr1 Hk Hck Hfr.
  rewrite (IsEmpty_spec _ _ _ _ Hr1). destruct (Seq.IsEmpty xs) eqn:Ex.
  - apply isempty_true in Ex as ->. apply (insert_empty_sim h h1 L); [done|done|].
    eapply (Hfr h1 []); [apply frame_refl|set_solver].
  - destruct (repr_link_first _ _ _ _ _ _ Hr1 Hk Hck (nonempty_ne _ Ex)) as (h' & -> & Hr' & Hf).
    apply (finish_spec h ls h' (mkList (Some (brk h)) (last L) (numInList L)) (brk h :: ls));
      [done|set_solver|]. eapply Hfr; [done|set_solver].
Qed.

Lemma RemoveFront_sim h L ls xs : repr h L ls xs ->
  match xs with
  | [] => RemoveFront h L = AssertFail
  | x :: xs' => exists h' L' ls', RemoveFront h L = Ret (x, h', L') /\
                  repr h' L' ls' xs' /\ frame h h' ls
  end.
Proof.
  intros Hr. unfold RemoveFront. rewrite (IsEmpty_spec _ _ _ _ Hr).
  destruct xs as [|x xs]; [done|]. simpl.
  destruct (repr_cons _ _ _ _ _ Hr) as (l & ls' & n & -> & Hf & Hc & Hs & Hl).
  destruct Hr as [_ Hnd Hla Hn Hb]. rewrite Hf. simpl. rewrite Hc. simpl.
  assert (frame h (mkStore (delete l (cells h)) (brk h)) (l :: ls')) as Hframe.
  { intros j Hj _. simpl. rewrite lookup_delete_ne; [done|set_solver]. }
  assert (forall j, is_Some (delete l (cells h) !! j) -> (j < brk h)%positive) as Hb'.
  { intros j Hj. apply Hb. destruct Hj as [e He]. apply lookup_delete_Some in He as [_ ?]. eauto. }
  apply NoDup_cons in Hnd as [_ Hnd].
  pose proof (lseg_length _ _ _ _ _ Hs) as Hlen.
  destruct (decide (Some l = last L)) as [E|E]; simpl;
    (do 3 eexists; split; [done|]; split; [|done]).
  - assert (ls' = [] /\ xs = []) as [-> ->].
    { rewrite Hla in E. destruct ls' as [|l' ls']; [by destruct xs|].
      rewrite last_cons_cons in E. symmetry in E. apply last_Some_elem_of in E. by apply elem_of_cons in Hl || set_solver. }
    apply (mkRepr _ _ []); simpl; auto. rewrite Hn. done.
  - assert (ls' <> []) as Hne by (intros ->; done).
    eapply (mkRepr _ _ ls'); simpl; auto.
    + by apply lseg_delete_ne.
    + rewrite Hla. destruct ls'; [done|]. by rewrite last_cons_cons.
    + rewrite Hn. simpl. lia.
Qed.

(** Unlinking the cell after [prev]: the list is split at [prev], and [ptr]
    walks the rest. *)
Lemma remove_loop_spec n h L itm : forall ls1 lp xs1 xp p ls2 xs2,
  length ls1 = length xs1 -> (length xs2 <= n)%nat ->
  lseg (cells h) (first L) (ls1 ++ [lp]) (xs1 ++ [xp]) p ->
  lseg (cells h) p ls2 xs2 None ->
  repr h L ((ls1 ++ [lp]) ++ ls2) ((xs1 ++ [xp]) ++ xs2) ->
  itm ∈ xs2 ->
  exists h' L' ls', remove_loop n h L (Some lp) p itm = Ret (Some (h', L')) /\
    repr h' L' ls' ((xs1 ++ [xp]) ++ Seq.remove_first itm xs2) /\
    frame h h' ((ls1 ++ [lp]) ++ ls2).
Proof.
  induction n as [|n IH]; intros ls1 lp xs1 xp p ls2 xs2 Hlen Hn Hs1 Hs2 Hr Hin;
    (destruct xs2 as [|x xs2]; [by apply not_elem_of_nil in Hin|]); simpl in Hn; [lia|].
  destruct ls2 as [|l ls2]; [done|]. destruct Hs2 as (-> & m & Hc & Hs2).
  simpl. rewrite Hc. simpl. destruct (decide (itm = x)) as [->|Hne].
  - pose proof (proj1 (lseg_snoc _ _ _ _ _ _ _ Hlen) Hs1) as [_ Hcp].
    rewrite Hcp. simpl. rewrite lookup_insert_eq. simpl.
    pose proof Hr as [_ Hnd Hla Hnum Hb].
    apply NoDup_app in Hnd as (Hnd1 & Hdisj & Hnd2). apply NoDup_cons in Hnd2 as [Hl2 Hnd2].
    assert (l ∉ ls1 ++ [lp]) as Hl1 by (intros Hx; apply (Hdisj _ Hx); set_solver).
    assert (lp ∉ ls2) as Hlp by (intros Hx; eapply (Hdisj lp); set_solver).
    rewrite lookup_insert_ne, Hc by set_solver. simpl.
    do 2 eexists. exists ((ls1 ++ [lp]) ++ ls2). split; [done|]. split.
    + constructor; simpl.
      * case_decide; simpl.
        -- apply lseg_app; [rewrite !length_app; simpl; lia|]. exists m. split.
           ++ apply lseg_delete_ne; [done|]. by eapply lseg_relink.
           ++ apply lseg_delete_ne; [done|]. apply lseg_insert_ne; [set_solver|done].
        -- apply lseg_app; [rewrite !length_app; simpl; lia|]. exists m. split.
           ++ apply lseg_delete_ne; [done|]. by eapply lseg_relink.
           ++ apply lseg_delete_ne; [done|]. apply lseg_insert_ne; [set_solver|done].
      * apply NoDup_app. split; [done|]. split; [|done]. set_solver.
      * rewrite last_app. destruct ls2 as [|l2 ls2'].
        -- destruct xs2; [|done]. simpl in Hs2. subst m. rewrite decide_True by done.
           simpl. by rewrite last_snoc.
        -- destruct xs2; [done|]. destruct Hs2 as (-> & _). rewrite decide_False by done.
           rewrite Hla, last_app, last_cons_cons. done.
      * case_decide; simpl; rewrite Hnum, !length_app; simpl; lia.
      * intros j [e He]. apply lookup_delete_Some in He as [_ He].
        rewrite lookup_insert in He. case_decide; [subst|]; apply Hb; eauto.
    + intros j Hj _. simpl. rewrite lookup_delete_ne, lookup_insert_ne by set_solver. done.
  - assert (itm ∈ xs2) as Hin2 by set_solver.
    replace ((xs1 ++ [xp]) ++ x :: Seq.remove_first itm xs2)
      with (((xs1 ++ [xp]) ++ [x]) ++ Seq.remove_first itm xs2) by by rewrite <- !(assoc_L (++)).
    replace ((ls1 ++ [lp]) ++ l :: ls2) with (((ls1 ++ [lp]) ++ [l]) ++ ls2)
      by by rewrite <- !(assoc_L (++)).
    apply IH; auto; try lia.
    + rewrite !length_app. simpl. lia.
    + apply lseg_snoc; [rewrite !length_app; simpl; lia|]. done.
    + by rewrite <- !(assoc_L (++)) in *.
Qed.

Lemma remove_first_cons_ne (itm x : T) xs : itm <> x ->
  Seq.remove_first itm (x :: xs) = x :: Seq.remove_first itm xs.
Proof. intros. simpl. by rewrite decide_False. Qed.

Lemma Remove_sim h L ls xs itm :
  repr h L ls xs -> sim h ls (Remove h L itm) (Seq.Remove xs itm).
Proof.
  intros Hr. unfold Remove, Seq.Remove, Seq.IsInList.
  rewrite (IsInList_spec _ _ _ _ _ Hr), rbind_Ret.
  destruct (bool_decide (itm ∈ xs)) eqn:Ein; [|done]. apply bool_decide_eq_true in Ein.
  rewrite ASSERT_true, !rbind_Ret by done. destruct xs as [|x xs]; [by apply not_elem_of_nil in Ein|].
  destruct (repr_cons _ _ _ _ _ Hr) as (l & ls' & n & -> & Hf & Hc & Hs & Hl).
  assert (deref h (first L) = Ret (mkElem x n)) as -> by (rewrite Hf; simpl; by rewrite Hc).
  rewrite rbind_Ret, Hf. cbn [item next].
  assert (exists h' L' ls2,
    (if decide (itm = x)
     then let* (removed, h, L) := RemoveFront h L in
          assert* bool_decide (itm = removed) in Ret (h, L)
     else let* r := remove_loop (fuel L) h L (Some l) n itm in
          match r with Some hl => Ret hl | None => AssertFail end) = Ret (h', L') /\
    repr h' L' ls2 (Seq.remove_first itm (x :: xs)) /\ frame h h' (l :: ls'))
    as (h' & L' & ls2 & -> & Hr' & Hfr).
  { destruct (decide (itm = x)) as [->|Hne].
    - destruct (RemoveFront_sim _ _ _ _ Hr) as (h' & L' & ls2 & -> & Hr' & Hfr). simpl.
      rewrite bool_decide_true by done. simpl. rewrite decide_True by done. eauto 10.
    - rewrite remove_first_cons_ne by done.
      destruct (remove_loop_spec (fuel L) h L itm [] l [] x n ls' xs) as (h' & L' & ls2 & -> & ? & ?);
        simpl; auto; [| |set_solver|eauto 10].
      + unfold fuel. destruct Hr as [_ _ _ Hn _]. rewrite Hn. simpl. lia.
      + eauto. }
  rewrite rbind_Ret, (IsInList_spec _ _ _ _ _ Hr'), rbind_Ret.
  destruct (bool_decide (itm ∈ Seq.remove_first itm (x :: xs))); [done|].
  exists h', L', ls2. done.
Qed.

(** The walk of [SortedList::Insert]: [lp] is the cell [ptr] stands on. *)
Lemma insert_loop_spec compare k n h L itm : forall ls1 lp xs1 xp ls2 xs2,
  length ls1 = length xs1 -> (length xs2 <= n)%nat ->
  repr h L ((ls1 ++ [lp]) ++ ls2) ((xs1 ++ [xp]) ++ xs2) ->
  k ∉ (ls1 ++ [lp]) ++ ls2 -> cells h !! k = Some (mkElem itm None) ->
  (exists h' L' ls', insert_loop compare n h L k (Some lp) itm = Ret (Some (h', L')) /\
     repr h' L' ls' ((xs1 ++ [xp]) ++ Seq.insert_sorted compare itm xs2) /\
     frame h h' (k :: (ls1 ++ [lp]) ++ ls2)) \/
  (insert_loop compare n h L k (Some lp) itm = Ret None /\
     Seq.insert_sorted compare itm xs2 = xs2 ++ [itm]).
Proof.
  induction n as [|n IH]; intros ls1 lp xs1 xp ls2 xs2 Hlen Hn Hr Hk Hck;
    pose proof Hr as [Hs Hnd Hla Hnum Hb];
    (apply lseg_app in Hs as (p & Hs1 & Hs2); [|rewrite !length_app; simpl; lia]);
    pose proof (proj1 (lseg_snoc _ _ _ _ _ _ _ Hlen) Hs1) as [Hs1' Hcp];
    destruct xs2 as [|x xs2], ls2 as [|l ls2]; try done; simpl in Hn; try lia;
    simpl; rewrite Hcp; simpl.
  1, 2: simpl in Hs2; subst p; by right.
  destruct Hs2 as (-> & m & Hc & Hs2). simpl. rewrite Hc. simpl.
  destruct (compare itm x <? 0) eqn:Ecmp.
  - left. rewrite Hck. simpl. rewrite lookup_insert_ne, Hcp by set_solver. simpl.
    do 2 eexists. exists ((ls1 ++ [lp]) ++ k :: l :: ls2). split; [done|].
    apply NoDup_app in Hnd as (Hnd1 & Hdisj & Hnd2).
    assert (lp ∉ l :: ls2) as Hlp by (intros Hx; eapply (Hdisj lp); set_solver).
    split; [|intros j Hj _; simpl; rewrite !lookup_insert_ne by set_solver; done].
    constructor; simpl.
    + apply lseg_app; [rewrite !length_app; simpl; lia|]. exists (Some k). split.
      * eapply lseg_relink; [done|done|]. apply lseg_insert_ne; [set_solver|done].
      * split; [done|]. exists (Some l). rewrite lookup_insert_ne, lookup_insert_eq by set_solver.
        split; [done|]. apply lseg_insert_ne; [done|]. apply lseg_insert_ne; [set_solver|].
        simpl. eauto.
    + apply NoDup_app. split; [done|]. split; [set_solver|]. constructor; [set_solver|done].
    + rewrite Hla, !last_app, !last_cons_cons. done.
    + rewrite Hnum, !length_app. simpl. lia.
    + intros j. rewrite !lookup_insert.
      repeat case_decide; subst; intros; apply Hb; by rewrite ?Hck, ?Hcp.
  - specialize (IH (ls1 ++ [lp]) l (xs1 ++ [xp]) x ls2 xs2).
    rewrite <- !(assoc_L (++)) in *. simpl in *.
    destruct IH as [(h' & L' & ls' & HR & Hr' & Hf)|[HR Hi]]; auto.
    + rewrite !length_app. simpl. lia.
    + lia.
    + left. exists h', L', ls'. done.
    + right. by rewrite Hi.
Qed.

Lemma Insert_sim compare h L ls xs itm :
  repr h L ls xs -> sim h ls (Insert compare h L itm) (Seq.Insert compare xs itm).
Proof.
  intros Hr. apply with_fresh; [done|]. intros h1 _ Hr1 Hk Hck Hfr.
  rewrite (IsEmpty_spec _ _ _ _ Hr1). destruct (Seq.IsEmpty xs) eqn:Ex.
  { apply isempty_true in Ex as ->. apply (insert_empty_sim h h1 L); [done|done|].
    eapply (Hfr h1 []); [apply frame_refl|set_solver]. }
  destruct xs as [|x xs]; [done|].
  destruct (repr_cons _ _ _ _ _ Hr1) as (l & ls' & n & -> & Hf & Hc & Hs & Hl).
  assert (deref h1 (first L) = Ret (mkElem x n)) as -> by (rewrite Hf; simpl; by rewrite Hc).
  rewrite rbind_Ret. cbn [item next Seq.insert_sorted].
  destruct (compare itm x <? 0) eqn:Ecmp.
  - destruct (repr_link_first _ _ _ _ _ _ Hr1 Hk Hck ltac:(done)) as (h' & -> & Hr' & Hfr').
    apply (finish_spec h _ h' (mkList (Some (brk h)) (last L) (numInList L)) (brk h :: l :: ls'));
      [done|set_solver|]. eapply Hfr; [done|set_solver].
  - rewrite Hf.
    destruct (insert_loop_spec compare (brk h) (fuel L) h1 L itm [] l [] x ls' xs)
      as [(h' & L' & ls2 & -> & Hr' & Hfr')|[-> Hi]]; simpl; auto.
    { unfold fuel. destruct Hr1 as [_ _ _ Hn _]. rewrite Hn. simpl. lia. }
    + exists h', L', ls2. split; [done|]. split; [done|]. eapply Hfr; [done|set_solver].
    + destruct (repr_link_last _ _ _ _ _ _ Hr1 Hk Hck ltac:(done)) as (h' & -> & Hr' & Hfr').
      rewrite Hi, <- Hf.
      apply (finish_spec h _ h' (mkList (first L) (Some (brk h)) (numInList L))
               ((l :: ls') ++ [brk h])); [done|set_solver|]. eapply Hfr; [done|set_solver].
Qed.

(** Walking a represented list visits its items in order. *)
Lemma apply_loop_spec {S} n h p ls xs (func : T -> S -> result S) s :
  lseg (cells h) p ls xs None -> (length xs <= n)%nat ->
  apply_loop n h p func s =
  foldl (fun r x => rbind r (func x)) (Ret s) xs.
Proof.
  revert p ls xs s. induction n as [|n IH]; intros p [|l ls] [|x xs] s; simpl; try done;
    try (intros; lia); try by intros ->.
  intros (-> & m & Hc & H) Hlen. simpl. rewrite Hc. simpl.
  destruct (func x s) as [s'| | | |]; simpl.
  - apply (IH _ ls); [done|lia].
  - clear. induction xs; simpl; auto.
  - clear. induction xs; simpl; auto.
  - clear. induction xs; simpl; auto.
  - clear. induction xs; simpl; auto.
Qed.

Lemma sanity_loop_spec n h L l : forall k p ls xs,
  lseg (cells h) p (ls ++ [l]) xs None -> last L = Some l -> l ∉ ls ->
  (length ls <= n)%nat -> k + Z.of_nat (length ls) <= numInList L ->
  sanity_loop n h L k p = Ret (k + Z.of_nat (length ls)).
Proof.
  induction n as [|n IH]; intros k p [|l' ls] [|x xs] Hs Hla Hnl Hn Hle; try done;
    simpl in Hs, Hn, Hle |- *; try lia; destruct Hs as (-> & m & Hc & Hs).
  - rewrite decide_True by done. f_equal. lia.
  - rewrite decide_True by done. f_equal. lia.
  - rewrite decide_False by (rewrite Hla; intros [= ->]; set_solver).
    rewrite ASSERT_true by lia. simpl. rewrite Hc. simpl.
    rewrite (IH _ m ls xs) by (set_solver || lia || done). f_equal. lia.
Qed.

Lemma SanityCheck_spec h L ls xs : repr h L ls xs -> SanityCheck h L = Ret tt.
Proof.
  intros Hr. unfold SanityCheck. destruct xs as [|x xs].
  - destruct Hr as [Hs _ Hla Hn _]. destruct ls; [|done]. simpl in *.
    by rewrite Hs, Hla, Hn.
  - destruct (repr_snoc _ _ _ _ Hr) as (ls' & l & xs' & y & -> & Exs & Hlen & Hla & Hs' & Hc);
      [done|].
    destruct Hr as [Hs Hnd _ Hn _]. pose proof (lseg_length _ _ _ _ _ Hs) as Hl.
    rewrite length_app in Hl. simpl in Hl.
    assert (deref h (last L) = Ret (mkElem y None)) as Hd by (rewrite Hla; simpl; by rewrite Hc).
    destruct ls' as [|l' ls']; destruct Hs as (Hf & n & Hc' & Hs); rewrite Hf;
      rewrite (decide_False (P := Some _ = None)) by done.
    + rewrite decide_True, Hd by done. simpl. rewrite Hn.
      destruct xs; [done|]. simpl in Hl. lia.
    + change ((l' :: ls') ++ [l]) with (l' :: (ls' ++ [l])) in Hnd.
      apply NoDup_cons in Hnd as [Hx Hnd].
      rewrite decide_False by (rewrite Hla; intros [= ->]; set_solver).
      rewrite (sanity_loop_spec _ h L l 1 (Some l') (l' :: ls') (x :: xs)), Hd; auto.
      * rewrite Hn, rbind_Ret, ASSERT_true; [done|]. apply Z.eqb_eq. simpl length in *. lia.
      * simpl. eauto.
      * intros ?. apply NoDup_app in Hnd. set_solver.
      * unfold fuel. simpl length in *. lia.
      * rewrite Hn. simpl length in *. lia.
Qed.

End ops.
Arguments ListElement : clear implicits.
Arguments Store : clear implicits.
End Heap.

(** ** Sorted insertion on sequences *)

(** What [SortedList] needs of its comparison function: its sign is that of a
    total preorder (lib/list.h, the comment of [SortedList]). *)
Class Comparator {T} (compare : T -> T -> Z) : Prop := {
  compare_flip : forall x y, compare x y < 0 <-> 0 < compare y x;
  compare_trans : forall x y z, compare x y <= 0 -> compare y z <= 0 -> compare x z <= 0
}.

Definition before {T} (compare : T -> T -> Z) (x y : T) : Prop := compare x y <= 0.

(** [IntCompare] of lib/libtest.cc, the comparison the list self test uses. *)
Definition IntCompare (x y : Z) : Z :=
  if x <? y then -1 else if x =? y then 0 else 1.

#[export] Instance IntCompare_comparator : Comparator IntCompare.
Proof.
  unfold IntCompare. constructor.
  - intros x y. destruct (Z.ltb_spec x y), (Z.eqb_spec x y), (Z.ltb_spec y x), (Z.eqb_spec y x); lia.
  - intros x y z.
    destruct (Z.ltb_spec x y), (Z.eqb_spec x y), (Z.ltb_spec y z), (Z.eqb_spec y z),
      (Z.ltb_spec x z), (Z.eqb_spec x z); lia.
Qed.

Section sorted.
Context {T : Type} `{EqDecision T} (compare : T -> T -> Z) `{!Comparator compare}.

Lemma not_before x y : ~ compare x y < 0 -> before compare y x.
Proof. intros H. unfold before. destruct (Z.lt_trichotomy 0 (compare y x)) as [E|]; [|lia].
  by apply compare_flip in E. Qed.

(** In a sorted sequence the insertion point splits it by comparison with the
    item, so that the item comes after all its equals. *)
Lemma insert_sorted_split item xs : StronglySorted (before compare) xs ->
  exists xs1 xs2, xs = xs1 ++ xs2 /\
    Seq.insert_sorted compare item xs = xs1 ++ item :: xs2 /\
    Forall (fun y => before compare y item) xs1 /\
    Forall (fun y => compare item y < 0) xs2.
Proof.
  induction 1 as [|x xs Hs IH Hall]; simpl.
  { exists [], []. repeat split; constructor. }
  destruct (Z.ltb_spec (compare item x) 0) as [Hlt|Hge].
  - exists [], (x :: xs). repeat split; [constructor|]. constructor; [done|].
    eapply Forall_impl; [done|]. intros y Hy. apply compare_flip.
    apply compare_flip in Hlt. destruct (Z.lt_trichotomy 0 (compare y item)) as [|Hle]; [done|].
    assert (before compare x item) by (eapply compare_trans; [done|lia]).
    unfold before in *. lia.
  - destruct IH as (xs1 & xs2 & -> & -> & H1 & H2). exists (x :: xs1), xs2.
    repeat split; auto. constructor; [|done]. apply not_before. lia.
Qed.

Lemma insert_sorted_sorted item xs : StronglySorted (before compare) xs ->
  StronglySorted (before compare) (Seq.insert_sorted compare item xs).
Proof.
  intros Hs. destruct (insert_sorted_split item xs Hs) as (xs1 & xs2 & -> & -> & H1 & H2).
  clear -Hs H1 H2 Comparator0. induction xs1 as [|x xs1 IH]; simpl in *.
  - constructor; [done|]. eapply Forall_impl; [done|]. unfold before. intros; simpl in *; lia.
  - apply StronglySorted_inv in Hs as [Hs Hall]. apply Forall_cons in H1 as [Hx H1].
    constructor; [by apply IH|]. apply Forall_app in Hall as [? ?].
    apply Forall_app. split; [done|]. by constructor.
Qed.

End sorted.

(** ** Properties *)

(** C22: the linked lists of lib/list.cc implement sequences.  From any store in
    which a list represents [xs], [Append], [Prepend] and [Remove] end exactly as
    the operation on [xs] does: they fail the assertion when it does (an item
    already present, a missing item), and otherwise the new store represents the
    new sequence; [RemoveFront] takes the head and aborts on the empty list;
    [IsInList] decides membership; no operation follows a null or freed pointer,
    runs out of fuel, or changes a cell that is not part of the list. *)
Theorem list_refines_sequence {T} `{EqDecision T} h L ls (xs : list T) item :
  Heap.repr h L ls xs ->
  Heap.sim h ls (Heap.Append h L item) (Seq.Append xs item) /\
  Heap.sim h ls (Heap.Prepend h L item) (Seq.Prepend xs item) /\
  Heap.sim h ls (Heap.Remove h L item) (Seq.Remove xs item) /\
  match xs with
  | [] => Heap.RemoveFront h L = AssertFail
  | x :: xs' => exists h' L' ls', Heap.RemoveFront h L = Ret (x, h', L') /\
                  Heap.repr h' L' ls' xs' /\ Heap.frame h h' ls
  end /\
  Heap.IsInList h L item = Ret (Seq.IsInList xs item).
Proof.
  intros Hr. split; [by apply Heap.Append_sim|]. split; [by apply Heap.Prepend_sim|].
  split; [by apply Heap.Remove_sim|]. split; [by apply Heap.RemoveFront_sim|].
  by eapply Heap.IsInList_spec.
Qed.

(** A store with the two-element list [[4; 7]] in cells 1 and 2. *)
Definition demo_store : Heap.Store Z :=
  Heap.mkStore {[1%positive := Heap.mkElem 4 (Some 2%positive);
                 2%positive := Heap.mkElem 7 None]} 3.
Definition demo_list : Heap.List := Heap.mkList (Some 1%positive) (Some 2%positive) 2.

Lemma demo_repr : Heap.repr demo_store demo_list [1%positive; 2%positive] [4; 7].
Proof.
  constructor; simpl; [by repeat eexists| |done|done|].
  - repeat constructor; set_solver.
  - intros l. rewrite lookup_insert. case_decide; [subst; lia|].
    rewrite lookup_singleton. case_decide; [subst; lia|]. by intros [? ?].
Qed.

Lemma list_refines_sequence_witness :
  Heap.sim demo_store [1%positive; 2%positive] (Heap.Append demo_store demo_list 9)
    (Ret [4; 7; 9]) /\
  Heap.IsInList demo_store demo_list 7 = Ret true.
Proof.
  split.
  - exact (proj1 (list_refines_sequence demo_store demo_list _ [4; 7] 9 demo_repr)).
  - destruct (list_refines_sequence demo_store demo_list _ [4; 7] 7 demo_repr)
      as (_ & _ & _ & _ & H). exact H.
Defined.

(** [SortedList::Insert] keeps the list sorted and is first-come first-served.
    For a comparison that is a total preorder and a represented sorted sequence
    without the item, the insertion returns, the new store represents the old
    sequence with the item placed after every element not greater than it and
    before every greater one, and the result is sorted. *)
Theorem sorted_insert_correct {T} `{EqDecision T} compare `{!Comparator compare}
    h L ls (xs : list T) item :
  Heap.repr h L ls xs -> StronglySorted (before compare) xs -> item ∉ xs ->
  exists h' L' ls' xs1 xs2,
    Heap.Insert compare h L item = Ret (h', L') /\ Heap.frame h h' ls /\
    Heap.repr h' L' ls' (xs1 ++ item :: xs2) /\ xs = xs1 ++ xs2 /\
    Forall (fun y => before compare y item) xs1 /\
    Forall (fun y => compare item y < 0) xs2 /\
    StronglySorted (before compare) (xs1 ++ item :: xs2).
Proof.
  intros Hr Hs Hin. pose proof (Heap.Insert_sim compare h L ls xs item Hr) as Hsim.
  unfold Seq.Insert, Seq.IsInList in Hsim. rewrite bool_decide_false in Hsim by done.
  destruct Hsim as (h' & L' & ls' & HI & Hr' & Hf).
  pose proof (insert_sorted_sorted compare item xs Hs) as Hs'.
  destruct (insert_sorted_split compare item xs Hs) as (xs1 & xs2 & Hx & Hi & H1 & H2).
  rewrite Hi in *. exists h', L', ls', xs1, xs2. repeat (split; [done|]). done.
Qed.

Lemma sorted_insert_correct_witness :
  exists h' L' ls' xs1 xs2,
    Heap.Insert IntCompare demo_store demo_list 5 = Ret (h', L') /\
    Heap.frame demo_store h' [1%positive; 2%positive] /\
    Heap.repr h' L' ls' (xs1 ++ 5 :: xs2) /\ [4; 7] = xs1 ++ xs2 /\
    Forall (fun y => before IntCompare y 5) xs1 /\
    Forall (fun y => IntCompare 5 y < 0) xs2 /\
    StronglySorted (before IntCompare) (xs1 ++ 5 :: xs2).
Proof.
  apply (sorted_insert_correct IntCompare demo_store demo_list _ [4; 7] 5 demo_repr).
  - repeat constructor; vm_compute; discriminate.
  - rewrite !elem_of_cons. intros [?|[?|?%not_elem_of_nil]]; lia.
Defined.

(** The states a list can be in: the constructor's, and any reached from it by
    operations that returned. *)
Inductive list_reachable {T} `{EqDecision T} (compare : T -> T -> Z) :
    Heap.Store T -> Heap.List -> Prop :=
  | reach_new h : (forall l, is_Some (Heap.cells h !! l) -> (l < Heap.brk h)%positive) ->
      list_reachable compare h Heap.new_List
  | reach_append h L x h' L' : list_reachable compare h L ->
      Heap.Append h L x = Ret (h', L') -> list_reachable compare h' L'
  | reach_prepend h L x h' L' : list_reachable compare h L ->
      Heap.Prepend h L x = Ret (h', L') -> list_reachable compare h' L'
  | reach_insert h L x h' L' : list_reachable compare h L ->
      Heap.Insert compare h L x = Ret (h', L') -> list_reachable compare h' L'
  | reach_remove h L x h' L' : list_reachable compare h L ->
      Heap.Remove h L x = Ret (h', L') -> list_reachable compare h' L'
  | reach_remove_front h L x h' L' : list_reachable compare h L ->
      Heap.RemoveFront h L = Ret (x, h', L') -> list_reachable compare h' L'.

Lemma sim_returns {T} (h : Heap.Store T) ls h' L' abs :
  Heap.sim h ls (Ret (h', L')) abs -> exists ls' xs', Heap.repr h' L' ls' xs'.
Proof. destruct abs; simpl; naive_solver. Qed.

Lemma reachable_repr {T} `{EqDecision T} compare (h : Heap.Store T) L :
  list_reachable compare h L -> exists ls xs, Heap.repr h L ls xs.
Proof.
  induction 1 as [h Hb|h L x h' L' _ (ls & xs & Hr) E|h L x h' L' _ (ls & xs & Hr) E
                 |h L x h' L' _ (ls & xs & Hr) E|h L x h' L' _ (ls & xs & Hr) E
                 |h L x h' L' _ (ls & xs & Hr) E].
  - exists [], []. constructor; simpl; auto. constructor.
  - eapply Heap.Append_sim in Hr. rewrite E in Hr. by eapply sim_returns.
  - eapply Heap.Prepend_sim in Hr. rewrite E in Hr. by eapply sim_returns.
  - eapply Heap.Insert_sim in Hr. rewrite E in Hr. by eapply sim_returns.
  - eapply Heap.Remove_sim in Hr. rewrite E in Hr. by eapply sim_returns.
  - apply Heap.RemoveFront_sim in Hr. destruct xs; [congruence|].
    destruct Hr as (? & ? & ls' & E' & Hr & _). rewrite E in E'. naive_solver.
Qed.

(** [SanityCheck] holds in every reachable state: whatever sequence of list
    operations ran, the chain from [first] reaches [last] in exactly [numInList]
    elements, [last] has no successor, and none of the check's assertions fails. *)
Theorem SanityCheck_reachable {T} `{EqDecision T} compare (h : Heap.Store T) L :
  list_reachable compare h L -> Heap.SanityCheck h L = Ret tt.
Proof.
  intros (ls & xs & Hr)%reachable_repr. by eapply Heap.SanityCheck_spec.
Qed.

Lemma SanityCheck_reachable_witness :
  exists h L, list_reachable IntCompare h L /\ Heap.numInList L = 1 /\
    Heap.SanityCheck h L = Ret tt.
Proof.
  set (h0 := Heap.mkStore (∅ : gmap positive (Heap.ListElement Z)) 1).
  set (r := Heap.Append h0 Heap.new_List 5). vm_compute in r.
  match eval cbv delta [r] in r with Ret (?h, ?L) => exists h, L;
    assert (list_reachable IntCompare h L) as Hreach end.
  { eapply (reach_append _ h0 Heap.new_List 5); [|by vm_compute].
    apply reach_new. intros l [? Hl]. unfold h0 in Hl. simpl in Hl. by rewrite lookup_empty in Hl. }
  split; [exact Hreach|]. split; [reflexivity|]. exact (SanityCheck_reachable _ _ _ Hreach).
Defined.
