(* ===== verification/Hash.v ===== *)
(** * Hash tables

    Model of lib/hash.h and lib/hash.cc: a table of buckets with chaining that
    grows when it gets full, and its iterator.  A bucket is a [List], used through
    the sequences that the list operations refine (module [Seq] of [NList]); a
    list iterator is the part of the sequence it has still to visit.  The table
    refines a finite map from keys to items. *)

From S2P Require Import Prelude NList.

Definition InitialBuckets : Z := 4.
Definition ResizeRatio : Z := 3.
Definition IncreaseSizeBy : Z := 4.

Section hash.
Context {Key T : Type} `{EqDecision Key, EqDecision T}.
(** The two functions given to the constructor; a hash value is [unsigned]. *)
Variables (getKey : T -> Key) (hash : Key -> Z).

Record HashTable : Type := mkTable {
  buckets : list (list T);
  numBuckets : Z;
  numItems : Z
}.

(** The bucket array: [new Bucket[sz]] with a negative size throws. *)
Definition InitBuckets (sz : Z) : result (list (list T) * Z) :=
  if sz <? 0 then AssertFail else Ret (replicate (Z.to_nat sz) [], sz).

Definition new_HashTable : result HashTable :=
  let* (bs, n) := InitBuckets InitialBuckets in
  Ret (mkTable bs n 0).

Definition IsEmpty (tb : HashTable) : bool := numItems tb =? 0.

(** The destructor: what it requires. *)
Definition delete_HashTable (tb : HashTable) : result unit :=
  assert* IsEmpty tb in Ret tt.

(** The remainder is of [unsigned] values; division by zero traps. *)
Definition HashValue (n : Z) (key : Key) : result Z :=
  if n =? 0 then Fault else
  let result := s32 (u32 (hash key) mod u32 n) in
  assert* (result >=? 0) && (result <? n) in
  Ret result.

(** The loop over a list iterator; [None] is the return of [FALSE]. *)
Fixpoint find_item (key : Key) (l : list T) : option T :=
  match l with
  | [] => None
  | x :: l => if decide (key = getKey x) then Some x else find_item key l
  end.

Definition FindInBucket (tb : HashTable) (bucket : Z) (key : Key) : result (option T) :=
  let* l := zget (buckets tb) bucket in
  Ret (find_item key l).

Definition Find (tb : HashTable) (key : Key) : result (option T) :=
  let* bucket := HashValue (numBuckets tb) key in
  FindInBucket tb bucket key.

Definition IsInTable (tb : HashTable) (key : Key) : result bool :=
  let* r := Find tb key in
  Ret (match r with Some _ => true | None => false end).

(** [buckets[HashValue(getKey(item))]->Append(item)] *)
Definition put (n : Z) (bs : list (list T)) (item : T) : result (list (list T)) :=
  let* i := HashValue n (getKey item) in
  let* b := zget bs i in
  let* b := Seq.Append b item in
  zset bs i b.

(** [ASSERT(i == HashValue(getKey(iterator->Item())))] for the items of a bucket *)
Fixpoint check_items (n i : Z) (l : list T) : result unit :=
  match l with
  | [] => Ret tt
  | x :: l =>
      let* v := HashValue n (getKey x) in
      assert* (i =? v) in
      check_items n i l
  end.

(** The check of the bucket itself, [List::SanityCheck], passes on every list that
    represents a sequence. *)
Definition SanityCheck (tb : HashTable) : result unit :=
  let* numFound := forZ 0 (numBuckets tb) (fun i numFound =>
      let* b := zget (buckets tb) i in
      let* _ := check_items (numBuckets tb) i b in
      Ret (numFound + Seq.NumInList b)) 0 in
  assert* (numItems tb =? numFound) in
  Ret tt.

(** The [while] loop of [ReHash]: [RemoveFront] gives the items in order. *)
Fixpoint move_items (n : Z) (l : list T) (bs : list (list T)) : result (list (list T)) :=
  match l with
  | [] => Ret bs
  | x :: l =>
      let* bs := put n bs x in
      move_items n l bs
  end.

Definition ReHash (tb : HashTable) : result HashTable :=
  let oldTable := buckets tb in
  let oldSize := numBuckets tb in
  let* _ := SanityCheck tb in
  let* (bs, n) := InitBuckets (s32 (numBuckets tb * IncreaseSizeBy)) in
  let* bs := forZ 0 oldSize (fun i bs =>
      let* l := zget oldTable i in
      move_items n l bs) bs in
  let tb := mkTable bs n (numItems tb) in
  let* _ := SanityCheck tb in
  Ret tb.

Definition Insert (tb : HashTable) (item : T) : result HashTable :=
  let key := getKey item in
  let* found := IsInTable tb key in
  assert* negb found in
  if numBuckets tb =? 0 then Fault else
  let* tb := if Z.quot (numItems tb) (numBuckets tb) >=? ResizeRatio then ReHash tb else Ret tb in
  let* bs := put (numBuckets tb) (buckets tb) item in
  let tb := mkTable bs (numBuckets tb) (numItems tb + 1) in
  let* found := IsInTable tb key in
  assert* found in
  Ret tb.

Definition Remove (tb : HashTable) (key : Key) : result (T * HashTable) :=
  let* bucket := HashValue (numBuckets tb) key in
  let* found := FindInBucket tb bucket key in
  match found with
  | None => AssertFail
  | Some item =>
      let* b := zget (buckets tb) bucket in
      let* b := Seq.Remove b item in
      let* bs := zset (buckets tb) bucket b in
      let tb := mkTable bs (numBuckets tb) (numItems tb - 1) in
      let* found := IsInTable tb key in
      assert* negb found in
      Ret (item, tb)
  end.

(** [func] acts on some state [S]. *)
Fixpoint apply_list {S} (func : T -> S -> result S) (l : list T) (s : S) : result S :=
  match l with
  | [] => Ret s
  | x :: l => let* s := func x s in apply_list func l s
  end.

Definition Apply {S} (tb : HashTable) (func : T -> S -> result S) (s : S) : result S :=
  forZ 0 (numBuckets tb) (fun bucket s =>
    let* l := zget (buckets tb) bucket in
    apply_list func l s) s.

(** [for (; bucket < numBuckets; bucket++)], [n] being [numBuckets - bucket] *)
Fixpoint next_full (n : nat) (tb : HashTable) (bucket : Z) : result Z :=
  match n with
  | O => Ret bucket
  | S n =>
      let* l := zget (buckets tb) bucket in
      if negb (Seq.IsEmpty l) then Ret bucket else next_full n tb (bucket + 1)
  end.

Definition FindNextFullBucket (tb : HashTable) (bucket : Z) : result Z :=
  next_full (Z.to_nat (numBuckets tb - bucket)) tb bucket.

(** ** The iterator

    [bucketIter]: what the list iterator has still to visit, [None] when null. *)
Record HashIterator : Type := mkIter {
  bucket : Z;
  bucketIter : option (list T)
}.

(** The end of the constructor and of [Next]. *)
Definition iter_at (tb : HashTable) (b : Z) : result HashIterator :=
  if b <? numBuckets tb then
    let* l := zget (buckets tb) b in
    Ret (mkIter b (Some l))
  else Ret (mkIter b None).

Definition new_HashIterator (tb : HashTable) : result HashIterator :=
  let* b := FindNextFullBucket tb 0 in
  iter_at tb b.

Definition IsDone (tb : HashTable) (it : HashIterator) : bool := bucket it =? numBuckets tb.

(** [ListIterator::Item] asserts that it is not done. *)
Definition Item (tb : HashTable) (it : HashIterator) : result T :=
  assert* negb (IsDone tb it) in
  match bucketIter it with
  | None => Fault
  | Some [] => AssertFail
  | Some (x :: _) => Ret x
  end.

(** [ListIterator::Next] follows the pointer of the current element. *)
Definition Next (tb : HashTable) (it : HashIterator) : result HashIterator :=
  match bucketIter it with
  | None | Some [] => Fault
  | Some [_] =>
      let* b := FindNextFullBucket tb (bucket it + 1) in
      iter_at tb b
  | Some (_ :: l) => Ret (mkIter (bucket it) (Some l))
  end.

(** ** The self test *)

(** The bodies of the two loops over the test vector. *)
Definition insert_checked (x : T) (tb : HashTable) : result HashTable :=
  let* tb := Insert tb x in
  let* found := IsInTable tb (getKey x) in
  assert* found in
  assert* negb (IsEmpty tb) in
  Ret tb.

Definition remove_checked (x : T) (tb : HashTable) : result HashTable :=
  let* (y, tb) := Remove tb (getKey x) in
  assert* bool_decide (y = x) in
  Ret tb.

(** The first loop, over an empty table, must not be entered. *)
Definition SelfTest (tb : HashTable) (p : list T) : result HashTable :=
  let* iterator := new_HashIterator tb in
  let* _ := SanityCheck tb in
  assert* IsEmpty tb in
  assert* IsDone tb iterator in
  let* tb := apply_list insert_checked p tb in
  let* tb := apply_list remove_checked p tb in
  assert* IsEmpty tb in
  let* _ := SanityCheck tb in
  Ret tb.
End hash.
Arguments HashTable : clear implicits.
Arguments HashIterator : clear implicits.

(** ** Tables that are well formed, and the map they stand for *)

Section maps.
Context {Key T : Type} `{Countable Key}.
Context (getKey : T -> Key).

(** The finite map with these items. *)
Definition item_map (items : list T) : gmap Key T :=
  list_to_map ((fun x => (getKey x, x)) <$> items).

Lemma find_item_Some key l x : find_item getKey key l = Some x -> x ∈ l /\ getKey x = key.
Proof.
  induction l as [|y l IH]; simpl; [done|]. case_decide.
  - intros [= ->]. split; [constructor|done].
  - intros Hf. destruct (IH Hf). split; [by constructor|done].
Qed.

Lemma find_item_None key l x : find_item getKey key l = None -> x ∈ l -> getKey x <> key.
Proof.
  induction l as [|y l IH]; simpl; [by intros _ ?%elem_of_nil|]. case_decide; [done|].
  intros Hf [->|Hx]%elem_of_cons; [congruence|auto].
Qed.

Lemma item_map_fst (items : list T) :
  ((fun x => (getKey x, x)) <$> items).*1 = getKey <$> items.
Proof. rewrite <- list_fmap_compose. done. Qed.

Lemma item_map_Some items key x : NoDup (getKey <$> items) ->
  item_map items !! key = Some x <-> x ∈ items /\ getKey x = key.
Proof.
  intros Hnd. unfold item_map. rewrite <- elem_of_list_to_map by (by rewrite item_map_fst).
  rewrite list_elem_of_fmap. split; [|naive_solver].
  intros (y & [= -> ->] & Hy). done.
Qed.

Lemma item_map_None items key : item_map items !! key = None <-> key ∉ getKey <$> items.
Proof. unfold item_map. rewrite <- item_map_fst. symmetry. apply not_elem_of_list_to_map. Qed.

Lemma item_map_perm items items' : NoDup (getKey <$> items) -> items ≡ₚ items' ->
  item_map items = item_map items'.
Proof.
  intros Hnd HP. unfold item_map. apply list_to_map_proper; [by rewrite item_map_fst|].
  by apply fmap_Permutation.
Qed.

End maps.

Section lemmas.
Context {Key T : Type} `{Countable Key, EqDecision T}.
Context (getKey : T -> Key) (hash : Key -> Z).
Implicit Types (tb : HashTable T) (bs : list (list T)).

Definition bucket_of (n : Z) (key : Key) : Z := u32 (hash key) mod n.

(** The items are spread over [n] buckets by their hash values. *)
Record placed (n : Z) bs (items : list T) : Prop := {
  pl_len : Z.of_nat (length bs) = n;
  pl_size : 0 < n < 2 ^ 31;
  pl_items : concat bs ≡ₚ items;
  pl_hash : forall i b x, bs !! i = Some b -> x ∈ b -> bucket_of n (getKey x) = Z.of_nat i
}.

(** The load factor never exceeds [ResizeRatio]. *)
Record wf_table tb (items : list T) : Prop := {
  wt_placed : placed (numBuckets tb) (buckets tb) items;
  wt_count : numItems tb = Z.of_nat (length items);
  wt_keys : NoDup (getKey <$> items);
  wt_load : numItems tb <= ResizeRatio * numBuckets tb
}.

Lemma bucket_of_range n key : 0 < n -> 0 <= bucket_of n key < n.
Proof. intros. by apply Z.mod_pos_bound. Qed.

Lemma HashValue_spec n key : 0 < n < 2 ^ 31 -> HashValue hash n key = Ret (bucket_of n key).
Proof.
  intros Hn. unfold HashValue. rewrite (proj2 (Z.eqb_neq _ _)) by lia.
  rewrite (u32_id n) by (unfold is_u32; lia). fold (bucket_of n key).
  pose proof (bucket_of_range n key ltac:(lia)). rewrite s32_id by (unfold is_s32; lia).
  rewrite Z.geb_leb, (proj2 (Z.leb_le _ _)), (proj2 (Z.ltb_lt _ _)) by lia. done.
Qed.

Lemma concat_split bs i b : bs !! i = Some b ->
  concat bs = concat (take i bs) ++ b ++ concat (drop (S i) bs) /\
  forall b', concat (<[i := b']> bs) = concat (take i bs) ++ b' ++ concat (drop (S i) bs).
Proof.
  intros Hb. split.
  - rewrite <- (take_drop_middle bs i b) at 1 by done. by rewrite concat_app.
  - intros b'. rewrite insert_take_drop by (by eapply lookup_lt_Some). by rewrite concat_app.
Qed.

Lemma placed_bucket n bs items key : placed n bs items ->
  exists b, zget bs (bucket_of n key) = Ret b /\ bs !! Z.to_nat (bucket_of n key) = Some b /\
    forall x, getKey x = key -> x ∈ items <-> x ∈ b.
Proof.
  intros [Hl Hn Hi Hh]. pose proof (bucket_of_range n key ltac:(lia)) as Hr.
  destruct (zget_spec bs (bucket_of n key)) as (b & Hz & Hb); [lia|].
  exists b. split; [done|]. split; [done|]. intros x Hk. rewrite <- Hi, list_elem_of_In, in_concat. split.
  - intros (b' & [j Hj]%list_elem_of_In%list_elem_of_lookup & Hx%list_elem_of_In).
    pose proof (Hh _ _ _ Hj Hx) as Hh'. rewrite Hk in Hh'.
    rewrite Hh', Nat2Z.id in Hb. by simplify_eq.
  - intros Hx. exists b. split; [|by apply list_elem_of_In].
    by eapply list_elem_of_In, list_elem_of_lookup_2.
Qed.

Lemma placed_perm n bs items items' : items ≡ₚ items' -> placed n bs items -> placed n bs items'.
Proof. intros HP [? ? Hi ?]. split; try done. by etrans. Qed.

Lemma hash_Find_spec tb items key : wf_table tb items ->
  Find getKey hash tb key = Ret (item_map getKey items !! key).
Proof.
  intros [Hpl _ Hnd _]. unfold Find, FindInBucket. rewrite HashValue_spec by apply Hpl.
  destruct (placed_bucket _ _ _ key Hpl) as (b & Hz & _ & Hin). rewrite rbind_Ret, Hz, rbind_Ret.
  f_equal. destruct (find_item getKey key b) as [x|] eqn:Hf.
  - apply find_item_Some in Hf as [Hx Hk]. symmetry. apply item_map_Some; [done|].
    split; [by apply Hin|done].
  - symmetry. apply item_map_None. intros (x & -> & Hx)%list_elem_of_fmap.
    by apply (find_item_None getKey _ _ x Hf); [apply Hin|].
Qed.

Lemma IsInTable_spec tb items key : wf_table tb items ->
  IsInTable getKey hash tb key = Ret (bool_decide (is_Some (item_map getKey items !! key))).
Proof.
  intros Hwf. unfold IsInTable. rewrite (hash_Find_spec tb items) by done. simpl.
  destruct (item_map getKey items !! key); [by rewrite bool_decide_eq_true_2|].
  rewrite bool_decide_eq_false_2; [done|]. by intros [? ?].
Qed.

Lemma put_spec n bs items x : placed n bs items -> getKey x ∉ getKey <$> items ->
  exists bs', put getKey hash n bs x = Ret bs' /\ placed n bs' (x :: items).
Proof.
  intros Hpl Hk. unfold put. rewrite HashValue_spec by apply Hpl.
  destruct (placed_bucket _ _ _ (getKey x) Hpl) as (b & Hz & Hb & Hin). rewrite rbind_Ret, Hz, rbind_Ret.
  unfold Seq.Append, Seq.IsInList. rewrite bool_decide_eq_false_2.
  2: { intros Hx. apply Hk, list_elem_of_fmap_2. by apply Hin. }
  simpl. destruct Hpl as [Hl Hn Hi Hh]. pose proof (bucket_of_range n (getKey x) ltac:(lia)) as Hr.
  rewrite zset_in by lia. eexists. split; [done|]. split.
  - by rewrite length_insert.
  - done.
  - destruct (concat_split bs _ b Hb) as [Hc Hc']. rewrite Hc'. rewrite Hc in Hi. rewrite <- Hi.
    rewrite <- (app_assoc b [x]). simpl.
    rewrite <- (Permutation_middle b), <- (Permutation_middle (concat _)). done.
  - intros j b' y Hj Hy. apply lookup_lt_Some in Hj as Hlt. rewrite length_insert in Hlt.
    destruct (decide (j = Z.to_nat (bucket_of n (getKey x)))) as [->|Hne].
    + rewrite list_lookup_insert_eq in Hj by lia. injection Hj as <-.
      apply elem_of_app in Hy as [Hy|Hy]; [by eapply Hh|].
      apply list_elem_of_singleton in Hy as ->. rewrite Z2Nat.id; lia.
    + rewrite list_lookup_insert_ne in Hj by done. by eapply Hh.
Qed.

Lemma check_items_spec n i l : 0 < n < 2 ^ 31 ->
  Forall (fun x => bucket_of n (getKey x) = i) l -> check_items getKey hash n i l = Ret tt.
Proof.
  intros Hn. induction 1 as [|x l Hx Hl IH]; simpl; [done|].
  rewrite HashValue_spec, rbind_Ret, Hx, Z.eqb_refl by done. done.
Qed.

Lemma hash_SanityCheck_spec tb items : placed (numBuckets tb) (buckets tb) items ->
  numItems tb = Z.of_nat (length items) -> SanityCheck getKey hash tb = Ret tt.
Proof.
  intros [Hl Hn Hi Hh] Hc. unfold SanityCheck.
  destruct (forZ_inv (fun i c => c = Z.of_nat (length (concat (take (Z.to_nat i) (buckets tb)))))
    0 (numBuckets tb) (fun i numFound =>
      let* b := zget (buckets tb) i in
      let* _ := check_items getKey hash (numBuckets tb) i b in
      Ret (numFound + Seq.NumInList b)) 0) as (c & -> & ->); [lia|done| |].
  - intros i c Hr ->. destruct (zget_spec (buckets tb) i) as (b & -> & Hb); [lia|]. rewrite rbind_Ret.
    rewrite check_items_spec; [|done|].
    2: { apply Forall_forall. intros x Hx. rewrite (Hh _ _ _ Hb Hx). lia. }
    rewrite rbind_Ret. eexists. split; [done|]. replace (Z.to_nat (i + 1)) with (S (Z.to_nat i)) by lia.
    rewrite (take_S_r _ _ b), concat_app, length_app by done. unfold Seq.NumInList. simpl.
    rewrite app_nil_r. lia.
  - rewrite rbind_Ret, take_ge by lia. rewrite Hi, Hc, Z.eqb_refl. done.
Qed.

Lemma move_items_spec n l : forall bs items, placed n bs items ->
  NoDup (getKey <$> l ++ items) ->
  exists bs', move_items getKey hash n l bs = Ret bs' /\ placed n bs' (l ++ items).
Proof.
  induction l as [|x l IH]; intros bs items Hpl Hnd; simpl; [by exists bs|].
  simpl in Hnd. apply NoDup_cons in Hnd as [Hx Hnd].
  assert (Hx' : getKey x ∉ getKey <$> items) by (rewrite fmap_app in Hx; set_solver).
  destruct (put_spec n bs items x Hpl Hx') as (bs1 & -> & Hpl1). rewrite rbind_Ret.
  destruct (IH bs1 (x :: items) Hpl1) as (bs' & -> & Hpl').
  - rewrite <- Permutation_middle. simpl. by apply NoDup_cons.
  - exists bs'. split; [done|]. eapply placed_perm; [|done]. by rewrite <- Permutation_middle.
Qed.

Lemma concat_replicate_nil n : concat (replicate n (@nil T)) = [].
Proof. by induction n. Qed.

Lemma ReHash_spec tb items : wf_table tb items -> numBuckets tb < 2 ^ 29 ->
  exists tb', ReHash getKey hash tb = Ret tb' /\
    placed (numBuckets tb') (buckets tb') items /\
    numBuckets tb' = IncreaseSizeBy * numBuckets tb /\ numItems tb' = numItems tb.
Proof.
  intros [Hpl Hc Hk Hload] Hsz. unfold ReHash. rewrite (hash_SanityCheck_spec tb items) by done.
  rewrite rbind_Ret. pose proof Hpl as [Hl Hn Hi Hh]. unfold InitBuckets, IncreaseSizeBy.
  rewrite s32_id by (unfold is_s32; lia). rewrite (proj2 (Z.ltb_ge _ _)) by lia. rewrite rbind_Ret.
  set (n := numBuckets tb * 4).
  destruct (forZ_inv (fun i bs => exists items', placed n bs items' /\
      items' ≡ₚ concat (take (Z.to_nat i) (buckets tb)))
    0 (numBuckets tb) (fun i bs => let* l := zget (buckets tb) i in move_items getKey hash n l bs)
    (replicate (Z.to_nat n) [])) as (bs & -> & items' & Hpl' & HP); [lia| | |].
  - exists []. split; [|done]. split.
    + rewrite length_replicate. unfold n. lia.
    + unfold n. lia.
    + by rewrite concat_replicate_nil.
    + intros i b x [-> _]%lookup_replicate ?%elem_of_nil. done.
  - intros i bs Hr (items' & Hpl' & HP).
    destruct (zget_spec (buckets tb) i) as (b & -> & Hb); [lia|]. rewrite rbind_Ret.
    assert (Hnd : NoDup (getKey <$> b ++ items')).
    { rewrite HP. rewrite <- Hi in Hk. destruct (concat_split _ _ _ Hb) as [Hcc _]. rewrite Hcc in Hk.
      rewrite app_assoc, fmap_app in Hk. apply NoDup_app in Hk as [Hk _].
      by rewrite (Permutation_app_comm b). }
    destruct (move_items_spec n b bs items' Hpl' Hnd) as (bs' & -> & Hpl'').
    exists bs'. split; [done|]. exists (b ++ items'). split; [done|].
    replace (Z.to_nat (i + 1)) with (S (Z.to_nat i)) by lia.
    rewrite (take_S_r _ _ b), concat_app by done. simpl. rewrite app_nil_r, HP.
    apply Permutation_app_comm.
  - rewrite rbind_Ret. rewrite take_ge in HP by lia. rewrite Hi in HP.
    apply (placed_perm _ _ _ _ HP) in Hpl'.
    rewrite (hash_SanityCheck_spec _ items) by done. rewrite rbind_Ret.
    eexists. split; [done|]. split; [done|]. simpl. unfold n. split; [lia|done].
Qed.

Lemma hash_Insert_spec tb items x : wf_table tb items -> numItems tb < 2 ^ 30 ->
  match item_map getKey items !! getKey x with
  | Some _ => Insert getKey hash tb x = AssertFail
  | None => exists tb', Insert getKey hash tb x = Ret tb' /\ wf_table tb' (x :: items)
  end.
Proof.
  intros Hwf Hsz. unfold Insert. rewrite (IsInTable_spec tb items) by done.
  destruct (item_map getKey items !! getKey x) as [y|] eqn:Hx.
  { rewrite bool_decide_eq_true_2 by done. done. }
  rewrite bool_decide_eq_false_2 by (by intros [? ?]). simpl.
  pose proof Hwf as [Hpl Hc Hk Hload]. pose proof (pl_size _ _ _ Hpl) as Hn.
  apply item_map_None in Hx. rewrite (proj2 (Z.eqb_neq _ _)) by lia.
  assert (Hgrow : exists tb1, (if Z.quot (numItems tb) (numBuckets tb) >=? ResizeRatio
      then ReHash getKey hash tb else Ret tb) = Ret tb1 /\
    placed (numBuckets tb1) (buckets tb1) items /\ numItems tb1 = numItems tb /\
    numItems tb + 1 <= ResizeRatio * numBuckets tb1).
  { rewrite Z.geb_leb, Z.quot_div_nonneg by lia. unfold ResizeRatio, IncreaseSizeBy in *.
    pose proof (Z.div_mod (numItems tb) (numBuckets tb) ltac:(lia)).
    pose proof (Z.mod_pos_bound (numItems tb) (numBuckets tb) ltac:(lia)).
    destruct (Z.leb_spec 3 (numItems tb / numBuckets tb)).
    - destruct (ReHash_spec tb items Hwf) as (tb1 & -> & ? & ? & ?); [nia|].
      exists tb1. unfold IncreaseSizeBy in *. split_and!; try done. lia.
    - exists tb. split_and!; try done. nia. }
  destruct Hgrow as (tb1 & -> & Hpl1 & Hc1 & Hload1). rewrite rbind_Ret.
  destruct (put_spec _ _ _ x Hpl1 Hx) as (bs & -> & Hpl2). rewrite rbind_Ret.
  set (tb2 := mkTable bs (numBuckets tb1) (numItems tb1 + 1)).
  assert (Hwf2 : wf_table tb2 (x :: items)).
  { split; simpl; [done|rewrite Hc1, Hc; lia|by apply NoDup_cons|lia]. }
  rewrite (IsInTable_spec tb2 (x :: items)) by done. rewrite rbind_Ret, bool_decide_eq_true_2.
  { exists tb2. by split. }
  exists x. apply item_map_Some; [apply Hwf2|]. split; [constructor|done].
Qed.

Lemma remove_first_split (x : T) l : x ∈ l ->
  l ≡ₚ x :: Seq.remove_first x l.
Proof.
  induction l as [|y l IH]; [by intros ?%elem_of_nil|]. intros Hx. simpl. case_decide as Hy.
  - by subst.
  - apply elem_of_cons in Hx as [?|Hx]; [done|]. rewrite (IH Hx) at 1. apply Permutation_swap.
Qed.

Lemma hash_Remove_spec tb items key : wf_table tb items ->
  match item_map getKey items !! key with
  | None => Remove getKey hash tb key = AssertFail
  | Some x => exists tb' items', Remove getKey hash tb key = Ret (x, tb') /\
      items ≡ₚ x :: items' /\ wf_table tb' items' /\ numBuckets tb' = numBuckets tb
  end.
Proof.
  intros Hwf. pose proof (hash_Find_spec tb items key Hwf) as HF. unfold Find in HF. unfold Remove.
  destruct Hwf as [Hpl Hc Hk Hload]. rewrite HashValue_spec, rbind_Ret in HF by apply Hpl.
  rewrite HashValue_spec, rbind_Ret, HF, rbind_Ret by apply Hpl. destruct (item_map getKey items !! key) as [x|] eqn:Hx; [|done].
  apply item_map_Some in Hx as [Hx Hkey]; [|done].
  destruct (placed_bucket _ _ _ key Hpl) as (b & -> & Hb & Hin). rewrite rbind_Ret.
  assert (Hxb : x ∈ b) by (by apply Hin). pose proof (remove_first_split x b Hxb) as HP.
  set (b' := Seq.remove_first x b) in *.
  pose proof Hpl as [Hl Hn Hi Hh]. pose proof (bucket_of_range (numBuckets tb) key ltac:(lia)) as Hr.
  destruct (concat_split _ _ _ Hb) as [Hcc Hcc'].
  set (bs := <[Z.to_nat (bucket_of (numBuckets tb) key) := b']> (buckets tb)) in *.
  assert (Hsplit : items ≡ₚ x :: concat bs).
  { rewrite <- Hi, Hcc, HP. unfold bs. rewrite Hcc'. simpl. by rewrite <- Permutation_middle. }
  assert (Hnd : NoDup (getKey <$> x :: concat bs)) by (by rewrite <- Hsplit).
  apply NoDup_cons in Hnd as [Hxk Hnd]. unfold Seq.Remove, Seq.IsInList.
  rewrite bool_decide_eq_true_2 by done. rewrite bool_decide_eq_false_2.
  2: { fold b'. intros Hx'. apply Hxk. apply list_elem_of_fmap_2. unfold bs. rewrite Hcc'. set_solver. }
  simpl. rewrite zset_in by lia. rewrite rbind_Ret. fold b' bs.
  set (tb' := mkTable bs (numBuckets tb) (numItems tb - 1)).
  assert (Hwf' : wf_table tb' (concat bs)).
  { split; simpl; [|rewrite Hc, Hsplit; simpl; lia|done|lia].
    split; [unfold bs; by rewrite length_insert|done|done|].
    intros j c y Hj Hy. apply lookup_lt_Some in Hj as Hlt. unfold bs in Hj, Hlt. rewrite length_insert in Hlt.
    destruct (decide (j = Z.to_nat (bucket_of (numBuckets tb) key))) as [->|Hne].
    - rewrite list_lookup_insert_eq in Hj by lia. injection Hj as <-.
      apply (Hh _ b); [done|]. rewrite HP. by constructor.
    - rewrite list_lookup_insert_ne in Hj by done. by eapply Hh. }
  rewrite (IsInTable_spec tb' (concat bs)) by done. rewrite rbind_Ret, bool_decide_eq_false_2.
  { exists tb', (concat bs). by split_and!. }
  intros [y Hy]. apply item_map_Some in Hy as [Hy Hyk]; [|done].
  apply Hxk. rewrite Hkey, <- Hyk. by apply list_elem_of_fmap_2.
Qed.

Lemma new_HashTable_wf : exists tb, new_HashTable = Ret tb /\ wf_table tb [].
Proof.
  eexists. split; [reflexivity|]. split; simpl; [|done|constructor|unfold ResizeRatio, InitialBuckets; lia].
  split; [done|unfold InitialBuckets; lia|done|].
  intros i b x [-> _]%(lookup_replicate 4) ?%elem_of_nil. done.
Qed.

Lemma wf_table_perm tb items items' : items ≡ₚ items' -> wf_table tb items -> wf_table tb items'.
Proof.
  intros HP [? ? ? ?]. split; [by eapply placed_perm|by rewrite <- HP|by rewrite <- HP|done].
Qed.

(** ** The iterator *)

(** What an iterator has still to visit. *)
Definition remaining tb (it : HashIterator T) : list T :=
  default [] (bucketIter it) ++ concat (drop (S (Z.to_nat (bucket it))) (buckets tb)).

(** At the end, or at an item. *)
Definition wf_iter tb (it : HashIterator T) : Prop :=
  (bucket it = numBuckets tb /\ bucketIter it = None) \/
  (0 <= bucket it < numBuckets tb /\ exists x l, bucketIter it = Some (x :: l)).

(** The loop of the comment in hash.h: what the items are that it visits. *)
Fixpoint visit (fuel : nat) tb (it : HashIterator T) : result (list T) :=
  match fuel with
  | O => NoFuel
  | S fuel =>
      if IsDone tb it then Ret [] else
      let* x := Item tb it in
      let* it := Next tb it in
      let* l := visit fuel tb it in
      Ret (x :: l)
  end.

Lemma iter_from tb b : Z.of_nat (length (buckets tb)) = numBuckets tb -> 0 <= b <= numBuckets tb ->
  exists it, (let* b' := FindNextFullBucket tb b in iter_at tb b') = Ret it /\ wf_iter tb it /\
    remaining tb it = concat (drop (Z.to_nat b) (buckets tb)).
Proof.
  intros Hl. unfold FindNextFullBucket. remember (Z.to_nat (numBuckets tb - b)) as n eqn:Hn.
  revert b Hn. induction n as [|n IH]; intros b Hn Hb; simpl.
  - assert (b = numBuckets tb) as -> by lia. unfold iter_at. rewrite Z.ltb_irrefl.
    eexists. split; [done|]. split; [by left|]. unfold remaining. simpl bucketIter. simpl bucket.
    rewrite !drop_ge by lia. done.
  - destruct (zget_spec (buckets tb) b) as (l & Hz & Hlk); [lia|]. rewrite Hz, rbind_Ret.
    destruct l as [|x l]; simpl.
    + destruct (IH (b + 1)) as (it & Hit & Hwf & Hr); [lia|lia|]. exists it. split; [done|].
      split; [done|]. rewrite Hr. rewrite (drop_S (buckets tb) [] (Z.to_nat b)) by done. simpl.
      do 2 f_equal. lia.
    + unfold iter_at. rewrite (proj2 (Z.ltb_lt _ _)) by lia. rewrite Hz. simpl.
      eexists. split; [done|]. split; [right; simpl; split; [lia|by eexists _, _]|].
      unfold remaining. simpl. by rewrite (drop_S (buckets tb) (x :: l) (Z.to_nat b)).
Qed.

Lemma visit_spec tb it : Z.of_nat (length (buckets tb)) = numBuckets tb ->
  wf_iter tb it -> visit (S (length (remaining tb it))) tb it = Ret (remaining tb it).
Proof.
  intros Hl. remember (length (remaining tb it)) as n eqn:Hn. revert it Hn.
  induction n as [n IH] using lt_wf_ind; intros it Hn Hwf.
  destruct Hwf as [[Hb Hi]|(Hb & x & l & Hi)].
  - simpl. unfold IsDone. rewrite Hb, Z.eqb_refl. unfold remaining. rewrite Hi, Hb.
    by rewrite drop_ge by lia.
  - cbn [visit]. unfold IsDone, Item, IsDone. rewrite (proj2 (Z.eqb_neq _ _)) by lia. simpl.
    unfold Next. rewrite Hi, rbind_Ret.
    assert (Hnext : exists it', match l with
        | [] => let* b := FindNextFullBucket tb (bucket it + 1) in iter_at tb b
        | _ :: _ => Ret (mkIter (bucket it) (Some l)) end = Ret it' /\ wf_iter tb it' /\
        remaining tb it = x :: remaining tb it').
    { destruct l as [|y l].
      - destruct (iter_from tb (bucket it + 1) Hl) as (it' & -> & ? & Hr); [lia|].
        exists it'. split; [done|]. split; [done|]. rewrite Hr. unfold remaining. rewrite Hi. simpl.
        do 3 f_equal. lia.
      - eexists. split; [done|]. split; [right; simpl; eauto|]. unfold remaining. by rewrite Hi. }
    destruct Hnext as (it' & -> & Hwf' & Hr). rewrite rbind_Ret. rewrite Hr in Hn. simpl in Hn.
    subst n. rewrite (IH (length (remaining tb it')) ltac:(lia) it' eq_refl Hwf'). by rewrite Hr.
Qed.

(** ** The self test *)

Lemma insert_all_spec p : forall tb items, wf_table tb items -> NoDup (getKey <$> p ++ items) ->
  Z.of_nat (length (p ++ items)) < 2 ^ 30 ->
  exists tb', apply_list (insert_checked getKey hash) p tb = Ret tb' /\ wf_table tb' (p ++ items).
Proof.
  induction p as [|x p IH]; intros tb items Hwf Hnd Hsz; simpl; [by exists tb|].
  simpl in Hnd, Hsz. apply NoDup_cons in Hnd as [Hx Hnd]. rewrite length_app in Hsz.
  pose proof (hash_Insert_spec tb items x Hwf) as HI. rewrite (wt_count _ _ Hwf) in HI.
  rewrite (proj2 (item_map_None getKey items (getKey x))) in HI by (rewrite fmap_app in Hx; set_solver).
  destruct HI as (tb1 & HI & Hwf1); [lia|].
  unfold insert_checked at 1. rewrite HI, rbind_Ret.
  rewrite (IsInTable_spec tb1 (x :: items)) by done. rewrite bool_decide_eq_true_2.
  2: { exists x. apply item_map_Some; [apply Hwf1|]. split; [constructor|done]. }
  rewrite rbind_Ret. unfold IsEmpty. rewrite (wt_count _ _ Hwf1). simpl.
  destruct (IH tb1 (x :: items) Hwf1) as (tb' & -> & Hwf').
  - rewrite <- Permutation_middle. simpl. by apply NoDup_cons.
  - rewrite length_app. simpl. lia.
  - exists tb'. split; [done|]. eapply wf_table_perm; [|done]. by rewrite <- Permutation_middle.
Qed.

Lemma remove_all_spec p : forall tb, wf_table tb p ->
  exists tb', apply_list (remove_checked getKey hash) p tb = Ret tb' /\ wf_table tb' [].
Proof.
  induction p as [|x p IH]; intros tb Hwf; simpl; [by exists tb|].
  pose proof (hash_Remove_spec tb (x :: p) (getKey x) Hwf) as HR.
  rewrite (proj2 (item_map_Some getKey (x :: p) (getKey x) x ltac:(apply Hwf))) in HR
    by (split; [constructor|done]).
  destruct HR as (tb1 & items' & HR & HP & Hwf1 & _).
  unfold remove_checked at 1. rewrite HR, rbind_Ret, bool_decide_eq_true_2 by done. simpl.
  apply IH. eapply wf_table_perm; [|done]. symmetry. by eapply Permutation_cons_inv.
Qed.

Lemma SelfTest_spec tb p : wf_table tb [] -> NoDup (getKey <$> p) -> Z.of_nat (length p) < 2 ^ 30 ->
  exists tb', SelfTest getKey hash tb p = Ret tb' /\ wf_table tb' [].
Proof.
  intros Hwf Hnd Hsz. unfold SelfTest, new_HashIterator.
  pose proof (wt_placed _ _ Hwf) as Hpl. pose proof (pl_size _ _ _ Hpl) as Hn.
  destruct (iter_from tb 0 (pl_len _ _ _ Hpl)) as (it & -> & Hit & Hr); [lia|]. rewrite rbind_Ret.
  rewrite (hash_SanityCheck_spec tb []) by (apply Hwf || done). rewrite rbind_Ret.
  unfold IsEmpty at 1. rewrite (wt_count _ _ Hwf). simpl.
  assert (Hdone : IsDone tb it = true).
  { unfold IsDone. destruct Hit as [[-> _]|(_ & x & l & Hi)]; [by rewrite Z.eqb_refl|].
    pose proof (pl_items _ _ _ Hpl) as HP. apply Permutation_nil_r in HP.
    rewrite drop_0, HP in Hr. unfold remaining in Hr. by rewrite Hi in Hr. }
  rewrite Hdone. simpl.
  destruct (insert_all_spec p tb [] Hwf) as (tb1 & -> & Hwf1); [by rewrite app_nil_r..|].
  rewrite app_nil_r in Hwf1. rewrite rbind_Ret.
  destruct (remove_all_spec p tb1 Hwf1) as (tb2 & -> & Hwf2). rewrite rbind_Ret.
  unfold IsEmpty. rewrite (wt_count _ _ Hwf2). simpl.
  rewrite (hash_SanityCheck_spec tb2 []) by (apply Hwf2 || done). simpl. by exists tb2.
Qed.
End lemmas.

(** ** Claims *)

(** C21: the table is a finite map.  In a well-formed table [Find] is lookup;
    [Insert] of an item with a new key returns a well-formed table with the item
    added, growing the table when it is full, and aborts when the key is there;
    [Remove] returns the item of the key and a table without it, and aborts when
    there is none; [SanityCheck] passes. *)
Theorem hash_is_map {Key T} `{Countable Key, EqDecision T}
    (getKey : T -> Key) (hash : Key -> Z) tb items :
  wf_table getKey hash tb items -> numItems tb < 2 ^ 30 ->
  let contents := item_map getKey items in
  SanityCheck getKey hash tb = Ret tt /\
  (forall key, Find getKey hash tb key = Ret (contents !! key)) /\
  (forall x, contents !! getKey x = None -> exists tb' items',
     Insert getKey hash tb x = Ret tb' /\ wf_table getKey hash tb' items' /\
     item_map getKey items' = <[getKey x := x]> contents) /\
  (forall x, is_Some (contents !! getKey x) -> Insert getKey hash tb x = AssertFail) /\
  (forall key x, contents !! key = Some x -> exists tb' items',
     Remove getKey hash tb key = Ret (x, tb') /\ wf_table getKey hash tb' items' /\
     item_map getKey items' = delete key contents) /\
  (forall key, contents !! key = None -> Remove getKey hash tb key = AssertFail).
Proof.
  intros Hwf Hsz contents. split_and!.
  - apply (hash_SanityCheck_spec _ _ _ items); apply Hwf.
  - intros key. by apply hash_Find_spec.
  - intros x Hx. pose proof (hash_Insert_spec getKey hash tb items x Hwf Hsz) as HI.
    unfold contents in Hx. rewrite Hx in HI. destruct HI as (tb' & HI & Hwf'). by exists tb', (x :: items).
  - intros x [y Hx]. pose proof (hash_Insert_spec getKey hash tb items x Hwf Hsz) as HI.
    unfold contents in Hx. by rewrite Hx in HI.
  - intros key x Hx. pose proof (hash_Remove_spec getKey hash tb items key Hwf) as HR.
    unfold contents in *. rewrite Hx in HR. destruct HR as (tb' & items' & HR & HP & Hwf' & _).
    apply item_map_Some in Hx as [_ <-]; [|apply Hwf].
    exists tb', items'. split; [done|]. split; [done|].
    rewrite (item_map_perm _ _ _ (wt_keys _ _ _ _ Hwf) HP). unfold item_map at 2. simpl.
    rewrite delete_insert_id; [done|]. apply item_map_None.
    pose proof (wt_keys _ _ _ _ Hwf) as Hk. rewrite HP in Hk. by apply NoDup_cons in Hk as [? _].
  - intros key Hx. pose proof (hash_Remove_spec getKey hash tb items key Hwf) as HR.
    unfold contents in *. by rewrite Hx in HR.
Qed.

(** The iterator visits every item exactly once.  The loop over a new iterator
    of a well-formed table ends, after as many steps as there are items, and the
    items it has seen are those of the table, bucket by bucket. *)
Theorem iterator_visits_all {Key T} `{Countable Key, EqDecision T}
    (getKey : T -> Key) (hash : Key -> Z) tb items :
  wf_table getKey hash tb items ->
  exists it l, new_HashIterator tb = Ret it /\
    visit (S (length items)) tb it = Ret l /\ l = concat (buckets tb) /\ l ≡ₚ items.
Proof.
  intros Hwf. pose proof (wt_placed _ _ _ _ Hwf) as [Hl Hn Hi _]. unfold new_HashIterator.
  destruct (iter_from tb 0 Hl) as (it & -> & Hit & Hr); [lia|]. rewrite drop_0 in Hr.
  pose proof (visit_spec tb it Hl Hit) as HV. rewrite Hr in HV.
  rewrite (Permutation_length Hi) in HV. by exists it, (concat (buckets tb)).
Qed.

(** The self test passes on every empty table and any items with distinct
    keys, and leaves the table empty. *)
Theorem hash_SelfTest {Key T} `{Countable Key, EqDecision T}
    (getKey : T -> Key) (hash : Key -> Z) tb p :
  wf_table getKey hash tb [] -> NoDup (getKey <$> p) -> Z.of_nat (length p) < 2 ^ 30 ->
  exists tb', SelfTest getKey hash tb p = Ret tb' /\ wf_table getKey hash tb' [].
Proof. apply SelfTest_spec. Qed.

(** ** The table of the library test: lib/libtest.cc

    [HashKey] is [atoi]; the strings of the test vector are the numerals of the
    numbers below 15. *)

Definition HashInt (key : Z) : Z := u32 key.

Definition test_vector : list Z := Z.of_nat <$> seq 0 15.

Definition test_table : HashTable Z := mkTable (replicate 4 []) 4 0.

Lemma test_table_wf : wf_table Datatypes.id HashInt test_table [].
Proof. destruct (new_HashTable_wf Datatypes.id HashInt) as (tb & [= <-] & Hwf). exact Hwf. Qed.

Lemma hash_is_map_witness :
  exists tb' items', Insert Datatypes.id HashInt test_table 7 = Ret tb' /\
    wf_table Datatypes.id HashInt tb' items' /\ item_map Datatypes.id items' = {[ 7 := 7 ]}.
Proof.
  destruct (hash_is_map Datatypes.id HashInt test_table [] test_table_wf) as (_ & _ & HI & _);
    [simpl; lia|]. exact (HI 7 eq_refl).
Defined.

Definition three_items : HashTable Z := mkTable [[]; [1; 5]; [2]; []] 4 3.

Lemma three_items_wf : wf_table Datatypes.id HashInt three_items [1; 5; 2].
Proof.
  split; simpl; [|done|apply (bool_decide_unpack _); by vm_compute|unfold ResizeRatio; lia].
  split; simpl; [done|lia|done|].
  intros [|[|[|[|i]]]] b x Hb Hx; simplify_eq/=; set_unfold in Hx; destruct_or?; subst; done.
Qed.

Lemma iterator_visits_all_witness :
  exists it, new_HashIterator three_items = Ret it /\ visit 4 three_items it = Ret [1; 5; 2].
Proof.
  destruct (iterator_visits_all Datatypes.id HashInt three_items [1; 5; 2] three_items_wf)
    as (it & l & Hit & HV & Hl & _). exists it. split; [exact Hit|]. subst l. exact HV.
Defined.

Lemma hash_SelfTest_witness :
  exists tb', SelfTest Datatypes.id HashInt test_table test_vector = Ret tb'.
Proof.
  destruct (hash_SelfTest Datatypes.id HashInt test_table test_vector test_table_wf)
    as (tb' & HS & _).
  - apply (bool_decide_unpack _). vm_compute. exact I.
  - simpl. lia.
  - exists tb'. exact HS.
Defined.
