(* ===== verification/Machine.v ===== *)
(** * The simulated machine: main memory, registers, address translation

    Model of machine/machine.{h,cc} and machine/translate.{h,cc}: the CPU
    registers, the physical memory, the page table or TLB, [Translate],
    [ReadMem], [WriteMem] and the trap into the kernel, [RaiseException].  The
    build is the one of build.linux: a little-endian host with signed [char],
    32-bit [int], either memory-management unit ([USE_TLB] is an argument of
    the constructor).  The kernel's [ExceptionHandler] is a parameter here;
    Exception.v supplies the one of userprog/exception.cc. *)

From S2P Require Import Prelude.

(** ** Data *)

Definition PageSize : Z := 128.
Definition NumPhysPages : Z := 128.
Definition MemorySize : Z := NumPhysPages * PageSize.
Definition TLBSize : Z := 4.

Inductive ExceptionType : Type :=
  | NoException
  | SyscallException
  | PageFaultException
  | ReadOnlyException
  | BusErrorException
  | AddressErrorException
  | OverflowException
  | IllegalInstrException
  | NumExceptionTypes.

#[global] Instance ExceptionType_eq_dec : EqDecision ExceptionType.
Proof. solve_decision. Defined.

Definition StackReg : Z := 29.
Definition RetAddrReg : Z := 31.
Definition NumGPRegs : Z := 32.
Definition HiReg : Z := 32.
Definition LoReg : Z := 33.
Definition PCReg : Z := 34.
Definition NextPCReg : Z := 35.
Definition PrevPCReg : Z := 36.
Definition LoadReg : Z := 37.
Definition LoadValueReg : Z := 38.
Definition BadVAddrReg : Z := 39.
Definition NumTotalRegs : Z := 40.

Record TranslationEntry : Type := mkEntry {
  virtualPage : Z;
  physicalPage : Z;
  valid : bool;
  readOnly : bool;
  use : bool;
  dirty : bool
}.

#[global] Instance TranslationEntry_eq_dec : EqDecision TranslationEntry.
Proof. solve_decision. Defined.

Record Machine : Type := mkMachine {
  registers : list Z;
  mainMemory : list byte;
  tlb : option (list TranslationEntry);
  pageTable : option (list TranslationEntry);
  pageTableSize : Z;
  singleStep : bool;
  runUntilTime : Z
}.

Definition set_registers (m : Machine) (r : list Z) : Machine :=
  mkMachine r (mainMemory m) (tlb m) (pageTable m) (pageTableSize m)
    (singleStep m) (runUntilTime m).
Definition set_mainMemory (m : Machine) (mem : list byte) : Machine :=
  mkMachine (registers m) mem (tlb m) (pageTable m) (pageTableSize m)
    (singleStep m) (runUntilTime m).
Definition set_tlb (m : Machine) (t : list TranslationEntry) : Machine :=
  mkMachine (registers m) (mainMemory m) (Some t) (pageTable m) (pageTableSize m)
    (singleStep m) (runUntilTime m).
Definition set_pageTable (m : Machine) (t : list TranslationEntry) : Machine :=
  mkMachine (registers m) (mainMemory m) (tlb m) (Some t) (pageTableSize m)
    (singleStep m) (runUntilTime m).

(** [MachineStatus] of machine/interrupt.h. *)
Inductive MachineStatus : Type := IdleMode | SystemMode | UserMode.

(** The machine together with the rest of the kernel, of which this file only
    needs [kernel->interrupt->setStatus]. *)
Record World (K : Type) : Type := mkWorld {
  machine : Machine;
  status : MachineStatus;
  kern : K
}.
Arguments mkWorld {K}.
Arguments machine {K}.
Arguments status {K}.
Arguments kern {K}.

Definition set_machine {K} (w : World K) (m : Machine) : World K :=
  mkWorld m (status w) (kern w).
Definition setStatus {K} (w : World K) (st : MachineStatus) : World K :=
  mkWorld (machine w) st (kern w).

(** ** Construction *)

(** [CheckEndian]: the bytes 1, 2, 3, 4 read as an [unsigned int]. *)
Definition CheckEndian : result unit :=
  ASSERT (le_combine [byte.of_Z 1; byte.of_Z 2; byte.of_Z 3; byte.of_Z 4]
          =? 0x04030201).

Section constructor.
(** What the memory handed out by [new] and the members the constructor does
    not set happen to contain. *)
Variables (g_regs : nat -> Z) (g_mem : nat -> byte) (g_tlb : nat -> TranslationEntry)
  (g_ptsize g_until : Z).

Definition new_Machine (USE_TLB debug : bool) : result Machine :=
  let* regs := forZ 0 NumTotalRegs (fun i r => zset r i 0)
                 (uninit g_regs (Z.to_nat NumTotalRegs)) in
  let* mem := forZ 0 MemorySize (fun i r => zset r i (byte.of_Z 0))
                (uninit g_mem (Z.to_nat MemorySize)) in
  let* t :=
    if USE_TLB then
      let* t := forZ 0 TLBSize (fun i t =>
          let* e := zget t i in
          zset t i (mkEntry (virtualPage e) (physicalPage e) false
                      (readOnly e) (use e) (dirty e)))
        (uninit g_tlb (Z.to_nat TLBSize)) in
      Ret (Some t)
    else Ret None in
  let* _ := CheckEndian in
  Ret (mkMachine regs mem t None g_ptsize debug g_until).
End constructor.

(** ** Registers *)

Definition ReadRegister (m : Machine) (num : Z) : result Z :=
  assert* (num >=? 0) && (num <? NumTotalRegs) in
  zget (registers m) num.

Definition WriteRegister (m : Machine) (num value : Z) : result Machine :=
  assert* (num >=? 0) && (num <? NumTotalRegs) in
  let* r := zset (registers m) num value in
  Ret (set_registers m r).

(** [Machine::DelayedLoad] (mipssim.cc): the pending load takes effect, the
    next one is recorded and register 0 is forced back to zero. *)
Definition DelayedLoad (m : Machine) (nextReg nextVal : Z) : result Machine :=
  let* lr := zget (registers m) LoadReg in
  let* lv := zget (registers m) LoadValueReg in
  let* r := zset (registers m) lr lv in
  let* r := zset r LoadReg nextReg in
  let* r := zset r LoadValueReg nextVal in
  let* r := zset r 0 0 in
  Ret (set_registers m r).

(** ** Byte order: no conversion on a little-endian host *)

Definition WordToHost (word : Z) : Z := word.
Definition ShortToHost (shortword : Z) : Z := shortword.
Definition WordToMachine (word : Z) : Z := WordToHost word.
Definition ShortToMachine (shortword : Z) : Z := ShortToHost shortword.

(** ** Translation *)

(** The pointer [entry] of [Translate]: into the TLB or the page table. *)
Inductive EntryPtr : Type :=
  | InTLB (i : Z)
  | InPageTable (i : Z).

Definition entry_table (m : Machine) (p : EntryPtr)
    : option (list TranslationEntry) :=
  match p with InTLB _ => tlb m | InPageTable _ => pageTable m end.
Definition entry_index (p : EntryPtr) : Z :=
  match p with InTLB i => i | InPageTable i => i end.

Definition load_entry (m : Machine) (p : EntryPtr) : result TranslationEntry :=
  match entry_table m p with
  | Some t => zget t (entry_index p)
  | None => Fault
  end.

Definition store_entry (m : Machine) (p : EntryPtr) (e : TranslationEntry)
    : result Machine :=
  match p, tlb m, pageTable m with
  | InTLB i, Some t, _ => let* t' := zset t i e in Ret (set_tlb m t')
  | InPageTable i, _, Some t => let* t' := zset t i e in Ret (set_pageTable m t')
  | _, _, _ => Fault
  end.

(** [entry->use = TRUE; if (writing) entry->dirty = TRUE] *)
Definition mark_used (e : TranslationEntry) (writing : bool) : TranslationEntry :=
  mkEntry (virtualPage e) (physicalPage e) (valid e) (readOnly e) true
    (if writing then true else dirty e).

(** The search for the entry of a virtual page: the body of the [if (tlb ==
    NULL)] of [Translate]. *)
Definition find_entry (m : Machine) (vpn : Z) : result (ExceptionType + EntryPtr) :=
  match tlb m with
  | None =>
      if vpn >=? pageTableSize m then Ret (inl AddressErrorException) else
      let* e := load_entry m (InPageTable vpn) in
      if negb (valid e) then Ret (inl PageFaultException)
      else Ret (inr (InPageTable vpn))
  | Some t =>
      let* r := searchZ 0 TLBSize (fun i =>
          let* e := zget t i in
          Ret (if valid e && (virtualPage e =? s32 vpn) then Some i else None)) in
      match r with
      | Some i => Ret (inr (InTLB i))
      | None => Ret (inl PageFaultException)
      end
  end.

Definition is_null {A} (p : option A) : bool :=
  match p with None => true | Some _ => false end.

Definition misaligned (virtAddr size : Z) : bool :=
  ((size =? 4) && negb (Z.land virtAddr 0x3 =? 0)) ||
  ((size =? 2) && negb (Z.land virtAddr 0x1 =? 0)).

(** [Machine::Translate]: [inl e] is the return of an exception other than
    [NoException], where [*physAddr] is not written; [inr p] the return of
    [NoException] with [*physAddr = p]. *)
Definition Translate (m : Machine) (virtAddr size : Z) (writing : bool)
    : result (Machine * (ExceptionType + Z)) :=
  if misaligned virtAddr size then Ret (m, inl AddressErrorException) else
  assert* is_null (tlb m) || is_null (pageTable m) in
  assert* negb (is_null (tlb m)) || negb (is_null (pageTable m)) in
  let vpn := u32 virtAddr / PageSize in
  let offset := u32 virtAddr mod PageSize in
  let* found := find_entry m vpn in
  match found with
  | inl exn => Ret (m, inl exn)
  | inr entry =>
      let* e := load_entry m entry in
      if readOnly e && writing then Ret (m, inl ReadOnlyException) else
      let pageFrame := u32 (physicalPage e) in
      if pageFrame >=? NumPhysPages then Ret (m, inl BusErrorException) else
      let* m' := store_entry m entry (mark_used e writing) in
      let physAddr := s32 (u32 (pageFrame * PageSize + offset)) in
      assert* (physAddr >=? 0) && (physAddr + size <=? MemorySize) in
      Ret (m', inr physAddr)
  end.

(** ** Physical memory, at the sizes [ReadMem] and [WriteMem] know *)

(** The [switch (size)] of [ReadMem]: a [char] is sign-extended, an [unsigned
    short] zero-extended, an [unsigned int] stored into an [int]. *)
Definition load_bytes (mem : list byte) (physicalAddress size : Z) : result Z :=
  if size =? 1 then
    let* b := zget mem physicalAddress in Ret (schar b)
  else if size =? 2 then
    let* bs := zslice mem physicalAddress 2 in Ret (ShortToHost (le_combine bs))
  else if size =? 4 then
    let* bs := zslice mem physicalAddress 4 in
    Ret (s32 (WordToHost (u32 (s32 (le_combine bs)))))
  else AssertFail.

(** The [switch (size)] of [WriteMem]. *)
Definition store_bytes (mem : list byte) (physicalAddress size value : Z)
    : result (list byte) :=
  if size =? 1 then zset mem physicalAddress (byte.of_Z (Z.land value 0xff))
  else if size =? 2 then
    zsplice mem physicalAddress
      (le_split 2 (ShortToMachine (u16 (Z.land value 0xffff))))
  else if size =? 4 then
    zsplice mem physicalAddress (le_split 4 (WordToMachine (u32 value)))
  else AssertFail.

(** ** Traps and virtual memory accesses *)

Section traps.
Context {K : Type}.
Variable ExceptionHandler : ExceptionType -> World K -> result (World K).

Definition RaiseException (w : World K) (which : ExceptionType) (badVAddr : Z)
    : result (World K) :=
  let* r := zset (registers (machine w)) BadVAddrReg badVAddr in
  let* m := DelayedLoad (set_registers (machine w) r) 0 0 in
  let w := setStatus (set_machine w m) SystemMode in
  let* w := ExceptionHandler which w in
  Ret (setStatus w UserMode).

(** [None]: returned FALSE; [Some v]: returned TRUE with [*value = v]. *)
Definition ReadMem (w : World K) (addr size : Z) : result (World K * option Z) :=
  let* (m, exception) := Translate (machine w) addr size false in
  let w := set_machine w m in
  match exception with
  | inl exn => let* w := RaiseException w exn addr in Ret (w, None)
  | inr physicalAddress =>
      let* value := load_bytes (mainMemory m) physicalAddress size in
      Ret (w, Some value)
  end.

Definition WriteMem (w : World K) (addr size value : Z) : result (World K * bool) :=
  let* (m, exception) := Translate (machine w) addr size true in
  let w := set_machine w m in
  match exception with
  | inl exn => let* w := RaiseException w exn addr in Ret (w, false)
  | inr physicalAddress =>
      let* mem := store_bytes (mainMemory m) physicalAddress size value in
      Ret (set_machine w (set_mainMemory m mem), true)
  end.
End traps.

(** ** Well-formed machines *)

(** The memory-management state: exactly one of TLB and page table, the latter at
    least as long as the hardware believes it is, and a full-size physical
    memory. *)
Record wf_mmu (m : Machine) : Prop := {
  wf_mem : Z.of_nat (length (mainMemory m)) = MemorySize;
  wf_tables :
    match tlb m, pageTable m with
    | Some t, None => Z.of_nat (length t) = TLBSize
    | None, Some pt => pageTableSize m <= Z.of_nat (length pt)
    | _, _ => False
    end
}.

(** The registers: forty [int]s, register 0 zero, and a delayed load, if one is
    pending, aimed at a general-purpose register. *)
Record wf_regs (m : Machine) : Prop := {
  wf_regs_len : length (registers m) = Z.to_nat NumTotalRegs;
  wf_regs_s32 : Forall is_s32 (registers m);
  wf_regs_zero : registers m !! 0%nat = Some 0;
  wf_regs_load : exists lr, registers m !! Z.to_nat LoadReg = Some lr /\ 0 <= lr < NumGPRegs
}.

(** ** The abstract MMU *)

(** The entry that translates virtual page [vpn]: the [vpn]-th of the used part of
    the page table, or the first valid one of the TLB for that page. *)
Definition mmu_lookup (m : Machine) (vpn : Z)
    : ExceptionType + (EntryPtr * TranslationEntry) :=
  match tlb m with
  | None =>
      match pageTable m ≫= (fun pt =>
              if decide (vpn < pageTableSize m) then pt !! Z.to_nat vpn else None) with
      | None => inl AddressErrorException
      | Some e => if valid e then inr (InPageTable vpn, e) else inl PageFaultException
      end
  | Some t =>
      match list_find (fun e => valid e = true /\ virtualPage e = vpn) t with
      | Some (i, e) => inr (InTLB (Z.of_nat i), e)
      | None => inl PageFaultException
      end
  end.

Definition vpn_of (virtAddr : Z) : Z := u32 virtAddr / PageSize.
Definition frame_of (e : TranslationEntry) : Z := u32 (physicalPage e).

Definition access_size (size : Z) : Prop := size = 1 \/ size = 2 \/ size = 4.

(** What an access does: fault, or use an entry for a physical address. *)
Definition mmu_access (m : Machine) (virtAddr size : Z) (writing : bool)
    : ExceptionType + (EntryPtr * TranslationEntry * Z) :=
  if decide (virtAddr mod size <> 0) then inl AddressErrorException else
  match mmu_lookup m (vpn_of virtAddr) with
  | inl exn => inl exn
  | inr (p, e) =>
      if readOnly e && writing then inl ReadOnlyException
      else if decide (NumPhysPages <= frame_of e) then inl BusErrorException
      else inr (p, e, frame_of e * PageSize + virtAddr mod PageSize)
  end.

(** Machines that differ in the use and dirty bits only. *)
Definition same_entry (e e' : TranslationEntry) : Prop :=
  virtualPage e' = virtualPage e /\ physicalPage e' = physicalPage e /\
  valid e' = valid e /\ readOnly e' = readOnly e.

Record same_mapping (m m' : Machine) : Prop := {
  sm_regs : registers m' = registers m;
  sm_mem : mainMemory m' = mainMemory m;
  sm_tlb : option_Forall2 (Forall2 same_entry) (tlb m) (tlb m');
  sm_pt : option_Forall2 (Forall2 same_entry) (pageTable m) (pageTable m');
  sm_size : pageTableSize m' = pageTableSize m
}.

#[export] Instance same_entry_equiv : Equivalence same_entry.
Proof.
  unfold same_entry. split.
  - by intros ?.
  - intros e e' (? & ? & ? & ?). done.
  - intros e1 e2 e3 (? & ? & ? & ?) (? & ? & ? & ?). repeat split; congruence.
Qed.

#[export] Instance same_mapping_refl : Reflexive same_mapping.
Proof. intros m. split; try done; by apply reflexivity. Qed.

#[export] Instance same_mapping_trans : Transitive same_mapping.
Proof.
  intros m1 m2 m3 [? ? Ht ? ?] [? ? Ht' ? ?]. split; try congruence; by etrans.
Qed.

(** ** Lemmas: construction *)

Lemma forZ_const {A} (x : A) (n : Z) (l : list A) : n = Z.of_nat (length l) ->
  forZ 0 n (fun i r => zset r i x) l = Ret (replicate (length l) x).
Proof.
  intros ->. rewrite (forZ_fill (fun _ => x)); [|done|].
  - f_equal. induction l; simpl; by f_equal.
  - intros i l' y Hlen ? Hl. apply lookup_lt_Some in Hl.
    by rewrite zset_in by lia.
Qed.

(** ** Lemmas: translation *)

Lemma misaligned_spec va size : access_size size ->
  misaligned va size = bool_decide (va mod size <> 0).
Proof.
  intros Hs. unfold misaligned.
  pose proof (Z.land_ones va 2 ltac:(lia)) as H2.
  change (Z.land va 3 = va mod 4) in H2.
  pose proof (Z.land_ones va 1 ltac:(lia)) as H1.
  change (Z.land va 1 = va mod 2) in H1. rewrite H1, H2.
  destruct Hs as [->|[->| ->]]; simpl.
  - by rewrite Z.mod_1_r.
  - destruct (Z.eqb_spec (va mod 2) 0);
      [rewrite bool_decide_eq_false_2|rewrite bool_decide_eq_true_2]; lia || done.
  - destruct (Z.eqb_spec (va mod 4) 0);
      [rewrite bool_decide_eq_false_2|rewrite bool_decide_eq_true_2]; lia || done.
Qed.

Lemma vpn_of_range va : 0 <= vpn_of va < 2 ^ 25.
Proof.
  unfold vpn_of, PageSize. pose proof (u32_range va) as [? ?].
  split; [apply Z.div_pos; lia|apply Z.div_lt_upper_bound; lia].
Qed.

Lemma offset_of va : u32 va mod PageSize = va mod PageSize.
Proof.
  unfold u32, PageSize. apply Z.mod_mod_divide. exists (2 ^ 25). lia.
Qed.

(** The TLB loop is [list_find]. *)
Lemma tlb_search_spec (t : list TranslationEntry) vpn :
  Z.of_nat (length t) = TLBSize -> 0 <= vpn < 2 ^ 25 ->
  searchZ 0 TLBSize (fun i =>
    let* e := zget t i in
    Ret (if valid e && (virtualPage e =? s32 vpn) then Some i else None)) =
  Ret (match list_find (fun e => valid e = true /\ virtualPage e = vpn) t with
       | Some (i, e) => Some (Z.of_nat i) | None => None end).
Proof.
  intros Ht Hv. rewrite s32_id by (unfold is_s32; lia).
  rewrite (searchZ_list_find (fun e => valid e = true /\ virtualPage e = vpn)
    (fun i _ => Z.of_nat i) t); [done|done|].
  intros i e He. rewrite (zget_lookup _ _ e), rbind_Ret by (lia || by rewrite Nat2Z.id).
  do 2 f_equal. destruct (valid e) eqn:?, (Z.eqb_spec (virtualPage e) vpn); case_decide;
    naive_solver.
Qed.

Lemma find_entry_spec m vpn : wf_mmu m -> 0 <= vpn < 2 ^ 25 ->
  find_entry m vpn =
  Ret (match mmu_lookup m vpn with inl x => inl x | inr (p, _) => inr p end).
Proof.
  intros [_ Ht] Hv. unfold find_entry, mmu_lookup.
  destruct (tlb m) as [t|] eqn:Etlb, (pageTable m) as [pt|] eqn:Ept; try done.
  - rewrite tlb_search_spec by done. simpl.
    by destruct (list_find _ t) as [[? ?]|].
  - unfold load_entry. simpl. rewrite Ept. rewrite Z.geb_leb.
    destruct (Z.leb_spec (pageTableSize m) vpn).
    + by rewrite decide_False by lia.
    + rewrite decide_True by lia. destruct (zget_spec pt vpn) as (e & -> & ->); [lia|]. simpl.
      by destruct (valid e).
Qed.

(** The entry a lookup finds can be read and written in place. *)
Lemma mmu_lookup_store m vpn p e : wf_mmu m -> 0 <= vpn ->
  mmu_lookup m vpn = inr (p, e) ->
  valid e = true /\ load_entry m p = Ret e /\
  forall e', same_entry e e' ->
    exists m', store_entry m p e' = Ret m' /\ wf_mmu m' /\ same_mapping m m'.
Proof.
  intros [Hmem Ht] Hv. unfold mmu_lookup, load_entry, store_entry.
  assert (Hins : forall (t : list TranslationEntry) (i : nat) e', t !! i = Some e -> same_entry e e' ->
    Forall2 same_entry t (<[i := e']> t)).
  { intros t i e' Hi He. rewrite <- (list_insert_id t i e) at 1 by done.
    apply Forall2_insert; [by apply reflexivity|done]. }
  destruct (tlb m) as [t|] eqn:Etlb, (pageTable m) as [pt|] eqn:Ept; try done; simpl.
  - destruct (list_find _ t) as [[i x]|] eqn:Hf; [|done]. intros [= <- <-].
    apply list_find_Some in Hf as (Hl & [? ?] & _).
    apply lookup_lt_Some in Hl as ?. simpl. rewrite Etlb. repeat split; [done| |].
    { apply zget_lookup; [lia|by rewrite Nat2Z.id]. }
    intros e' He. rewrite zset_in by lia. rewrite Nat2Z.id. simpl.
    eexists. split; [done|]. split; split; simpl; try done.
    + rewrite Ept. by rewrite length_insert.
    + rewrite Etlb. constructor. by apply Hins.
  - case_decide; [|done]. destruct (pt !! Z.to_nat vpn) as [x|] eqn:Hl; [|done].
    destruct (valid x) eqn:Hvx; [|done]. intros [= <- <-].
    apply lookup_lt_Some in Hl as ?. simpl. rewrite Ept. repeat split; [done| |].
    { by apply zget_lookup. }
    intros e' He. rewrite zset_in by lia. simpl.
    eexists. split; [done|]. split; split; simpl; try done.
    + rewrite Etlb. by rewrite length_insert.
    + rewrite Ept. constructor. by apply Hins.
Qed.

(** An aligned access stays inside its page. *)
Lemma access_in_page va size : access_size size -> va mod size = 0 ->
  0 <= va mod PageSize /\ va mod PageSize + size <= PageSize /\
  (va mod PageSize) mod size = 0.
Proof.
  intros Hs Ha.
  assert (Hm : (va mod PageSize) mod size = 0).
  { rewrite Z.mod_mod_divide; [done|]. unfold PageSize.
    destruct Hs as [->|[->| ->]]; [exists 128|exists 64|exists 32]; lia. }
  pose proof (Z.mod_pos_bound va PageSize) as Hb. unfold PageSize in *.
  split; [lia|]. split; [|done].
  pose proof (Z.div_mod (va mod 128) size). destruct Hs as [->|[->| ->]]; lia.
Qed.

(** The refinement: on a well-formed machine [Translate] returns, and it is the
    abstract access, with the entry's use and dirty bits recorded. *)
Lemma Translate_spec m va size writing :
  wf_mmu m -> access_size size ->
  exists m', wf_mmu m' /\ same_mapping m m' /\
  match mmu_access m va size writing with
  | inl exn => m' = m /\ Translate m va size writing = Ret (m, inl exn)
  | inr (p, e, pa) =>
      store_entry m p (mark_used e writing) = Ret m' /\
      Translate m va size writing = Ret (m', inr pa) /\
      0 <= pa /\ pa + size <= MemorySize /\ pa mod size = 0 /\
      pa / PageSize = frame_of e
  end.
Proof.
  intros Hwf Hs. unfold mmu_access, Translate. rewrite misaligned_spec by done.
  destruct (decide (va mod size <> 0)) as [Hm|Hm].
  { rewrite bool_decide_eq_true_2 by done. exists m. repeat split; try apply Hwf; by apply reflexivity. }
  rewrite bool_decide_eq_false_2 by done.
  assert (Hal : va mod size = 0) by (destruct (Z.eq_dec (va mod size) 0); tauto).
  destruct (access_in_page va size Hs Hal) as (Ho1 & Ho2 & Ho3).
  assert (Ha : ASSERT (is_null (tlb m) || is_null (pageTable m)) = Ret tt /\
    ASSERT (negb (is_null (tlb m)) || negb (is_null (pageTable m))) = Ret tt).
  { destruct Hwf as [_ Ht]. by destruct (tlb m), (pageTable m). }
  destruct Ha as [-> ->]. rewrite !rbind_Ret.
  rewrite find_entry_spec by (done || apply vpn_of_range). rewrite rbind_Ret.
  fold (vpn_of va).
  destruct (mmu_lookup m (vpn_of va)) as [exn|[p e]] eqn:Hl.
  { exists m. by split; [|split; [apply reflexivity|]]. }
  pose proof (vpn_of_range va) as Hv.
  destruct (mmu_lookup_store m (vpn_of va) p e Hwf ltac:(lia) Hl) as (Hve & -> & Hst).
  rewrite rbind_Ret.
  destruct (readOnly e && writing).
  { exists m. by split; [|split; [apply reflexivity|]]. }
  rewrite Z.geb_leb. fold (frame_of e). pose proof (u32_range (physicalPage e)) as Hf.
  fold (frame_of e) in Hf. unfold is_u32 in Hf.
  destruct (decide (NumPhysPages <= frame_of e)) as [Hb|Hb].
  { rewrite (proj2 (Z.leb_le _ _)) by done.
    exists m. by split; [|split; [apply reflexivity|]]. }
  rewrite (proj2 (Z.leb_gt _ _)) by lia.
  destruct (Hst (mark_used e writing)) as (m' & Hm' & Hwf' & Hsm); [done|].
  exists m'. split; [done|]. split; [done|]. split; [done|].
  rewrite Hm', rbind_Ret, offset_of. unfold NumPhysPages, PageSize in *.
  pose proof (Z.mod_pos_bound va 128 ltac:(lia)).
  rewrite u32_id by (unfold is_u32; lia). rewrite s32_id by (unfold is_s32; lia).
  unfold MemorySize, NumPhysPages, PageSize. rewrite Z.geb_leb.
  rewrite !(proj2 (Z.leb_le _ _)) by lia. simpl. repeat split; try lia.
  - rewrite Z.add_mod by (destruct Hs as [->|[->| ->]]; lia).
    rewrite Ho3, Z.mul_mod by (destruct Hs as [->|[->| ->]]; lia).
    replace (128 mod size) with 0 by (destruct Hs as [->|[->| ->]]; done).
    by rewrite Z.mul_0_r, !Z.mod_0_l by (destruct Hs as [->|[->| ->]]; lia).
  - rewrite Z.div_add_l by lia. rewrite Z.div_small; lia.
Qed.

Lemma list_find_same (t t' : list TranslationEntry) vpn : Forall2 same_entry t t' ->
  let P := fun e => valid e = true /\ virtualPage e = vpn in
  option_Forall2 (fun x y => x.1 = y.1 /\ same_entry x.2 y.2)
    (list_find P t) (list_find P t').
Proof.
  intros H P. induction H as [|e e' t t' He Ht IH]; simpl; [constructor|].
  pose proof He as (Hv & Hp & Hval & Hro).
  destruct (decide (P e)) as [HP|HP], (decide (P e')) as [HP'|HP']; unfold P in *.
  - by constructor.
  - exfalso. apply HP'. by rewrite Hval, Hv.
  - exfalso. apply HP. by rewrite <- Hval, <- Hv.
  - inversion IH as [[i x] [j y] [Hij Hxy] E1 E2|E1 E2]; constructor; simpl in *.
    split; [lia|done].
Qed.

(** Use and dirty bits do not matter to an access. *)
Lemma mmu_lookup_same m m' vpn : same_mapping m m' ->
  match mmu_lookup m vpn, mmu_lookup m' vpn with
  | inl x, inl y => x = y
  | inr (p, e), inr (p', e') => p = p' /\ same_entry e e'
  | _, _ => False
  end.
Proof.
  intros [_ _ Ht Hp Hsz]. unfold mmu_lookup.
  inversion Ht as [t t' HF E1 E2|E1 E2].
  - pose proof (list_find_same t t' vpn HF) as Hl. simpl in Hl.
    inversion Hl as [[i x] [j y] [Hij Hxy] F1 F2|F1 F2]; simpl in *; [by subst|done].
  - inversion Hp as [t t' HF F1 F2|F1 F2]; simpl; [|done].
    rewrite Hsz. case_decide; [|done]. destruct (t !! Z.to_nat vpn) as [e|] eqn:He.
    + destruct (Forall2_lookup_l _ _ _ _ _ HF He) as (e' & -> & Hee).
      pose proof Hee as (_ & _ & -> & _). by destruct (valid e).
    + apply lookup_ge_None in He. rewrite (Forall2_length _ _ _ HF) in He.
      by rewrite lookup_ge_None_2.
Qed.

Lemma mmu_access_same m m' va size writing : same_mapping m m' ->
  match mmu_access m va size writing, mmu_access m' va size writing with
  | inl x, inl y => x = y
  | inr (p, e, pa), inr (p', e', pa') => p = p' /\ same_entry e e' /\ pa = pa'
  | _, _ => False
  end.
Proof.
  intros H. unfold mmu_access. case_decide; [done|].
  pose proof (mmu_lookup_same m m' (vpn_of va) H) as Hl.
  destruct (mmu_lookup m _) as [x|[p e]], (mmu_lookup m' _) as [y|[p' e']]; try done.
  destruct Hl as [-> Hee]. pose proof Hee as (_ & Hf & _ & Hr).
  unfold frame_of. rewrite Hf, Hr.
  destruct (readOnly e && writing); [done|]. by case_decide.
Qed.

Lemma mmu_access_exn m va size writing exn :
  mmu_access m va size writing = inl exn -> exn <> SyscallException.
Proof. unfold mmu_access, mmu_lookup. repeat case_match; naive_solver. Qed.

(** What may be written may be read, at the same place. *)
Lemma mmu_access_read m va size p e pa :
  mmu_access m va size true = inr (p, e, pa) -> mmu_access m va size false = inr (p, e, pa).
Proof.
  unfold mmu_access. case_decide; [done|].
  destruct (mmu_lookup m _) as [|[p' e']]; [done|].
  by destruct (readOnly e').
Qed.

(** ** Lemmas: physical memory *)

(** The value read back after a store of [v] at the given size. *)
Definition stored_value (size v : Z) : Z :=
  if size =? 1 then (v + 2 ^ 7) mod 2 ^ 8 - 2 ^ 7
  else if size =? 2 then v mod 2 ^ 16 else s32 v.

Lemma store_bytes_spec mem pa size v :
  access_size size -> 0 <= pa -> pa + size <= Z.of_nat (length mem) ->
  exists mem', store_bytes mem pa size v = Ret mem' /\ length mem' = length mem /\
    load_bytes mem' pa size = Ret (stored_value size v) /\
    forall i, (i < Z.to_nat pa \/ Z.to_nat (pa + size) <= i)%nat -> mem' !! i = mem !! i.
Proof.
  intros Hs Hpa Hle. unfold store_bytes, load_bytes, stored_value.
  unfold ShortToHost, ShortToMachine, WordToMachine, ShortToHost, WordToHost.
  destruct Hs as [->|[->| ->]]; simpl.
  - rewrite zset_in by lia. eexists. split; [done|]. rewrite length_insert.
    split; [done|]. split.
    + erewrite zget_lookup; [|lia|apply list_lookup_insert_eq; lia]. simpl.
      change 255 with (Z.ones 8). rewrite Z.land_ones by lia.
      rewrite schar_of_Z. f_equal. change (Z.pow_pos 2 8) with (2 ^ 8).
      rewrite Zplus_mod_idemp_l. done.
    + intros i Hi. apply list_lookup_insert_ne. lia.
  - change 65535 with (Z.ones 16). rewrite Z.land_ones by lia.
    unfold u16. rewrite Z.mod_mod by lia. set (x := v mod 2 ^ 16).
    pose proof (length_le_split 2 x) as Hlen.
    rewrite zsplice_in by lia. eexists. split; [done|].
    rewrite length_splice by lia. split; [done|]. split.
    + rewrite zslice_in by (rewrite ?length_splice; lia).
      change (Z.to_nat 2) with 2%nat. rewrite <- Hlen at 1.
      rewrite splice_slice by lia. simpl. rewrite le_combine_split. f_equal.
      unfold x. by rewrite Z.mod_mod.
    + intros i Hi. apply lookup_splice_out; lia.
  - pose proof (length_le_split 4 (u32 v)) as Hlen.
    rewrite zsplice_in by lia. eexists. split; [done|].
    rewrite length_splice by lia. split; [done|]. split.
    + rewrite zslice_in by (rewrite ?length_splice; lia).
      change (Z.to_nat 4) with 4%nat. rewrite <- Hlen at 1.
      rewrite splice_slice by lia. simpl. rewrite le_combine_split.
      rewrite s32_u32, (s32_id (s32 _)) by apply s32_range.
      by rewrite (Z.mod_small (u32 v)), s32_u32 by apply u32_range.
    + intros i Hi. apply lookup_splice_out; lia.
Qed.

Lemma load_bytes_spec mem pa size :
  access_size size -> 0 <= pa -> pa + size <= Z.of_nat (length mem) ->
  exists v, load_bytes mem pa size = Ret v /\ is_s32 v /\
  forall mem', length mem' = length mem ->
    (forall i, (Z.to_nat pa <= i < Z.to_nat (pa + size))%nat -> mem' !! i = mem !! i) ->
    load_bytes mem' pa size = Ret v.
Proof.
  intros Hs Hpa Hle.
  assert (Hsl : forall n (mem' : list byte), n = Z.to_nat size ->
    length mem' = length mem ->
    (forall i, (Z.to_nat pa <= i < Z.to_nat (pa + size))%nat -> mem' !! i = mem !! i) ->
    take n (drop (Z.to_nat pa) mem') = take n (drop (Z.to_nat pa) mem)).
  { intros n mem' -> Hlen Heq. apply list_eq. intros i.
    destruct (decide (i < Z.to_nat size)%nat).
    - rewrite !lookup_take_lt by lia. rewrite !lookup_drop. apply Heq. lia.
    - by rewrite !lookup_take_ge by lia. }
  unfold load_bytes, ShortToHost, WordToHost. destruct Hs as [->|[->| ->]]; simpl.
  - destruct (zget_spec mem pa) as (b & -> & Hb); [lia|]. simpl.
    eexists. split; [done|]. split; [pose proof (schar_range b); unfold is_s32; lia|].
    intros mem' Hlen Heq. by rewrite (zget_lookup _ _ b); [|lia|rewrite Heq; [done|lia]].
  - rewrite zslice_in by lia. simpl. eexists. split; [done|]. split.
    { pose proof (le_combine_bound (take 2 (drop (Z.to_nat pa) mem))) as Hb.
      rewrite length_take, length_drop, Nat.min_l in Hb by lia. unfold is_s32.
      change (2 ^ (8 * Z.of_nat 2)) with 65536 in Hb. change (Z.to_nat 2) with 2%nat. lia. }
    intros mem' Hlen Heq. rewrite zslice_in by lia. simpl. by rewrite (Hsl 2%nat).
  - rewrite zslice_in by lia. simpl. eexists. split; [done|].
    split; [apply s32_range|].
    intros mem' Hlen Heq. rewrite zslice_in by lia. simpl. by rewrite (Hsl 4%nat).
Qed.

(** ** Lemmas: virtual memory accesses *)

Section accesses.
Context {K : Type}.
Variable ExceptionHandler : ExceptionType -> World K -> result (World K).
Implicit Types (w : World K).

Lemma ReadMem_spec w addr size :
  wf_mmu (machine w) -> access_size size ->
  exists m', wf_mmu m' /\ same_mapping (machine w) m' /\
  match mmu_access (machine w) addr size false with
  | inl exn =>
      ReadMem ExceptionHandler w addr size =
      let* w' := RaiseException ExceptionHandler w exn addr in Ret (w', None)
  | inr (_, _, pa) =>
      0 <= pa /\ pa + size <= MemorySize /\
      exists v, is_s32 v /\ load_bytes (mainMemory (machine w)) pa size = Ret v /\
        ReadMem ExceptionHandler w addr size = Ret (set_machine w m', Some v)
  end.
Proof.
  intros Hwf Hs. unfold ReadMem.
  destruct (Translate_spec (machine w) addr size false Hwf Hs) as (m' & Hwf' & Hsm & H).
  exists m'. split; [done|]. split; [done|].
  destruct (mmu_access _ _ _ _) as [exn|[[p e] pa]].
  - destruct H as [-> ->]. simpl. destruct w; done.
  - destruct H as (_ & -> & ? & ? & _ & _). do 2 (split; [done|]). simpl.
    rewrite (sm_mem _ _ Hsm). pose proof (wf_mem _ Hwf).
    destruct (load_bytes_spec (mainMemory (machine w)) pa size) as (v & Hv & ? & _);
      [done|lia|lia|].
    exists v. by rewrite Hv.
Qed.

Lemma WriteMem_spec w addr size value :
  wf_mmu (machine w) -> access_size size ->
  match mmu_access (machine w) addr size true with
  | inl exn =>
      WriteMem ExceptionHandler w addr size value =
      let* w' := RaiseException ExceptionHandler w exn addr in Ret (w', false)
  | inr (_, e, pa) =>
      exists m' mem', wf_mmu (set_mainMemory m' mem') /\ same_mapping (machine w) m' /\
        WriteMem ExceptionHandler w addr size value =
          Ret (set_machine w (set_mainMemory m' mem'), true) /\
        store_bytes (mainMemory (machine w)) pa size value = Ret mem' /\
        0 <= pa /\ pa + size <= MemorySize /\ pa / PageSize = frame_of e /\
        pa mod size = 0
  end.
Proof.
  intros Hwf Hs. unfold WriteMem.
  destruct (Translate_spec (machine w) addr size true Hwf Hs) as (m' & Hwf' & Hsm & H).
  destruct (mmu_access _ _ _ _) as [exn|[[p e] pa]].
  - destruct H as [-> ->]. simpl. destruct w; done.
  - destruct H as (_ & -> & ? & ? & ? & ?). simpl.
    rewrite (sm_mem _ _ Hsm). pose proof (wf_mem _ Hwf).
    destruct (store_bytes_spec (mainMemory (machine w)) pa size value)
      as (mem' & Hm & Hlen & _ & _); [done|lia|lia|].
    exists m', mem'. rewrite Hm. simpl. repeat split; try done; simpl.
    + by rewrite Hlen.
    + apply Hwf'.
    + apply Hsm.
    + apply Hsm.
    + apply Hsm.
    + apply Hsm.
    + apply Hsm.
Qed.
End accesses.

(** A frame that the program may write. *)
Definition writable_frame (m : Machine) (frame : Z) : Prop :=
  exists vpn p e, mmu_lookup m vpn = inr (p, e) /\ frame_of e = frame /\ readOnly e = false.

(** A store through a translation changes only a frame that may be written. *)
Lemma store_outside m addr size p e pa value mem' i : access_size size -> Z.of_nat (length (mainMemory m)) = MemorySize ->
  mmu_access m addr size true = inr (p, e, pa) -> store_bytes (mainMemory m) pa size value = Ret mem' ->
  0 <= pa -> pa + size <= MemorySize -> pa / PageSize = frame_of e -> pa mod size = 0 ->
  ~ writable_frame m (Z.of_nat i / PageSize) -> mem' !! i = mainMemory m !! i.
Proof.
  intros Hs Hlen Ha Hst H0 Hle Hfr Hal Hnot.
  assert (Hne : frame_of e <> Z.of_nat i / PageSize).
  { intros Hf. apply Hnot. revert Ha. unfold mmu_access. case_decide; [done|].
    destruct (mmu_lookup m (vpn_of addr)) as [|[p' e']] eqn:Hl; [done|].
    destruct (readOnly e') eqn:Hro; simpl; [done|]. case_decide; [done|].
    intros [= -> -> _]. by exists (vpn_of addr), p, e. }
  destruct (store_bytes_spec (mainMemory m) pa size value) as (mem & Hst' & _ & _ & Hout); [done|lia|lia|].
  rewrite Hst in Hst'. injection Hst' as <-. apply Hout.
  destruct (access_in_page pa size Hs Hal) as (? & ? & _).
  pose proof (Z.div_mod pa PageSize ltac:(unfold PageSize; lia)).
  pose proof (Z.div_mod (Z.of_nat i) PageSize ltac:(unfold PageSize; lia)).
  pose proof (Z.mod_pos_bound (Z.of_nat i) PageSize ltac:(unfold PageSize; lia)).
  rewrite Hfr in *. unfold PageSize in *. lia.
Qed.

Lemma same_mapping_set_mem m m' mem' : same_mapping m m' ->
  mainMemory m = mem' -> same_mapping m (set_mainMemory m' mem').
Proof. intros [? ? ? ? ?] ?. by split. Qed.

Lemma mmu_access_mem m mem va size writing :
  mmu_access (set_mainMemory m mem) va size writing = mmu_access m va size writing.
Proof. done. Qed.

(** ** Claims *)

(** The constructor returns a machine whose registers and memory are all
    zero, whatever the allocated storage held, whose registers are well formed
    and which has an empty TLB or none. *)
Theorem new_Machine_clear g_regs g_mem g_tlb g_ptsize g_until USE_TLB debug :
  exists m, new_Machine g_regs g_mem g_tlb g_ptsize g_until USE_TLB debug = Ret m /\
    wf_regs m /\ Forall (eq 0) (registers m) /\
    mainMemory m = replicate (Z.to_nat MemorySize) (byte.of_Z 0) /\
    pageTable m = None /\ (USE_TLB = false -> tlb m = None) /\
    (USE_TLB = true -> wf_mmu m /\ forall vpn, mmu_lookup m vpn = inl PageFaultException).
Proof.
  unfold new_Machine.
  assert (Hr : forall l : list Z, Z.of_nat (length l) = NumTotalRegs ->
    forZ 0 NumTotalRegs (fun i r => zset r i 0) l = Ret (replicate (length l) 0))
    by (intros; by apply forZ_const).
  assert (Hm : forall l : list byte, Z.of_nat (length l) = MemorySize ->
    forZ 0 MemorySize (fun i r => zset r i (byte.of_Z 0)) l =
    Ret (replicate (length l) (byte.of_Z 0))) by (intros; by apply forZ_const).
  rewrite Hr by (rewrite length_uninit; done). rewrite rbind_Ret, length_uninit.
  rewrite Hm by (rewrite length_uninit, Z2Nat.id; [done|unfold MemorySize, NumPhysPages, PageSize; lia]).
  rewrite rbind_Ret, length_uninit. clear Hr Hm.
  assert (Hce : CheckEndian = Ret tt) by (vm_compute; reflexivity).
  rewrite Hce.
  set (mem := replicate (Z.to_nat MemorySize) (byte.of_Z 0)).
  assert (Hmem : Z.of_nat (length mem) = MemorySize).
  { unfold mem. rewrite length_replicate, Z2Nat.id; [done|].
    unfold MemorySize, NumPhysPages, PageSize. lia. }
  clearbody mem.
  assert (Hregs : forall t, wf_regs (mkMachine (replicate (Z.to_nat NumTotalRegs) 0)
    mem t None g_ptsize debug g_until)).
  { intros t. split; simpl; [done|repeat constructor; unfold is_s32; lia|done|by exists 0]. }
  assert (Hz : Forall (eq 0) (replicate (Z.to_nat NumTotalRegs) 0)) by (by repeat constructor).
  destruct USE_TLB; [|simpl; eexists; by repeat split; try apply Hregs].
  rewrite (forZ_fill (fun e => mkEntry (virtualPage e) (physicalPage e) false
    (readOnly e) (use e) (dirty e))).
  - simpl. eexists. do 6 (split; [done|]). intros _. split; [by split|].
    intros vpn. done.
  - by rewrite length_uninit.
  - intros i l' x ? ? Hl. rewrite (zget_lookup _ _ _ ltac:(done) Hl). simpl.
    apply lookup_lt_Some in Hl. by rewrite zset_in by lia.
Qed.

(** C16: [Translate] on a well-formed machine, for an access of 1, 2 or 4 bytes,
    always returns, so neither of its assertions fires; the physical address it
    gives lies with all its bytes inside memory, is aligned, keeps the offset in
    the page and falls in the frame of a valid entry that permits the access;
    only use and dirty bits change, and nothing changes on an exception. *)
Theorem translate_safe m virtAddr size writing :
  wf_mmu m -> access_size size ->
  exists m' r, Translate m virtAddr size writing = Ret (m', r) /\
    wf_mmu m' /\ same_mapping m m' /\
    match r with
    | inr pa =>
        0 <= pa /\ pa + size <= MemorySize /\ pa mod size = 0 /\
        pa mod PageSize = virtAddr mod PageSize /\
        exists p e, mmu_lookup m (vpn_of virtAddr) = inr (p, e) /\ valid e = true /\
          pa / PageSize = frame_of e /\ (readOnly e = true -> writing = false) /\
          load_entry m' p = Ret (mark_used e writing)
    | inl exn => m' = m /\
        (exn = AddressErrorException \/ exn = PageFaultException \/
         exn = ReadOnlyException \/ exn = BusErrorException)
    end.
Proof.
  intros Hwf Hs. destruct (Translate_spec m virtAddr size writing Hwf Hs)
    as (m' & Hwf' & Hsm & H).
  destruct (mmu_access m virtAddr size writing) as [exn|[[p e] pa]] eqn:Ha.
  - destruct H as [-> HT]. exists m, (inl exn). do 4 (split; [done|]).
    unfold mmu_access, mmu_lookup in Ha. repeat case_match; naive_solver.
  - destruct H as (Hst & HT & ? & ? & ? & ?). exists m', (inr pa).
    do 6 (split; [done|]). revert Ha. unfold mmu_access. case_decide; [done|].
    destruct (mmu_lookup m _) as [|[p' e']] eqn:Hl; [done|].
    destruct (readOnly e' && writing) eqn:Hro; [done|]. case_decide; [done|].
    intros [= -> -> <-]. split.
    { unfold PageSize. rewrite Z.add_comm, Z_mod_plus_full. by rewrite Z.mod_mod. }
    exists p, e. pose proof (vpn_of_range virtAddr).
    destruct (mmu_lookup_store m (vpn_of virtAddr) p e Hwf ltac:(lia) Hl) as (? & ? & _).
    do 3 (split; [done|]). split; [by intros Hr; rewrite Hr in Hro|].
    revert Hst. unfold store_entry, load_entry.
    destruct p as [i|i], (tlb m) eqn:Et, (pageTable m) eqn:Ep; try done; simpl;
      intros Hst; inv_bind Hst; injection Hst as <-; simpl;
      apply zset_Ret in E as [? ->]; apply zget_lookup; first [lia|apply list_lookup_insert_eq; lia].
Qed.

(** With a page table, [Translate] raises each exception exactly when it
    should: an address error for a misaligned address or a page beyond the
    table, a page fault for an invalid entry, a read-only fault for a write to
    a protected page, a bus error for a frame outside physical memory; in all
    other cases it translates. *)
Theorem translate_exceptions m pt virtAddr size writing :
  wf_mmu m -> access_size size -> tlb m = None -> pageTable m = Some pt ->
  let vpn := vpn_of virtAddr in
  let raises exn := exists m', Translate m virtAddr size writing = Ret (m', inl exn) in
  let entry P := vpn < pageTableSize m /\ exists e, pt !! Z.to_nat vpn = Some e /\ P e in
  (raises AddressErrorException <-> virtAddr mod size <> 0 \/ pageTableSize m <= vpn) /\
  (raises PageFaultException <-> virtAddr mod size = 0 /\ entry (fun e => valid e = false)) /\
  (raises ReadOnlyException <-> virtAddr mod size = 0 /\ writing = true /\
     entry (fun e => valid e = true /\ readOnly e = true)) /\
  (raises BusErrorException <-> virtAddr mod size = 0 /\
     entry (fun e => valid e = true /\ (readOnly e = true -> writing = false) /\
                     NumPhysPages <= frame_of e)) /\
  ((exists m' pa, Translate m virtAddr size writing = Ret (m', inr pa)) <->
     virtAddr mod size = 0 /\
     entry (fun e => valid e = true /\ (readOnly e = true -> writing = false) /\
                     frame_of e < NumPhysPages)).
Proof.
  intros Hwf Hs Ht Hpt vpn raises entry. unfold raises, entry. clear raises entry.
  destruct (Translate_spec m virtAddr size writing Hwf Hs) as (m' & _ & _ & H).
  pose proof (wf_tables m Hwf) as Hlen. rewrite Ht, Hpt in Hlen.
  pose proof (vpn_of_range virtAddr) as Hv. fold vpn in Hv.
  unfold mmu_access in H. fold vpn in H. case_decide as Hm.
  { destruct H as [_ ->]. repeat split; intros; destr_ctx; try done; eauto. }
  assert (Hal : virtAddr mod size = 0) by (destruct (Z.eq_dec (virtAddr mod size) 0); tauto).
  revert H. unfold mmu_lookup. rewrite Ht, Hpt. simpl.
  destruct (decide (vpn < pageTableSize m)) as [Hsz|Hsz].
  2:{ intros [_ ->]. repeat split; intros; destr_ctx; try done; eauto; right; lia. }
  destruct (pt !! Z.to_nat vpn) as [e|] eqn:Hl.
  2:{ apply lookup_ge_None in Hl. intros [_ ->].
      repeat split; intros; destr_ctx; try done; eauto. right. lia. }
  apply lookup_lt_Some in Hl as Hlt.
  destruct (valid e) eqn:Hve.
  2:{ intros [_ ->]. repeat split; intros; destr_ctx; simplify_eq; try done; eauto 8; try lia; try congruence; naive_solver lia. }
  destruct (readOnly e) eqn:Hro, writing; simpl; try case_decide; intros HT; destr_ctx;
    repeat match goal with H : Translate _ _ _ _ = _ |- _ => rewrite H; clear H end;
    repeat split; intros; destr_ctx; simplify_eq; try done; eauto 8; try lia; try congruence; first [naive_solver | exists e; split_and!; first [done|congruence|lia]].
Qed.

(** Whenever the MMU permits a write, [WriteMem] succeeds, [ReadMem] of the
    same address and size then succeeds and gives the value as that size stores
    it, and a read of any address whose bytes lie elsewhere in physical memory
    gives what it gave before. *)
Theorem write_then_read {K} (handler : ExceptionType -> World K -> result (World K))
    (w : World K) addr size value p e pa :
  wf_mmu (machine w) -> access_size size ->
  mmu_access (machine w) addr size true = inr (p, e, pa) ->
  exists w', WriteMem handler w addr size value = Ret (w', true) /\ wf_mmu (machine w') /\
    (exists w'', ReadMem handler w' addr size = Ret (w'', Some (stored_value size value))) /\
    forall addr2 size2 p2 e2 pa2, access_size size2 ->
      mmu_access (machine w) addr2 size2 false = inr (p2, e2, pa2) ->
      pa2 + size2 <= pa \/ pa + size <= pa2 ->
      exists v w1 w2, ReadMem handler w addr2 size2 = Ret (w1, Some v) /\
                      ReadMem handler w' addr2 size2 = Ret (w2, Some v).
Proof.
  intros Hwf Hs Ha. pose proof (wf_mem _ Hwf) as Hlen.
  pose proof (WriteMem_spec handler w addr size value Hwf Hs) as HW. rewrite Ha in HW.
  destruct HW as (m' & mem' & Hwf' & Hsm & HW & Hst & ? & ? & _ & _).
  destruct (store_bytes_spec (mainMemory (machine w)) pa size value)
    as (mem & Hst' & Hlen' & Hload & Hout); [done|lia|lia|].
  rewrite Hst in Hst'. injection Hst' as <-.
  eexists. split; [exact HW|]. split; [done|].
  assert (Hacc : forall a s p e pa, mmu_access (machine w) a s false = inr (p, e, pa) ->
    exists e', mmu_access (set_mainMemory m' mem') a s false = inr (p, e', pa)).
  { intros a s p' e' pa' H'. rewrite mmu_access_mem.
    pose proof (mmu_access_same (machine w) m' a s false Hsm) as HS. rewrite H' in HS.
    destruct (mmu_access m' a s false) as [|[[p1 e1] pa1]]; [done|].
    destruct HS as (-> & _ & ->). eauto. }
  set (w' := set_machine w (set_mainMemory m' mem')). split.
  - apply mmu_access_read in Ha. apply Hacc in Ha as [e' Ha].
    destruct (ReadMem_spec handler w' addr size Hwf' Hs) as (m2 & _ & _ & HR).
    unfold w' in HR at 1. simpl machine in HR. rewrite Ha in HR.
    destruct HR as (_ & _ & v & _ & Hv & HR). simpl in Hv. rewrite Hload in Hv.
    injection Hv as <-. eauto.
  - intros a2 s2 p2 e2 pa2 Hs2 Ha2 Hdisj.
    destruct (ReadMem_spec handler w a2 s2 Hwf Hs2) as (m1 & _ & _ & HR1).
    rewrite Ha2 in HR1. destruct HR1 as (? & ? & v & _ & Hv & HR1).
    apply Hacc in Ha2 as [e' Ha2].
    destruct (ReadMem_spec handler w' a2 s2 Hwf' Hs2) as (m2 & _ & _ & HR).
    unfold w' in HR at 1. simpl machine in HR. rewrite Ha2 in HR.
    destruct HR as (_ & _ & v' & _ & Hv' & HR). simpl in Hv'.
    destruct (load_bytes_spec (mainMemory (machine w)) pa2 s2) as (v0 & Hv0 & _ & Hsame);
      [done|lia|lia|].
    rewrite Hv in Hv0. injection Hv0 as <-.
    rewrite Hsame in Hv'; [|done|intros i Hi; apply Hout; destruct Hs2 as [->|[->| ->]];
      destruct Hs as [->|[->| ->]]; lia].
    injection Hv' as <-. eauto.
Qed.

(** Memory protection.  A frame that no valid, writable entry maps keeps its
    contents across every [WriteMem]: the write either traps before memory is
    touched or succeeds outside the frame; a write to a read-only page always
    traps with a read-only fault. *)
Theorem write_isolation {K} (handler : ExceptionType -> World K -> result (World K))
    (w : World K) addr size value frame :
  wf_mmu (machine w) -> access_size size ->
  (forall vpn p e, mmu_lookup (machine w) vpn = inr (p, e) -> frame_of e = frame ->
     readOnly e = true) ->
  ((exists exn, WriteMem handler w addr size value =
      let* w' := RaiseException handler w exn addr in Ret (w', false)) \/
   (exists w', WriteMem handler w addr size value = Ret (w', true) /\
      forall i, Z.of_nat i / PageSize = frame ->
        mainMemory (machine w') !! i = mainMemory (machine w) !! i)) /\
  (forall p e, addr mod size = 0 -> mmu_lookup (machine w) (vpn_of addr) = inr (p, e) ->
     readOnly e = true ->
     WriteMem handler w addr size value =
       let* w' := RaiseException handler w ReadOnlyException addr in Ret (w', false)).
Proof.
  intros Hwf Hs Hprot. pose proof (wf_mem _ Hwf) as Hlen.
  pose proof (WriteMem_spec handler w addr size value Hwf Hs) as HW. split.
  - destruct (mmu_access (machine w) addr size true) as [exn|[[p e] pa]] eqn:Ha;
      [left; eauto|right].
    destruct HW as (m' & mem' & _ & _ & HW & Hst & ? & ? & Hfr & Hal).
    eexists. split; [exact HW|]. intros i Hi. simpl.
    apply (store_outside (machine w) addr size p e pa value); try done.
    rewrite Hi. intros (vpn & p' & e' & Hl & Hf & Hro). by rewrite (Hprot vpn p' e') in Hro.
  - intros p e Hal Hl Hro. unfold mmu_access in HW.
    rewrite decide_False, Hl, Hro in HW by lia. done.
Qed.

(** The TLB caches the page table: each valid entry is the page table's entry for its
    page, up to use and dirty bits. *)
Definition caches (t pt : list TranslationEntry) (n : Z) : Prop :=
  forall e, e ∈ t -> valid e = true -> 0 <= virtualPage e < n /\
    exists e', pt !! Z.to_nat (virtualPage e) = Some e' /\ same_entry e e'.

Lemma mark_used_same e writing : same_entry e (mark_used e writing).
Proof. by repeat split. Qed.

(** Recording an access in both keeps the cache right. *)
Lemma caches_mark t pt n i e e2 writing : caches t pt n -> t !! i = Some e -> valid e = true ->
  pt !! Z.to_nat (virtualPage e) = Some e2 ->
  caches (<[i := mark_used e writing]> t) (<[Z.to_nat (virtualPage e) := mark_used e2 writing]> pt) n.
Proof.
  intros Hc Hi Hv He2 x Hx Hvx.
  assert (Hold : exists y, y ∈ t /\ same_entry x y).
  { apply list_elem_of_lookup in Hx as [j Hj]. destruct (decide (i = j)) as [<-|Hne].
    - rewrite list_lookup_insert_eq in Hj by (by eapply lookup_lt_Some). injection Hj as <-.
      exists e. split; [by eapply list_elem_of_lookup_2|]. by repeat split.
    - rewrite list_lookup_insert_ne in Hj by done. exists x. split; [by eapply list_elem_of_lookup_2|by repeat split]. }
  destruct Hold as (y & Hy & Hs1 & Hs2 & Hs3 & Hs4). rewrite <- Hs1.
  destruct (Hc y Hy ltac:(congruence)) as (Hr & z & Hz & Hs5 & Hs6 & Hs7 & Hs8). split; [done|].
  destruct (decide (Z.to_nat (virtualPage e) = Z.to_nat (virtualPage y))) as [Heq|Hne].
  - rewrite <- Heq, list_lookup_insert_eq by (by eapply lookup_lt_Some). eexists. split; [done|].
    rewrite <- Heq, He2 in Hz. injection Hz as <-. repeat split; simpl; congruence.
  - rewrite list_lookup_insert_ne by done. exists z. split; [done|]. repeat split; congruence.
Qed.

(** A page with a valid entry in the TLB: both machines find one for it. *)
Lemma caches_hit m t pt n vpn : tlb m = Some t -> n <= Z.of_nat (length pt) -> caches t pt n ->
  let m2 := mkMachine (registers m) (mainMemory m) None (Some pt) n (singleStep m) (runUntilTime m) in
  (exists i e e2, t !! i = Some e /\ valid e = true /\ virtualPage e = vpn /\ pt !! Z.to_nat vpn = Some e2 /\
     same_entry e e2 /\ 0 <= vpn /\ mmu_lookup m vpn = inr (InTLB (Z.of_nat i), e) /\
     mmu_lookup m2 vpn = inr (InPageTable vpn, e2)) \/
  ((forall e, e ∈ t -> valid e = true -> virtualPage e <> vpn) /\ mmu_lookup m vpn = inl PageFaultException).
Proof.
  intros Ht Hn Hc m2. unfold mmu_lookup. rewrite Ht. simpl.
  destruct (list_find _ t) as [[i e]|] eqn:Hf; [left|right].
  - apply list_find_Some in Hf as (Hi & [Hv Hpg] & _).
    destruct (Hc e (list_elem_of_lookup_2 _ _ _ Hi) Hv) as ([? ?] & e2 & He2 & Hse).
    exists i, e, e2. rewrite <- Hpg, decide_True, He2 by lia. pose proof Hse as (_ & _ & -> & _). rewrite Hv.
    by split_and!.
  - apply list_find_None in Hf. rewrite Forall_forall in Hf. split; [naive_solver|done].
Qed.

(** The entry after an access. *)
Definition accessed (e : TranslationEntry) (writing : bool) : TranslationEntry :=
  mkEntry (virtualPage e) (physicalPage e) (valid e) (readOnly e) true (writing || dirty e).

Lemma mark_used_accessed e writing : mark_used e writing = accessed e writing.
Proof. by destruct writing. Qed.

(** C34: a TLB that caches a page table (each valid entry is the page table's, up to use
    and dirty bits) refines it, for every access.  When the TLB has a valid entry for the
    page, the TLB machine and the page-table machine give the same physical address or
    raise the same exception; on success both record the access (the use bit, and the dirty bit if it writes), in the
    TLB entry and in the page-table entry, and nothing else changes, so that the TLB still caches the
    table; on an exception nothing changes.  When the TLB has none, the TLB machine raises
    a page fault, whatever the page table says, or the address error of a misaligned
    access that the page-table machine raises too, and changes nothing. *)
Theorem tlb_refines_pageTable m t pt n virtAddr size writing :
  wf_mmu m -> tlb m = Some t -> access_size size -> n <= Z.of_nat (length pt) -> caches t pt n ->
  let m2 := mkMachine (registers m) (mainMemory m) None (Some pt) n
              (singleStep m) (runUntilTime m) in
  let vpn := vpn_of virtAddr in
  (exists i e e2, t !! i = Some e /\ valid e = true /\ virtualPage e = vpn /\ pt !! Z.to_nat vpn = Some e2 /\
     ((exists exn, Translate m virtAddr size writing = Ret (m, inl exn) /\
                   Translate m2 virtAddr size writing = Ret (m2, inl exn)) \/
      (exists pa, let t' := <[i := accessed e writing]> t in
                  let pt' := <[Z.to_nat vpn := accessed e2 writing]> pt in
                  Translate m virtAddr size writing = Ret (set_tlb m t', inr pa) /\
                  Translate m2 virtAddr size writing = Ret (set_pageTable m2 pt', inr pa) /\
                  caches t' pt' n))) \/
  ((forall e, e ∈ t -> valid e = true -> virtualPage e <> vpn) /\
   if decide (virtAddr mod size = 0)
   then Translate m virtAddr size writing = Ret (m, inl PageFaultException)
   else Translate m virtAddr size writing = Ret (m, inl AddressErrorException) /\
        Translate m2 virtAddr size writing = Ret (m2, inl AddressErrorException)).
Proof.
  intros Hwf Ht Hs Hn Hcache m2 vpn.
  assert (Hwf2 : wf_mmu m2) by (split; [apply Hwf|done]).
  destruct (Translate_spec m virtAddr size writing Hwf Hs) as (m' & _ & _ & H1).
  destruct (Translate_spec m2 virtAddr size writing Hwf2 Hs) as (m2' & _ & _ & H2).
  unfold mmu_access in H1, H2.
  destruct (caches_hit m t pt n vpn Ht Hn Hcache)
    as [(i & e & e2 & Hi & Hv & Hpg & He2 & Hse & H0 & Hl1 & Hl2)|[Hmiss Hl1]]; [left|right; split; [done|]].
  - exists i, e, e2. do 4 (split; [done|]). fold vpn in H1, H2. rewrite Hl1 in H1. fold m2 in Hl2. rewrite Hl2 in H2.
    destruct Hse as (_ & Hf & _ & Hr). unfold frame_of in H1, H2. rewrite Hf, Hr in H2.
    case_decide; [left; naive_solver|]. destruct (readOnly e && writing); [left; naive_solver|].
    case_decide; [left; naive_solver|]. right. destruct H1 as (HS1 & HT1 & _), H2 as (HS2 & HT2 & _).
    exists (u32 (physicalPage e) * PageSize + virtAddr mod PageSize). cbv zeta.
    unfold store_entry in HS1, HS2. rewrite Ht in HS1. simpl in HS1, HS2.
    apply lookup_lt_Some in Hi as Hli. apply lookup_lt_Some in He2 as Hl2'.
    rewrite zset_in, Nat2Z.id in HS1 by lia. rewrite zset_in in HS2 by lia. simpl in HS1, HS2.
    injection HS1 as <-. injection HS2 as <-. rewrite <- !mark_used_accessed.
    split; [exact HT1|]. split; [exact HT2|]. rewrite <- Hpg. apply caches_mark; [done..|by rewrite Hpg].
  - fold vpn in H1, H2. rewrite Hl1 in H1. case_decide as Hm; case_decide as Ha; try lia; [naive_solver|tauto].
Qed.

(** ** Concrete machines *)

Definition sample_entry (vp pp : Z) (ro : bool) : TranslationEntry :=
  mkEntry vp pp true ro false false.
Definition sample_table : list TranslationEntry :=
  [sample_entry 0 3 false; sample_entry 1 5 true].
Definition sample_machine : Machine :=
  mkMachine (replicate 40 0) (replicate (Z.to_nat MemorySize) (byte.of_Z 0))
    None (Some sample_table) 2 false 0.
Definition sample_tlb_machine : Machine :=
  mkMachine (replicate 40 0) (replicate (Z.to_nat MemorySize) (byte.of_Z 0))
    (Some (sample_table ++ [mkEntry 0 0 false false false false;
                            mkEntry 0 0 false false false false])) None 0 false 0.

Lemma sample_machine_wf : wf_mmu sample_machine.
Proof. split; [vm_compute; reflexivity|simpl; lia]. Qed.

Lemma sample_tlb_machine_wf : wf_mmu sample_tlb_machine.
Proof. split; vm_compute; reflexivity. Qed.

Definition sample_world (m : Machine) : World unit := mkWorld m UserMode tt.
Definition halting_handler (e : ExceptionType) (w : World unit) : result (World unit) :=
  Halted.

Lemma translate_safe_witness :
  exists m' r, Translate sample_machine 132 4 false = Ret (m', r) /\ r = inr 644.
Proof.
  destruct (translate_safe sample_machine 132 4 false sample_machine_wf
    (or_intror (or_intror eq_refl))) as (m' & r & H & _).
  exists m', r. split; [exact H|]. vm_compute in H. by injection H as _ <-.
Defined.

Lemma translate_exceptions_witness :
  exists m', Translate sample_machine 132 4 true = Ret (m', inl ReadOnlyException).
Proof.
  apply (translate_exceptions sample_machine sample_table 132 4 true sample_machine_wf
    (or_intror (or_intror eq_refl)) eq_refl eq_refl).
  split; [reflexivity|]. split; [reflexivity|]. split; [vm_compute; reflexivity|].
  exists (sample_entry 1 5 true). repeat split.
Defined.

Lemma write_then_read_witness :
  exists w', WriteMem halting_handler (sample_world sample_machine) 4 2 (-2) = Ret (w', true) /\
    exists w'', ReadMem halting_handler w' 4 2 = Ret (w'', Some 65534).
Proof.
  destruct (write_then_read halting_handler (sample_world sample_machine) 4 2 (-2)
    (InPageTable 0) (sample_entry 0 3 false) 388 sample_machine_wf
    (or_intror (or_introl eq_refl)) ltac:(vm_compute; reflexivity))
    as (w' & HW & _ & [w'' HR] & _).
  exists w'. split; [exact HW|]. by exists w''.
Defined.

Lemma write_isolation_witness :
  exists w', WriteMem halting_handler (sample_world sample_machine) 8 4 77 = Ret (w', true) /\
    forall i, Z.of_nat i / PageSize = 5 ->
      mainMemory (machine w') !! i = mainMemory sample_machine !! i.
Proof.
  destruct (write_isolation halting_handler (sample_world sample_machine) 8 4 77 5
    sample_machine_wf (or_intror (or_intror eq_refl))) as [[[exn H]|H] _].
  - intros vpn p e Hl Hf. unfold mmu_lookup in Hl. simpl in Hl.
    destruct (decide (vpn < 2)); [|discriminate Hl]. destruct (Z.to_nat vpn) as [|[|n]]; simpl in Hl; [|by injection Hl as <- <-|done].
    injection Hl as <- <-. vm_compute in Hf. done.
  - exfalso. revert H. vm_compute. done.
  - exact H.
Defined.

Lemma sample_caches : caches (default [] (tlb sample_tlb_machine)) sample_table 2.
Proof.
  intros e He Hv. simpl in He.
  repeat (apply elem_of_cons in He as [->|He]; [first [done|split; [done|by eexists]]|]).
  by apply elem_of_nil in He.
Qed.

Lemma tlb_refines_pageTable_witness :
  exists m' m2', Translate sample_tlb_machine 4 4 true = Ret (m', inr 388) /\
    Translate sample_machine 4 4 true = Ret (m2', inr 388).
Proof.
  destruct (tlb_refines_pageTable sample_tlb_machine (default [] (tlb sample_tlb_machine))
    sample_table 2 4 4 true sample_tlb_machine_wf eq_refl (or_intror (or_intror eq_refl))
    ltac:(simpl; lia) sample_caches)
    as [(i & e & e2 & _ & _ & _ & _ & [(exn & H1 & _)|(pa & H1 & H2 & _)])|[Hm _]].
  - exfalso. revert H1. vm_compute. discriminate.
  - assert (E : pa = 388) by (revert H1; vm_compute; by intros [= _ <-]).
    subst pa. eexists _, _. split; [exact H1|exact H2].
  - exfalso. apply (Hm (sample_entry 0 3 false)); [simpl; constructor|reflexivity|vm_compute; reflexivity].
Defined.
