(* ===== verification/Confined.v ===== *)
(** * Confinement

    What a user program cannot change: the mapping of its pages, and the memory outside the
    frames that the mapping lets it write.  [confined] compares the machine before and
    after; it is a preorder, so that it composes over instructions, over the copies of the
    system calls and over whole runs. *)

From S2P Require Import Prelude Machine.
#[local] Open Scope Z_scope.

Record confined (m m' : Machine) : Prop := mkConfined {
  cf_tlb : option_Forall2 (Forall2 same_entry) (tlb m) (tlb m');
  cf_pt : option_Forall2 (Forall2 same_entry) (pageTable m) (pageTable m');
  cf_size : pageTableSize m' = pageTableSize m;
  cf_wf : wf_mmu m';
  cf_mem i : ~ writable_frame m (Z.of_nat i / PageSize) -> mainMemory m' !! i = mainMemory m !! i
}.

(** A mapping with other registers and another memory. *)
Lemma tables_same_mapping m m' : option_Forall2 (Forall2 same_entry) (tlb m) (tlb m') ->
  option_Forall2 (Forall2 same_entry) (pageTable m) (pageTable m') -> pageTableSize m' = pageTableSize m ->
  same_mapping (set_registers (set_mainMemory m (mainMemory m')) (registers m')) m'.
Proof. intros. by split. Qed.

Lemma confined_writable m m' frame : confined m m' -> writable_frame m' frame -> writable_frame m frame.
Proof.
  intros [Ht Hp Hs _ _] (vpn & p & e & Hl & Hf & Hr).
  pose proof (mmu_lookup_same _ _ vpn (tables_same_mapping m m' Ht Hp Hs)) as H. rewrite Hl in H.
  change (mmu_lookup (set_registers _ _) vpn) with (mmu_lookup m vpn) in H.
  destruct (mmu_lookup m vpn) as [|[p' e']] eqn:E; [done|]. destruct H as [-> (_ & Hph & _ & Hro)].
  exists vpn, p, e'. split; [done|]. unfold frame_of in *. by rewrite <- Hph, <- Hro.
Qed.

Lemma confined_refl m : wf_mmu m -> confined m m.
Proof. intros Hw. split; try done; by apply reflexivity. Qed.

Lemma confined_trans m1 m2 m3 : confined m1 m2 -> confined m2 m3 -> confined m1 m3.
Proof.
  intros H12 H23. pose proof H12 as [Ht Hp Hs _ Hm]. destruct H23 as [Ht' Hp' Hs' Hw' Hm'].
  split; [by etrans|by etrans|congruence|done|]. intros i Hi. rewrite Hm', Hm; [done|done|].
  intros Hwr. by apply Hi, (confined_writable m1 m2).
Qed.

(** Registers do not matter. *)
Lemma confined_registers m m' r : confined m m' -> confined m (set_registers m' r).
Proof. intros [? ? ? [? ?] ?]. by split. Qed.

Lemma confined_from_registers m m' r : confined (set_registers m r) m' -> confined m m'.
Proof. intros [? ? ? ? ?]. by split. Qed.

Lemma same_mapping_confined m m' : wf_mmu m' -> same_mapping m m' -> confined m m'.
Proof. intros Hw [Hr Hm Ht Hp Hs]. split; auto. intros i _. by rewrite Hm. Qed.

Section accesses.
Context {K : Type} (handler : ExceptionType -> World K -> result (World K)).
Implicit Types (w : World K).

(** An access that raises no exception is confined. *)
Lemma ReadMem_confined w addr size w' v : wf_mmu (machine w) -> access_size size ->
  ReadMem handler w addr size = Ret (w', Some v) -> confined (machine w) (machine w').
Proof.
  intros Hw Hs HR. destruct (ReadMem_spec handler w addr size Hw Hs) as (m' & Hw' & Hsm & Hm).
  destruct (mmu_access _ _ _ _) as [exn|[[p e] pa]].
  - rewrite Hm in HR. by apply rbind_eq_Ret in HR as (? & _ & [=]).
  - destruct Hm as (_ & _ & v' & _ & _ & Hm). rewrite Hm in HR. injection HR as <- _. by apply same_mapping_confined.
Qed.

Lemma WriteMem_confined w addr size v w' : wf_mmu (machine w) -> access_size size ->
  WriteMem handler w addr size v = Ret (w', true) -> confined (machine w) (machine w').
Proof.
  intros Hw Hs HR. pose proof (WriteMem_spec handler w addr size v Hw Hs) as Hm.
  destruct (mmu_access _ _ _ _) as [exn|[[p e] pa]] eqn:Ha.
  - rewrite Hm in HR. by apply rbind_eq_Ret in HR as (? & _ & [=]).
  - destruct Hm as (m' & mem' & Hw' & [Hr Hme Ht Hp Hsz] & Hm & Hst & H0 & Hle & Hfr & Hal). rewrite Hm in HR.
    injection HR as <-. split; auto. intros i Hi.
    apply (store_outside (machine w) addr size p e pa v); auto. apply (wf_mem _ Hw).
Qed.

(** One that raises an exception is as confined as the kernel's handler. *)
Lemma ReadMem_exception w addr size w' : wf_mmu (machine w) -> access_size size ->
  ReadMem handler w addr size = Ret (w', None) -> exists exn, exn <> SyscallException /\ RaiseException handler w exn addr = Ret w'.
Proof.
  intros Hw Hs HR. destruct (ReadMem_spec handler w addr size Hw Hs) as (m' & Hw' & Hsm & Hm).
  destruct (mmu_access _ _ _ _) as [exn|[[p e] pa]] eqn:Ha.
  - rewrite Hm in HR. apply rbind_eq_Ret in HR as (? & HR & [= ->]). exists exn. split; [by eapply mmu_access_exn|done].
  - destruct Hm as (_ & _ & v' & _ & _ & Hm). by rewrite Hm in HR.
Qed.

Lemma WriteMem_exception w addr size v w' : wf_mmu (machine w) -> access_size size ->
  WriteMem handler w addr size v = Ret (w', false) -> exists exn, exn <> SyscallException /\ RaiseException handler w exn addr = Ret w'.
Proof.
  intros Hw Hs HR. pose proof (WriteMem_spec handler w addr size v Hw Hs) as Hm.
  destruct (mmu_access _ _ _ _) as [exn|[[p e] pa]] eqn:Ha.
  - rewrite Hm in HR. apply rbind_eq_Ret in HR as (? & HR & [= ->]). exists exn. split; [by eapply mmu_access_exn|done].
  - destruct Hm as (m' & mem' & _ & _ & Hm & _). by rewrite Hm in HR.
Qed.

End accesses.
