(* ===== verification/Interrupt.v ===== *)
(** * Simulated time and interrupts

    Model of machine/interrupt.h, machine/interrupt.cc, the tick counters of
    machine/stats.h, the timer device of machine/timer.cc and the time slicing of
    threads/alarm.cc.  Pending interrupts are kept in a [SortedList], used through
    the sequences it refines; an interrupt has its address, by which the list tells
    pointers apart.  What the interrupt handlers, [Thread::Yield] and the delayed
    load of the machine do to the rest of the kernel are parameters. *)

From S2P Require Import Prelude NList Machine.

Inductive IntStatus : Type := IntOff | IntOn.

Inductive IntType : Type :=
  TimerInt | DiskInt | ConsoleWriteInt | ConsoleReadInt | NetworkSendInt | NetworkRecvInt.

#[export] Instance IntStatus_eq_dec : EqDecision IntStatus.
Proof. solve_decision. Defined.
#[export] Instance IntType_eq_dec : EqDecision IntType.
Proof. solve_decision. Defined.
#[export] Instance MachineStatus_eq_dec : EqDecision MachineStatus.
Proof. solve_decision. Defined.

(** machine/stats.h *)
Definition UserTick : Z := 1.
Definition SystemTick : Z := 10.
Definition TimerTicks : Z := 100.

(** The tick counters of [Statistics]. *)
Record Ticks : Type := mkTicks {
  totalTicks : Z;
  idleTicks : Z;
  systemTicks : Z;
  userTicks : Z
}.

Definition new_Ticks : Ticks := mkTicks 0 0 0 0.

(** [C] stands for the objects to call back. *)
Record PendingInterrupt (C : Type) : Type := mkPending {
  addr : Z;
  callOnInterrupt : C;
  when : Z;
  type : IntType
}.
Arguments mkPending {C}.
Arguments addr {C}.
Arguments callOnInterrupt {C}.
Arguments when {C}.
Arguments type {C}.

#[export] Instance PendingInterrupt_eq_dec {C} `{EqDecision C} : EqDecision (PendingInterrupt C).
Proof. solve_decision. Defined.

Definition PendingCompare {C} (x y : PendingInterrupt C) : Z :=
  if when x <? when y then -1 else if when x >? when y then 1 else 0.

Record Interrupt (C : Type) : Type := mkInterrupt {
  level : IntStatus;
  pending : list (PendingInterrupt C);
  inHandler : bool;
  yieldOnReturn : bool;
  status : MachineStatus
}.
Arguments mkInterrupt {C}.
Arguments level {C}.
Arguments pending {C}.
Arguments inHandler {C}.
Arguments yieldOnReturn {C}.
Arguments status {C}.

(** The interrupt controller, the clock, the next fresh address, and the rest of
    the kernel. *)
Record Sim (C S : Type) : Type := mkSim {
  intr : Interrupt C;
  ticks : Ticks;
  brk : Z;
  rest : S
}.
Arguments mkSim {C S}.
Arguments intr {C S}.
Arguments ticks {C S}.
Arguments brk {C S}.
Arguments rest {C S}.

Definition new_Interrupt {C} : Interrupt C := mkInterrupt IntOff [] false false SystemMode.

Section interrupt.
Context {C S : Type} `{EqDecision C}.
Implicit Types (s : Sim C S).
Variable CallBack : C -> Sim C S -> result (Sim C S).
Variable Yield : Sim C S -> result (Sim C S).
(** [kernel->machine->DelayedLoad(0, 0)], when there is a machine *)
Variable DelayedLoad : S -> result S.

Definition set_intr s (i : Interrupt C) : Sim C S := mkSim i (ticks s) (brk s) (rest s).
Definition set_ticks s (t : Ticks) : Sim C S := mkSim (intr s) t (brk s) (rest s).

Definition ChangeLevel s (old now : IntStatus) : Sim C S :=
  let i := intr s in
  set_intr s (mkInterrupt now (pending i) (inHandler i) (yieldOnReturn i) (status i)).

Definition set_pending s (p : list (PendingInterrupt C)) : Sim C S :=
  let i := intr s in
  set_intr s (mkInterrupt (level i) p (inHandler i) (yieldOnReturn i) (status i)).

Definition set_inHandler s (b : bool) : Sim C S :=
  let i := intr s in
  set_intr s (mkInterrupt (level i) (pending i) b (yieldOnReturn i) (status i)).

Definition set_yieldOnReturn s (b : bool) : Sim C S :=
  let i := intr s in
  set_intr s (mkInterrupt (level i) (pending i) (inHandler i) b (status i)).

Definition setStatus s (st : MachineStatus) : Sim C S :=
  let i := intr s in
  set_intr s (mkInterrupt (level i) (pending i) (inHandler i) (yieldOnReturn i) st).

(** The [do ... while] loop of [CheckIfDue]. *)
Fixpoint fire (fuel : nat) s : result (Sim C S) :=
  match fuel with
  | O => NoFuel
  | Datatypes.S fuel =>
      let* (next, p) := Seq.RemoveFront (pending (intr s)) in
      let s := set_pending s p in
      let* s := CallBack (callOnInterrupt next) s in
      match pending (intr s) with
      | x :: _ => if when x <=? totalTicks (ticks s) then fire fuel s else Ret s
      | [] => Ret s
      end
  end.

(** The clock moved on to the next interrupt. *)
Definition advance_to (t : Ticks) (w : Z) : Ticks :=
  mkTicks w (s32 (idleTicks t + (w - totalTicks t))) (systemTicks t) (userTicks t).

(** The passes of the loop are those that the pending interrupts can cause. *)
Definition CheckIfDue s (advanceClock : bool) : result (Sim C S * bool) :=
  assert* bool_decide (level (intr s) = IntOff) in
  match pending (intr s) with
  | [] => Ret (s, false)
  | next :: _ =>
      let due s :=
        let* r := DelayedLoad (rest s) in
        let s := set_inHandler (mkSim (intr s) (ticks s) (brk s) r) true in
        let* s := fire (length (pending (intr s))) s in
        Ret (set_inHandler s false, true) in
      if when next >? totalTicks (ticks s) then
        if negb advanceClock then Ret (s, false)
        else due (set_ticks s (advance_to (ticks s) (when next)))
      else due s
  end.

Definition count_tick (st : MachineStatus) (t : Ticks) : Ticks :=
  match st with
  | SystemMode =>
      mkTicks (s32 (totalTicks t + SystemTick)) (idleTicks t) (s32 (systemTicks t + SystemTick)) (userTicks t)
  | _ =>
      mkTicks (s32 (totalTicks t + UserTick)) (idleTicks t) (systemTicks t) (s32 (userTicks t + UserTick))
  end.

Definition OneTick s : result (Sim C S) :=
  let oldStatus := status (intr s) in
  let s := set_ticks s (count_tick oldStatus (ticks s)) in
  let s := ChangeLevel s IntOn IntOff in
  let* (s, _) := CheckIfDue s false in
  let s := ChangeLevel s IntOff IntOn in
  if yieldOnReturn (intr s) then
    let s := setStatus (set_yieldOnReturn s false) SystemMode in
    let* s := Yield s in
    Ret (setStatus s oldStatus)
  else Ret s.

(** The old level is the result. *)
Definition SetLevel s (now : IntStatus) : result (Sim C S * IntStatus) :=
  let old := level (intr s) in
  assert* bool_decide (now = IntOff) || negb (inHandler (intr s)) in
  let s := ChangeLevel s old now in
  let* s := if bool_decide (now = IntOn) && bool_decide (old = IntOff) then OneTick s else Ret s in
  Ret (s, old).

Definition YieldOnReturn s : result (Sim C S) :=
  assert* inHandler (intr s) in
  Ret (set_yieldOnReturn s true).

(** [Halt] ends the process. *)
Definition Idle s : result (Sim C S) :=
  let s := setStatus s IdleMode in
  let* (s, due) := CheckIfDue s true in
  if due : bool then Ret (setStatus s SystemMode) else Halted.

Definition Schedule s (toCall : C) (fromNow : Z) (ty : IntType) : result (Sim C S) :=
  let w := s32 (totalTicks (ticks s) + fromNow) in
  let toOccur := mkPending (brk s) toCall w ty in
  let s := mkSim (intr s) (ticks s) (brk s + 1) (rest s) in
  assert* (fromNow >? 0) in
  let* p := Seq.Insert PendingCompare (pending (intr s)) toOccur in
  Ret (set_pending s p).
End interrupt.

(** ** The timer and the alarm *)

Record Timer : Type := mkTimer {
  randomize : bool;
  disable : bool
}.

Section timer.
Context {C S : Type} `{EqDecision C}.
(** The timer as an object to call back, and the number [rand] returns. *)
Variables (timer : C) (rand : Z).

(** [1 + (RandomNumber() % (TimerTicks * 2))], the remainder unsigned *)
Definition SetInterrupt (t : Timer) (s : Sim C S) : result (Sim C S) :=
  if negb (disable t) then
    let delay := if randomize t then 1 + u32 rand mod (TimerTicks * 2) else TimerTicks in
    Schedule s timer delay TimerInt
  else Ret s.

Definition Disable (t : Timer) : Timer := mkTimer (randomize t) true.

Definition Alarm_CallBack (s : Sim C S) : result (Sim C S) :=
  if bool_decide (status (intr s) = IdleMode) then Ret s else YieldOnReturn s.

(** [callPeriodically] is the alarm. *)
Definition Timer_CallBack (t : Timer) (s : Sim C S) : result (Sim C S) :=
  let* s := Alarm_CallBack s in
  SetInterrupt t s.

Definition new_Timer (doRandom : bool) (s : Sim C S) : result (Timer * Sim C S) :=
  let t := mkTimer doRandom false in
  let* s := SetInterrupt t s in
  Ret (t, s).

Definition new_Alarm (doRandom : bool) (s : Sim C S) : result (Timer * Sim C S) := new_Timer doRandom s.
End timer.

(** ** Well-formed controllers *)

#[export] Instance PendingCompare_comparator {C} : Comparator (@PendingCompare C).
Proof.
  unfold PendingCompare. constructor.
  - intros x y. rewrite !Z.gtb_ltb.
    destruct (Z.ltb_spec (when x) (when y)), (Z.ltb_spec (when y) (when x)); lia.
  - intros x y z. rewrite !Z.gtb_ltb.
    destruct (Z.ltb_spec (when x) (when y)), (Z.ltb_spec (when y) (when x)),
      (Z.ltb_spec (when y) (when z)), (Z.ltb_spec (when z) (when y)),
      (Z.ltb_spec (when x) (when z)), (Z.ltb_spec (when z) (when x)); lia.
Qed.

Lemma before_when {C} (x y : PendingInterrupt C) : before PendingCompare x y <-> when x <= when y.
Proof.
  unfold before, PendingCompare. rewrite Z.gtb_ltb.
  destruct (Z.ltb_spec (when x) (when y)), (Z.ltb_spec (when y) (when x)); lia.
Qed.

(** The interrupts due at time [t], in the order of the list. *)
Definition due_at {C} (t : Z) (p : list (PendingInterrupt C)) : list (PendingInterrupt C) :=
  filter (fun x => when x <= t) p.

Section lemmas.
Context {C S : Type} `{EqDecision C}.
Implicit Types (s : Sim C S) (p : list (PendingInterrupt C)).

(** The pending list is in order of time, and its addresses are in use. *)
Record wf_sim s : Prop := {
  ws_sorted : StronglySorted (before PendingCompare) (pending (intr s));
  ws_addr : Forall (fun x => addr x < brk s) (pending (intr s))
}.

Lemma due_head t x p : StronglySorted (before PendingCompare) (x :: p) -> t < when x ->
  due_at t (x :: p) = [] /\ Forall (fun y => t < when y) (x :: p).
Proof.
  intros [_ Hx]%StronglySorted_inv Ht.
  assert (Hall : Forall (fun y => t < when y) (x :: p)).
  { constructor; [done|]. eapply Forall_impl; [exact Hx|]. intros y Hy. apply before_when in Hy. lia. }
  split; [|done]. unfold due_at. clear Hx. induction Hall as [|y q Hy _ IH]; [done|].
  by rewrite filter_cons_False by lia.
Qed.

Lemma due_cons t x p : when x <= t -> due_at t (x :: p) = x :: due_at t p.
Proof. intros Hx. unfold due_at. by rewrite filter_cons_True. Qed.

Lemma due_insert t x p : t < when x -> due_at t (Seq.insert_sorted PendingCompare x p) = due_at t p.
Proof.
  intros Ht. unfold due_at. induction p as [|y p IH]; simpl.
  - rewrite filter_cons_False by lia. done.
  - destruct (_ <? _); simpl.
    + by rewrite filter_cons_False by lia.
    + rewrite !filter_cons. by rewrite IH.
Qed.

Lemma Schedule_spec s c d ty : wf_sim s -> 0 < d -> 0 <= totalTicks (ticks s) ->
  totalTicks (ticks s) + d < 2 ^ 31 ->
  let x := mkPending (brk s) c (totalTicks (ticks s) + d) ty in
  Schedule s c d ty =
    Ret (set_pending (mkSim (intr s) (ticks s) (brk s + 1) (rest s))
          (Seq.insert_sorted PendingCompare x (pending (intr s)))) /\
  wf_sim (set_pending (mkSim (intr s) (ticks s) (brk s + 1) (rest s))
          (Seq.insert_sorted PendingCompare x (pending (intr s)))).
Proof.
  intros [Hs Ha] Hd H0 Ht x. unfold Schedule. rewrite s32_id by (unfold is_s32; lia). fold x.
  rewrite Z.gtb_ltb, (proj2 (Z.ltb_lt _ _)) by done. simpl. unfold Seq.Insert, Seq.IsInList.
  rewrite bool_decide_eq_false_2.
  2: { intros Hx. rewrite Forall_forall in Ha. specialize (Ha _ Hx). simpl in Ha. lia. }
  split; [done|]. split; simpl; [by apply insert_sorted_sorted; [apply _|]|].
  destruct (insert_sorted_split PendingCompare x (pending (intr s)) Hs) as (p1 & p2 & E & -> & _ & _).
  rewrite E in Ha. apply Forall_app in Ha as [Ha1 Ha2].
  assert (Himp : forall q : list (PendingInterrupt C),
    Forall (fun y => addr y < brk s) q -> Forall (fun y => addr y < brk s + 1) q)
    by (intros q Hq; eapply Forall_impl; [exact Hq|]; simpl; lia).
  apply Forall_app. split; [auto|]. constructor; [simpl; lia|auto].
Qed.

(** ** What handlers may do

    A handler acts on the controller through [Schedule] and [YieldOnReturn], and
    on the rest of the kernel as it likes. *)
Inductive handler_run : Sim C S -> Sim C S -> Prop :=
  | hr_refl s : handler_run s s
  | hr_schedule s c d ty s1 s2 : Schedule s c d ty = Ret s1 -> 0 < d ->
      totalTicks (ticks s) + d < 2 ^ 31 -> handler_run s1 s2 -> handler_run s s2
  | hr_yield s s1 s2 : YieldOnReturn s = Ret s1 -> handler_run s1 s2 -> handler_run s s2
  | hr_rest s r s2 : handler_run (mkSim (intr s) (ticks s) (brk s) r) s2 -> handler_run s s2.

(** What stays as it was. *)
Definition same_mode s s' : Prop :=
  level (intr s') = level (intr s) /\ inHandler (intr s') = inHandler (intr s) /\
  status (intr s') = status (intr s) /\ ticks s' = ticks s.

Lemma handler_run_spec s s' : handler_run s s' -> wf_sim s -> 0 <= totalTicks (ticks s) ->
  wf_sim s' /\ same_mode s s' /\
  due_at (totalTicks (ticks s)) (pending (intr s')) = due_at (totalTicks (ticks s)) (pending (intr s)).
Proof.
  induction 1 as [s|s c d ty s1 s2 E Hd Ht _ IH|s s1 s2 E _ IH|s r s2 _ IH]; intros Hwf H0.
  - by repeat split; try apply Hwf.
  - destruct (Schedule_spec s c d ty Hwf Hd H0 Ht) as [E' Hwf1]. rewrite E' in E. injection E as <-.
    destruct IH as (Hwf2 & Hm & Hdue); [done|done|]. split; [done|]. split; [exact Hm|].
    etrans; [exact Hdue|]. simpl. apply due_insert. simpl. lia.
  - unfold YieldOnReturn in E. inv_bind E. injection E as <-.
    destruct IH as (Hwf2 & Hm & Hdue); [by destruct Hwf|done|]. by split.
  - destruct IH as (Hwf2 & Hm & Hdue); [by destruct Hwf|done|]. by split.
Qed.
End lemmas.

(** The promise of the devices to the controller: in handler mode, early enough
    for the clock not to overflow, every handler returns. *)
Class Handlers {C S} `{EqDecision C} (CallBack : C -> Sim C S -> result (Sim C S)) : Prop :=
  handlers_law : forall c s, wf_sim s -> level (intr s) = IntOff -> inHandler (intr s) = true ->
    0 <= totalTicks (ticks s) < 2 ^ 30 ->
    exists s', CallBack c s = Ret s' /\ handler_run s s'.

(** The handlers of these interrupts called in turn, each after its interrupt was
    taken off the front of the list. *)
Inductive fired {C S} (CallBack : C -> Sim C S -> result (Sim C S))
    : list (PendingInterrupt C) -> Sim C S -> Sim C S -> Prop :=
  | fired_nil s : fired CallBack [] s s
  | fired_cons x xs s p s1 s2 : pending (intr s) = x :: p ->
      CallBack (callOnInterrupt x) (set_pending s p) = Ret s1 ->
      fired CallBack xs s1 s2 -> fired CallBack (x :: xs) s s2.

Section firing.
Context {C S : Type} `{EqDecision C} (CallBack : C -> Sim C S -> result (Sim C S)) `{!Handlers CallBack}.
Implicit Types (s : Sim C S).

Lemma fire_spec n : forall s, wf_sim s -> level (intr s) = IntOff -> inHandler (intr s) = true ->
  0 <= totalTicks (ticks s) < 2 ^ 30 ->
  let due := due_at (totalTicks (ticks s)) (pending (intr s)) in
  due <> [] -> (length due <= n)%nat ->
  exists s', fire CallBack n s = Ret s' /\ fired CallBack due s s' /\ wf_sim s' /\ same_mode s s' /\
    Forall (fun x => totalTicks (ticks s) < when x) (pending (intr s')).
Proof.
  induction n as [|n IH]; intros s Hwf Hl Hh Ht due Hne Hn.
  { destruct due; [done|simpl in Hn; lia]. }
  pose proof (ws_sorted _ Hwf) as Hs. unfold due in *. clear due.
  destruct (pending (intr s)) as [|x p] eqn:Ep; [done|].
  destruct (Z.lt_ge_cases (totalTicks (ticks s)) (when x)) as [Hx|Hx].
  { by destruct (due_head _ _ _ Hs Hx) as [? _]. }
  rewrite due_cons in Hne, Hn |- * by lia.
  simpl fire. rewrite Ep. simpl Seq.RemoveFront. rewrite rbind_Ret.
  assert (Hwf1 : wf_sim (set_pending s p)).
  { destruct Hwf as [_ Ha]. rewrite Ep in Ha. apply Forall_cons in Ha as [_ Ha].
    apply StronglySorted_inv in Hs as [Hs _]. by split. }
  destruct (handlers_law (callOnInterrupt x) (set_pending s p)) as (s1 & Hcb & Hrun); try done.
  rewrite Hcb, rbind_Ret.
  destruct (handler_run_spec _ _ Hrun Hwf1) as (Hwf2 & (Hl2 & Hh2 & Hst2 & Ht2) & Hdue); [apply Ht|].
  simpl in Hl2, Hh2, Hst2, Ht2, Hdue. rewrite Ht2.
  destruct (pending (intr s1)) as [|y q] eqn:Ep1.
  { exists s1. split; [done|]. rewrite <- Hdue. split; [by eapply fired_cons; [done|done|constructor]|].
    split; [done|]. split; [by repeat split|]. rewrite Ep1. constructor. }
  destruct (Z.leb_spec (when y) (totalTicks (ticks s))) as [Hy|Hy].
  - destruct (IH s1) as (s' & HF & Hfd & Hwf' & (? & ? & ? & ?) & Hall); try congruence.
    + rewrite Ht2, Ep1. by rewrite due_cons by lia.
    + rewrite Ht2, Ep1, Hdue. simpl in Hn. lia.
    + rewrite Ht2, Ep1, Hdue in Hfd. rewrite Ht2 in Hall. exists s'. split; [done|].
      split; [by eapply fired_cons|]. split; [done|]. split; [|done]. repeat split; congruence.
  - pose proof (ws_sorted _ Hwf2) as Hs2. rewrite Ep1 in Hs2.
    destruct (due_head _ _ _ Hs2 Hy) as [Hnil Hall]. rewrite Hnil in Hdue.
    exists s1. split; [done|]. rewrite <- Hdue.
    split; [by eapply fired_cons; [done|done|constructor]|]. split; [done|].
    split; [by repeat split|]. by rewrite Ep1.
Qed.
End firing.

(** ** Time slices *)

Section slices.
Context {C S : Type} `{EqDecision C}.
Context (CallBack : C -> Sim C S -> result (Sim C S)) (Yield : Sim C S -> result (Sim C S))
  (DelayedLoad : S -> result S).
Implicit Types (s : Sim C S).

(** [n] ticks. *)
Fixpoint tick_n (n : nat) s : result (Sim C S) :=
  match n with
  | O => Ret s
  | Datatypes.S n => let* s := OneTick CallBack Yield DelayedLoad s in tick_n n s
  end.

(** A user program running, with the timer as the only device. *)
Record running s (x : PendingInterrupt C) (t : Z) : Prop := {
  run_level : level (intr s) = IntOn;
  run_pending : pending (intr s) = [x];
  run_handler : inHandler (intr s) = false;
  run_yield : yieldOnReturn (intr s) = false;
  run_status : status (intr s) = UserMode;
  run_time : totalTicks (ticks s) = t;
  run_addr : addr x < brk s
}.

(** Before its time the timer does nothing. *)
Lemma OneTick_early s x t : running s x t -> 0 <= t -> t + 1 < when x < 2 ^ 31 ->
  exists s', OneTick CallBack Yield DelayedLoad s = Ret s' /\ running s' x (t + 1) /\ rest s' = rest s.
Proof.
  intros [Hl Hp Hh Hy Hst Ht Ha] H0 Hw. unfold OneTick. rewrite Hst. unfold CheckIfDue. simpl.
  rewrite Hp. rewrite Z.gtb_ltb, Ht, s32_id by (unfold is_s32; unfold UserTick; lia).
  rewrite (proj2 (Z.ltb_lt _ _)) by (unfold UserTick; lia). simpl. rewrite Hy.
  eexists. split; [done|]. split; [|done]. by split.
Qed.

Lemma tick_n_early n : forall s x t, running s x t -> 0 <= t -> t + Z.of_nat n < when x < 2 ^ 31 ->
  exists s', tick_n n s = Ret s' /\ running s' x (t + Z.of_nat n) /\ rest s' = rest s.
Proof.
  induction n as [|n IH]; intros s x t Hr H0 Hw; simpl.
  - exists s. by rewrite Z.add_0_r.
  - destruct (OneTick_early s x t Hr H0) as (s1 & -> & Hr1 & He1); [lia|]. rewrite rbind_Ret.
    destruct (IH s1 x (t + 1) Hr1) as (s' & -> & Hr' & He'); [lia|lia|]. exists s'.
    split; [done|]. split; [|congruence]. by replace (t + Z.of_nat (Datatypes.S n)) with (t + 1 + Z.of_nat n) by lia.
Qed.
End slices.

(** The delay of the next timer interrupt. *)
Definition timer_delay (t : Timer) (rand : Z) : Z :=
  if randomize t then 1 + u32 rand mod (TimerTicks * 2) else TimerTicks.

Lemma timer_delay_range t rand : 1 <= timer_delay t rand <= TimerTicks * 2.
Proof.
  unfold timer_delay, TimerTicks. pose proof (Z.mod_pos_bound (u32 rand) (100 * 2)). case_if; lia.
Qed.

Section timing.
Context {C S : Type} `{EqDecision C}.

(** The timer is a device as the controller expects them. *)
Lemma Timer_handlers (c : C) t rand (s : Sim C S) : wf_sim s -> inHandler (intr s) = true ->
  0 <= totalTicks (ticks s) < 2 ^ 30 ->
  exists s', Timer_CallBack c rand t s = Ret s' /\ handler_run s s'.
Proof.
  intros Hwf Hh Ht. unfold Timer_CallBack, Alarm_CallBack.
  assert (Ha : exists s1, (if bool_decide (status (intr s) = IdleMode) then Ret s else YieldOnReturn s) = Ret s1 /\
    wf_sim s1 /\ ticks s1 = ticks s /\ forall s2, handler_run s1 s2 -> handler_run s s2).
  { unfold YieldOnReturn. rewrite Hh. case_bool_decide; simpl; eexists; (split; [done|]).
    - done.
    - split; [by destruct Hwf|]. split; [done|]. intros s2. apply hr_yield. unfold YieldOnReturn. by rewrite Hh. }
  destruct Ha as (s1 & -> & Hwf1 & Ht1 & Hrun). rewrite rbind_Ret. unfold SetInterrupt.
  destruct (disable t); simpl; [exists s1; split; [done|apply Hrun; constructor]|].
  fold (timer_delay t rand). pose proof (timer_delay_range t rand) as Hd. unfold TimerTicks in Hd.
  destruct (Schedule_spec s1 c (timer_delay t rand) TimerInt Hwf1) as [HS _]; [lia|rewrite Ht1; lia..|].
  rewrite HS. eexists. split; [done|]. apply Hrun.
  eapply hr_schedule; [exact HS|lia|rewrite Ht1; lia|constructor].
Qed.
End timing.

(** ** Claims *)

(** C26: interrupts fire in order, exactly when due.  [CheckIfDue], with interrupts
    off, calls the handlers of the pending interrupts whose time has come, after
    moving the clock to the first of them if asked to, in order of time and, at
    the same time, of scheduling; each is taken off the list first.  The loop ends,
    although handlers schedule new interrupts, and afterwards nothing pending is
    due; when nothing is due, nothing changes. *)
Theorem interrupts_fire {C S} `{EqDecision C} (CallBack : C -> Sim C S -> result (Sim C S))
    `{!Handlers CallBack} (DelayedLoad : S -> result S) s advanceClock :
  wf_sim s -> level (intr s) = IntOff -> 0 <= totalTicks (ticks s) < 2 ^ 30 ->
  Forall (fun x => when x < 2 ^ 30) (pending (intr s)) ->
  (forall r, exists r', DelayedLoad r = Ret r') ->
  let first := match pending (intr s) with x :: _ => when x | [] => 0 end in
  let now := if advanceClock : bool then Z.max (totalTicks (ticks s)) first else totalTicks (ticks s) in
  let due := due_at now (pending (intr s)) in
  if decide (due = []) then CheckIfDue CallBack DelayedLoad s advanceClock = Ret (s, false)
  else exists s0 s1,
    CheckIfDue CallBack DelayedLoad s advanceClock = Ret (set_inHandler s1 false, true) /\
    fired CallBack due s0 s1 /\ pending (intr s0) = pending (intr s) /\ totalTicks (ticks s0) = now /\
    wf_sim s1 /\ totalTicks (ticks s1) = now /\ level (intr s1) = IntOff /\
    Forall (fun x => now < when x) (pending (intr s1)).
Proof.
  intros Hwf Hl Ht Hw HD first now due. unfold CheckIfDue. rewrite bool_decide_eq_true_2 by done. simpl.
  pose proof (ws_sorted _ Hwf) as Hs.
  assert (Hfire : forall tk, totalTicks tk = now -> 0 <= now < 2 ^ 30 -> due <> [] ->
    exists s0 s1, (let* r := DelayedLoad (rest s) in
      let* s2 := fire CallBack (length (pending (intr s)))
        (set_inHandler (mkSim (intr s) tk (brk s) r) true) in
      Ret (set_inHandler s2 false, true)) = Ret (set_inHandler s1 false, true) /\
    fired CallBack due s0 s1 /\ pending (intr s0) = pending (intr s) /\ totalTicks (ticks s0) = now /\
    wf_sim s1 /\ totalTicks (ticks s1) = now /\ level (intr s1) = IntOff /\
    Forall (fun x => now < when x) (pending (intr s1))).
  { intros tk Htk Hn Hne. destruct (HD (rest s)) as [r' ->]. rewrite rbind_Ret.
    set (s0 := set_inHandler (mkSim (intr s) tk (brk s) r') true).
    destruct (fire_spec CallBack (length (pending (intr s))) s0) as (s1 & HF & Hfd & Hwf1 & Hm & Hall).
    - by destruct Hwf.
    - done.
    - done.
    - simpl. by rewrite Htk.
    - simpl. by rewrite Htk.
    - simpl. unfold due_at. apply length_filter.
    - rewrite HF, rbind_Ret. simpl in Hfd, Hall. rewrite Htk in Hfd, Hall.
      destruct Hm as (Hm1 & Hm2 & Hm3 & Hm4). simpl in Hm1, Hm2, Hm3, Hm4.
      exists s0, s1. rewrite Hm4, Hm1. by split_and!. }
  unfold due, now, first in *. clear due now first.
  destruct (pending (intr s)) as [|x p] eqn:Ep; [by rewrite decide_True by done|].
  apply Forall_cons in Hw as [Hwx _]. rewrite Z.gtb_ltb.
  destruct (Z.ltb_spec (totalTicks (ticks s)) (when x)) as [Hx|Hx].
  - destruct advanceClock; simpl.
    + rewrite Z.max_r in * by lia. rewrite decide_False by (by rewrite due_cons by lia).
      apply (Hfire (advance_to (ticks s) (when x))); [done|lia|by rewrite due_cons by lia].
    + destruct (due_head _ _ _ Hs Hx) as [-> _]. by rewrite decide_True by done.
  - assert (Hnow : (if advanceClock then Z.max (totalTicks (ticks s)) (when x) else totalTicks (ticks s)) =
      totalTicks (ticks s)) by (destruct advanceClock; lia).
    rewrite Hnow in *. rewrite decide_False by (by rewrite due_cons by lia).
    apply (Hfire (ticks s)); [done|lia|by rewrite due_cons by lia].
Qed.

(** Time slicing.  While a user program runs with the timer as the only device,
    nothing happens before the timer's time; at the tick that reaches it, the
    current thread is made to yield in system mode, with interrupts on, the timer
    already set for the next slice, at most two hundred ticks away, and afterwards
    the machine is back in user mode. *)
Theorem time_slice {C S} `{EqDecision C} (CallBack : C -> Sim C S -> result (Sim C S))
    (Yield : Sim C S -> result (Sim C S)) (DelayedLoad : S -> result S) c t rand s x now (n : nat) :
  running s x now -> 0 <= now -> when x = now + Z.of_nat n + 1 -> when x < 2 ^ 30 ->
  callOnInterrupt x = c -> (forall s, CallBack c s = Timer_CallBack c rand t s) -> disable t = false ->
  (forall r, exists r', DelayedLoad r = Ret r') ->
  exists s1 s2 y, tick_n CallBack Yield DelayedLoad n s = Ret s1 /\ running s1 x (now + Z.of_nat n) /\
    rest s1 = rest s /\
    OneTick CallBack Yield DelayedLoad s1 = (let* s3 := Yield s2 in Ret (setStatus s3 UserMode)) /\
    status (intr s2) = SystemMode /\ level (intr s2) = IntOn /\ yieldOnReturn (intr s2) = false /\
    pending (intr s2) = [y] /\ callOnInterrupt y = c /\ totalTicks (ticks s2) = when x /\
    when x < when y <= when x + TimerTicks * 2.
Proof.
  intros Hr H0 Hw Hlim Hc Hcb Hen HD.
  destruct (tick_n_early CallBack Yield DelayedLoad n s x now Hr H0) as (s1 & HT & Hr1 & He1); [lia|].
  pose proof Hr1 as [Hl Hp Hh Hy Hst Ht Ha].
  pose proof (timer_delay_range t rand) as Hd. unfold TimerTicks in Hd.
  destruct (HD (rest s1)) as [r' Hr'].
  assert (Htick : s32 (totalTicks (ticks s1) + UserTick) = when x).
  { rewrite Ht, s32_id by (unfold is_s32, UserTick; lia). unfold UserTick. lia. }
  exists s1. unfold OneTick. rewrite Hst. unfold CheckIfDue. simpl. rewrite Hp, Htick.
  rewrite Z.gtb_ltb, Z.ltb_irrefl, Hr'. simpl. unfold fire. simpl. rewrite Hc, Hcb.
  unfold Timer_CallBack, Alarm_CallBack, YieldOnReturn, SetInterrupt. rewrite Hen. simpl.
  rewrite Hst, bool_decide_eq_false_2 by done. simpl. fold (timer_delay t rand). unfold Schedule. simpl.
  rewrite ?Htick, Z.gtb_ltb, (proj2 (Z.ltb_lt _ _)) by lia. simpl.
  rewrite s32_id by (unfold is_s32; lia). rewrite (proj2 (Z.leb_gt _ _)) by lia. simpl.
  eexists _, _. split; [exact HT|]. split; [exact Hr1|]. split; [exact He1|]. split; [reflexivity|].
  simpl. unfold TimerTicks. split_and!; try done; simpl; lia.
Qed.

(** ** A machine with a timer *)

Definition timer_alone : Timer := mkTimer false false.
Definition timer_callback (c : unit) (s : Sim unit Z) : result (Sim unit Z) :=
  Timer_CallBack c 0 timer_alone s.

#[export] Instance timer_callback_handlers : Handlers timer_callback.
Proof. intros c s Hwf Hl Hh Ht. by apply Timer_handlers. Qed.

Definition timer_sim (l : IntStatus) : Sim unit Z :=
  mkSim (mkInterrupt l [mkPending 0 tt 3 TimerInt] false false UserMode) new_Ticks 1 0.

Lemma timer_sim_wf l : wf_sim (timer_sim l).
Proof. split; simpl; [repeat constructor|]. constructor; [simpl; lia|constructor]. Qed.

Lemma interrupts_fire_witness :
  exists s', CheckIfDue timer_callback Ret (timer_sim IntOff) true = Ret (s', true) /\
    totalTicks (ticks s') = 3.
Proof.
  pose proof (interrupts_fire timer_callback Ret (timer_sim IntOff) true (timer_sim_wf _) eq_refl) as HI.
  destruct HI as (s0 & s1 & HC & _ & _ & _ & _ & Ht & _).
  - simpl. lia.
  - constructor; [simpl; lia|constructor].
  - intros r. exists r. reflexivity.
  - exists (set_inHandler s1 false). split; [exact HC|exact Ht].
Defined.

Lemma time_slice_witness :
  exists s1, tick_n timer_callback Ret Ret 2 (timer_sim IntOn) = Ret s1 /\ totalTicks (ticks s1) = 2.
Proof.
  destruct (time_slice timer_callback Ret Ret tt timer_alone 0 (timer_sim IntOn)
    (mkPending 0 tt 3 TimerInt) 0 2) as (s1 & s2 & y & HT & Hr & _).
  - split; try reflexivity.
  - lia.
  - reflexivity.
  - simpl. lia.
  - reflexivity.
  - reflexivity.
  - reflexivity.
  - intros r. exists r. reflexivity.
  - exists s1. split; [exact HT|]. exact (run_time _ _ _ Hr).
Defined.
