(* ===== verification/Mips.v ===== *)
(** * The MIPS simulator: decoding and executing instructions

    Model of machine/mipssim.{h,cc} as built with [SIM_FIX]: the opcode tables,
    [Instruction::Decode], one definition per case of the switch of
    [Machine::OneInstruction], [Mult] and [TypeToReg].  Signed additions,
    subtractions, negations and left shifts wrap around, as the unoptimised
    32-bit build computes them; [INT_MIN / -1] traps on the host and is a
    [Fault]. *)

From S2P Require Import Prelude Machine.

(** ** Opcodes and tables *)

Inductive OpCode : Type :=
  | OP_ADD | OP_ADDI | OP_ADDIU | OP_ADDU | OP_AND | OP_ANDI | OP_BEQ
  | OP_BGEZ | OP_BGEZAL | OP_BGTZ | OP_BLEZ | OP_BLTZ | OP_BLTZAL | OP_BNE
  | OP_DIV | OP_DIVU | OP_J | OP_JAL | OP_JALR | OP_JR | OP_LB | OP_LBU
  | OP_LH | OP_LHU | OP_LUI | OP_LW | OP_LWL | OP_LWR | OP_MFHI | OP_MFLO
  | OP_MTHI | OP_MTLO | OP_MULT | OP_MULTU | OP_NOR | OP_OR | OP_ORI | OP_RFE
  | OP_SB | OP_SH | OP_SLL | OP_SLLV | OP_SLT | OP_SLTI | OP_SLTIU | OP_SLTU
  | OP_SRA | OP_SRAV | OP_SRL | OP_SRLV | OP_SUB | OP_SUBU | OP_SW | OP_SWL
  | OP_SWR | OP_XOR | OP_XORI | OP_SYSCALL | OP_UNIMP | OP_RES
  | SPECIAL | BCOND.

#[global] Instance OpCode_eq_dec : EqDecision OpCode.
Proof. solve_decision. Defined.

(** The numbers of mipssim.h; they index [opStrings]. *)
Definition op_num (op : OpCode) : Z :=
  match op with
  | OP_ADD => 1 | OP_ADDI => 2 | OP_ADDIU => 3 | OP_ADDU => 4 | OP_AND => 5
  | OP_ANDI => 6 | OP_BEQ => 7 | OP_BGEZ => 8 | OP_BGEZAL => 9
  | OP_BGTZ => 10 | OP_BLEZ => 11 | OP_BLTZ => 12 | OP_BLTZAL => 13
  | OP_BNE => 14 | OP_DIV => 16 | OP_DIVU => 17 | OP_J => 18 | OP_JAL => 19
  | OP_JALR => 20 | OP_JR => 21 | OP_LB => 22 | OP_LBU => 23 | OP_LH => 24
  | OP_LHU => 25 | OP_LUI => 26 | OP_LW => 27 | OP_LWL => 28 | OP_LWR => 29
  | OP_MFHI => 31 | OP_MFLO => 32 | OP_MTHI => 34 | OP_MTLO => 35
  | OP_MULT => 36 | OP_MULTU => 37 | OP_NOR => 38 | OP_OR => 39
  | OP_ORI => 40 | OP_RFE => 41 | OP_SB => 42 | OP_SH => 43 | OP_SLL => 44
  | OP_SLLV => 45 | OP_SLT => 46 | OP_SLTI => 47 | OP_SLTIU => 48
  | OP_SLTU => 49 | OP_SRA => 50 | OP_SRAV => 51 | OP_SRL => 52
  | OP_SRLV => 53 | OP_SUB => 54 | OP_SUBU => 55 | OP_SW => 56 | OP_SWL => 57
  | OP_SWR => 58 | OP_XOR => 59 | OP_XORI => 60 | OP_SYSCALL => 61
  | OP_UNIMP => 62 | OP_RES => 63
  | SPECIAL => 100 | BCOND => 101
  end.

Definition MaxOpcode : Z := 63.

Definition SIGN_BIT : Z := 0x80000000.
Definition R31 : Z := 31.
Definition IndexToAddr (x : Z) : Z := s32 (Z.shiftl x 2).

Inductive Format : Type := IFMT | JFMT | RFMT.

Record OpInfo : Type := mkOpInfo { oi_opCode : OpCode; oi_format : Format }.

Definition opTable : list OpInfo :=
  (fun p => mkOpInfo p.1 p.2) <$> [
    (SPECIAL, RFMT); (BCOND, IFMT); (OP_J, JFMT); (OP_JAL, JFMT);
    (OP_BEQ, IFMT); (OP_BNE, IFMT); (OP_BLEZ, IFMT); (OP_BGTZ, IFMT);
    (OP_ADDI, IFMT); (OP_ADDIU, IFMT); (OP_SLTI, IFMT); (OP_SLTIU, IFMT);
    (OP_ANDI, IFMT); (OP_ORI, IFMT); (OP_XORI, IFMT); (OP_LUI, IFMT);
    (OP_UNIMP, IFMT); (OP_UNIMP, IFMT); (OP_UNIMP, IFMT); (OP_UNIMP, IFMT);
    (OP_RES, IFMT); (OP_RES, IFMT); (OP_RES, IFMT); (OP_RES, IFMT);
    (OP_RES, IFMT); (OP_RES, IFMT); (OP_RES, IFMT); (OP_RES, IFMT);
    (OP_RES, IFMT); (OP_RES, IFMT); (OP_RES, IFMT); (OP_RES, IFMT);
    (OP_LB, IFMT); (OP_LH, IFMT); (OP_LWL, IFMT); (OP_LW, IFMT);
    (OP_LBU, IFMT); (OP_LHU, IFMT); (OP_LWR, IFMT); (OP_RES, IFMT);
    (OP_SB, IFMT); (OP_SH, IFMT); (OP_SWL, IFMT); (OP_SW, IFMT);
    (OP_RES, IFMT); (OP_RES, IFMT); (OP_SWR, IFMT); (OP_RES, IFMT);
    (OP_UNIMP, IFMT); (OP_UNIMP, IFMT); (OP_UNIMP, IFMT); (OP_UNIMP, IFMT);
    (OP_RES, IFMT); (OP_RES, IFMT); (OP_RES, IFMT); (OP_RES, IFMT);
    (OP_UNIMP, IFMT); (OP_UNIMP, IFMT); (OP_UNIMP, IFMT); (OP_UNIMP, IFMT);
    (OP_RES, IFMT); (OP_RES, IFMT); (OP_RES, IFMT); (OP_RES, IFMT)].

Definition specialTable : list OpCode := [
  OP_SLL; OP_RES; OP_SRL; OP_SRA; OP_SLLV; OP_RES; OP_SRLV; OP_SRAV;
  OP_JR; OP_JALR; OP_RES; OP_RES; OP_SYSCALL; OP_UNIMP; OP_RES; OP_RES;
  OP_MFHI; OP_MTHI; OP_MFLO; OP_MTLO; OP_RES; OP_RES; OP_RES; OP_RES;
  OP_MULT; OP_MULTU; OP_DIV; OP_DIVU; OP_RES; OP_RES; OP_RES; OP_RES;
  OP_ADD; OP_ADDU; OP_SUB; OP_SUBU; OP_AND; OP_OR; OP_XOR; OP_NOR;
  OP_RES; OP_RES; OP_SLT; OP_SLTU; OP_RES; OP_RES; OP_RES; OP_RES;
  OP_RES; OP_RES; OP_RES; OP_RES; OP_RES; OP_RES; OP_RES; OP_RES;
  OP_RES; OP_RES; OP_RES; OP_RES; OP_RES; OP_RES; OP_RES; OP_RES].

(** ** The debug trace *)

Inductive RegType : Type := NONE | RS | RT | RD | EXTRA.

Record OpString : Type := mkOpString { format : string; args : list RegType }.

Definition opStrings : list OpString := [
  mkOpString "Shouldn't happen" [NONE; NONE; NONE];
  mkOpString "ADD r%d,r%d,r%d" [RD; RS; RT];
  mkOpString "ADDI r%d,r%d,%d" [RT; RS; EXTRA];
  mkOpString "ADDIU r%d,r%d,%d" [RT; RS; EXTRA];
  mkOpString "ADDU r%d,r%d,r%d" [RD; RS; RT];
  mkOpString "AND r%d,r%d,r%d" [RD; RS; RT];
  mkOpString "ANDI r%d,r%d,%d" [RT; RS; EXTRA];
  mkOpString "BEQ r%d,r%d,%d" [RS; RT; EXTRA];
  mkOpString "BGEZ r%d,%d" [RS; EXTRA; NONE];
  mkOpString "BGEZAL r%d,%d" [RS; EXTRA; NONE];
  mkOpString "BGTZ r%d,%d" [RS; EXTRA; NONE];
  mkOpString "BLEZ r%d,%d" [RS; EXTRA; NONE];
  mkOpString "BLTZ r%d,%d" [RS; EXTRA; NONE];
  mkOpString "BLTZAL r%d,%d" [RS; EXTRA; NONE];
  mkOpString "BNE r%d,r%d,%d" [RS; RT; EXTRA];
  mkOpString "Shouldn't happen" [NONE; NONE; NONE];
  mkOpString "DIV r%d,r%d" [RS; RT; NONE];
  mkOpString "DIVU r%d,r%d" [RS; RT; NONE];
  mkOpString "J %d" [EXTRA; NONE; NONE];
  mkOpString "JAL %d" [EXTRA; NONE; NONE];
  mkOpString "JALR r%d,r%d" [RD; RS; NONE];
  mkOpString "JR r%d,r%d" [RD; RS; NONE];
  mkOpString "LB r%d,%d(r%d)" [RT; EXTRA; RS];
  mkOpString "LBU r%d,%d(r%d)" [RT; EXTRA; RS];
  mkOpString "LH r%d,%d(r%d)" [RT; EXTRA; RS];
  mkOpString "LHU r%d,%d(r%d)" [RT; EXTRA; RS];
  mkOpString "LUI r%d,%d" [RT; EXTRA; NONE];
  mkOpString "LW r%d,%d(r%d)" [RT; EXTRA; RS];
  mkOpString "LWL r%d,%d(r%d)" [RT; EXTRA; RS];
  mkOpString "LWR r%d,%d(r%d)" [RT; EXTRA; RS];
  mkOpString "Shouldn't happen" [NONE; NONE; NONE];
  mkOpString "MFHI r%d" [RD; NONE; NONE];
  mkOpString "MFLO r%d" [RD; NONE; NONE];
  mkOpString "Shouldn't happen" [NONE; NONE; NONE];
  mkOpString "MTHI r%d" [RS; NONE; NONE];
  mkOpString "MTLO r%d" [RS; NONE; NONE];
  mkOpString "MULT r%d,r%d" [RS; RT; NONE];
  mkOpString "MULTU r%d,r%d" [RS; RT; NONE];
  mkOpString "NOR r%d,r%d,r%d" [RD; RS; RT];
  mkOpString "OR r%d,r%d,r%d" [RD; RS; RT];
  mkOpString "ORI r%d,r%d,%d" [RT; RS; EXTRA];
  mkOpString "RFE" [NONE; NONE; NONE];
  mkOpString "SB r%d,%d(r%d)" [RT; EXTRA; RS];
  mkOpString "SH r%d,%d(r%d)" [RT; EXTRA; RS];
  mkOpString "SLL r%d,r%d,%d" [RD; RT; EXTRA];
  mkOpString "SLLV r%d,r%d,r%d" [RD; RT; RS];
  mkOpString "SLT r%d,r%d,r%d" [RD; RS; RT];
  mkOpString "SLTI r%d,r%d,%d" [RT; RS; EXTRA];
  mkOpString "SLTIU r%d,r%d,%d" [RT; RS; EXTRA];
  mkOpString "SLTU r%d,r%d,r%d" [RD; RS; RT];
  mkOpString "SRA r%d,r%d,%d" [RD; RT; EXTRA];
  mkOpString "SRAV r%d,r%d,r%d" [RD; RT; RS];
  mkOpString "SRL r%d,r%d,%d" [RD; RT; EXTRA];
  mkOpString "SRLV r%d,r%d,r%d" [RD; RT; RS];
  mkOpString "SUB r%d,r%d,r%d" [RD; RS; RT];
  mkOpString "SUBU r%d,r%d,r%d" [RD; RS; RT];
  mkOpString "SW r%d,%d(r%d)" [RT; EXTRA; RS];
  mkOpString "SWL r%d,%d(r%d)" [RT; EXTRA; RS];
  mkOpString "SWR r%d,%d(r%d)" [RT; EXTRA; RS];
  mkOpString "XOR r%d,r%d,r%d" [RD; RS; RT];
  mkOpString "XORI r%d,r%d,%d" [RT; RS; EXTRA];
  mkOpString "SYSCALL" [NONE; NONE; NONE];
  mkOpString "Unimplemented" [NONE; NONE; NONE];
  mkOpString "Reserved" [NONE; NONE; NONE]].

(** ** Instructions *)

Record Instruction : Type := mkInstr {
  value : Z;
  opCode : OpCode;
  rs : Z;
  rt : Z;
  rd : Z;
  extra : Z
}.

Definition TypeToReg (reg : RegType) (instr : Instruction) : Z :=
  match reg with
  | RS => rs instr
  | RT => rt instr
  | RD => rd instr
  | EXTRA => extra instr
  | NONE => -1
  end.

(** What the trace prints: the format and its three arguments. *)
Definition trace (instr : Instruction) : result (string * list Z) :=
  assert* (op_num (opCode instr) <=? MaxOpcode) in
  let* str := zget opStrings (op_num (opCode instr)) in
  Ret (format str, (fun a => TypeToReg a instr) <$> args str).

(** The end of [Decode]: the two special opcodes are looked up further. *)
Definition decode_op (v : Z) (opCode : OpCode) : result OpCode :=
  match opCode with
  | SPECIAL => zget specialTable (Z.land v 0x3f)
  | BCOND =>
      let i := Z.land v 0x1f0000 in
      Ret (if i =? 0 then OP_BLTZ
           else if i =? 0x10000 then OP_BGEZ
           else if i =? 0x100000 then OP_BLTZAL
           else if i =? 0x110000 then OP_BGEZAL
           else OP_UNIMP)
  | op => Ret op
  end.

(** [Instruction::Decode]; [v] is the [unsigned int] fetched. *)
Definition Decode (v : Z) : result Instruction :=
  let rs := Z.land (Z.shiftr v 21) 0x1f in
  let rt := Z.land (Z.shiftr v 16) 0x1f in
  let rd := Z.land (Z.shiftr v 11) 0x1f in
  let* opPtr := zget opTable (Z.land (Z.shiftr v 26) 0x3f) in
  let extra :=
    match oi_format opPtr with
    | IFMT =>
        let extra := Z.land v 0xffff in
        if negb (Z.land extra 0x8000 =? 0) then s32 (Z.lor extra 0xffff0000) else extra
    | RFMT => Z.land (Z.shiftr v 6) 0x1f
    | JFMT => Z.land v 0x3ffffff
    end in
  let* opCode := decode_op v (oi_opCode opPtr) in
  Ret (mkInstr v opCode rs rt rd extra).

(** ** Multiplication *)

(** The main loop of [Mult]; [n] counts the iterations left of the 32. *)
Fixpoint mult_loop (n : nat) (a bLo bHi lo hi : Z) : Z * Z :=
  match n with
  | O => (hi, lo)
  | S n' =>
      let shift lo hi :=
        let bHi := u32 (Z.shiftl bHi 1) in
        let bHi := if negb (Z.land bLo 0x80000000 =? 0) then Z.lor bHi 1 else bHi in
        mult_loop n' (Z.shiftr a 1) (u32 (Z.shiftl bLo 1)) bHi lo hi in
      if negb (Z.land a 1 =? 0) then
        let lo := u32 (lo + bLo) in
        let hi := if lo <? bLo then u32 (hi + 1) else hi in
        let hi := u32 (hi + bHi) in
        if Z.land (u32 a) 0xfffffffe =? 0 then (hi, lo) else shift lo hi
      else shift lo hi
  end.

(** [Mult]: the values left in [*hiPtr] and [*loPtr]. *)
Definition Mult (a b : Z) (signedArith : bool) : Z * Z :=
  if (a =? 0) || (b =? 0) then (0, 0) else
  let (negative, a) :=
    if signedArith && (a <? 0) then (true, s32 (- a)) else (false, a) in
  let (negative, b) :=
    if signedArith && (b <? 0) then (negb negative, s32 (- b)) else (negative, b) in
  let (hi, lo) := mult_loop 32 a (u32 b) 0 0 0 in
  let (hi, lo) :=
    if negative then
      let hi := u32 (Z.lnot hi) in
      let lo := u32 (u32 (Z.lnot lo) + 1) in
      (if lo =? 0 then u32 (hi + 1) else hi, lo)
    else (hi, lo) in
  (s32 hi, s32 lo).

(** ** The cases of [OneInstruction]

    Each takes the world, the decoded instruction and [pcAfter], and either
    traps to the kernel and returns early ([None]) or yields the new [pcAfter]
    with the delayed load to record ([nextLoadReg], [nextLoadValue]). *)

Definition signbit (x : Z) : bool := negb (Z.land (u32 x) SIGN_BIT =? 0).

Section instructions.
Context {K : Type}.
Variable ExceptionHandler : ExceptionType -> World K -> result (World K).

Abbreviation exec_result := (result (World K * option (Z * Z * Z))).

Definition reg (w : World K) (i : Z) : result Z := zget (registers (machine w)) i.

Definition setreg (w : World K) (i v : Z) : result (World K) :=
  let* r := zset (registers (machine w)) i v in
  Ret (set_machine w (set_registers (machine w) r)).

(** [break] with no delayed load, [break] with one, [RaiseException; return]. *)
Definition next (w : World K) (pcAfter : Z) : exec_result :=
  Ret (w, Some (pcAfter, 0, 0)).
Definition next_load (w : World K) (pcAfter r v : Z) : exec_result :=
  Ret (w, Some (pcAfter, r, v)).
Definition trap (w : World K) (e : ExceptionType) (badVAddr : Z) : exec_result :=
  let* w := RaiseException ExceptionHandler w e badVAddr in Ret (w, None).

(** [if (!ReadMem(addr, size, &value)) return;] and the same of [WriteMem]. *)
Definition with_read (w : World K) (addr size : Z)
    (k : World K -> Z -> exec_result) : exec_result :=
  let* (w, v) := ReadMem ExceptionHandler w addr size in
  match v with None => Ret (w, None) | Some v => k w v end.
Definition with_write (w : World K) (addr size v : Z)
    (k : World K -> exec_result) : exec_result :=
  let* (w, ok) := WriteMem ExceptionHandler w addr size v in
  if ok then k w else Ret (w, None).

(** *** Arithmetic and logic *)

Definition exec_ADD (w : World K) (instr : Instruction) (pcAfter : Z) : exec_result :=
  let* a := reg w (rs instr) in
  let* b := reg w (rt instr) in
  let sum := s32 (a + b) in
  if negb (signbit (Z.lxor a b)) && signbit (Z.lxor a sum)
  then trap w OverflowException 0
  else let* w := setreg w (rd instr) sum in next w pcAfter.

Definition exec_ADDI (w : World K) (instr : Instruction) (pcAfter : Z) : exec_result :=
  let* a := reg w (rs instr) in
  let sum := s32 (a + extra instr) in
  if negb (signbit (Z.lxor a (extra instr))) && signbit (Z.lxor (extra instr) sum)
  then trap w OverflowException 0
  else let* w := setreg w (rt instr) sum in next w pcAfter.

Definition exec_SUB (w : World K) (instr : Instruction) (pcAfter : Z) : exec_result :=
  let* a := reg w (rs instr) in
  let* b := reg w (rt instr) in
  let diff := s32 (a - b) in
  if signbit (Z.lxor a b) && signbit (Z.lxor a diff)
  then trap w OverflowException 0
  else let* w := setreg w (rd instr) diff in next w pcAfter.

Definition exec_ADDIU (w : World K) (instr : Instruction) (pcAfter : Z) : exec_result :=
  let* a := reg w (rs instr) in
  let* w := setreg w (rt instr) (s32 (a + extra instr)) in next w pcAfter.

Definition exec_ADDU (w : World K) (instr : Instruction) (pcAfter : Z) : exec_result :=
  let* a := reg w (rs instr) in
  let* b := reg w (rt instr) in
  let* w := setreg w (rd instr) (s32 (a + b)) in next w pcAfter.

Definition exec_SUBU (w : World K) (instr : Instruction) (pcAfter : Z) : exec_result :=
  let* a := reg w (rs instr) in
  let* b := reg w (rt instr) in
  let* w := setreg w (rd instr) (s32 (a - b)) in next w pcAfter.

Definition exec_AND (w : World K) (instr : Instruction) (pcAfter : Z) : exec_result :=
  let* a := reg w (rs instr) in
  let* b := reg w (rt instr) in
  let* w := setreg w (rd instr) (Z.land a b) in next w pcAfter.

Definition exec_ANDI (w : World K) (instr : Instruction) (pcAfter : Z) : exec_result :=
  let* a := reg w (rs instr) in
  let* w := setreg w (rt instr) (Z.land a (Z.land (extra instr) 0xffff)) in next w pcAfter.

Definition exec_NOR (w : World K) (instr : Instruction) (pcAfter : Z) : exec_result :=
  let* a := reg w (rs instr) in
  let* b := reg w (rt instr) in
  let* w := setreg w (rd instr) (Z.lnot (Z.lor a b)) in next w pcAfter.

Definition exec_OR (w : World K) (instr : Instruction) (pcAfter : Z) : exec_result :=
  let* a := reg w (rs instr) in
  let* b := reg w (rt instr) in
  let* w := setreg w (rd instr) (Z.lor a b) in next w pcAfter.

Definition exec_ORI (w : World K) (instr : Instruction) (pcAfter : Z) : exec_result :=
  let* a := reg w (rs instr) in
  let* w := setreg w (rt instr) (Z.lor a (Z.land (extra instr) 0xffff)) in next w pcAfter.

Definition exec_XOR (w : World K) (instr : Instruction) (pcAfter : Z) : exec_result :=
  let* a := reg w (rs instr) in
  let* b := reg w (rt instr) in
  let* w := setreg w (rd instr) (Z.lxor a b) in next w pcAfter.

Definition exec_XORI (w : World K) (instr : Instruction) (pcAfter : Z) : exec_result :=
  let* a := reg w (rs instr) in
  let* w := setreg w (rt instr) (Z.lxor a (Z.land (extra instr) 0xffff)) in next w pcAfter.

Definition exec_LUI (w : World K) (instr : Instruction) (pcAfter : Z) : exec_result :=
  let* w := setreg w (rt instr) (s32 (Z.shiftl (extra instr) 16)) in next w pcAfter.

Definition exec_SLT (w : World K) (instr : Instruction) (pcAfter : Z) : exec_result :=
  let* a := reg w (rs instr) in
  let* b := reg w (rt instr) in
  let* w := setreg w (rd instr) (if a <? b then 1 else 0) in next w pcAfter.

Definition exec_SLTI (w : World K) (instr : Instruction) (pcAfter : Z) : exec_result :=
  let* a := reg w (rs instr) in
  let* w := setreg w (rt instr) (if a <? extra instr then 1 else 0) in next w pcAfter.

Definition exec_SLTIU (w : World K) (instr : Instruction) (pcAfter : Z) : exec_result :=
  let* a := reg w (rs instr) in
  let* w := setreg w (rt instr) (if u32 a <? u32 (extra instr) then 1 else 0) in next w pcAfter.

Definition exec_SLTU (w : World K) (instr : Instruction) (pcAfter : Z) : exec_result :=
  let* a := reg w (rs instr) in
  let* b := reg w (rt instr) in
  let* w := setreg w (rd instr) (if u32 a <? u32 b then 1 else 0) in next w pcAfter.

(** *** Shifts; [tmp] of [OP_SRL] and [OP_SRLV] is an [int] *)

Definition exec_SLL (w : World K) (instr : Instruction) (pcAfter : Z) : exec_result :=
  let* b := reg w (rt instr) in
  let* w := setreg w (rd instr) (s32 (Z.shiftl b (extra instr))) in next w pcAfter.

Definition exec_SLLV (w : World K) (instr : Instruction) (pcAfter : Z) : exec_result :=
  let* a := reg w (rs instr) in
  let* b := reg w (rt instr) in
  let* w := setreg w (rd instr) (s32 (Z.shiftl b (Z.land a 0x1f))) in next w pcAfter.

Definition exec_SRA (w : World K) (instr : Instruction) (pcAfter : Z) : exec_result :=
  let* b := reg w (rt instr) in
  let* w := setreg w (rd instr) (Z.shiftr b (extra instr)) in next w pcAfter.

Definition exec_SRAV (w : World K) (instr : Instruction) (pcAfter : Z) : exec_result :=
  let* a := reg w (rs instr) in
  let* b := reg w (rt instr) in
  let* w := setreg w (rd instr) (Z.shiftr b (Z.land a 0x1f)) in next w pcAfter.

Definition exec_SRL (w : World K) (instr : Instruction) (pcAfter : Z) : exec_result :=
  let* b := reg w (rt instr) in
  let* w := setreg w (rd instr) (Z.shiftr b (extra instr)) in next w pcAfter.

Definition exec_SRLV (w : World K) (instr : Instruction) (pcAfter : Z) : exec_result :=
  let* a := reg w (rs instr) in
  let* b := reg w (rt instr) in
  let* w := setreg w (rd instr) (Z.shiftr b (Z.land a 0x1f)) in next w pcAfter.

(** *** Multiplication and division *)

Definition exec_DIV (w : World K) (instr : Instruction) (pcAfter : Z) : exec_result :=
  let* a := reg w (rs instr) in
  let* b := reg w (rt instr) in
  if b =? 0 then
    let* w := setreg w LoReg 0 in
    let* w := setreg w HiReg 0 in next w pcAfter
  else if (a =? - 2 ^ 31) && (b =? -1) then Fault
  else
    let* w := setreg w LoReg (Z.quot a b) in
    let* a := reg w (rs instr) in
    let* b := reg w (rt instr) in
    let* w := setreg w HiReg (Z.rem a b) in next w pcAfter.

Definition exec_DIVU (w : World K) (instr : Instruction) (pcAfter : Z) : exec_result :=
  let* a := reg w (rs instr) in
  let* b := reg w (rt instr) in
  let a := u32 a in
  let b := u32 b in
  if b =? 0 then
    let* w := setreg w LoReg 0 in
    let* w := setreg w HiReg 0 in next w pcAfter
  else
    let* w := setreg w LoReg (s32 (a / b)) in
    let* w := setreg w HiReg (s32 (a mod b)) in next w pcAfter.

Definition exec_mult (signedArith : bool) (w : World K) (instr : Instruction)
    (pcAfter : Z) : exec_result :=
  let* a := reg w (rs instr) in
  let* b := reg w (rt instr) in
  let (hi, lo) := Mult a b signedArith in
  let* w := setreg w HiReg hi in
  let* w := setreg w LoReg lo in next w pcAfter.

Definition exec_MULT := exec_mult true.
Definition exec_MULTU := exec_mult false.

Definition exec_MFHI (w : World K) (instr : Instruction) (pcAfter : Z) : exec_result :=
  let* v := reg w HiReg in
  let* w := setreg w (rd instr) v in next w pcAfter.

Definition exec_MFLO (w : World K) (instr : Instruction) (pcAfter : Z) : exec_result :=
  let* v := reg w LoReg in
  let* w := setreg w (rd instr) v in next w pcAfter.

Definition exec_MTHI (w : World K) (instr : Instruction) (pcAfter : Z) : exec_result :=
  let* v := reg w (rs instr) in
  let* w := setreg w HiReg v in next w pcAfter.

Definition exec_MTLO (w : World K) (instr : Instruction) (pcAfter : Z) : exec_result :=
  let* v := reg w (rs instr) in
  let* w := setreg w LoReg v in next w pcAfter.

(** *** Branches and jumps *)

(** [if (taken) pcAfter = registers[NextPCReg] + IndexToAddr(instr->extra)] *)
Definition branch (taken : bool) (w : World K) (instr : Instruction) (pcAfter : Z)
    : exec_result :=
  if taken then
    let* npc := reg w NextPCReg in next w (s32 (npc + IndexToAddr (extra instr)))
  else next w pcAfter.

(** [registers[r] = registers[NextPCReg] + 4] *)
Definition link (w : World K) (r : Z) : result (World K) :=
  let* npc := reg w NextPCReg in setreg w r (s32 (npc + 4)).

Definition exec_BEQ (w : World K) (instr : Instruction) (pcAfter : Z) : exec_result :=
  let* a := reg w (rs instr) in
  let* b := reg w (rt instr) in
  branch (a =? b) w instr pcAfter.

Definition exec_BNE (w : World K) (instr : Instruction) (pcAfter : Z) : exec_result :=
  let* a := reg w (rs instr) in
  let* b := reg w (rt instr) in
  branch (negb (a =? b)) w instr pcAfter.

Definition exec_BGEZ (w : World K) (instr : Instruction) (pcAfter : Z) : exec_result :=
  let* a := reg w (rs instr) in
  branch (negb (signbit a)) w instr pcAfter.

Definition exec_BGEZAL (w : World K) (instr : Instruction) (pcAfter : Z) : exec_result :=
  let* w := link w R31 in exec_BGEZ w instr pcAfter.

Definition exec_BGTZ (w : World K) (instr : Instruction) (pcAfter : Z) : exec_result :=
  let* a := reg w (rs instr) in
  branch (a >? 0) w instr pcAfter.

Definition exec_BLEZ (w : World K) (instr : Instruction) (pcAfter : Z) : exec_result :=
  let* a := reg w (rs instr) in
  branch (a <=? 0) w instr pcAfter.

Definition exec_BLTZ (w : World K) (instr : Instruction) (pcAfter : Z) : exec_result :=
  let* a := reg w (rs instr) in
  branch (signbit a) w instr pcAfter.

Definition exec_BLTZAL (w : World K) (instr : Instruction) (pcAfter : Z) : exec_result :=
  let* w := link w R31 in exec_BLTZ w instr pcAfter.

Definition exec_J (w : World K) (instr : Instruction) (pcAfter : Z) : exec_result :=
  next w (s32 (Z.lor (Z.land (u32 pcAfter) 0xf0000000) (u32 (IndexToAddr (extra instr))))).

Definition exec_JAL (w : World K) (instr : Instruction) (pcAfter : Z) : exec_result :=
  let* w := link w R31 in exec_J w instr pcAfter.

Definition exec_JR (w : World K) (instr : Instruction) (pcAfter : Z) : exec_result :=
  let* a := reg w (rs instr) in next w a.

Definition exec_JALR (w : World K) (instr : Instruction) (pcAfter : Z) : exec_result :=
  let* w := link w (rd instr) in exec_JR w instr pcAfter.

(** *** Loads *)

(** [OP_LB] and [OP_LBU]: [sx] is [instr->opCode == OP_LB]. *)
Definition exec_LB (sx : bool) (w : World K) (instr : Instruction) (pcAfter : Z)
    : exec_result :=
  let* a := reg w (rs instr) in
  let tmp := s32 (a + extra instr) in
  with_read w tmp 1 (fun w v =>
    let v := if negb (Z.land v 0x80 =? 0) && sx then s32 (Z.lor (u32 v) 0xffffff00)
             else Z.land v 0xff in
    next_load w pcAfter (rt instr) v).

Definition exec_LH (sx : bool) (w : World K) (instr : Instruction) (pcAfter : Z)
    : exec_result :=
  let* a := reg w (rs instr) in
  let tmp := s32 (a + extra instr) in
  if negb (Z.land tmp 0x1 =? 0) then trap w AddressErrorException tmp else
  with_read w tmp 2 (fun w v =>
    let v := if negb (Z.land v 0x8000 =? 0) && sx then s32 (Z.lor (u32 v) 0xffff0000)
             else Z.land v 0xffff in
    next_load w pcAfter (rt instr) v).

Definition exec_LW (w : World K) (instr : Instruction) (pcAfter : Z) : exec_result :=
  let* a := reg w (rs instr) in
  let tmp := s32 (a + extra instr) in
  if negb (Z.land tmp 0x3 =? 0) then trap w AddressErrorException tmp else
  with_read w tmp 4 (fun w v => next_load w pcAfter (rt instr) v).

(** The register's value as the pending load will leave it. *)
Definition pending_value (w : World K) (r : Z) : result Z :=
  let* lr := reg w LoadReg in
  if lr =? r then reg w LoadValueReg else reg w r.

(** The [switch (3 - byte)] of [OP_LWL] and of [OP_LWR]. *)
Definition lwl_merge (byte nextLoadValue value : Z) : Z :=
  match 3 - byte with
  | 0 => value
  | 1 => Z.lor (Z.land nextLoadValue 0xff) (s32 (Z.shiftl value 8))
  | 2 => Z.lor (Z.land nextLoadValue 0xffff) (s32 (Z.shiftl value 16))
  | 3 => Z.lor (Z.land nextLoadValue 0xffffff) (s32 (Z.shiftl value 24))
  | _ => nextLoadValue
  end.

Definition lwr_merge (byte nextLoadValue value : Z) : Z :=
  match 3 - byte with
  | 0 => s32 (Z.lor (Z.land (u32 nextLoadValue) 0xffffff00)
                    (Z.land (Z.shiftr value 24) 0xff))
  | 1 => s32 (Z.lor (Z.land (u32 nextLoadValue) 0xffff0000)
                    (Z.land (Z.shiftr value 16) 0xffff))
  | 2 => s32 (Z.lor (Z.land (u32 nextLoadValue) 0xff000000)
                    (Z.land (Z.shiftr value 8) 0xffffff))
  | 3 => value
  | _ => nextLoadValue
  end.

Definition exec_LWL (w : World K) (instr : Instruction) (pcAfter : Z) : exec_result :=
  let* a := reg w (rs instr) in
  let tmp := s32 (a + extra instr) in
  let byte := Z.land tmp 0x3 in
  with_read w (s32 (tmp - byte)) 4 (fun w v =>
    let* old := pending_value w (rt instr) in
    next_load w pcAfter (rt instr) (lwl_merge byte old v)).

Definition exec_LWR (w : World K) (instr : Instruction) (pcAfter : Z) : exec_result :=
  let* a := reg w (rs instr) in
  let tmp := s32 (a + extra instr) in
  let byte := Z.land tmp 0x3 in
  with_read w (s32 (tmp - byte)) 4 (fun w v =>
    let* old := pending_value w (rt instr) in
    next_load w pcAfter (rt instr) (lwr_merge byte old v)).

(** *** Stores *)

Definition exec_store (size : Z) (w : World K) (instr : Instruction) (pcAfter : Z)
    : exec_result :=
  let* a := reg w (rs instr) in
  let* b := reg w (rt instr) in
  with_write w (s32 (u32 (a + extra instr))) size b (fun w => next w pcAfter).

Definition exec_SB := exec_store 1.
Definition exec_SH := exec_store 2.
Definition exec_SW := exec_store 4.

(** The [switch (3 - byte)] of [OP_SWL] and of [OP_SWR]. *)
Definition swl_merge (byte r value : Z) : Z :=
  match 3 - byte with
  | 0 => r
  | 1 => s32 (Z.lor (Z.land (u32 value) 0xff000000) (Z.land (Z.shiftr r 8) 0xffffff))
  | 2 => s32 (Z.lor (Z.land (u32 value) 0xffff0000) (Z.land (Z.shiftr r 16) 0xffff))
  | 3 => s32 (Z.lor (Z.land (u32 value) 0xffffff00) (Z.land (Z.shiftr r 24) 0xff))
  | _ => value
  end.

Definition swr_merge (byte r value : Z) : Z :=
  match 3 - byte with
  | 0 => Z.lor (Z.land value 0xffffff) (s32 (Z.shiftl r 24))
  | 1 => Z.lor (Z.land value 0xffff) (s32 (Z.shiftl r 16))
  | 2 => Z.lor (Z.land value 0xff) (s32 (Z.shiftl r 8))
  | 3 => r
  | _ => value
  end.

Definition exec_SWL (w : World K) (instr : Instruction) (pcAfter : Z) : exec_result :=
  let* a := reg w (rs instr) in
  let tmp := s32 (a + extra instr) in
  let byte := Z.land tmp 0x3 in
  with_read w (s32 (tmp - byte)) 4 (fun w v =>
    let* b := reg w (rt instr) in
    with_write w (s32 (tmp - byte)) 4 (swl_merge byte b v) (fun w => next w pcAfter)).

Definition exec_SWR (w : World K) (instr : Instruction) (pcAfter : Z) : exec_result :=
  let* a := reg w (rs instr) in
  let tmp := s32 (a + extra instr) in
  let byte := Z.land tmp 0x3 in
  with_read w (s32 (tmp - byte)) 4 (fun w v =>
    let* b := reg w (rt instr) in
    with_write w (s32 (tmp - byte)) 4 (swr_merge byte b v) (fun w => next w pcAfter)).

(** ** One instruction *)

(** The [switch (instr->opCode)]. *)
Definition execute (w : World K) (instr : Instruction) (pcAfter : Z) : exec_result :=
  match opCode instr with
  | OP_ADD => exec_ADD w instr pcAfter
  | OP_ADDI => exec_ADDI w instr pcAfter
  | OP_ADDIU => exec_ADDIU w instr pcAfter
  | OP_ADDU => exec_ADDU w instr pcAfter
  | OP_AND => exec_AND w instr pcAfter
  | OP_ANDI => exec_ANDI w instr pcAfter
  | OP_BEQ => exec_BEQ w instr pcAfter
  | OP_BGEZAL => exec_BGEZAL w instr pcAfter
  | OP_BGEZ => exec_BGEZ w instr pcAfter
  | OP_BGTZ => exec_BGTZ w instr pcAfter
  | OP_BLEZ => exec_BLEZ w instr pcAfter
  | OP_BLTZAL => exec_BLTZAL w instr pcAfter
  | OP_BLTZ => exec_BLTZ w instr pcAfter
  | OP_BNE => exec_BNE w instr pcAfter
  | OP_DIV => exec_DIV w instr pcAfter
  | OP_DIVU => exec_DIVU w instr pcAfter
  | OP_JAL => exec_JAL w instr pcAfter
  | OP_J => exec_J w instr pcAfter
  | OP_JALR => exec_JALR w instr pcAfter
  | OP_JR => exec_JR w instr pcAfter
  | OP_LB => exec_LB true w instr pcAfter
  | OP_LBU => exec_LB false w instr pcAfter
  | OP_LH => exec_LH true w instr pcAfter
  | OP_LHU => exec_LH false w instr pcAfter
  | OP_LUI => exec_LUI w instr pcAfter
  | OP_LW => exec_LW w instr pcAfter
  | OP_LWL => exec_LWL w instr pcAfter
  | OP_LWR => exec_LWR w instr pcAfter
  | OP_MFHI => exec_MFHI w instr pcAfter
  | OP_MFLO => exec_MFLO w instr pcAfter
  | OP_MTHI => exec_MTHI w instr pcAfter
  | OP_MTLO => exec_MTLO w instr pcAfter
  | OP_MULT => exec_MULT w instr pcAfter
  | OP_MULTU => exec_MULTU w instr pcAfter
  | OP_NOR => exec_NOR w instr pcAfter
  | OP_OR => exec_OR w instr pcAfter
  | OP_ORI => exec_ORI w instr pcAfter
  | OP_SB => exec_SB w instr pcAfter
  | OP_SH => exec_SH w instr pcAfter
  | OP_SLL => exec_SLL w instr pcAfter
  | OP_SLLV => exec_SLLV w instr pcAfter
  | OP_SLT => exec_SLT w instr pcAfter
  | OP_SLTI => exec_SLTI w instr pcAfter
  | OP_SLTIU => exec_SLTIU w instr pcAfter
  | OP_SLTU => exec_SLTU w instr pcAfter
  | OP_SRA => exec_SRA w instr pcAfter
  | OP_SRAV => exec_SRAV w instr pcAfter
  | OP_SRL => exec_SRL w instr pcAfter
  | OP_SRLV => exec_SRLV w instr pcAfter
  | OP_SUB => exec_SUB w instr pcAfter
  | OP_SUBU => exec_SUBU w instr pcAfter
  | OP_SW => exec_SW w instr pcAfter
  | OP_SWL => exec_SWL w instr pcAfter
  | OP_SWR => exec_SWR w instr pcAfter
  | OP_SYSCALL => trap w SyscallException 0
  | OP_XOR => exec_XOR w instr pcAfter
  | OP_XORI => exec_XORI w instr pcAfter
  | OP_RES | OP_UNIMP => trap w IllegalInstrException 0
  | OP_RFE | SPECIAL | BCOND => AssertFail
  end.

(** The end of [OneInstruction]: the delayed load and the program counters. *)
Definition advance (w : World K) (pcAfter nextLoadReg nextLoadValue : Z)
    : result (World K) :=
  let* m := DelayedLoad (machine w) nextLoadReg nextLoadValue in
  let w := set_machine w m in
  let* pc := reg w PCReg in
  let* w := setreg w PrevPCReg pc in
  let* npc := reg w NextPCReg in
  let* w := setreg w PCReg npc in
  setreg w NextPCReg pcAfter.

(** [Machine::OneInstruction]; [debug_m] is [debug->IsEnabled('m')]. *)
Definition OneInstruction (debug_m : bool) (w : World K) : result (World K) :=
  let* pc := reg w PCReg in
  let* (w, raw) := ReadMem ExceptionHandler w pc 4 in
  match raw with
  | None => Ret w
  | Some raw =>
      let* instr := Decode (u32 raw) in
      let* _ := if debug_m then let* _ := trace instr in Ret tt else Ret tt in
      let* npc := reg w NextPCReg in
      let* (w, r) := execute w instr (s32 (npc + 4)) in
      match r with
      | None => Ret w
      | Some (pcAfter, nextLoadReg, nextLoadValue) =>
          advance w pcAfter nextLoadReg nextLoadValue
      end
  end.
End instructions.

(** ** Lemmas: multiplication *)

Lemma land1_odd a : negb (Z.land a 1 =? 0) = (a mod 2 =? 1).
Proof.
  change 1 with (Z.ones 1) at 1. rewrite Z.land_ones by lia.
  change (2 ^ 1) with 2. pose proof (Z.mod_pos_bound a 2 ltac:(lia)).
  destruct (Z.eqb_spec (a mod 2) 0), (Z.eqb_spec (a mod 2) 1); try done; lia.
Qed.

Lemma testbit31 x : Z.testbit x 31 = (x / 2 ^ 31 mod 2 =? 1).
Proof.
  rewrite Z.testbit_odd, Z.shiftr_div_pow2, Zodd_mod by lia.
  pose proof (Z.mod_pos_bound (x / 2 ^ 31) 2 ltac:(lia)).
  by destruct (Z.eqb_spec (x / 2 ^ 31 mod 2) 1).
Qed.

Lemma land_bit31 x : is_u32 x -> negb (Z.land x 0x80000000 =? 0) = (2 ^ 31 <=? x).
Proof.
  intros Hx. change 0x80000000 with (2 ^ 31). rewrite land_pow2_testbit, testbit31 by lia.
  unfold is_u32 in Hx. destruct (Z.leb_spec (2 ^ 31) x).
  - by rewrite <- (Z.div_unique x (2 ^ 31) 1 (x - 2 ^ 31)) by lia.
  - by rewrite Z.div_small by lia.
Qed.

(** The loop leaves it early exactly when the multiplier has become 1. *)
Lemma last_bit a : is_s32 a -> a mod 2 = 1 ->
  (Z.land (u32 a) 0xfffffffe =? 0) = (a =? 1).
Proof.
  intros Ha Hodd.
  assert (E : Z.land (u32 a) 0xfffffffe = u32 a - 1).
  { assert (Hu : u32 a mod 2 = 1).
    { unfold u32. rewrite Z.mod_mod_divide; [done|by exists (2 ^ 31)]. }
    pose proof (Z.add_nocarry_lxor (Z.land (u32 a) 0xfffffffe) (Z.land (u32 a) 1)) as H1.
    assert (Hd : Z.land (Z.land (u32 a) 0xfffffffe) (Z.land (u32 a) 1) = 0).
    { rewrite <- Z.land_assoc, (Z.land_comm (u32 a) 1), (Z.land_assoc 0xfffffffe).
      simpl. by rewrite Z.land_0_l, Z.land_0_r. }
    specialize (H1 Hd). rewrite Z.lxor_lor in H1 by done.
    rewrite <- Z.land_lor_distr_r in H1. change (Z.lor 0xfffffffe 1) with (Z.ones 32) in H1.
    rewrite Z.land_ones in H1 by lia. fold (u32 (u32 a)) in H1.
    rewrite (u32_id (u32 a)) in H1 by apply u32_range.
    assert (Z.land (u32 a) 1 = 1).
    { change 1 with (Z.ones 1) at 1. rewrite Z.land_ones by lia. done. }
    lia. }
  rewrite E. rewrite u32_of_s32 by done. unfold is_s32 in Ha.
  destruct (Z.ltb_spec a 0), (Z.eqb_spec a 1); lia.
Qed.

(** The double word [bHi:bLo] is doubled, modulo [2^64]. *)
Lemma double_word bLo bHi : is_u32 bLo -> is_u32 bHi ->
  let bHi' := u32 (Z.shiftl bHi 1) in
  let bHi' := if negb (Z.land bLo 0x80000000 =? 0) then Z.lor bHi' 1 else bHi' in
  is_u32 bHi' /\
  exists k, bHi' * 2 ^ 32 + u32 (Z.shiftl bLo 1) = 2 * (bHi * 2 ^ 32 + bLo) + k * 2 ^ 64.
Proof.
  intros Hl Hh. simpl. rewrite land_bit31, !Z.shiftl_mul_pow2 by (done || lia).
  change (2 ^ 1) with 2. unfold is_u32, u32 in *.
  pose proof (Z.mod_pos_bound (bHi * 2) (2 ^ 32) ltac:(lia)).
  pose proof (Z.div_mod (bHi * 2) (2 ^ 32) ltac:(lia)).
  assert (Hev : ((bHi * 2) mod 2 ^ 32) mod 2 = 0).
  { rewrite Z.mod_mod_divide by (by exists (2 ^ 31)). by rewrite Z.mod_mul. }
  pose proof (Z.div_mod ((bHi * 2) mod 2 ^ 32) 2 ltac:(lia)) as Hdm.
  destruct (Z.leb_spec (2 ^ 31) bLo).
  - assert (Z.lor ((bHi * 2) mod 2 ^ 32) 1 = (bHi * 2) mod 2 ^ 32 + 1) as ->.
    { rewrite Hdm, Hev, Z.add_0_r. set (q := _ / 2) in *.
      assert (0 <= q) by lia. destruct q as [|q|q]; [done|done|lia]. }
    split; [lia|]. exists (- ((bHi * 2) / 2 ^ 32)).
    rewrite <- (Z.mod_unique (bLo * 2) (2 ^ 32) 1 (bLo * 2 - 2 ^ 32)) by lia. lia.
  - split; [lia|]. exists (- ((bHi * 2) / 2 ^ 32)). rewrite (Z.mod_small (bLo * 2)) by lia. lia.
Qed.

(** [lo += bLo] with the carry into [hi]. *)
Lemma add_word lo hi bLo bHi : is_u32 lo -> is_u32 hi -> is_u32 bLo -> is_u32 bHi ->
  let lo' := u32 (lo + bLo) in
  let hi' := if lo' <? bLo then u32 (hi + 1) else hi in
  exists k, u32 (hi' + bHi) * 2 ^ 32 + lo' =
    (hi * 2 ^ 32 + lo) + (bHi * 2 ^ 32 + bLo) + k * 2 ^ 64.
Proof.
  unfold is_u32. intros ? ? ? ?. simpl.
  assert (Hc : u32 (lo + bLo) = if u32 (lo + bLo) <? bLo then lo + bLo - 2 ^ 32 else lo + bLo).
  { unfold u32. destruct (Z.ltb_spec (lo + bLo) (2 ^ 32)).
    - rewrite Z.mod_small by lia. destruct (Z.ltb_spec (lo + bLo) bLo); lia.
    - rewrite <- (Z.mod_unique (lo + bLo) (2 ^ 32) 1 (lo + bLo - 2 ^ 32)) by lia.
      destruct (Z.ltb_spec (lo + bLo - 2 ^ 32) bLo); lia. }
  pose proof (Z.div_mod (hi + 1) (2 ^ 32) ltac:(lia)).
  destruct (u32 (lo + bLo) <? bLo); rewrite Hc.
  - unfold u32. pose proof (Z.div_mod ((hi + 1) mod 2 ^ 32 + bHi) (2 ^ 32) ltac:(lia)).
    exists (- ((hi + 1) / 2 ^ 32) - ((hi + 1) mod 2 ^ 32 + bHi) / 2 ^ 32). lia.
  - unfold u32. pose proof (Z.div_mod (hi + bHi) (2 ^ 32) ltac:(lia)).
    exists (- ((hi + bHi) / 2 ^ 32)). lia.
Qed.

Lemma mod_pow2_step a n : 0 <= n ->
  a mod 2 ^ (n + 1) = a mod 2 + 2 * ((Z.shiftr a 1) mod 2 ^ n).
Proof.
  intros. rewrite Z.shiftr_div_pow2 by lia. change (2 ^ 1) with 2.
  rewrite Z.add_comm, Z.pow_add_r, Z.mul_comm, (Z.mul_comm (2 ^ n)) by lia.
  rewrite Z.rem_mul_r; [|lia|apply Z.pow_pos_nonneg; lia]. change (2 ^ 1) with 2. lia.
Qed.

Lemma mult_loop_spec n : forall a bLo bHi lo hi,
  is_s32 a -> is_u32 bLo -> is_u32 bHi -> is_u32 lo -> is_u32 hi ->
  exists hi' lo' k, mult_loop n a bLo bHi lo hi = (hi', lo') /\ is_u32 hi' /\ is_u32 lo' /\
    hi' * 2 ^ 32 + lo' = (hi * 2 ^ 32 + lo) +
      (bHi * 2 ^ 32 + bLo) * (a mod 2 ^ Z.of_nat n) + k * 2 ^ 64.
Proof.
  induction n as [|n IH]; intros a bLo bHi lo hi Ha HbL HbH Hlo Hhi.
  { exists hi, lo, 0. split; [done|]. change (2 ^ Z.of_nat 0) with 1.
    rewrite Z.mod_1_r. split; [done|]. split; [done|]. lia. }
  destruct (double_word bLo bHi HbL HbH) as (HbH' & k1 & Hd). simpl in Hd, HbH'.
  assert (Ha' : is_s32 (Z.shiftr a 1)) by (apply shiftr_is_s32; [lia|done]).
  assert (Hm : a mod 2 ^ Z.of_nat (S n) = a mod 2 + 2 * (Z.shiftr a 1 mod 2 ^ Z.of_nat n)).
  { replace (Z.of_nat (S n)) with (Z.of_nat n + 1) by lia. apply mod_pow2_step. lia. }
  pose proof (Z.mod_pos_bound a 2 ltac:(lia)).
  cbn [mult_loop]. rewrite land1_odd.
  destruct (Z.eqb_spec (a mod 2) 1) as [Hodd|Hodd].
  - destruct (add_word lo hi bLo bHi Hlo Hhi HbL HbH) as (k2 & Hs). simpl in Hs.
    rewrite last_bit by done. destruct (Z.eqb_spec a 1) as [->|Hne].
    + do 2 eexists. exists k2. split; [done|].
      split; [apply u32_range|]. split; [apply u32_range|].
      rewrite Z.mod_1_l; [lia|]. pose proof (Z.pow_gt_lin_r 2 (Z.of_nat (S n))). lia.
    + destruct (IH (Z.shiftr a 1) _ _ _ _ Ha' (u32_range (Z.shiftl bLo 1)) HbH' (u32_range (lo + bLo))
        (u32_range ((if u32 (lo + bLo) <? bLo then u32 (hi + 1) else hi) + bHi)))
        as (hi' & lo' & k & -> & ? & ? & E).
      exists hi', lo', (k + k2 + k1 * (Z.shiftr a 1 mod 2 ^ Z.of_nat n)).
      do 3 (split; [done|]). rewrite E, Hs, Hd, Hm, Hodd. ring.
  - destruct (IH (Z.shiftr a 1) _ _ _ _ Ha' (u32_range (Z.shiftl bLo 1)) HbH' Hlo Hhi)
      as (hi' & lo' & k & -> & ? & ? & E).
    exists hi', lo', (k + k1 * (Z.shiftr a 1 mod 2 ^ Z.of_nat n)).
    do 3 (split; [done|]). rewrite E, Hd, Hm. replace (a mod 2) with 0 by lia. ring.
Qed.

(** The whole loop multiplies the unsigned values exactly. *)
Lemma mult_loop_exact a b : is_s32 a -> is_u32 b ->
  exists hi lo, mult_loop 32 a b 0 0 0 = (hi, lo) /\ is_u32 hi /\ is_u32 lo /\
    hi * 2 ^ 32 + lo = u32 a * b.
Proof.
  intros Ha Hb. destruct (mult_loop_spec 32 a b 0 0 0) as (hi & lo & k & H & Hh & Hl & E);
    try done; try (unfold is_u32; lia).
  exists hi, lo. do 3 (split; [done|]). change (2 ^ Z.of_nat 32) with (2 ^ 32) in E.
  fold (u32 a) in E. pose proof (u32_range a). unfold is_u32 in *.
  assert (0 <= u32 a * b < 2 ^ 64) by nia.
  assert (k = 0) by nia. lia.
Qed.

(** ** Lemmas: signs and overflow *)

Lemma signbit_neg x : is_s32 x -> signbit x = (x <? 0).
Proof.
  intros Hx. unfold signbit, SIGN_BIT. change 0x80000000 with (2 ^ 31).
  rewrite land_pow2_testbit by lia. rewrite testbit31, u32_of_s32 by done.
  unfold is_s32 in Hx. destruct (Z.ltb_spec x 0).
  - by rewrite <- (Z.div_unique (x + 2 ^ 32) (2 ^ 31) 1 (x + 2 ^ 31)) by lia.
  - by rewrite Z.div_small by lia.
Qed.

Lemma lxor_neg a b : (Z.lxor a b <? 0) = xorb (a <? 0) (b <? 0).
Proof.
  pose proof (Z.lxor_nonneg a b).
  destruct (Z.ltb_spec (Z.lxor a b) 0), (Z.ltb_spec a 0), (Z.ltb_spec b 0); simpl; lia.
Qed.

Lemma signbit_lxor a b : is_s32 a -> is_s32 b ->
  signbit (Z.lxor a b) = xorb (a <? 0) (b <? 0).
Proof. intros. rewrite signbit_neg by auto with nachos. apply lxor_neg. Qed.

(** The tests of [OP_ADD], [OP_ADDI] and [OP_SUB] detect overflow exactly. *)
Lemma add_overflow a b x : is_s32 a -> is_s32 b -> x = a \/ x = b ->
  negb (signbit (Z.lxor a b)) && signbit (Z.lxor x (s32 (a + b))) =
  bool_decide (~ is_s32 (a + b)).
Proof.
  intros Ha Hb Hx.
  assert (Hxs : is_s32 x) by (destruct Hx; subst; done).
  rewrite !signbit_lxor by (done || apply s32_range).
  rewrite s32_cases by (unfold is_s32 in *; lia). unfold is_s32 in *.
  destruct (Z.ltb_spec (a + b) (- 2 ^ 31)); [|destruct (Z.leb_spec (2 ^ 31) (a + b))];
  destruct (Z.ltb_spec a 0), (Z.ltb_spec b 0), (Z.ltb_spec x 0); try lia; simpl;
  repeat match goal with |- context [?y <? 0] => destruct (Z.ltb_spec y 0) end; try lia;
  first [rewrite bool_decide_eq_true_2 by lia | rewrite bool_decide_eq_false_2 by lia]; done.
Qed.

Lemma sub_overflow a b : is_s32 a -> is_s32 b ->
  signbit (Z.lxor a b) && signbit (Z.lxor a (s32 (a - b))) =
  bool_decide (~ is_s32 (a - b)).
Proof.
  intros Ha Hb. rewrite !signbit_lxor by (done || apply s32_range).
  rewrite s32_cases by (unfold is_s32 in *; lia). unfold is_s32 in *.
  destruct (Z.ltb_spec (a - b) (- 2 ^ 31)); [|destruct (Z.leb_spec (2 ^ 31) (a - b))];
  destruct (Z.ltb_spec a 0), (Z.ltb_spec b 0); try lia; simpl;
  repeat match goal with |- context [?y <? 0] => destruct (Z.ltb_spec y 0) end; try lia;
  first [rewrite bool_decide_eq_true_2 by lia | rewrite bool_decide_eq_false_2 by lia]; done.
Qed.

(** ** Safe computations

    [safe P c]: [c] returns a value that satisfies [P] or shuts the system
    down; it does not fail an assertion, leave an array or run forever. *)

Definition safe {A} (P : A -> Prop) (c : result A) : Prop :=
  match c with Ret a => P a | Halted => True | _ => False end.

Lemma safe_bind {A B} (P : A -> Prop) (Q : B -> Prop) c (k : A -> result B) :
  safe P c -> (forall a, P a -> safe Q (k a)) -> safe Q (rbind c k).
Proof. destruct c; simpl; auto. Qed.

Lemma safe_weaken {A} (P Q : A -> Prop) c :
  safe P c -> (forall a, P a -> Q a) -> safe Q c.
Proof. destruct c; simpl; auto. Qed.

(** Well-formedness in the middle of an instruction, when register 0 may have
    been assigned, and at the end of it. *)
Record wf_mid (m : Machine) : Prop := {
  mid_mmu : wf_mmu m;
  mid_len : length (registers m) = Z.to_nat NumTotalRegs;
  mid_s32 : Forall is_s32 (registers m);
  mid_load : exists lr, registers m !! Z.to_nat LoadReg = Some lr /\ 0 <= lr < NumGPRegs
}.

Definition wf_machine (m : Machine) : Prop := wf_mmu m /\ wf_regs m.

Lemma wf_machine_mid m : wf_machine m -> wf_mid m.
Proof. intros [? []]. by split. Qed.

Lemma same_mapping_mid m m' : wf_mid m -> wf_mmu m' -> same_mapping m m' -> wf_mid m'.
Proof. intros [? ? ? ?] ? [Hr _ _ _ _]. by split; rewrite ?Hr. Qed.

Lemma wf_mid_set m i v : wf_mid m -> 0 <= i < NumTotalRegs -> is_s32 v ->
  (i = LoadReg -> 0 <= v < NumGPRegs) ->
  wf_mid (set_registers m (<[Z.to_nat i := v]> (registers m))).
Proof.
  intros [Hm Hl Hs (lr & Hlr & ?)] Hi Hv Hload. split; simpl.
  - destruct Hm as [? Ht]. by split.
  - by rewrite length_insert.
  - by apply Forall_insert.
  - destruct (decide (i = LoadReg)) as [->|].
    + exists v. rewrite list_lookup_insert_eq; [auto|]. rewrite Hl. unfold LoadReg, NumTotalRegs. lia.
    + exists lr. rewrite list_lookup_insert_ne; [auto|]. unfold LoadReg in *. lia.
Qed.

(** [DelayedLoad] finishes an instruction: register 0 is zero again. *)
Lemma DelayedLoad_wf m r v : wf_mid m -> 0 <= r < NumGPRegs -> is_s32 v ->
  exists m', DelayedLoad m r v = Ret m' /\ wf_machine m'.
Proof.
  intros Hm Hr Hv. pose proof Hm as [_ Hl Hs (lr & Hlr & ?)].
  unfold DelayedLoad, NumGPRegs, NumTotalRegs in *.
  destruct (lookup_lt_is_Some_2 (registers m) (Z.to_nat LoadValueReg)) as [lv Hlv];
    [rewrite Hl; unfold LoadValueReg; lia|].
  rewrite (zget_lookup _ LoadReg lr), (zget_lookup _ LoadValueReg lv) by done.
  rewrite !rbind_Ret. assert (is_s32 lv) by (by eapply Forall_lookup_1).
  unfold LoadReg, LoadValueReg in *.
  rewrite zset_in by lia. rewrite rbind_Ret.
  rewrite zset_in by (rewrite length_insert; lia). rewrite rbind_Ret.
  rewrite zset_in by (rewrite !length_insert; lia). rewrite rbind_Ret.
  rewrite zset_in by (rewrite !length_insert; lia). rewrite rbind_Ret.
  eexists. split; [done|]. split; [by split; apply Hm|]. split; simpl.
  - rewrite !length_insert. done.
  - repeat apply Forall_insert; try done; unfold is_s32; lia.
  - apply list_lookup_insert_eq. rewrite !length_insert. lia.
  - exists r. split; [|done]. change (Z.to_nat LoadReg) with 37%nat.
    rewrite list_lookup_insert_ne by lia. rewrite list_lookup_insert_ne by lia.
    apply list_lookup_insert_eq. rewrite !length_insert. lia.
Qed.

(** Fields of a decoded instruction. *)
Record wf_instr (i : Instruction) : Prop := {
  wf_rs : 0 <= rs i < NumGPRegs;
  wf_rt : 0 <= rt i < NumGPRegs;
  wf_rd : 0 <= rd i < NumGPRegs;
  wf_extra : is_s32 (extra i);
  wf_shift : opCode i = OP_SLL \/ opCode i = OP_SRA \/ opCode i = OP_SRL -> 0 <= extra i < 32;
  wf_op : opCode i <> OP_RFE /\ opCode i <> SPECIAL /\ opCode i <> BCOND
}.
(** ** Lemmas: decoding *)

Definition is_special (op : OpCode) : bool :=
  match op with SPECIAL | BCOND => true | _ => false end.

(** What the tables contain, checked entry by entry. *)
Definition opTable_ok (e : OpInfo) : bool :=
  bool_decide (oi_opCode e <> OP_RFE /\ oi_opCode e <> OP_SLL /\
    oi_opCode e <> OP_SRA /\ oi_opCode e <> OP_SRL) &&
  match oi_opCode e, oi_format e with
  | SPECIAL, RFMT => true | SPECIAL, _ => false | _, _ => true
  end.

Lemma opTable_entries e k : zget opTable k = Ret e -> opTable_ok e = true.
Proof.
  assert (H : Forall (fun e => opTable_ok e = true) opTable)
    by (repeat constructor; vm_compute; reflexivity).
  intros [_ Hk]%zget_Ret. by eapply Forall_lookup_1 in H.
Qed.

Lemma specialTable_entries op k : zget specialTable k = Ret op ->
  op <> OP_RFE /\ op <> SPECIAL /\ op <> BCOND.
Proof.
  assert (H : Forall (fun op => op <> OP_RFE /\ op <> SPECIAL /\ op <> BCOND) specialTable)
    by (repeat constructor; discriminate).
  intros [_ Hk]%zget_Ret. by eapply Forall_lookup_1 in H.
Qed.

Lemma field_range v k n : 0 <= n -> 0 <= Z.land (Z.shiftr v k) (2 ^ n - 1) < 2 ^ n.
Proof. apply land_mask_range. Qed.

Lemma Decode_spec v : exists i, Decode v = Ret i /\ value i = v /\ wf_instr i.
Proof.
  unfold Decode.
  destruct (zget_spec opTable (Z.land (Z.shiftr v 26) 0x3f)) as (e & He & _);
    [apply (field_range v 26 6); lia|].
  rewrite He, rbind_Ret. apply opTable_entries in He.
  unfold opTable_ok in He. apply andb_prop in He as [He1%bool_decide_eq_true He2].
  set (ex := match oi_format e with IFMT => _ | JFMT => _ | RFMT => _ end).
  assert (Hex : is_s32 ex).
  { unfold ex. destruct (oi_format e).
    - case_if; [apply s32_range|]. pose proof (land_mask_range v 16 ltac:(lia)) as Hm.
      change (2 ^ 16 - 1) with 0xffff in Hm. unfold is_s32. lia.
    - pose proof (land_mask_range v 26 ltac:(lia)) as Hm.
      change (2 ^ 26 - 1) with 0x3ffffff in Hm. unfold is_s32. lia.
    - pose proof (field_range v 6 5 ltac:(lia)) as Hm.
      change (2 ^ 5 - 1) with 0x1f in Hm. unfold is_s32. lia. }
  assert (Hpos : oi_opCode e = SPECIAL -> 0 <= ex < 32).
  { intros Hsp. rewrite Hsp in He2. unfold ex. destruct (oi_format e); try done.
    apply (field_range v 6 5); lia. }
  assert (Hop : exists op, decode_op v (oi_opCode e) = Ret op /\
    (op = OP_SLL \/ op = OP_SRA \/ op = OP_SRL -> 0 <= ex < 32) /\
    (op <> OP_RFE /\ op <> SPECIAL /\ op <> BCOND)).
  { destruct He1 as (? & ? & ? & ?). unfold decode_op. destruct (oi_opCode e) eqn:Hoe;
      try (eexists; split; [done|]; split; [intros [?|[?|?]]; congruence|split_and!; congruence]).
    - destruct (zget_spec specialTable (Z.land v 0x3f)) as (op & Hop & _);
        [apply (land_mask_range v 6); lia|].
      exists op. split; [done|]. split; [intros _; by apply Hpos|]. by eapply specialTable_entries.
    - eexists. split; [done|]. simpl.
      split; [|repeat case_if; done]. intros Ho; exfalso; revert Ho; repeat case_if;
        intros [?|[?|?]]; done. }
  destruct Hop as (op & -> & Hs & Ho). rewrite rbind_Ret.
  eexists. split; [done|]. split; [done|].
  split; simpl; try done; apply (field_range v _ 5); lia.
Qed.

Section invariant.
Context {K : Type}.
Variable ExceptionHandler : ExceptionType -> World K -> result (World K).
(** What the machine relies on: the kernel's handler keeps it well formed. *)
Hypothesis handler_safe : forall e w, wf_machine (machine w) ->
  safe (fun w' => wf_machine (machine w')) (ExceptionHandler e w).
Implicit Types (w : World K).

Abbreviation mid := (fun w : World K => wf_mid (machine w)).

Lemma reg_Ret w i : wf_mid (machine w) -> 0 <= i < NumTotalRegs ->
  exists v, reg w i = Ret v /\ is_s32 v.
Proof.
  intros [_ Hl Hs _] Hi. unfold reg.
  destruct (zget_spec (registers (machine w)) i) as (v & -> & Hv);
    [rewrite Hl; lia|]. exists v. split; [done|]. by eapply Forall_lookup_1.
Qed.

Lemma safe_reg w i : wf_mid (machine w) -> 0 <= i < NumTotalRegs ->
  safe is_s32 (reg w i).
Proof. intros Hw Hi. by destruct (reg_Ret w i Hw Hi) as (v & -> & ?). Qed.

Lemma safe_setreg w i v : wf_mid (machine w) -> 0 <= i < NumTotalRegs ->
  i <> LoadReg -> is_s32 v -> safe mid (setreg w i v).
Proof.
  intros Hm Hi Hne Hv. unfold setreg.
  rewrite zset_in by (rewrite (mid_len _ Hm); lia). simpl. by apply wf_mid_set.
Qed.

Lemma safe_RaiseException w e bad : wf_mid (machine w) -> is_s32 bad ->
  safe (fun w' => wf_machine (machine w')) (RaiseException ExceptionHandler w e bad).
Proof.
  intros Hm Hb. unfold RaiseException.
  rewrite zset_in by (rewrite (mid_len _ Hm); unfold BadVAddrReg, NumTotalRegs; lia).
  rewrite rbind_Ret.
  destruct (DelayedLoad_wf (set_registers (machine w)
    (<[Z.to_nat BadVAddrReg := bad]> (registers (machine w)))) 0 0) as (m' & -> & Hm').
  - apply wf_mid_set; [done|unfold BadVAddrReg, NumTotalRegs; lia|done|done].
  - unfold NumGPRegs; lia.
  - unfold is_s32; lia.
  - rewrite rbind_Ret. eapply safe_bind; [by apply handler_safe|]. done.
Qed.

(** The states a case of the switch may leave. *)
Definition exec_post (r : World K * option (Z * Z * Z)) : Prop :=
  match r with
  | (w, None) => wf_machine (machine w)
  | (w, Some (pc, lr, lv)) =>
      wf_mid (machine w) /\ is_s32 pc /\ 0 <= lr < NumGPRegs /\ is_s32 lv
  end.

Lemma safe_trap w e bad : wf_mid (machine w) -> is_s32 bad ->
  safe exec_post (trap ExceptionHandler w e bad).
Proof.
  intros. eapply safe_bind; [by apply safe_RaiseException|]. done.
Qed.

Lemma safe_read w addr size (k : World K -> Z -> result (World K * option (Z * Z * Z))) :
  wf_mid (machine w) -> access_size size -> is_s32 addr ->
  (forall w v, wf_mid (machine w) -> is_s32 v -> safe exec_post (k w v)) ->
  safe exec_post (with_read ExceptionHandler w addr size k).
Proof.
  intros Hm Hs Ha Hk. unfold with_read.
  destruct (ReadMem_spec ExceptionHandler w addr size (mid_mmu _ Hm) Hs)
    as (m' & Hwf & Hsm & H).
  destruct (mmu_access _ _ _ _) as [exn|[[p e] pa]].
  - rewrite H, rbind_assoc. eapply safe_bind; [by apply safe_RaiseException|].
    intros w' Hw'. done.
  - destruct H as (_ & _ & v & Hv & _ & ->). simpl. apply Hk; [|done].
    by eapply same_mapping_mid.
Qed.

Lemma safe_write w addr size v (k : World K -> result (World K * option (Z * Z * Z))) :
  wf_mid (machine w) -> access_size size -> is_s32 addr ->
  (forall w, wf_mid (machine w) -> safe exec_post (k w)) ->
  safe exec_post (with_write ExceptionHandler w addr size v k).
Proof.
  intros Hm Hs Ha Hk. unfold with_write.
  pose proof (WriteMem_spec ExceptionHandler w addr size v (mid_mmu _ Hm) Hs) as H.
  destruct (mmu_access _ _ _ _) as [exn|[[p e] pa]].
  - rewrite H, rbind_assoc. eapply safe_bind; [by apply safe_RaiseException|].
    intros w' Hw'. done.
  - destruct H as (m' & mem' & Hwf & Hsm & -> & _). simpl. apply Hk. simpl.
    destruct Hm as [_ ? ? ?], Hsm as [Hr _ _ _ _].
    by split; simpl; try done; rewrite Hr.
Qed.

(** [safe_op]: one step of a case of the switch at a time. *)
Ltac safe_op :=
  match goal with
  | |- safe _ (rbind (reg _ _) _) =>
      eapply safe_bind; [apply safe_reg; [eassumption|regs]|]; intros ? ?; cbn beta
  | |- safe _ (rbind (setreg _ _ _) _) =>
      eapply safe_bind; [apply safe_setreg; [eassumption|regs|regs|ints]|];
      intros ? ?; cbn beta in *
  | |- safe _ (trap _ _ _ _) => apply safe_trap; [eassumption|ints]
  | |- safe _ (with_read _ _ _ _ _) =>
      apply safe_read; [eassumption|unfold access_size; lia|ints|]; intros ? ? ? ?
  | |- safe _ (with_write _ _ _ _ _ _) =>
      apply safe_write; [eassumption|unfold access_size; lia|ints|]; intros ? ?
  | |- safe _ (next _ _) => split; [eassumption|]; split; [ints|]; split; [regs|ints]
  | |- safe _ (next_load _ _ _ _) => split; [eassumption|]; split; [ints|]; split; [regs|ints]
  | |- safe _ (if _ then _ else _) => case_if
  end
with regs :=
  repeat match goal with H : wf_instr _ |- _ => destruct H end;
  unfold NumGPRegs, NumTotalRegs, LoadReg, LoReg, HiReg, NextPCReg, PCReg, PrevPCReg,
    R31, LoadValueReg in *; lia
with ints :=
  first
    [ assumption
    | apply s32_range
    | match goal with H : wf_instr ?i |- is_s32 (extra ?i) => apply (wf_extra _ H) end
    | match goal with
      | |- is_s32 (Z.land _ _) => apply land_is_s32; ints
      | |- is_s32 (Z.lor _ _) => apply lor_is_s32; ints
      | |- is_s32 (Z.lxor _ _) => apply lxor_is_s32; ints
      | |- is_s32 (Z.lnot _) => apply lnot_is_s32; ints
      | |- is_s32 (if ?b then _ else _) => destruct b; ints
      end
    | unfold is_s32; lia ].

Lemma quot_is_s32 a b : is_s32 a -> is_s32 b -> b <> 0 ->
  ~ (a = - 2 ^ 31 /\ b = -1) -> is_s32 (Z.quot a b).
Proof.
  unfold is_s32. intros Ha Hb Hb0 Hne.
  pose proof (Z.quot_rem a b Hb0) as E. pose proof (Z.rem_bound_abs a b Hb0) as Hr.
  set (q := Z.quot a b) in *. set (r := Z.rem a b) in *.
  destruct (Z.eq_dec b (-1)) as [->|]; [lia|].
  destruct (Z.eq_dec b 1) as [->|]; [lia|].
  assert (2 * Z.abs q <= Z.abs (b * q)) by (rewrite Z.abs_mul; nia).
  assert (Z.abs r <= Z.abs a).
  { unfold r. rewrite <- Z.rem_abs by done. apply Z.rem_le; lia. }
  lia.
Qed.

Lemma rem_is_s32 a b : is_s32 b -> b <> 0 -> is_s32 (Z.rem a b).
Proof.
  unfold is_s32. intros. pose proof (Z.rem_bound_abs a b). lia.
Qed.

Lemma land31_range a : 0 <= Z.land a 0x1f.
Proof. apply Z.land_nonneg. lia. Qed.

Lemma merge_s32 byte r v : is_s32 r -> is_s32 v ->
  is_s32 (lwl_merge byte r v) /\ is_s32 (lwr_merge byte r v) /\
  is_s32 (swl_merge byte r v) /\ is_s32 (swr_merge byte r v).
Proof.
  intros Hr Hv. unfold lwl_merge, lwr_merge, swl_merge, swr_merge.
  split_and!; repeat case_match; ints.
Qed.

Lemma safe_pending w r : wf_mid (machine w) -> 0 <= r < NumGPRegs ->
  safe is_s32 (pending_value w r).
Proof.
  intros. unfold pending_value. safe_op. case_if; apply safe_reg; try done; regs.
Qed.

Lemma safe_branch taken w i pc : wf_mid (machine w) -> is_s32 pc ->
  safe exec_post (branch taken w i pc).
Proof. intros. unfold branch. repeat safe_op. Qed.

Lemma safe_link w r : wf_mid (machine w) -> 0 <= r < NumGPRegs ->
  safe (fun w' => wf_mid (machine w')) (link w r).
Proof. intros. unfold link. safe_op. apply safe_setreg; try done; first [regs|ints]. Qed.

Lemma Mult_s32 a b sg : is_s32 (Mult a b sg).1 /\ is_s32 (Mult a b sg).2.
Proof.
  unfold Mult. case_if; [simpl; split; ints|].
  repeat case_match; simpl; split; ints.
Qed.

(** The instruction at hand makes the host's division trap. *)
Definition div_traps (w : World K) (i : Instruction) : Prop :=
  opCode i = OP_DIV /\ reg w (rs i) = Ret (- 2 ^ 31) /\ reg w (rt i) = Ret (-1).

Lemma safe_DIV w i pc : wf_mid (machine w) -> wf_instr i -> is_s32 pc ->
  ~ (reg w (rs i) = Ret (- 2 ^ 31) /\ reg w (rt i) = Ret (-1)) ->
  safe exec_post (exec_DIV w i pc).
Proof.
  intros Hw Hi Hpc Hne. unfold exec_DIV.
  pose proof (safe_reg w (rs i) Hw ltac:(regs)) as Ha.
  pose proof (safe_reg w (rt i) Hw ltac:(regs)) as Hb.
  destruct (reg w (rs i)) as [a| | | |] eqn:Ea; try done.
  destruct (reg w (rt i)) as [b| | | |] eqn:Eb; try done.
  simpl in *. case_if; to_prop; [repeat safe_op|].
  case_if; to_prop; [exfalso; apply Hne; by subst|].
  assert (Hq : is_s32 (Z.quot a b)) by (apply quot_is_s32; [done|done|done|lia]).
  unfold setreg at 1. rewrite zset_in by (rewrite (mid_len _ Hw); regs). rewrite !rbind_Ret.
  set (w1 := set_machine w _).
  assert (Hw1 : wf_mid (machine w1)) by (apply wf_mid_set; [done|regs|done|regs]).
  assert (Hr : forall j, 0 <= j < NumGPRegs -> reg w1 j = reg w j).
  { intros j Hj. unfold reg, w1, zget. simpl. case_if; [|done].
    rewrite list_lookup_insert_ne; [done|regs]. }
  rewrite !Hr, Ea, Eb by regs. rewrite !rbind_Ret.
  eapply safe_bind; [apply safe_setreg; [done|regs|regs|by apply rem_is_s32]|].
  intros w2 Hw2. safe_op.
Qed.

Lemma safe_mult sg w i pc : wf_mid (machine w) -> wf_instr i -> is_s32 pc ->
  safe exec_post (exec_mult sg w i pc).
Proof.
  intros Hw Hi Hpc. unfold exec_mult. do 2 safe_op.
  pose proof (Mult_s32 a a0 sg) as [? ?].
  destruct (Mult a a0 sg) as [hi lo]. repeat safe_op.
Qed.

Lemma safe_shiftr w i pc a k : wf_mid (machine w) -> wf_instr i -> is_s32 pc ->
  is_s32 a -> 0 <= k ->
  safe exec_post (let* w := setreg w (rd i) (Z.shiftr a k) in next w pc).
Proof.
  intros. eapply safe_bind;
    [apply safe_setreg; [done|regs|regs|by apply shiftr_is_s32]|].
  intros. safe_op.
Qed.

(** Every case of the switch is safe, the trapping division apart. *)
Lemma execute_safe w i pc : wf_mid (machine w) -> wf_instr i -> is_s32 pc ->
  ~ div_traps w i -> safe exec_post (execute ExceptionHandler w i pc).
Proof.
  intros Hw Hi Hpc Hdiv. pose proof Hi as [Hrs Hrt Hrd Hex Hsh (Ho1 & Ho2 & Ho3)].
  unfold execute, div_traps in *.
  destruct (opCode i) eqn:Hop; try done;
  try (unfold exec_ADD, exec_ADDI, exec_ADDIU, exec_ADDU, exec_AND, exec_ANDI, exec_DIVU,
    exec_J, exec_JR, exec_LB, exec_LH, exec_LUI, exec_LW, exec_MFHI, exec_MFLO, exec_MTHI,
    exec_MTLO, exec_NOR, exec_OR, exec_ORI, exec_SB, exec_SH, exec_SLL, exec_SLLV, exec_SLT,
    exec_SLTI, exec_SLTIU, exec_SLTU, exec_SUB, exec_SUBU, exec_SW, exec_store, exec_XOR,
    exec_XORI; by repeat safe_op);
  try (unfold exec_BEQ, exec_BGEZ, exec_BGTZ, exec_BLEZ, exec_BLTZ, exec_BNE;
    repeat safe_op; by apply safe_branch);
  try (eapply safe_bind; [by apply safe_link|]; intros w1 Hw1;
    unfold exec_BGEZ, exec_BLTZ, exec_J, exec_JR; repeat safe_op; by apply safe_branch);
  try (by apply safe_mult);
  try (unfold exec_SRA, exec_SRL, exec_SRAV, exec_SRLV; repeat safe_op;
    apply safe_shiftr; auto using land31_range; apply Hsh; auto).
  - apply safe_DIV; try done. tauto.
  - unfold exec_LWL. do 2 safe_op. eapply safe_bind; [by apply safe_pending|].
    intros old Hold. pose proof (merge_s32 (Z.land (s32 (a + extra i)) 3) old v Hold H1) as (? & ? & ? & ?).
    safe_op.
  - unfold exec_LWR. do 2 safe_op. eapply safe_bind; [by apply safe_pending|].
    intros old Hold. pose proof (merge_s32 (Z.land (s32 (a + extra i)) 3) old v Hold H1) as (? & ? & ? & ?).
    safe_op.
  - unfold exec_SWL. by repeat safe_op.
  - unfold exec_SWR. by repeat safe_op.
Qed.

Lemma advance_safe w pc lr lv : wf_mid (machine w) -> is_s32 pc ->
  0 <= lr < NumGPRegs -> is_s32 lv ->
  safe (fun w' => wf_machine (machine w')) (advance w pc lr lv).
Proof.
  intros Hw Hpc Hlr Hlv. unfold advance.
  destruct (DelayedLoad_wf (machine w) lr lv Hw Hlr Hlv) as (m & -> & Hm).
  rewrite rbind_Ret. set (w1 := set_machine w m).
  assert (Hw1 : wf_mid (machine w1)) by (by apply wf_machine_mid).
  assert (Hz : registers (machine w1) !! 0%nat = Some 0) by apply Hm.
  assert (Hset : forall (w0 : World K) i v, wf_mid (machine w0) ->
      registers (machine w0) !! 0%nat = Some 0 -> 0 < i < NumTotalRegs -> i <> LoadReg ->
      is_s32 v -> safe (fun w' => wf_mid (machine w') /\
        registers (machine w') !! 0%nat = Some 0) (setreg w0 i v)).
  { intros w0 i v Hm0 Hz0 Hi Hne Hv. unfold setreg.
    rewrite zset_in by (rewrite (mid_len _ Hm0); lia). simpl.
    split; [apply wf_mid_set; [done|lia|done|done]|].
    by rewrite list_lookup_insert_ne by lia. }
  safe_op. eapply safe_bind; [apply Hset; [done|done|regs|regs|done]|].
  intros w2 [Hw2 Hz2]. safe_op. eapply safe_bind; [apply Hset; [done|done|regs|regs|done]|].
  intros w3 [Hw3 Hz3]. eapply safe_weaken; [apply Hset; [done|done|regs|regs|done]|].
  intros w4 [[? ? ? ?] ?]. split; [done|]. by split.
Qed.

Definition fetch (w : World K) : result (World K * option Z) :=
  let* pc := reg w PCReg in ReadMem ExceptionHandler w pc 4.

(** One instruction on a well-formed machine. *)
Lemma OneInstruction_step debug_m w : wf_machine (machine w) ->
  (exists w1 raw i, fetch w = Ret (w1, Some raw) /\ Decode (u32 raw) = Ret i /\
     div_traps w1 i) \/
  safe (fun w' => wf_machine (machine w')) (OneInstruction ExceptionHandler debug_m w).
Proof.
  intros Hwf. pose proof (wf_machine_mid _ Hwf) as Hw. unfold OneInstruction, fetch.
  destruct (reg_Ret w PCReg Hw ltac:(regs)) as (pc & -> & Hpc). rewrite !rbind_Ret.
  destruct (ReadMem_spec ExceptionHandler w pc 4 (mid_mmu _ Hw) ltac:(unfold access_size; lia))
    as (m' & Hwf' & Hsm & H).
  destruct (mmu_access _ _ _ _) as [exn|[[p e] pa]].
  { right. rewrite H, rbind_assoc. eapply safe_bind; [by apply safe_RaiseException|]. done. }
  destruct H as (_ & _ & raw & Hraw & _ & ->). rewrite rbind_Ret.
  set (w1 := set_machine w m').
  assert (Hw1 : wf_mid (machine w1)) by (by eapply same_mapping_mid).
  destruct (Decode_spec (u32 raw)) as (i & Hd & _ & Hi). rewrite Hd, rbind_Ret.
  assert (Htr : (if debug_m then let* _ := trace i in Ret tt else Ret tt) = Ret tt).
  { destruct debug_m; [|done]. unfold trace. destruct Hi as [_ _ _ _ _ (? & ? & ?)].
    destruct (opCode i); done. }
  rewrite Htr, rbind_Ret.
  destruct (reg_Ret w1 NextPCReg Hw1 ltac:(regs)) as (npc & -> & Hn). rewrite rbind_Ret.
  destruct (decide (opCode i = OP_DIV)) as [Hop|Hop].
  - destruct (reg_Ret w1 (rs i) Hw1 ltac:(regs)) as (a & Ea & Ha).
    destruct (reg_Ret w1 (rt i) Hw1 ltac:(regs)) as (b & Eb & Hb).
    destruct (decide (a = - 2 ^ 31 /\ b = -1)) as [[-> ->]|Hne].
    { left. exists w1, raw, i. by repeat split. }
    right. eapply safe_bind.
    { apply execute_safe; try done; [apply s32_range|]. unfold div_traps.
      intros (_ & E1 & E2). apply Hne. split; congruence. }
    intros [w2 [[[? ?] ?]|]] Hp; [|done]. destruct Hp as (? & ? & ? & ?). by apply advance_safe.
  - right. eapply safe_bind.
    { apply execute_safe; try done; [apply s32_range|]. by intros [? _]. }
    intros [w2 [[[? ?] ?]|]] Hp; [|done]. destruct Hp as (? & ? & ? & ?). by apply advance_safe.
Qed.
End invariant.

(** ** Lemmas: unaligned accesses *)

Lemma u32_testbit z i : 0 <= i -> Z.testbit (u32 z) i = (i <? 32) && Z.testbit z i.
Proof.
  intros. unfold u32. destruct (Z.ltb_spec i 32).
  - by rewrite Z.mod_pow2_bits_low by lia.
  - by rewrite Z.mod_pow2_bits_high by lia.
Qed.

Lemma s32_testbit z i : 0 <= i < 32 -> Z.testbit (s32 z) i = Z.testbit z i.
Proof.
  intros. pose proof (u32_testbit (s32 z) i ltac:(lia)) as H1.
  rewrite u32_s32, u32_testbit in H1 by lia.
  destruct (Z.ltb_spec i 32); [done|lia].
Qed.

Lemma mask_testbit n i : 0 <= n -> 0 <= i -> Z.testbit (Z.ones n) i = (i <? n).
Proof. intros. by apply Z.testbit_ones_nonneg. Qed.

(** Two [int]s are equal when their 32 low bits are. *)
Lemma s32_bits_eq a b : is_s32 a -> is_s32 b ->
  (forall i, 0 <= i < 32 -> Z.testbit a i = Z.testbit b i) -> a = b.
Proof.
  intros Ha Hb H. rewrite <- (s32_id a), <- (s32_id b) by done. apply u32_cong.
  apply Z.bits_inj'. intros i Hi. rewrite !u32_testbit by done.
  destruct (Z.ltb_spec i 32); [|done]. simpl. apply H. lia.
Qed.

(** The masks of the code. *)
Lemma masks :
  0xff = Z.ones 8 /\ 0xffff = Z.ones 16 /\ 0xffffff = Z.ones 24 /\
  0xffffff00 = Z.shiftl (Z.ones 24) 8 /\ 0xffff0000 = Z.shiftl (Z.ones 16) 16 /\
  0xff000000 = Z.shiftl (Z.ones 8) 24.
Proof. by vm_compute. Qed.

Lemma lwl_merge_s32 byte r v : is_s32 r -> is_s32 v -> is_s32 (lwl_merge byte r v).
Proof. apply merge_s32. Qed.
Lemma lwr_merge_s32 byte r v : is_s32 r -> is_s32 v -> is_s32 (lwr_merge byte r v).
Proof. apply merge_s32. Qed.
Lemma swl_merge_s32 byte r v : is_s32 r -> is_s32 v -> is_s32 (swl_merge byte r v).
Proof. apply merge_s32. Qed.
Lemma swr_merge_s32 byte r v : is_s32 r -> is_s32 v -> is_s32 (swr_merge byte r v).
Proof. apply merge_s32. Qed.

(** Push [Z.testbit] at index [i] through the operations of the merges. *)
Ltac push_bits :=
  repeat first
    [ rewrite andb_false_l | rewrite orb_false_l
    | rewrite s32_testbit by lia
    | rewrite u32_testbit by lia
    | rewrite Z.lor_spec | rewrite Z.land_spec
    | rewrite Z.shiftr_spec by lia | rewrite Z.shiftl_spec by lia
    | rewrite mask_testbit by lia
    | match goal with
      | |- context [Z.testbit _ ?j] => rewrite (Z.testbit_neg_r _ j) by lia
      end
    | match goal with
      | |- context [?a <? ?b] => destruct (Z.ltb_spec a b); try lia
      end ].

Ltac close_bits :=
  rewrite ?andb_true_l, ?andb_true_r, ?andb_false_r, ?andb_false_l, ?orb_false_r, ?orb_false_l;
  first [done | f_equal; lia].

(** Evaluate the case distinctions on a known byte offset. *)
Ltac eval_offset :=
  repeat match goal with
  | |- context [(?a + 3) mod 4] =>
      let v := eval vm_compute in ((a + 3) mod 4) in change ((a + 3) mod 4) with v
  | |- context [?a =? 0] => let v := eval vm_compute in (a =? 0) in change (a =? 0) with v
  | |- context [3 - ?b] => let v := eval vm_compute in (3 - b) in change (3 - b) with v
  end; cbv beta iota.

(** Bytes [k] to [k+3] of the eight bytes that the words [v0] and [v1] hold in
    memory, as a word. *)
Definition funnel (k v0 v1 : Z) : Z :=
  s32 (Z.lor (Z.shiftr (u32 v0) (8 * k)) (Z.shiftl v1 (32 - 8 * k))).

Lemma lwr_lwl_merge k old v0 v1 : 0 <= k < 4 -> is_s32 old -> is_s32 v0 -> is_s32 v1 ->
  lwl_merge ((k + 3) mod 4) (lwr_merge k old v0) (if k =? 0 then v0 else v1) = funnel k v0 v1.
Proof.
  intros Hk Ho H0 H1. apply s32_bits_eq.
  - apply lwl_merge_s32; [by apply lwr_merge_s32|]. by case_if.
  - apply s32_range.
  - intros i Hi. unfold funnel, lwl_merge, lwr_merge.
    destruct masks as (-> & -> & -> & -> & -> & ->).
    assert (k = 0 \/ k = 1 \/ k = 2 \/ k = 3) as [->|[->|[->| ->]]] by lia; eval_offset;
      push_bits; close_bits.
Qed.

(** The pair of stores writes the register and preserves the other bytes. *)
Lemma swr_swl_merge k r v0 v1 : 0 <= k < 4 -> is_s32 r -> is_s32 v0 -> is_s32 v1 ->
  let v0' := swr_merge k r v0 in
  let v1' := swl_merge ((k + 3) mod 4) r (if k =? 0 then v0' else v1) in
  (k = 0 -> v1' = r) /\
  (k <> 0 -> funnel k v0' v1' = r /\
     (forall i, 0 <= i < 8 * k -> Z.testbit v0' i = Z.testbit v0 i) /\
     (forall i, 8 * k <= i < 32 -> Z.testbit v1' i = Z.testbit v1 i)).
Proof.
  intros Hk Hr H0 H1. simpl.
  assert (k = 0 \/ k = 1 \/ k = 2 \/ k = 3) as [->|[->|[->| ->]]] by lia.
  1: { done. }
  all: split; [done|]; intros _; unfold funnel, swl_merge, swr_merge;
    destruct masks as (-> & -> & -> & -> & -> & ->);
    eval_offset;
    split_and!; [apply s32_bits_eq; [apply s32_range|done|]|..];
    intros i Hi; push_bits; close_bits.
Qed.

Lemma setreg_other {K} (w w' : World K) i v j : 0 <= i -> 0 <= j -> i <> j ->
  setreg w i v = Ret w' -> reg w' j = reg w j.
Proof.
  intros ? ? ? H. unfold setreg in H. inv_bind H. injection H as <-.
  apply zset_Ret in E as [? ->]. unfold reg, zget. simpl. case_if; [|done].
  by rewrite list_lookup_insert_ne by lia.
Qed.

(** After an instruction that loads, the loaded value is the pending one. *)
Lemma advance_pending {K} (w w' : World K) pc r v :
  wf_mid (machine w) -> 0 <= r < NumGPRegs ->
  advance w pc r v = Ret w' -> pending_value w' r = Ret v.
Proof.
  intros Hw Hr H. unfold advance in H. inv_bind H.
  assert (HL : zget (registers a) LoadReg = Ret r /\ zget (registers a) LoadValueReg = Ret v).
  { unfold DelayedLoad in E. do 6 inv_bind E. injection E as <-. simpl.
    repeat match goal with H : zset _ _ _ = Ret _ |- _ => apply zset_Ret in H as [? ->] end.
    rewrite !length_insert in *. unfold LoadReg, LoadValueReg in *. split; apply zget_lookup; try lia.
    - do 2 rewrite list_lookup_insert_ne by lia. apply list_lookup_insert_eq. rewrite length_insert; lia.
    - rewrite list_lookup_insert_ne by lia. apply list_lookup_insert_eq. rewrite !length_insert; lia. }
  do 4 inv_bind H. unfold LoadReg, LoadValueReg, NextPCReg, PCReg, PrevPCReg in *.
  assert (Hsame : forall j, j = 37 \/ j = 38 -> reg w' j = zget (registers a) j).
  { intros j Hj.
    etransitivity; [eapply setreg_other; [| | |exact H]; lia|].
    etransitivity; [eapply setreg_other; [| | |exact E3]; lia|].
    change (zget (registers a) j) with (reg (set_machine w a) j).
    eapply setreg_other; [| | |exact E1]; lia. }
  unfold pending_value, LoadReg, LoadValueReg. rewrite !Hsame by lia.
  destruct HL as [-> ->]. rewrite rbind_Ret. by rewrite Z.eqb_refl.
Qed.

(** The sign of the result: the two's complement of the double word. *)
Lemma negate_words hi lo : 0 <= hi < 2 ^ 31 -> is_u32 lo ->
  let hi1 := u32 (Z.lnot hi) in let lo1 := u32 (u32 (Z.lnot lo) + 1) in
  s32 (if lo1 =? 0 then u32 (hi1 + 1) else hi1) * 2 ^ 32 + u32 (s32 lo1) =
  - (hi * 2 ^ 32 + lo).
Proof.
  unfold is_u32. intros Hh Hl. cbv zeta. unfold Z.lnot.
  rewrite (u32_s32 (u32 _)), (u32_id (u32 (_ + 1))) by apply u32_range.
  assert (E : forall x, 0 <= x < 2 ^ 32 -> u32 (Z.pred (- x)) = 2 ^ 32 - 1 - x).
  { intros x Hx. unfold u32.
    rewrite <- (Z.mod_unique _ (2 ^ 32) (-1) (2 ^ 32 - 1 - x)); lia. }
  rewrite !E by lia. destruct (Z.eq_dec lo 0) as [->|Hl0].
  - replace (u32 (2 ^ 32 - 1 - 0 + 1)) with 0 by done. simpl Z.eqb. cbv iota.
    destruct (Z.eq_dec hi 0) as [->|]; [by vm_compute|].
    rewrite (u32_id (_ + 1)) by (unfold is_u32; lia).
    unfold s32. rewrite <- (Z.mod_unique _ (2 ^ 32) 1 (2 ^ 31 - hi)); lia.
  - replace (u32 (2 ^ 32 - 1 - lo + 1)) with (2 ^ 32 - lo)
      by (unfold u32; rewrite Z.mod_small; lia).
    destruct (Z.eqb_spec (2 ^ 32 - lo) 0); [lia|].
    unfold s32. rewrite <- (Z.mod_unique _ (2 ^ 32) 1 (2 ^ 31 - 1 - hi)); lia.
Qed.

(** [a = -a] of a negative [int] is its magnitude as an [unsigned]. *)
Lemma magnitude x : is_s32 x ->
  let x' := if x <? 0 then s32 (- x) else x in is_s32 x' /\ u32 x' = Z.abs x.
Proof.
  unfold is_s32. intros Hx. simpl. destruct (Z.ltb_spec x 0).
  - split; [apply s32_range|]. rewrite u32_s32, u32_id; [lia|unfold is_u32; lia].
  - split; [done|]. rewrite u32_id; [lia|unfold is_u32; lia].
Qed.

(** ** Claims *)

(** C18: [Mult] computes the exact 64-bit product: with signed arithmetic
    [*hiPtr] and the unsigned [*loPtr] make up [a * b], with unsigned arithmetic
    the two unsigned words make up the product of the unsigned operands. *)
Theorem Mult_correct a b signedArith : is_s32 a -> is_s32 b ->
  let hi := (Mult a b signedArith).1 in
  let lo := (Mult a b signedArith).2 in
  is_s32 hi /\ is_s32 lo /\
  if signedArith then hi * 2 ^ 32 + u32 lo = a * b
  else u32 hi * 2 ^ 32 + u32 lo = u32 a * u32 b.
Proof.
  intros Ha Hb hi lo. destruct (Mult_s32 a b signedArith) as [Hhi Hlo].
  split; [exact Hhi|]. split; [exact Hlo|]. subst hi lo. clear Hhi Hlo. unfold Mult.
  destruct (Z.eqb_spec a 0) as [->|Ha0]; [by destruct signedArith|].
  destruct (Z.eqb_spec b 0) as [->|Hb0].
  { destruct signedArith; simpl; change (u32 0) with 0; lia. }
  simpl orb. cbv iota. destruct signedArith; simpl andb; cbv iota.
  2: { destruct (mult_loop_exact _ (u32 b) Ha (u32_range _)) as (hi & lo & -> & Hh & Hl & E).
       simpl. rewrite !u32_s32, (u32_id hi), (u32_id lo) by done. exact E. }
  destruct (magnitude a Ha) as [Ha' Ea]. destruct (magnitude b Hb) as [_ Eb].
  destruct (mult_loop_exact _ (u32 (if b <? 0 then s32 (- b) else b)) Ha' (u32_range _))
    as (hi & lo & Hm & Hh & Hl & E).
  rewrite Ea, Eb in E.
  assert (Hhi : 0 <= hi < 2 ^ 31).
  { assert (0 <= Z.abs a * Z.abs b <= 2 ^ 31 * 2 ^ 31) by (unfold is_s32 in *; nia).
    unfold is_u32 in *. lia. }
  pose proof (negate_words hi lo Hhi Hl) as Hneg. cbv zeta in Hneg.
  assert (Hpos : s32 hi * 2 ^ 32 + u32 (s32 lo) = hi * 2 ^ 32 + lo)
    by (rewrite s32_id, u32_s32, u32_id by (first [done|unfold is_s32; lia]); done).
  destruct (Z.ltb_spec a 0), (Z.ltb_spec b 0); simpl negb; cbv iota;
    rewrite Hm; cbv iota beta; cbn [fst snd]; rewrite ?Hneg, ?Hpos, E; lia.
Qed.

Lemma Mult_correct_witness :
  let hi := (Mult (-7) 3000000 true).1 in
  let lo := (Mult (-7) 3000000 true).2 in
  hi * 2 ^ 32 + u32 lo = -21000000 /\ hi = -1.
Proof.
  split; [|reflexivity].
  apply (Mult_correct (-7) 3000000 true); unfold is_s32; lia.
Defined.

(** C17: running one instruction on a well-formed machine, with any kernel whose
    exception handler keeps the machine well formed, is safe: it returns with
    the machine well formed (register 0 zero, all registers 32-bit, the pending
    load aimed at a general register, memory and tables intact) or the kernel
    halts; no assertion fails and no access leaves an array.  The one exception
    is the signed division of [INT_MIN] by [-1], which traps on the host. *)
Theorem OneInstruction_safe {K} (handler : ExceptionType -> World K -> result (World K))
    debug_m (w : World K) :
  (forall e w, wf_machine (machine w) ->
     safe (fun w' => wf_machine (machine w')) (handler e w)) ->
  wf_machine (machine w) ->
  safe (fun w' => wf_machine (machine w')) (OneInstruction handler debug_m w) \/
  exists w1 raw i, fetch handler w = Ret (w1, Some raw) /\ Decode (u32 raw) = Ret i /\
    opCode i = OP_DIV /\ reg w1 (rs i) = Ret (- 2 ^ 31) /\ reg w1 (rt i) = Ret (-1).
Proof.
  intros Hh Hw. destruct (OneInstruction_step handler Hh debug_m w Hw)
    as [(w1 & raw & i & ? & ? & ?)|]; [unfold div_traps in *; naive_solver|by left].
Qed.

Lemma sample_machine_wf_machine : wf_machine sample_machine.
Proof.
  split; [apply sample_machine_wf|]. split; simpl; [done| |done|by exists 0].
  repeat constructor; unfold is_s32; lia.
Qed.

(** The memory of the sample machine is zero, so it executes [sll r0,r0,0]. *)
Lemma OneInstruction_safe_witness :
  safe (fun w' => wf_machine (machine w'))
    (OneInstruction halting_handler true (sample_world sample_machine)).
Proof.
  destruct (OneInstruction_safe halting_handler true (sample_world sample_machine))
    as [H|(w1 & raw & i & Hf & Hd & Hop & _)].
  - intros. exact I.
  - apply sample_machine_wf_machine.
  - exact H.
  - exfalso. assert (Hr : (let* (_, r) := fetch halting_handler (sample_world sample_machine)
      in Ret r) = Ret (Some 0)) by (vm_compute; reflexivity).
    rewrite Hf in Hr. injection Hr as ->. vm_compute in Hd. injection Hd as <-. discriminate Hop.
Defined.

(** [Decode] is total and leaves nothing for the [default: ASSERT(FALSE)] of
    [OneInstruction]: every word decodes to register numbers below 32, a 32-bit
    [extra], a shift amount below 32 for a shift, and an opcode that has a case
    in the switch and a line in the debug trace. *)
Theorem Decode_total v :
  exists i, Decode v = Ret i /\ value i = v /\
    0 <= rs i < NumGPRegs /\ 0 <= rt i < NumGPRegs /\ 0 <= rd i < NumGPRegs /\
    is_s32 (extra i) /\
    (opCode i = OP_SLL \/ opCode i = OP_SRA \/ opCode i = OP_SRL -> 0 <= extra i < 32) /\
    (opCode i <> OP_RFE /\ opCode i <> SPECIAL /\ opCode i <> BCOND) /\
    exists f l, trace i = Ret (f, l) /\ f <> "Shouldn't happen"%string /\ length l = 3%nat.
Proof.
  destruct (Decode_spec v) as (i & Hd & Hv & [? ? ? ? ? (Ho1 & Ho2 & Ho3)]).
  exists i. do 8 (split; [done|]). unfold trace.
  destruct (opCode i); try done; by do 2 eexists.
Qed.

(** C35: [OP_ADD], [OP_ADDI] and [OP_SUB] raise [OverflowException] exactly when
    the true result does not fit in 32 bits, and otherwise store the true
    result; in the overflow case no register has been written yet. *)
Theorem overflow_exact {K} (h : ExceptionType -> World K -> result (World K))
    (w : World K) i pc a b :
  wf_mid (machine w) -> wf_instr i ->
  reg w (rs i) = Ret a -> reg w (rt i) = Ret b ->
  let stores r v := exists w', setreg w r v = Ret w' /\ reg w' r = Ret v in
  (exec_ADD h w i pc = trap h w OverflowException 0 /\ ~ is_s32 (a + b) \/
   is_s32 (a + b) /\ stores (rd i) (a + b) /\
   exec_ADD h w i pc = let* w := setreg w (rd i) (a + b) in next w pc) /\
  (exec_ADDI h w i pc = trap h w OverflowException 0 /\ ~ is_s32 (a + extra i) \/
   is_s32 (a + extra i) /\ stores (rt i) (a + extra i) /\
   exec_ADDI h w i pc = let* w := setreg w (rt i) (a + extra i) in next w pc) /\
  (exec_SUB h w i pc = trap h w OverflowException 0 /\ ~ is_s32 (a - b) \/
   is_s32 (a - b) /\ stores (rd i) (a - b) /\
   exec_SUB h w i pc = let* w := setreg w (rd i) (a - b) in next w pc).
Proof.
  intros Hw Hi Ha Hb stores.
  assert (Hstore : forall r v, 0 <= r < NumGPRegs -> stores r v).
  { intros r v Hr. unfold stores, setreg, reg, NumGPRegs in *.
    pose proof (mid_len _ Hw) as Hl. unfold NumTotalRegs in Hl.
    rewrite zset_in by lia. eexists. split; [done|]. simpl.
    apply zget_lookup; [lia|]. apply list_lookup_insert_eq. lia. }
  assert (Hs : is_s32 a /\ is_s32 b).
  { destruct (reg_Ret w (rs i) Hw) as (x & E1 & ?); [destruct Hi; unfold NumGPRegs, NumTotalRegs in *; lia|].
    destruct (reg_Ret w (rt i) Hw) as (y & E2 & ?); [destruct Hi; unfold NumGPRegs, NumTotalRegs in *; lia|].
    split; congruence. }
  destruct Hs as [Hsa Hsb]. pose proof (wf_extra _ Hi) as Hse.
  unfold exec_ADD, exec_ADDI, exec_SUB. rewrite Ha, Hb, !rbind_Ret.
  rewrite !add_overflow, sub_overflow by auto.
  split_and!; (case_bool_decide as Ho; [left; done|right]);
    (split; [done|]); (split; [apply Hstore; apply Hi|]); by rewrite s32_id.
Qed.

Definition sample_add : Instruction := mkInstr 0 OP_ADD 8 9 10 0.
Definition sample_add_machine : Machine :=
  set_registers sample_machine (<[9%nat := 1]> (<[8%nat := 2 ^ 31 - 1]> (registers sample_machine))).

Lemma overflow_exact_witness :
  exec_ADD halting_handler (sample_world sample_add_machine) sample_add 8 =
  trap halting_handler (sample_world sample_add_machine) OverflowException 0.
Proof.
  destruct (overflow_exact halting_handler (sample_world sample_add_machine) sample_add 8
    (2 ^ 31 - 1) 1) as [[[H _]|[H _]] _].
  - split; [destruct sample_machine_wf as [? ?]; split; assumption|done| |by exists 0].
    repeat constructor; unfold is_s32; lia.
  - split; simpl; unfold NumGPRegs, is_s32; first [lia | intros [?|[?|?]]; discriminate | split_and!; discriminate].
  - vm_compute. reflexivity.
  - vm_compute. reflexivity.
  - exact H.
  - exfalso. unfold is_s32 in H. lia.
Defined.

(** Unaligned words.  [lwr] at an address followed by [lwl] three bytes
    further, which see each other's result through the load delay, assemble the
    four bytes at that address whatever its alignment; [swr] followed by [swl]
    store the register there and leave the bytes around it alone. *)
Theorem unaligned_word {K} (w w' : World K) pc rt old v0 v1 r k :
  0 <= k < 4 -> is_s32 old -> is_s32 v0 -> is_s32 v1 -> is_s32 r ->
  wf_mid (machine w) -> 0 < rt < NumGPRegs ->
  advance w pc rt (lwr_merge k old v0) = Ret w' ->
  (exists x, pending_value w' rt = Ret x /\
     lwl_merge ((k + 3) mod 4) x (if k =? 0 then v0 else v1) = funnel k v0 v1) /\
  let v0' := swr_merge k r v0 in
  let v1' := swl_merge ((k + 3) mod 4) r (if k =? 0 then v0' else v1) in
  if k =? 0 then v1' = r else
    funnel k v0' v1' = r /\
    (forall i, 0 <= i < 8 * k -> Z.testbit v0' i = Z.testbit v0 i) /\
    (forall i, 8 * k <= i < 32 -> Z.testbit v1' i = Z.testbit v1 i).
Proof.
  intros Hk Ho H0 H1 Hr Hw Hrt Hadv. split.
  - exists (lwr_merge k old v0). split; [|by apply lwr_lwl_merge].
    eapply advance_pending; [done|lia|done].
  - destruct (swr_swl_merge k r v0 v1 Hk Hr H0 H1) as [Ha Hb].
    destruct (Z.eqb_spec k 0); auto.
Qed.

Lemma unaligned_word_witness :
  exists w', advance (sample_world sample_machine) 8 5 (lwr_merge 1 0 0x44332211) = Ret w' /\
  exists x, pending_value w' 5 = Ret x /\ lwl_merge 0 x 0x55 = 0x55443322.
Proof.
  assert (Hw : wf_mid (machine (sample_world sample_machine)))
    by (apply wf_machine_mid, sample_machine_wf_machine).
  destruct (advance (sample_world sample_machine) 8 5 (lwr_merge 1 0 0x44332211)) eqn:E;
    [|vm_compute in E; discriminate E..].
  exists a. split; [reflexivity|].
  destruct (unaligned_word (sample_world sample_machine) a 8 5 0 0x44332211 0x55 0 1)
    as [(x & Hx & Hm) _]; try (unfold is_s32, NumGPRegs; lia).
  - exact Hw.
  - exact E.
  - exists x. split; [exact Hx|]. exact Hm.
Defined.

(** The logical right shifts [OP_SRL] and [OP_SRLV] of the simulator are the
    arithmetic ones, [OP_SRA] and [OP_SRAV], on every machine and instruction;
    on a negative register a shift by one fills with the sign bit instead of a
    zero. *)
Theorem SRL_is_arithmetic :
  (forall K (w : World K) i pc, exec_SRL w i pc = exec_SRA w i pc) /\
  (forall K (w : World K) i pc, exec_SRLV w i pc = exec_SRAV w i pc) /\
  (exists w', exec_SRL (sample_world (set_registers sample_machine
        (<[9%nat := -2]> (registers sample_machine)))) (mkInstr 0 OP_SRL 0 9 10 1) 8 =
      Ret (w', Some (8, 0, 0)) /\
    reg w' 10 = Ret (-1) /\ u32 (-1) <> Z.shiftr (u32 (-2)) 1).
Proof.
  split; [done|]. split; [done|]. eexists. split; [reflexivity|]. by vm_compute.
Qed.
