(* ===== verification/Host.v ===== *)
(** * The host operating system, as lib/sysdep.cc sees it

    The simulator reaches UNIX through a few wrappers in lib/sysdep.cc, which
    check the results of the system calls.  The system calls are a parameter,
    the class [HostOS]; what the kernel relies on about open regular files is the
    class [RegularFile], stated after the POSIX descriptions of lseek, read and
    write.  [ToyHost] is a small instance of both. *)

From S2P Require Import Prelude.

(** The system calls, with the host state before and after; a file name is the
    bytes of the C string without its terminator. *)
Class HostOS (H : Type) : Type := {
  os_open : H -> list byte -> (* O_RDWR *) bool -> (* O_CREAT|O_TRUNC *) bool -> H * Z;
  os_read : H -> Z -> Z -> H * (Z * list byte);
  os_write : H -> Z -> list byte -> H * Z;
  os_lseek : H -> Z -> Z -> (* whence *) Z -> H * Z;
  os_close : H -> Z -> H * Z;
  (* select on one descriptor for reading, without waiting *)
  os_select : H -> Z -> H * Z;
  os_unlink : H -> list byte -> H * Z
}.

Definition SEEK_SET : Z := 0.
Definition SEEK_CUR : Z := 1.
Definition SEEK_END : Z := 2.

Section wrappers.
Context {H : Type} `{HostOS H}.

Definition OpenForWrite (h : H) (name : list byte) : result (H * Z) :=
  let (h, fd) := os_open h name true true in
  assert* (fd >=? 0) in Ret (h, fd).

Definition OpenForRead (h : H) (name : list byte) (crashOnError : bool)
    : result (H * Z) :=
  let (h, fd) := os_open h name false false in
  assert* (negb crashOnError || (fd >=? 0)) in Ret (h, fd).

Definition OpenForReadWrite (h : H) (name : list byte) (crashOnError : bool)
    : result (H * Z) :=
  let (h, fd) := os_open h name true false in
  assert* (negb crashOnError || (fd >=? 0)) in Ret (h, fd).

Definition Read (h : H) (fd nBytes : Z) : result (H * list byte) :=
  let '(h, (retVal, buffer)) := os_read h fd nBytes in
  assert* (retVal =? nBytes) in Ret (h, buffer).

Definition ReadPartial (h : H) (fd nBytes : Z) : result (H * (Z * list byte)) :=
  Ret (os_read h fd nBytes).

Definition WriteFile (h : H) (fd : Z) (buffer : list byte) : result H :=
  let (h, retVal) := os_write h fd buffer in
  assert* (retVal =? Z.of_nat (length buffer)) in Ret h.

Definition Lseek (h : H) (fd offset whence : Z) : result H :=
  let (h, retVal) := os_lseek h fd offset whence in
  assert* (retVal >=? 0) in Ret h.

Definition Tell (h : H) (fd : Z) : H * Z := os_lseek h fd 0 SEEK_CUR.

Definition Close (h : H) (fd : Z) : result (H * Z) :=
  let (h, retVal) := os_close h fd in
  assert* (retVal >=? 0) in Ret (h, retVal).

Definition PollFile (h : H) (fd : Z) : result (H * bool) :=
  let (h, retVal) := os_select h fd in
  assert* (retVal =? 0) || (retVal =? 1) in
  Ret (h, negb (retVal =? 0)).

(** [return unlink(name)] in a function that returns [bool]. *)
Definition Unlink (h : H) (name : list byte) : H * bool :=
  let (h, retVal) := os_unlink h name in (h, negb (retVal =? 0)).
End wrappers.

(** [file_state h fd = Some (data, pos)]: [fd] is open for reading and writing on
    a regular file that holds [data], with its offset at [pos]. *)
Class RegularFile (H : Type) `{HostOS H} : Type := {
  file_state : H -> Z -> option (list byte * Z);
  lseek_law h fd data pos off : file_state h fd = Some (data, pos) -> 0 <= off ->
    exists h', os_lseek h fd off SEEK_SET = (h', off) /\ file_state h' fd = Some (data, off);
  lseek_end_law h fd data pos : file_state h fd = Some (data, pos) ->
    exists h', os_lseek h fd 0 SEEK_END = (h', Z.of_nat (length data)) /\
      file_state h' fd = Some (data, Z.of_nat (length data));
  lseek_cur_law h fd data pos : file_state h fd = Some (data, pos) -> 0 <= pos ->
    exists h', os_lseek h fd 0 SEEK_CUR = (h', pos) /\ file_state h' fd = Some (data, pos);
  read_law h fd data pos n : file_state h fd = Some (data, pos) -> 0 <= pos -> 0 <= n ->
    let bs := take (Z.to_nat n) (drop (Z.to_nat pos) data) in
    exists h', os_read h fd n = (h', (Z.of_nat (length bs), bs)) /\
      file_state h' fd = Some (data, pos + Z.of_nat (length bs));
  write_law h fd data pos bs : file_state h fd = Some (data, pos) ->
    0 <= pos <= Z.of_nat (length data) ->
    exists h', os_write h fd bs = (h', Z.of_nat (length bs)) /\
      file_state h' fd =
        Some (take (Z.to_nat pos) data ++ bs ++ drop (Z.to_nat pos + length bs) data,
              pos + Z.of_nat (length bs))
}.

Definition at_file {H} `{RegularFile H} (h : H) (fd : Z) (data : list byte) (pos : Z) : Prop :=
  file_state h fd = Some (data, pos).

Section regular.
Context {H : Type} `{RegularFile H}.

(** Reading and writing through the wrappers, at an offset. *)
Lemma seek_read h fd data pos off n :
  at_file h fd data pos -> 0 <= off -> 0 <= n -> off + n <= Z.of_nat (length data) ->
  exists h' pos', (let* h := Lseek h fd off SEEK_SET in Read h fd n) =
      Ret (h', take (Z.to_nat n) (drop (Z.to_nat off) data)) /\ at_file h' fd data pos'.
Proof.
  intros Hat ? ? ?. unfold Lseek, Read.
  destruct (lseek_law h fd data pos off Hat) as (h1 & -> & Hat1); [lia|].
  rewrite Z.geb_leb, (proj2 (Z.leb_le 0 off)) by lia. simpl.
  destruct (read_law h1 fd data off n Hat1) as (h2 & -> & Hat2); [lia|lia|].
  rewrite length_take, length_drop in *. rewrite (proj2 (Z.eqb_eq _ n)) by lia. simpl. eauto.
Qed.

Lemma seek_write h fd data pos off bs :
  at_file h fd data pos -> 0 <= off -> off + Z.of_nat (length bs) <= Z.of_nat (length data) ->
  exists h' pos', (let* h := Lseek h fd off SEEK_SET in WriteFile h fd bs) = Ret h' /\
    at_file h' fd (take (Z.to_nat off) data ++ bs ++ drop (Z.to_nat off + length bs) data) pos'.
Proof.
  intros Hat ? ?. unfold Lseek, WriteFile.
  destruct (lseek_law h fd data pos off Hat) as (h1 & -> & Hat1); [lia|].
  rewrite Z.geb_leb, (proj2 (Z.leb_le 0 off)) by lia. simpl.
  destruct (write_law h1 fd data off bs Hat1) as (h2 & -> & Hat2); [lia|].
  rewrite Z.eqb_refl. simpl. eauto.
Qed.
End regular.

(** ** A small host: numbered files, no name space *)

Definition ToyHost : Type := gmap Z (list byte * Z).

#[export] Instance ToyHost_os : HostOS ToyHost := {
  os_open h name rw creat := (h, -1);
  os_read h fd n :=
    match h !! fd with
    | Some (data, pos) =>
        let bs := take (Z.to_nat n) (drop (Z.to_nat pos) data) in
        let cnt := Z.of_nat (length bs) in
        (<[fd := (data, pos + cnt)]> h, (cnt, bs))
    | None => (h, (-1, []))
    end;
  os_write h fd bs :=
    match h !! fd with
    | Some (data, pos) =>
        (<[fd := (take (Z.to_nat pos) data ++ bs ++ drop (Z.to_nat pos + length bs) data,
                  pos + Z.of_nat (length bs))]> h, Z.of_nat (length bs))
    | None => (h, -1)
    end;
  os_lseek h fd off whence :=
    match h !! fd with
    | Some (data, pos) =>
        let p := if whence =? SEEK_SET then off
                 else if whence =? SEEK_CUR then pos + off
                 else Z.of_nat (length data) + off in
        if p <? 0 then (h, -1) else (<[fd := (data, p)]> h, p)
    | None => (h, -1)
    end;
  os_close h fd := match h !! fd with Some _ => (delete fd h, 0) | None => (h, -1) end;
  os_select h fd := match h !! fd with Some _ => (h, 1) | None => (h, -1) end;
  os_unlink h name := (h, -1)
}.

#[export] Program Instance ToyHost_regular : RegularFile ToyHost := {
  file_state h fd := h !! fd
}.
Next Obligation.
  intros h fd data pos off Hat Hoff. simpl. rewrite Hat. simpl.
  rewrite (proj2 (Z.ltb_ge off 0)) by lia. eexists. split; [done|].
  apply lookup_insert_eq.
Qed.
Next Obligation.
  intros h fd data pos Hat. simpl. rewrite Hat. simpl.
  rewrite Z.add_0_r, (proj2 (Z.ltb_ge _ 0)) by lia. eexists. split; [done|].
  apply lookup_insert_eq.
Qed.
Next Obligation.
  intros h fd data pos Hat Hpos. simpl. rewrite Hat. simpl.
  rewrite Z.add_0_r, (proj2 (Z.ltb_ge pos 0)) by lia. eexists. split; [done|].
  apply lookup_insert_eq.
Qed.
Next Obligation.
  intros h fd data pos n Hat ? ?. simpl. rewrite Hat. simpl.
  eexists. split; [done|]. apply lookup_insert_eq.
Qed.
Next Obligation.
  intros h fd data pos bs Hat ?. simpl. rewrite Hat. simpl.
  eexists. split; [done|]. apply lookup_insert_eq.
Qed.
