(* ===== verification/Disk.v ===== *)
(** * The disk and its synchronous interface

    Model of machine/disk.{h,cc} (without [NOTRACKBUF]) and
    filesys/synchdisk.{h,cc}: the sector store kept in a UNIX file behind a magic
    number, the timing model with its track buffer, the one-request-at-a-time
    discipline and the completion interrupt, and [SynchDisk], which waits for it.
    The thread that calls [SynchDisk] is the only one running: blocking on the
    semaphore lets simulated time pass to the pending disk interrupt.  Times and
    counters are [int]s, and wrap around.

    [BlockDevice] is what the file system relies on; the last part shows that
    [SynchDisk] provides it. *)

From S2P Require Import Prelude Host.

Definition SectorSize : Z := 128.
Definition SectorsPerTrack : Z := 32.
Definition NumTracks : Z := 32.
Definition NumSectors : Z := SectorsPerTrack * NumTracks.

Definition RotationTime : Z := 500.
Definition SeekTime : Z := 500.

Definition MagicNumber : Z := 0x456789ab.
Definition MagicSize : Z := 4.
Definition DiskSize : Z := MagicSize + NumSectors * SectorSize.

(** ** The interface *)

(** A device of [NumSectors] sectors, each of [SectorSize] bytes. *)
Class BlockDevice (D : Type) : Type := {
  bd_wf : D -> Prop;
  bd_sector : D -> Z -> list byte;
  bd_read : D -> Z -> result (D * list byte);
  bd_write : D -> Z -> list byte -> result D;
  bd_sector_len d k : bd_wf d -> 0 <= k < NumSectors ->
    Z.of_nat (length (bd_sector d k)) = SectorSize;
  bd_read_spec d k : bd_wf d -> 0 <= k < NumSectors ->
    exists d', bd_read d k = Ret (d', bd_sector d k) /\ bd_wf d' /\
      forall j, bd_sector d' j = bd_sector d j;
  bd_write_spec d k data : bd_wf d -> 0 <= k < NumSectors ->
    Z.of_nat (length data) = SectorSize ->
    exists d', bd_write d k data = Ret d' /\ bd_wf d' /\
      forall j, 0 <= j < NumSectors ->
        bd_sector d' j = if j =? k then data else bd_sector d j;
  bd_read_bad d k : bd_wf d -> ~ 0 <= k < NumSectors -> bd_read d k = AssertFail;
  bd_write_bad d k data : bd_wf d -> ~ 0 <= k < NumSectors -> bd_write d k data = AssertFail
}.

(** ** The disk *)

Section disk.
Context {H : Type} `{HostOS H}.

(** The disk, with what it uses of the rest of the kernel: the tick counter and
    the two counters of [Statistics], and the disk interrupt it has scheduled,
    if any, by its time. *)
Record Disk : Type := mkDisk {
  host : H;
  fileno : Z;
  active : bool;
  lastSector : Z;
  bufferInit : Z;
  totalTicks : Z;
  numDiskReads : Z;
  numDiskWrites : Z;
  pending : option Z
}.

(** [Disk::Disk]; [diskname] is the name the constructor prints. *)
Definition new_Disk (h : H) (diskname : list byte) (ticks reads writes : Z) : result Disk :=
  let mk h fd := mkDisk h fd false 0 0 ticks reads writes None in
  let* (h, fd) := OpenForReadWrite h diskname false in
  if fd >=? 0 then
    let* (h, bs) := Read h fd MagicSize in
    assert* (s32 (le_combine bs) =? MagicNumber) in
    Ret (mk h fd)
  else
    let* (h, fd) := OpenForWrite h diskname in
    let* h := WriteFile h fd (le_split 4 (u32 MagicNumber)) in
    let* h := Lseek h fd (DiskSize - 4) SEEK_SET in
    let* h := WriteFile h fd (le_split 4 (u32 0)) in
    Ret (mk h fd).

(** [Disk::TimeToSeek]: the seek time and [*rotation]. *)
Definition TimeToSeek (d : Disk) (newSector : Z) : Z * Z :=
  let newTrack := Z.quot newSector SectorsPerTrack in
  let oldTrack := Z.quot (lastSector d) SectorsPerTrack in
  let seek := s32 (Z.abs (newTrack - oldTrack) * SeekTime) in
  let over := Z.rem (s32 (totalTicks d + seek)) RotationTime in
  (seek, if over >? 0 then RotationTime - over else 0).

Definition ModuloDiff (to from : Z) : Z :=
  let toOffset := Z.rem to SectorsPerTrack in
  let fromOffset := Z.rem from SectorsPerTrack in
  Z.rem ((toOffset - fromOffset) + SectorsPerTrack) SectorsPerTrack.

Definition ComputeLatency (d : Disk) (newSector : Z) (writing : bool) : Z :=
  let (seek, rotation) := TimeToSeek d newSector in
  let timeAfter := s32 (s32 (totalTicks d + seek) + rotation) in
  if negb writing && (seek =? 0) &&
     (Z.quot (s32 (timeAfter - bufferInit d)) RotationTime >?
      ModuloDiff newSector (Z.quot (bufferInit d) RotationTime))
  then RotationTime
  else
    let rotation :=
      s32 (rotation + ModuloDiff newSector (Z.quot timeAfter RotationTime) * RotationTime) in
    s32 (s32 (seek + rotation) + RotationTime).

Definition UpdateLast (d : Disk) (newSector : Z) : Disk :=
  let (seek, rotate) := TimeToSeek d newSector in
  mkDisk (host d) (fileno d) (active d) newSector
    (if negb (seek =? 0) then s32 (s32 (totalTicks d + seek) + rotate) else bufferInit d)
    (totalTicks d) (numDiskReads d) (numDiskWrites d) (pending d).

(** [kernel->interrupt->Schedule(this, ticks, DiskInt)] *)
Definition Schedule (d : Disk) (fromNow : Z) : result Disk :=
  assert* (fromNow >? 0) in
  Ret (mkDisk (host d) (fileno d) (active d) (lastSector d) (bufferInit d)
         (totalTicks d) (numDiskReads d) (numDiskWrites d) (Some (s32 (totalTicks d + fromNow)))).

Definition ReadRequest (d : Disk) (sectorNumber : Z) : result (Disk * list byte) :=
  let ticks := ComputeLatency d sectorNumber false in
  assert* negb (active d) in
  assert* (sectorNumber >=? 0) && (sectorNumber <? NumSectors) in
  let* (h, data) :=
    let* h := Lseek (host d) (fileno d) (SectorSize * sectorNumber + MagicSize) SEEK_SET in
    Read h (fileno d) SectorSize in
  let d := mkDisk h (fileno d) true (lastSector d) (bufferInit d) (totalTicks d)
             (numDiskReads d) (numDiskWrites d) (pending d) in
  let d := UpdateLast d sectorNumber in
  let d := mkDisk (host d) (fileno d) (active d) (lastSector d) (bufferInit d) (totalTicks d)
             (s32 (numDiskReads d + 1)) (numDiskWrites d) (pending d) in
  let* d := Schedule d ticks in
  Ret (d, data).

Definition WriteRequest (d : Disk) (sectorNumber : Z) (data : list byte) : result Disk :=
  let ticks := ComputeLatency d sectorNumber true in
  assert* negb (active d) in
  assert* (sectorNumber >=? 0) && (sectorNumber <? NumSectors) in
  let* h :=
    let* h := Lseek (host d) (fileno d) (SectorSize * sectorNumber + MagicSize) SEEK_SET in
    WriteFile h (fileno d) data in
  let d := mkDisk h (fileno d) true (lastSector d) (bufferInit d) (totalTicks d)
             (numDiskReads d) (numDiskWrites d) (pending d) in
  let d := UpdateLast d sectorNumber in
  let d := mkDisk (host d) (fileno d) (active d) (lastSector d) (bufferInit d) (totalTicks d)
             (numDiskReads d) (s32 (numDiskWrites d + 1)) (pending d) in
  Schedule d ticks.

(** ** The synchronous interface *)

Record SynchDisk : Type := mkSynchDisk {
  semaphore : Z;
  lock_held : bool;
  disk : Disk
}.

Definition new_SynchDisk (h : H) (diskname : list byte) (ticks reads writes : Z)
    : result SynchDisk :=
  let* d := new_Disk h diskname ticks reads writes in
  Ret (mkSynchDisk 0 false d).

(** [SynchDisk::CallBack]: [semaphore->V()] *)
Definition SynchDisk_CallBack (s : SynchDisk) : SynchDisk :=
  mkSynchDisk (semaphore s + 1) (lock_held s) (disk s).

(** [Disk::CallBack], with [callWhenDone] the [SynchDisk]. *)
Definition Disk_CallBack (s : SynchDisk) : SynchDisk :=
  let d := disk s in
  SynchDisk_CallBack (mkSynchDisk (semaphore s) (lock_held s)
    (mkDisk (host d) (fileno d) false (lastSector d) (bufferInit d) (totalTicks d)
       (numDiskReads d) (numDiskWrites d) None)).

(** [semaphore->P()] by the only thread: while the count is zero, time passes to
    the pending disk interrupt, if that is not due already; with none pending the thread
    waits forever. *)
Definition wait (s : SynchDisk) : result SynchDisk :=
  if semaphore s >? 0 then Ret (mkSynchDisk (semaphore s - 1) (lock_held s) (disk s)) else
  match pending (disk s) with
  | None => NoFuel
  | Some when =>
      let d := disk s in
      let s := Disk_CallBack (mkSynchDisk (semaphore s) (lock_held s)
        (mkDisk (host d) (fileno d) (active d) (lastSector d) (bufferInit d)
           (if when >? totalTicks d then when else totalTicks d) (numDiskReads d) (numDiskWrites d) None)) in
      Ret (mkSynchDisk (semaphore s - 1) (lock_held s) (disk s))
  end.

(** [lock->Acquire()] and [lock->Release()] *)
Definition Acquire (s : SynchDisk) : result SynchDisk :=
  if lock_held s then NoFuel else Ret (mkSynchDisk (semaphore s) true (disk s)).
Definition Release (s : SynchDisk) : result SynchDisk :=
  assert* lock_held s in Ret (mkSynchDisk (semaphore s) false (disk s)).

Definition ReadSector (s : SynchDisk) (sectorNumber : Z) : result (SynchDisk * list byte) :=
  let* s := Acquire s in
  let* (d, data) := ReadRequest (disk s) sectorNumber in
  let* s := wait (mkSynchDisk (semaphore s) (lock_held s) d) in
  let* s := Release s in
  Ret (s, data).

Definition WriteSector (s : SynchDisk) (sectorNumber : Z) (data : list byte)
    : result SynchDisk :=
  let* s := Acquire s in
  let* d := WriteRequest (disk s) sectorNumber data in
  let* s := wait (mkSynchDisk (semaphore s) (lock_held s) d) in
  Release s.
End disk.
Arguments Disk : clear implicits.
Arguments SynchDisk : clear implicits.

(** ** Lemmas: timing *)

Section timing.
Context {H : Type}.
Implicit Types (d : Disk H).

(** The head is where it can be, and times are [int]s. *)
Record wf_head (d : Disk H) : Prop := {
  wf_last : 0 <= lastSector d < NumSectors;
  wf_ticks : is_s32 (totalTicks d);
  wf_buffer : is_s32 (bufferInit d)
}.

(** The longest request: across the disk, the rest of a sector, a whole rotation and the
    transfer. *)
Definition MaxLatency : Z := (NumTracks - 1) * SeekTime + (RotationTime - 1) + SectorsPerTrack * RotationTime.

Lemma TimeToSeek_spec d k : wf_head d -> 0 <= k < NumSectors ->
  exists seek rotation, TimeToSeek d k = (seek, rotation) /\
    seek = Z.abs (k / SectorsPerTrack - lastSector d / SectorsPerTrack) * SeekTime /\
    0 <= seek <= (NumTracks - 1) * SeekTime /\
    0 <= rotation < RotationTime /\
    (0 <= totalTicks d -> totalTicks d + MaxLatency < 2 ^ 31 -> (totalTicks d + seek + rotation) mod RotationTime = 0).
Proof.
  intros [Hl Ht _] Hk. unfold TimeToSeek. unfold NumSectors, SectorsPerTrack, NumTracks in *.
  rewrite !Z.quot_div_nonneg by lia.
  assert (0 <= k / 32 < 32) by (split; [apply Z.div_pos|apply Z.div_lt_upper_bound]; lia).
  assert (0 <= lastSector d / 32 < 32) by (split; [apply Z.div_pos|apply Z.div_lt_upper_bound]; lia).
  unfold MaxLatency, NumTracks, SectorsPerTrack, SeekTime, RotationTime.
  set (seek := Z.abs _ * 500). assert (0 <= seek <= (32 - 1) * 500) by (unfold seek; lia).
  rewrite (s32_id seek) by (unfold is_s32; lia).
  pose proof (Z.rem_bound_abs (s32 (totalTicks d + seek)) 500 ltac:(lia)) as Hr.
  do 2 eexists. split; [done|]. split; [done|]. split; [done|].
  rewrite Z.gtb_ltb. split; [destruct (Z.ltb_spec 0 (Z.rem (s32 (totalTicks d + seek)) 500)); lia|].
  intros Hz Hb. rewrite s32_id by (unfold is_s32; lia). rewrite Z.rem_mod_nonneg by lia.
  pose proof (Z.mod_pos_bound (totalTicks d + seek) 500 ltac:(lia)).
  pose proof (Z.div_mod (totalTicks d + seek) 500 ltac:(lia)).
  destruct (Z.ltb_spec 0 ((totalTicks d + seek) mod 500)).
  - symmetry. apply (Zmod_unique _ _ ((totalTicks d + seek) / 500 + 1)); lia.
  - rewrite Z.add_0_r. lia.
Qed.

(** The distance is a number of sectors, from any position. *)
Lemma ModuloDiff_range to from : 0 <= to -> 0 <= ModuloDiff to from < SectorsPerTrack.
Proof.
  intros. unfold ModuloDiff, SectorsPerTrack. rewrite (Z.rem_mod_nonneg to) by lia.
  pose proof (Z.mod_pos_bound to 32 ltac:(lia)). pose proof (Z.rem_bound_abs from 32 ltac:(lia)).
  rewrite Z.rem_mod_nonneg by lia. apply Z.mod_pos_bound. lia.
Qed.

Lemma ModuloDiff_spec to from : 0 <= to -> 0 <= from ->
  (from + ModuloDiff to from) mod SectorsPerTrack = to mod SectorsPerTrack.
Proof.
  intros. unfold ModuloDiff, SectorsPerTrack. rewrite (Z.rem_mod_nonneg to), (Z.rem_mod_nonneg from) by lia.
  pose proof (Z.mod_pos_bound to 32 ltac:(lia)). pose proof (Z.mod_pos_bound from 32 ltac:(lia)).
  rewrite Z.rem_mod_nonneg by lia.
  rewrite Zplus_mod_idemp_r.
  replace (from + (to mod 32 - from mod 32 + 32)) with (to mod 32 + (from / 32 + 1) * 32)
    by (pose proof (Z.div_mod from 32 ltac:(lia)); lia).
  by rewrite Z_mod_plus_full, Z.mod_mod.
Qed.

Lemma UpdateLast_wf d k : wf_head d -> 0 <= k < NumSectors -> wf_head (UpdateLast d k).
Proof.
  intros Hd Hk. unfold UpdateLast. destruct (TimeToSeek d k) as [seek rot].
  destruct Hd. split; simpl; [done|done|]. case_if; [apply s32_range|done].
Qed.

(** From the track buffer, or after the seek, the rest of a sector and the rotation. *)
Lemma ComputeLatency_cases d k writing : wf_head d -> 0 <= k < NumSectors ->
  exists seek rotation, TimeToSeek d k = (seek, rotation) /\
    ((ComputeLatency d k writing = RotationTime /\ writing = false /\ seek = 0) \/
     ComputeLatency d k writing = seek + (rotation +
       ModuloDiff k (Z.quot (s32 (s32 (totalTicks d + seek) + rotation)) RotationTime) * RotationTime) + RotationTime).
Proof.
  intros Hd Hk. destruct (TimeToSeek_spec d k Hd Hk) as (seek & rot & E & _ & Hs & Hr & _).
  exists seek, rot. split; [done|]. unfold ComputeLatency. rewrite E.
  set (md := ModuloDiff k (Z.quot (s32 (s32 (totalTicks d + seek) + rot)) RotationTime)).
  assert (Hm : 0 <= md < SectorsPerTrack) by (apply ModuloDiff_range; lia).
  case_if; [left|right].
  - to_prop. split; [done|]. split; [by destruct writing|done].
  - unfold NumTracks, SectorsPerTrack, SeekTime, RotationTime in *.
    rewrite (s32_id (rot + md * 500)) by (unfold is_s32; lia).
    rewrite (s32_id (seek + _)) by (unfold is_s32; lia). rewrite s32_id by (unfold is_s32; lia). lia.
Qed.

Lemma ComputeLatency_range d k writing : wf_head d -> 0 <= k < NumSectors ->
  RotationTime <= ComputeLatency d k writing <= MaxLatency.
Proof.
  intros Hd Hk. destruct (ComputeLatency_cases d k writing Hd Hk) as (seek & rot & E & Hcase).
  destruct (TimeToSeek_spec d k Hd Hk) as (seek' & rot' & E' & _ & Hs & Hr & _). rewrite E in E'. injection E' as <- <-.
  pose proof (ModuloDiff_range k (Z.quot (s32 (s32 (totalTicks d + seek) + rot)) RotationTime) ltac:(lia)).
  unfold MaxLatency, NumTracks, SectorsPerTrack, SeekTime, RotationTime in *. lia.
Qed.
End timing.

(** ** Lemmas: sectors *)

Section sectors.
Context {H : Type} `{RegularFile H}.
Implicit Types (d : Disk H) (s : SynchDisk H).

Definition disk_data d : list byte :=
  match file_state (host d) (fileno d) with Some (data, _) => data | None => [] end.

(** The bytes of sector [k]. *)
Definition sector_of d (k : Z) : list byte :=
  take (Z.to_nat SectorSize) (drop (Z.to_nat (SectorSize * k + MagicSize)) (disk_data d)).

Record wf_disk d : Prop := {
  wf_file : exists pos, at_file (host d) (fileno d) (disk_data d) pos;
  wf_size : Z.of_nat (length (disk_data d)) = DiskSize;
  wf_pos : wf_head d
}.

(** Idle: no request in progress, nobody inside the monitor. *)
Record idle s : Prop := {
  idle_wf : wf_disk (disk s);
  idle_active : active (disk s) = false;
  idle_pending : pending (disk s) = None;
  idle_sem : semaphore s = 0;
  idle_lock : lock_held s = false
}.

Lemma sector_of_length d k : wf_disk d -> 0 <= k < NumSectors ->
  Z.of_nat (length (sector_of d k)) = SectorSize.
Proof.
  intros [_ Hs _] Hk. unfold sector_of. rewrite length_take, length_drop.
  unfold DiskSize, NumSectors, SectorsPerTrack, NumTracks, MagicSize, SectorSize in *. lia.
Qed.

Lemma at_file_data d data pos : at_file (host d) (fileno d) data pos -> disk_data d = data.
Proof. unfold at_file, disk_data. by intros ->. Qed.

(** The effect of a write on the sectors. *)
Lemma sector_splice (data bs : list byte) j k :
  Z.of_nat (length data) = DiskSize -> Z.of_nat (length bs) = SectorSize ->
  0 <= j < NumSectors -> 0 <= k < NumSectors ->
  let off i := Z.to_nat (SectorSize * i + MagicSize) in
  take (Z.to_nat SectorSize)
    (drop (off j) (take (off k) data ++ bs ++ drop (off k + length bs) data)) =
  if j =? k then bs else take (Z.to_nat SectorSize) (drop (off j) data).
Proof.
  intros Hd Hb Hj Hk off.
  unfold DiskSize, NumSectors, SectorsPerTrack, NumTracks, MagicSize, SectorSize in *.
  assert (Hlen : (off k + length bs <= length data)%nat) by (unfold off; lia).
  destruct (Z.eqb_spec j k) as [->|Hne].
  - replace (Z.to_nat 128) with (length bs) by lia.
    rewrite drop_app_length' by (rewrite length_take; lia). by rewrite take_app_length.
  - apply list_eq. intros i. destruct (decide (i < 128)%nat) as [Hi|Hi].
    + rewrite !lookup_take_lt, !lookup_drop by lia.
      destruct (decide (j < k)).
      * rewrite lookup_app_l by (rewrite length_take; unfold off in *; lia).
        rewrite lookup_take_lt; [done|unfold off; lia].
      * rewrite lookup_app_r by (rewrite length_take; unfold off in *; lia).
        rewrite length_take, Nat.min_l by lia.
        rewrite lookup_app_r by (unfold off in *; lia).
        rewrite lookup_drop. f_equal. unfold off in *. lia.
    + by rewrite !lookup_take_ge by lia.
Qed.

(** A request on an idle disk performs the transfer and schedules the
    interrupt. *)
Lemma ReadRequest_spec d k : wf_disk d -> active d = false -> 0 <= k < NumSectors ->
  exists d', ReadRequest d k = Ret (d', sector_of d k) /\ wf_disk d' /\
    disk_data d' = disk_data d /\ active d' = true /\ totalTicks d' = totalTicks d /\
    pending d' = Some (s32 (totalTicks d + ComputeLatency d k false)) /\
    lastSector d' = k /\ numDiskReads d' = s32 (numDiskReads d + 1) /\
    numDiskWrites d' = numDiskWrites d.
Proof.
  intros [[pos Hat] Hsz Hh] Ha Hk. unfold ReadRequest. rewrite Ha. simpl negb.
  rewrite ASSERT_true, rbind_Ret, Z.geb_leb by done.
  rewrite (proj2 (Z.leb_le 0 k)), (proj2 (Z.ltb_lt k _)), ASSERT_true, rbind_Ret by (done || lia).
  destruct (seek_read (host d) (fileno d) (disk_data d) pos (SectorSize * k + MagicSize) SectorSize)
    as (h' & pos' & -> & Hat');
    [done|unfold DiskSize, NumSectors, SectorsPerTrack, NumTracks, MagicSize, SectorSize in *; lia..|].
  rewrite rbind_Ret. set (d1 := mkDisk h' _ _ _ _ _ _ _ _).
  pose proof (UpdateLast_wf d1 k ltac:(by destruct Hh) Hk) as Hw. unfold UpdateLast in *.
  destruct (TimeToSeek d1 k) as [seek rot] eqn:Es. simpl in Hw.
  pose proof (ComputeLatency_range d k false Hh Hk) as Hlat. unfold RotationTime in Hlat.
  unfold Schedule. rewrite Z.gtb_ltb, (proj2 (Z.ltb_lt 0 _)) by lia. simpl.
  eexists. split; [done|].
  assert (Hd : disk_data (mkDisk h' (fileno d) true k
    (if negb (seek =? 0) then s32 (s32 (totalTicks d + seek) + rot) else bufferInit d) (totalTicks d)
    (s32 (numDiskReads d + 1)) (numDiskWrites d)
    (Some (s32 (totalTicks d + ComputeLatency d k false)))) = disk_data d)
    by (eapply at_file_data; done).
  split; [|done]. split; [exists pos'; by rewrite Hd|by rewrite Hd|]. by destruct Hw.
Qed.

Lemma WriteRequest_spec d k bs : wf_disk d -> active d = false -> 0 <= k < NumSectors ->
  Z.of_nat (length bs) = SectorSize ->
  exists d', WriteRequest d k bs = Ret d' /\ wf_disk d' /\
    (forall j, 0 <= j < NumSectors -> sector_of d' j = if j =? k then bs else sector_of d j) /\
    active d' = true /\ totalTicks d' = totalTicks d /\
    pending d' = Some (s32 (totalTicks d + ComputeLatency d k true)) /\
    lastSector d' = k /\ numDiskReads d' = numDiskReads d /\
    numDiskWrites d' = s32 (numDiskWrites d + 1).
Proof.
  intros [[pos Hat] Hsz Hh] Ha Hk Hb. unfold WriteRequest. rewrite Ha. simpl negb.
  rewrite ASSERT_true, rbind_Ret, Z.geb_leb by done.
  rewrite (proj2 (Z.leb_le 0 k)), (proj2 (Z.ltb_lt k _)), ASSERT_true, rbind_Ret by (done || lia).
  assert (Hin : 0 <= SectorSize * k + MagicSize /\
    SectorSize * k + MagicSize + Z.of_nat (length bs) <= Z.of_nat (length (disk_data d)))
    by (unfold DiskSize, NumSectors, SectorsPerTrack, NumTracks, MagicSize, SectorSize in *; lia).
  destruct (seek_write (host d) (fileno d) (disk_data d) pos (SectorSize * k + MagicSize) bs)
    as (h' & pos' & -> & Hat'); [done|lia|lia|].
  rewrite rbind_Ret. set (d1 := mkDisk h' _ _ _ _ _ _ _ _).
  pose proof (UpdateLast_wf d1 k ltac:(by destruct Hh) Hk) as Hw. unfold UpdateLast in *.
  destruct (TimeToSeek d1 k) as [seek rot] eqn:Es. simpl in Hw.
  pose proof (ComputeLatency_range d k true Hh Hk) as Hlat. unfold RotationTime in Hlat.
  unfold Schedule. rewrite Z.gtb_ltb, (proj2 (Z.ltb_lt 0 _)) by lia. simpl.
  eexists. split; [done|]. set (d2 := mkDisk h' _ _ _ _ _ _ _ _).
  pose proof (at_file_data d2 _ _ Hat') as Hd2.
  split; [|split; [|done]].
  - split; [exists pos'; by rewrite Hd2| |by destruct Hw].
    rewrite Hd2, length_splice; [done|lia].
  - intros j Hj. unfold sector_of. rewrite Hd2. by rewrite sector_splice.
Qed.

Lemma wait_done s when : semaphore s = 0 -> pending (disk s) = Some when ->
  wait s = Ret (mkSynchDisk 0 (lock_held s)
    (mkDisk (host (disk s)) (fileno (disk s)) false (lastSector (disk s)) (bufferInit (disk s))
       (Z.max (totalTicks (disk s)) when) (numDiskReads (disk s)) (numDiskWrites (disk s)) None)).
Proof.
  intros Hs Hp. unfold wait. rewrite Hs, Hp. simpl. rewrite Z.gtb_ltb. do 3 f_equal.
  destruct (Z.ltb_spec (totalTicks (disk s)) when); lia.
Qed.

(** Completing a request leaves an idle disk with the same bytes. *)
Lemma idle_complete d when : wf_disk d -> is_s32 when ->
  let s := mkSynchDisk 0 false (mkDisk (host d) (fileno d) false (lastSector d) (bufferInit d)
             (Z.max (totalTicks d) when) (numDiskReads d) (numDiskWrites d) None) in
  idle s /\ disk_data (disk s) = disk_data d.
Proof.
  intros [[pos Hat] Hs [? ? ?]] Hw s. split; [|done]. split; try done. split.
  - by exists pos.
  - done.
  - split; simpl; [done|by destruct (Z.max_spec (totalTicks d) when) as [[_ ->]|[_ ->]]|done].
Qed.

Lemma ReadSector_spec s k : idle s -> 0 <= k < NumSectors ->
  exists s', ReadSector s k = Ret (s', sector_of (disk s) k) /\ idle s' /\
    disk_data (disk s') = disk_data (disk s) /\
    totalTicks (disk s') = Z.max (totalTicks (disk s)) (s32 (totalTicks (disk s) + ComputeLatency (disk s) k false)) /\
    lastSector (disk s') = k /\
    numDiskReads (disk s') = s32 (numDiskReads (disk s) + 1) /\
    numDiskWrites (disk s') = numDiskWrites (disk s).
Proof.
  intros [Hwf Ha Hp Hs Hl] Hk. unfold ReadSector, Acquire. rewrite Hl, rbind_Ret.
  cbn [disk semaphore lock_held].
  destruct (ReadRequest_spec (disk s) k Hwf Ha Hk)
    as (d' & -> & Hwf' & Hd & _ & Ht & Hp' & ? & ? & ?).
  rewrite rbind_Ret. erewrite wait_done; [|done|exact Hp']. rewrite rbind_Ret. simpl.
  destruct (idle_complete d' (s32 (totalTicks (disk s) + ComputeLatency (disk s) k false)) Hwf')
    as [Hi Hd']; [apply s32_range|].
  eexists. split; [done|]. split; [exact Hi|]. by rewrite Hd', Ht.
Qed.

Lemma WriteSector_spec s k bs : idle s -> 0 <= k < NumSectors ->
  Z.of_nat (length bs) = SectorSize ->
  exists s', WriteSector s k bs = Ret s' /\ idle s' /\
    (forall j, 0 <= j < NumSectors ->
       sector_of (disk s') j = if j =? k then bs else sector_of (disk s) j) /\
    totalTicks (disk s') = Z.max (totalTicks (disk s)) (s32 (totalTicks (disk s) + ComputeLatency (disk s) k true)) /\
    lastSector (disk s') = k /\
    numDiskReads (disk s') = numDiskReads (disk s) /\
    numDiskWrites (disk s') = s32 (numDiskWrites (disk s) + 1).
Proof.
  intros [Hwf Ha Hp Hs Hl] Hk Hb. unfold WriteSector, Acquire. rewrite Hl, rbind_Ret.
  cbn [disk semaphore lock_held].
  destruct (WriteRequest_spec (disk s) k bs Hwf Ha Hk Hb)
    as (d' & -> & Hwf' & Hd & _ & Ht & Hp' & ? & ? & ?).
  rewrite rbind_Ret. erewrite wait_done; [|done|exact Hp']. rewrite rbind_Ret. simpl.
  destruct (idle_complete d' (s32 (totalTicks (disk s) + ComputeLatency (disk s) k true)) Hwf')
    as [Hi Hd']; [apply s32_range|].
  eexists. split; [done|]. split; [exact Hi|]. split; [|by rewrite Ht].
  intros j Hj. rewrite <- Hd by done. reflexivity.
Qed.

(** A sector number outside the disk fails the request's assertion. *)
Lemma bad_sector s k bs : idle s -> ~ 0 <= k < NumSectors ->
  ReadSector s k = AssertFail /\ WriteSector s k bs = AssertFail.
Proof.
  intros [Hwf Ha Hp Hs Hl] Hk. unfold ReadSector, WriteSector, Acquire, ReadRequest, WriteRequest.
  rewrite Hl, !rbind_Ret. simpl disk. rewrite Ha. simpl.
  replace ((k >=? 0) && (k <? NumSectors)) with false; [done|].
  symmetry. apply not_true_iff_false. rewrite andb_true_iff, Z.geb_leb, Z.leb_le, Z.ltb_lt. lia.
Qed.

(** [SynchDisk] is the block device of the file system. *)
#[export] Program Instance SynchDisk_device : BlockDevice (SynchDisk H) := {
  bd_wf := idle;
  bd_sector s := sector_of (disk s);
  bd_read := ReadSector;
  bd_write := WriteSector
}.
Next Obligation. intros s k Hs Hk. apply sector_of_length; [apply Hs|done]. Qed.
Next Obligation.
  intros s k Hs Hk. destruct (ReadSector_spec s k Hs Hk) as (s' & HR & ? & Hd & _).
  exists s'. split; [done|]. split; [done|]. intros j. unfold sector_of. by rewrite Hd.
Qed.
Next Obligation.
  intros s k bs Hs Hk Hb. destruct (WriteSector_spec s k bs Hs Hk Hb) as (s' & HW & ? & Hd & _).
  by exists s'.
Qed.
Next Obligation. intros s k Hs Hk. apply (bad_sector s k [] Hs Hk). Qed.
Next Obligation. intros s k bs Hs Hk. apply (bad_sector s k bs Hs Hk). Qed.
End sectors.

(** ** Claims *)

(** C32: [SynchDisk] is an array of sectors.  On an idle disk a read returns the
    bytes last written to that sector and changes no sector, a write replaces
    exactly its sector, both return (the completion interrupt is always
    scheduled), leave the disk idle again and count the request; the clock never goes
    back, and goes on with each request as long as it does not reach the end of [int];
    a sector number outside the disk and a second request while one is active
    abort. *)
Theorem SynchDisk_sectors {H} `{RegularFile H} (s : SynchDisk H) k bs :
  idle s -> Z.of_nat (length bs) = SectorSize ->
  (0 <= k < NumSectors ->
   exists s1 s2, WriteSector s k bs = Ret s1 /\ idle s1 /\
     (forall j, 0 <= j < NumSectors -> j <> k -> sector_of (disk s1) j = sector_of (disk s) j) /\
     ReadSector s1 k = Ret (s2, bs) /\ idle s2 /\
     (forall j, 0 <= j < NumSectors -> sector_of (disk s2) j = sector_of (disk s1) j) /\
     totalTicks (disk s) <= totalTicks (disk s1) <= totalTicks (disk s2) /\
     (totalTicks (disk s) + 2 * MaxLatency < 2 ^ 31 ->
      totalTicks (disk s) < totalTicks (disk s1) < totalTicks (disk s2)) /\
     numDiskWrites (disk s2) = s32 (numDiskWrites (disk s) + 1) /\
     numDiskReads (disk s2) = s32 (numDiskReads (disk s) + 1)) /\
  (~ 0 <= k < NumSectors -> ReadSector s k = AssertFail /\ WriteSector s k bs = AssertFail) /\
  (forall d, active d = true -> ReadRequest d k = AssertFail /\ WriteRequest d k bs = AssertFail).
Proof.
  intros Hs Hb. split; [|split; [by apply bad_sector|]].
  - intros Hk. destruct (WriteSector_spec s k bs Hs Hk Hb)
      as (s1 & HW & Hi1 & Hd1 & Ht1 & _ & Hr1 & Hw1).
    destruct (ReadSector_spec s1 k Hi1 Hk) as (s2 & HR & Hi2 & Hd2 & Ht2 & _ & Hr2 & Hw2).
    pose proof (ComputeLatency_range (disk s) k true (wf_pos _ (idle_wf _ Hs)) Hk).
    pose proof (ComputeLatency_range (disk s1) k false (wf_pos _ (idle_wf _ Hi1)) Hk).
    pose proof (wf_ticks _ (wf_pos _ (idle_wf _ Hs))) as Hti.
    unfold RotationTime, is_s32 in *. exists s1, s2.
    rewrite (Hd1 k Hk), Z.eqb_refl in HR.
    do 2 (split; [done|]). split.
    { intros j Hj Hne. rewrite Hd1 by done. by rewrite (proj2 (Z.eqb_neq j k)). }
    do 2 (split; [done|]). split.
    { intros j Hj. unfold sector_of. by rewrite Hd2. }
    rewrite Ht2. split; [rewrite Ht1; lia|]. split; [|split; congruence]. intros Hb2.
    rewrite s32_id in Ht1 by (unfold is_s32; lia). rewrite s32_id by (unfold is_s32; lia). lia.
  - intros d Ha. unfold ReadRequest, WriteRequest. by rewrite Ha.
Qed.

(** C38: the timing model.  A request takes at least one sector time and at most
    the full seek, the rest of a sector, a full rotation and the transfer, whatever the
    clock says.  While the clock, an [int], is not within that time of its end: unless
    the track buffer serves it, the transfer starts at the first sector
    boundary after the seek at which the requested sector is under the head. *)
Theorem latency_correct {H} (d : Disk H) k writing :
  wf_head d -> 0 <= k < NumSectors ->
  let latency := ComputeLatency d k writing in
  let seek := Z.abs (k / SectorsPerTrack - lastSector d / SectorsPerTrack) * SeekTime in
  let under_head t := t mod RotationTime = 0 /\
    (t / RotationTime) mod SectorsPerTrack = k mod SectorsPerTrack in
  RotationTime <= latency <= MaxLatency /\
  (0 <= totalTicks d -> totalTicks d + MaxLatency < 2 ^ 31 ->
   latency <> RotationTime \/ writing = true \/ seek <> 0 ->
   let start := totalTicks d + latency - RotationTime in
   totalTicks d + seek <= start /\ under_head start /\
   forall t, totalTicks d + seek <= t -> under_head t -> start <= t).
Proof.
  intros Hd Hk latency seek under_head. split; [by apply ComputeLatency_range|].
  intros Hz Hmax Hnb. cbv zeta.
  destruct (TimeToSeek_spec d k Hd Hk) as (sk & rot & Es & Hsk & Hsb & Hrot & Hal). specialize (Hal Hz Hmax).
  destruct (ComputeLatency_cases d k writing Hd Hk) as (sk' & rot' & Es' & Hcase).
  rewrite Es in Es'. injection Es' as <- <-. fold latency in Hcase.
  set (timeAfter := totalTicks d + sk + rot) in *.
  unfold MaxLatency, NumTracks, SectorsPerTrack, SeekTime, RotationTime in *.
  assert (Hta : s32 (s32 (totalTicks d + sk) + rot) = timeAfter).
  { rewrite (s32_id (totalTicks d + sk)) by (unfold is_s32; lia). rewrite s32_id by (unfold is_s32; lia). done. }
  rewrite Hta in Hcase.
  pose proof (ModuloDiff_range k (Z.quot timeAfter 500) ltac:(lia)) as Hm1.
  pose proof (ModuloDiff_spec k (Z.quot timeAfter 500) ltac:(lia) ltac:(apply Z.quot_pos; lia)) as Hm2.
  set (md := ModuloDiff k (Z.quot timeAfter 500)) in *. unfold SectorsPerTrack in *.
  assert (Hlat : latency = sk + (rot + md * 500) + 500).
  { destruct Hcase as [(? & ? & ?)|?]; [|done]. unfold seek in Hnb. destruct Hnb as [?|[?|?]]; congruence. }
  assert (Hstart : totalTicks d + latency - 500 = timeAfter + md * 500) by (unfold timeAfter; lia).
  rewrite Z.quot_div_nonneg in Hm2 by lia.
  assert (Hdiv : timeAfter = 500 * (timeAfter / 500))
    by (pose proof (Z.div_mod timeAfter 500 ltac:(lia)); lia).
  rewrite Hstart. unfold under_head. split; [unfold seek, timeAfter; lia|]. split.
  - rewrite Z_mod_plus_full. split; [done|]. by rewrite Z.div_add by lia.
  - intros t Htge [Ht1 Ht2].
    pose proof (Z.div_mod t 500 ltac:(lia)). set (q := t / 500) in *. set (q0 := timeAfter / 500) in *.
    pose proof (Z.div_mod q 32 ltac:(lia)). pose proof (Z.div_mod (q0 + md) 32 ltac:(lia)).
    unfold seek in Htge. lia.
Qed.

(** ** Concrete disk *)

(** A freshly started disk with the given bytes. *)
Definition toy_synchdisk (data : list byte) : SynchDisk ToyHost :=
  mkSynchDisk 0 false
    (mkDisk (<[3 := (data, 0)]> (∅ : gmap Z (list byte * Z))) 3 false 0 0 10 0 0 None).

Lemma toy_synchdisk_idle data : Z.of_nat (length data) = DiskSize -> idle (toy_synchdisk data).
Proof.
  intros Hlen.
  assert (Hf : file_state (host (disk (toy_synchdisk data))) 3 = Some (data, 0))
    by apply lookup_insert_eq.
  assert (Hd : disk_data (disk (toy_synchdisk data)) = data).
  { unfold disk_data. change (fileno (disk (toy_synchdisk data))) with 3. by rewrite Hf. }
  constructor; [|reflexivity..]. constructor; rewrite ?Hd.
  - exists 0. exact Hf.
  - done.
  - constructor; vm_compute; repeat split; congruence.
Qed.

Definition blank_bytes : list byte := replicate (Z.to_nat DiskSize) (byte.of_Z 0).

Lemma blank_bytes_length : Z.of_nat (length blank_bytes) = DiskSize.
Proof. unfold blank_bytes. rewrite length_replicate. vm_compute. reflexivity. Qed.

Definition sample_synchdisk : SynchDisk ToyHost := toy_synchdisk blank_bytes.

Lemma sample_synchdisk_idle : idle sample_synchdisk.
Proof. apply toy_synchdisk_idle, blank_bytes_length. Qed.

Lemma sample_synchdisk_wf : bd_wf sample_synchdisk.
Proof. apply sample_synchdisk_idle. Qed.

Lemma SynchDisk_sectors_witness :
  exists s1 s2, WriteSector sample_synchdisk 17 (replicate 128 (byte.of_Z 7)) = Ret s1 /\
    ReadSector s1 17 = Ret (s2, replicate 128 (byte.of_Z 7)).
Proof.
  destruct (SynchDisk_sectors sample_synchdisk 17 (replicate 128 (byte.of_Z 7))
    sample_synchdisk_idle eq_refl) as [Hw _].
  destruct Hw as (s1 & s2 & HW & _ & _ & HR & _); [split; vm_compute; congruence|].
  exists s1, s2. split; [exact HW|exact HR].
Defined.

(** From sector 0 at tick 10 to sector 70 of track 2: a seek of 1000, ready at
    1500, over sector 3; sector 6 of the track comes at 3000. *)
Lemma latency_correct_witness :
  let d := mkDisk tt 3 false 0 0 10 0 0 None in
  ComputeLatency d 70 true = 3490 /\ 10 + 1000 <= 10 + 3490 - RotationTime.
Proof.
  intros d. split; [reflexivity|].
  destruct (latency_correct d 70 true) as [_ Hs].
  - constructor; vm_compute; repeat split; congruence.
  - vm_compute. split; congruence.
  - destruct Hs as [Hs _]; [vm_compute; congruence|vm_compute; reflexivity|right; left; reflexivity|]. exact Hs.
Defined.
