(* ===== verification/Console.v ===== *)
(** * The console

    Model of machine/console.cc and userprog/synchconsole.cc for a kernel with
    one thread: the keyboard that is polled by a timer interrupt, the display
    that accepts one character at a time, and the synchronous [GetChar] and
    [PutChar] built on them.  [Terminal] is what the system calls rely on.

    Simulated time comes from the environment: [clock] says, for each time interrupts
    are enabled and for each time the machine idles, which console interrupts are due by
    then, in order.  So a keyboard poll may fire at any of these points, in the middle of
    [PutChar] too, and read a character ahead. *)

From S2P Require Import Prelude Host.

Definition EOF : Z := -1.

(** ** The interface: a keyboard and a display

    [t_in] is what is still to be typed, [t_out] what has been displayed.  A
    [char] is passed as its signed value. *)
Class Terminal (T : Type) : Type := {
  t_wf : T -> Prop;
  t_in : T -> list byte;
  t_out : T -> list byte;
  getChar : T -> result (T * Z);
  putChar : T -> Z -> result T;
  getChar_spec t b l : t_wf t -> t_in t = b :: l -> schar b <> EOF ->
    exists t', getChar t = Ret (t', schar b) /\ t_wf t' /\ t_in t' = l /\ t_out t' = t_out t;
  putChar_spec t c : t_wf t ->
    exists t', putChar t c = Ret t' /\ t_wf t' /\ t_in t' = t_in t /\
      t_out t' = t_out t ++ [byte.of_Z c]
}.

(** ** The devices *)

Inductive ConsoleInt : Type := ConsoleReadInt | ConsoleWriteInt.

Section console.
Context {H : Type} `{HostOS H}.

(** [cin_scheduled]: a [ConsoleReadInt] is pending. *)
Record ConsoleInput : Type := mkCin {
  readFileNo : Z;
  incoming : Z;
  cin_scheduled : bool
}.

Record ConsoleOutput : Type := mkCout {
  writeFileNo : Z;
  putBusy : bool;
  cout_scheduled : bool
}.

(** Both synchronous consoles, with the host, the two counters of [Statistics] they
    use, and what is still to come of simulated time. *)
Record Console : Type := mkConsole {
  host : H;
  in_lock : bool;
  in_waitFor : Z;
  consoleInput : ConsoleInput;
  out_lock : bool;
  out_waitFor : Z;
  consoleOutput : ConsoleOutput;
  numConsoleCharsRead : Z;
  numConsoleCharsWritten : Z;
  clock : list (list ConsoleInt)
}.

Definition set_host (k : Console) (h : H) : Console :=
  mkConsole h (in_lock k) (in_waitFor k) (consoleInput k) (out_lock k) (out_waitFor k)
    (consoleOutput k) (numConsoleCharsRead k) (numConsoleCharsWritten k) (clock k).
Definition set_in (k : Console) (lock : bool) (waitFor : Z) (c : ConsoleInput) : Console :=
  mkConsole (host k) lock waitFor c (out_lock k) (out_waitFor k)
    (consoleOutput k) (numConsoleCharsRead k) (numConsoleCharsWritten k) (clock k).
Definition set_out (k : Console) (lock : bool) (waitFor : Z) (c : ConsoleOutput) : Console :=
  mkConsole (host k) (in_lock k) (in_waitFor k) (consoleInput k) lock waitFor c
    (numConsoleCharsRead k) (numConsoleCharsWritten k) (clock k).
Definition set_clock (k : Console) (l : list (list ConsoleInt)) : Console :=
  mkConsole (host k) (in_lock k) (in_waitFor k) (consoleInput k) (out_lock k) (out_waitFor k)
    (consoleOutput k) (numConsoleCharsRead k) (numConsoleCharsWritten k) l.
Definition count_read (k : Console) : Console :=
  mkConsole (host k) (in_lock k) (in_waitFor k) (consoleInput k) (out_lock k) (out_waitFor k)
    (consoleOutput k) (s32 (numConsoleCharsRead k + 1)) (numConsoleCharsWritten k) (clock k).
Definition count_written (k : Console) : Console :=
  mkConsole (host k) (in_lock k) (in_waitFor k) (consoleInput k) (out_lock k) (out_waitFor k)
    (consoleOutput k) (numConsoleCharsRead k) (s32 (numConsoleCharsWritten k + 1)) (clock k).

(** ** Construction: a null file name is the standard input or output *)

Definition new_ConsoleInput (h : H) (readFile : option (list byte)) : result (H * ConsoleInput) :=
  let* (h, fd) := match readFile with
                  | None => Ret (h, 0)
                  | Some name => OpenForReadWrite h name true
                  end in
  Ret (h, mkCin fd EOF true).

Definition new_ConsoleOutput (h : H) (writeFile : option (list byte)) : result (H * ConsoleOutput) :=
  let* (h, fd) := match writeFile with
                  | None => Ret (h, 1)
                  | Some name => OpenForWrite h name
                  end in
  Ret (h, mkCout fd false false).

(** [new SynchConsoleInput(in)] and [new SynchConsoleOutput(out)], as the kernel
    makes them, with the counters at [r] and [w]. *)
Definition new_Console (h : H) (fin fout : option (list byte)) (r w : Z) (time : list (list ConsoleInt)) : result Console :=
  let* (h, cin) := new_ConsoleInput h fin in
  let* (h, cout) := new_ConsoleOutput h fout in
  Ret (mkConsole h false 0 cin false 0 cout r w time).

(** ** Interrupt handlers *)

(** [SynchConsoleInput::CallBack]: [waitFor->V()] *)
Definition SynchConsoleInput_CallBack (k : Console) : Console :=
  set_in k (in_lock k) (in_waitFor k + 1) (consoleInput k).

Definition ConsoleInput_CallBack (k : Console) : result Console :=
  let c := consoleInput k in
  assert* (incoming c =? EOF) in
  let* (h, ready) := PollFile (host k) (readFileNo c) in
  let k := set_host k h in
  if negb ready then
    Ret (set_in k (in_lock k) (in_waitFor k) (mkCin (readFileNo c) (incoming c) true))
  else
    let* (h, (readCount, buf)) := ReadPartial (host k) (readFileNo c) 1 in
    let k := set_host k h in
    if readCount =? 0 then Ret (SynchConsoleInput_CallBack k)
    else
      assert* (readCount =? 1) in
      let* b := zget buf 0 in
      let k := set_in k (in_lock k) (in_waitFor k)
                 (mkCin (readFileNo c) (schar b) (cin_scheduled c)) in
      Ret (SynchConsoleInput_CallBack (count_read k)).

(** [SynchConsoleOutput::CallBack]: [waitFor->V()] *)
Definition SynchConsoleOutput_CallBack (k : Console) : Console :=
  set_out k (out_lock k) (out_waitFor k + 1) (consoleOutput k).

Definition ConsoleOutput_CallBack (k : Console) : Console :=
  let c := consoleOutput k in
  SynchConsoleOutput_CallBack (count_written
    (set_out k (out_lock k) (out_waitFor k) (mkCout (writeFileNo c) false (cout_scheduled c)))).

(** ** Simulated time *)

(** An interrupt that is due fires, if it is pending: the [do ... while] loop of
    [Interrupt::CheckIfDue] takes it off the list and calls its handler. *)
Definition fire (k : Console) (i : ConsoleInt) : result Console :=
  match i with
  | ConsoleReadInt =>
      let c := consoleInput k in
      if cin_scheduled c then
        ConsoleInput_CallBack
          (set_in k (in_lock k) (in_waitFor k) (mkCin (readFileNo c) (incoming c) false))
      else Ret k
  | ConsoleWriteInt =>
      let c := consoleOutput k in
      if cout_scheduled c then
        Ret (ConsoleOutput_CallBack
          (set_out k (out_lock k) (out_waitFor k) (mkCout (writeFileNo c) (putBusy c) false)))
      else Ret k
  end.

Fixpoint fire_all (k : Console) (l : list ConsoleInt) : result Console :=
  match l with
  | [] => Ret k
  | i :: l => let* k := fire k i in fire_all k l
  end.

(** [Interrupt::OneTick], when interrupts are enabled. *)
Definition OneTick (k : Console) : result Console :=
  match clock k with
  | [] => Ret k
  | due :: rest => fire_all (set_clock k rest) due
  end.

(** [Interrupt::Idle]: the clock goes on to the next pending interrupt.  It may be one of
    the timer, which is always pending; where [clock] ends, it is that of the console
    interrupts. *)
Definition Idle (k : Console) : result Console :=
  match clock k with
  | [] => fire_all k [ConsoleReadInt; ConsoleWriteInt]
  | due :: rest => fire_all (set_clock k rest) due
  end.

(** ** The devices' own operations *)

Definition ConsoleInput_GetChar (c : ConsoleInput) : ConsoleInput * Z :=
  let ch := incoming c in
  (mkCin (readFileNo c) EOF (if negb (incoming c =? EOF) then true else cin_scheduled c), ch).

Definition ConsoleOutput_PutChar (h : H) (c : ConsoleOutput) (ch : Z) : result (H * ConsoleOutput) :=
  assert* negb (putBusy c) in
  let* h := WriteFile h (writeFileNo c) [byte.of_Z ch] in
  Ret (h, mkCout (writeFileNo c) true true).

(** ** The synchronous interface *)

(** [waitFor->P()] by the only thread: while the count is zero it sleeps, and the
    machine idles, at most [polls] times; interrupts are enabled at the end. *)
Fixpoint wait_in (polls : nat) (k : Console) : result Console :=
  if in_waitFor k >? 0 then OneTick (set_in k (in_lock k) (in_waitFor k - 1) (consoleInput k)) else
  match polls with
  | O => NoFuel
  | S polls => let* k := Idle k in wait_in polls k
  end.

Fixpoint wait_out (polls : nat) (k : Console) : result Console :=
  if out_waitFor k >? 0 then OneTick (set_out k (out_lock k) (out_waitFor k - 1) (consoleOutput k)) else
  match polls with
  | O => NoFuel
  | S polls => let* k := Idle k in wait_out polls k
  end.

(** [lock->Acquire()], [waitFor->P()], the device, [lock->Release()]; the only thread would
    wait for ever for a lock it holds. *)
Definition GetChar (polls : nat) (k : Console) : result (Console * Z) :=
  if in_lock k then NoFuel else
  let* k := OneTick (set_in k true (in_waitFor k) (consoleInput k)) in
  let* k := wait_in polls k in
  let (c, ch) := ConsoleInput_GetChar (consoleInput k) in
  let k := set_in k (in_lock k) (in_waitFor k) c in
  assert* in_lock k in
  let* k := OneTick (set_in k false (in_waitFor k) (consoleInput k)) in
  Ret (k, ch).

Definition PutChar (polls : nat) (k : Console) (ch : Z) : result Console :=
  if out_lock k then NoFuel else
  let* k := OneTick (set_out k true (out_waitFor k) (consoleOutput k)) in
  let* (h, c) := ConsoleOutput_PutChar (host k) (consoleOutput k) ch in
  let k := set_out (set_host k h) (out_lock k) (out_waitFor k) c in
  let* k := wait_out polls k in
  assert* out_lock k in
  OneTick (set_out k false (out_waitFor k) (consoleOutput k)).
End console.
Arguments Console : clear implicits.

(** ** Character devices of the host

    [in_stream h fd]: the characters still to come on [fd]; they become readable
    after [delay h fd] polls that find nothing.  [out_stream h fd]: what has been
    written to [fd]. *)
Class CharDevices (H : Type) `{HostOS H} : Type := {
  in_stream : H -> Z -> option (list byte);
  out_stream : H -> Z -> option (list byte);
  delay : H -> Z -> nat;
  max_delay : nat;
  delay_law h fd : (delay h fd <= max_delay)%nat;
  select_law h fd l : in_stream h fd = Some l ->
    exists h', os_select h fd = (h', match delay h fd with O => 1 | S _ => 0 end) /\
      in_stream h' fd = Some l /\ delay h' fd = pred (delay h fd) /\
      forall fd', fd' <> fd -> out_stream h' fd' = out_stream h fd';
  sread_law h fd l : in_stream h fd = Some l -> delay h fd = O ->
    exists h', os_read h fd 1 = (h', match l with [] => (0, []) | b :: _ => (1, [b]) end) /\
      in_stream h' fd = Some (tail l) /\
      forall fd', fd' <> fd -> out_stream h' fd' = out_stream h fd';
  swrite_law h fd l bs : out_stream h fd = Some l ->
    exists h', os_write h fd bs = (h', Z.of_nat (length bs)) /\
      out_stream h' fd = Some (l ++ bs) /\
      forall fd', fd' <> fd -> in_stream h' fd' = in_stream h fd'
}.

Section streams.
Context {H : Type} `{CharDevices H}.
Implicit Types (k : Console H).

(** The characters before the first one that reads as [EOF], which stops the keyboard. *)
Fixpoint before_eof (l : list byte) : list byte :=
  match l with
  | [] => []
  | b :: l => if schar b =? EOF then [] else b :: before_eof l
  end.

Definition stream k : list byte := default [] (in_stream (host k) (readFileNo (consoleInput k))).

(** What the keyboard has still to give: a character that has been read ahead, and what
    is still to be typed. *)
Definition input k : list byte :=
  if cin_scheduled (consoleInput k) then before_eof (stream k)
  else if incoming (consoleInput k) =? EOF then []
  else byte.of_Z (incoming (consoleInput k)) :: before_eof (stream k).
Definition output k : list byte := default [] (out_stream (host k) (writeFileNo (consoleOutput k))).

(** The devices at any moment: the keyboard is being polled for the next character, or it
    has one, or it has stopped. *)
Record live k : Prop := {
  lv_polled : cin_scheduled (consoleInput k) = true -> incoming (consoleInput k) = EOF /\ in_waitFor k = 0;
  lv_read : cin_scheduled (consoleInput k) = false ->
    0 <= in_waitFor k <= 1 /\ exists b, incoming (consoleInput k) = schar b;
  lv_in : is_Some (in_stream (host k) (readFileNo (consoleInput k)));
  lv_out : is_Some (out_stream (host k) (writeFileNo (consoleOutput k)));
  lv_files : readFileNo (consoleInput k) <> writeFileNo (consoleOutput k)
}.

(** Nobody inside the console: nothing is being displayed, and a character that has been
    read ahead has been signalled. *)
Record quiet k : Prop := {
  q_live : live k;
  q_in_lock : in_lock k = false;
  q_signalled : cin_scheduled (consoleInput k) = false -> incoming (consoleInput k) <> EOF -> in_waitFor k = 1;
  q_out_lock : out_lock k = false;
  q_out_sem : out_waitFor k = 0;
  q_busy : putBusy (consoleOutput k) = false;
  q_sent : cout_scheduled (consoleOutput k) = false
}.

Definition keyboard k : bool * Z * Z := (cin_scheduled (consoleInput k), incoming (consoleInput k), in_waitFor k).
Definition display k : bool * bool * Z := (cout_scheduled (consoleOutput k), putBusy (consoleOutput k), out_waitFor k).
Definition delay_of k : nat := delay (host k) (readFileNo (consoleInput k)).

(** What interrupts can do in the background: end the polling, and complete an output. *)
Record background k k' : Prop := {
  bg_live : live k';
  bg_locks : in_lock k' = in_lock k /\ out_lock k' = out_lock k;
  bg_files : readFileNo (consoleInput k') = readFileNo (consoleInput k) /\
    writeFileNo (consoleOutput k') = writeFileNo (consoleOutput k);
  bg_input : input k' = input k;
  bg_output : output k' = output k;
  bg_keyboard : keyboard k' = keyboard k \/
    (cin_scheduled (consoleInput k) = true /\ cin_scheduled (consoleInput k') = false /\ in_waitFor k' = 1);
  bg_display : display k' = display k \/
    (cout_scheduled (consoleOutput k) = true /\ display k' = (false, false, out_waitFor k + 1));
  bg_clock : (length (clock k') <= length (clock k))%nat;
  bg_delay : cin_scheduled (consoleInput k') = true -> (delay_of k' <= delay_of k)%nat
}.

Lemma background_refl k : live k -> background k k.
Proof. intros. by split; auto. Qed.

Lemma background_trans k1 k2 k3 : background k1 k2 -> background k2 k3 -> background k1 k3.
Proof.
  intros [_ [? ?] [? ?] ? ? B6 B7 ? B9] [? [? ?] [? ?] ? ? C6 C7 ? C9]. unfold keyboard, display in *.
  split; [done|split; congruence|split; congruence|congruence|congruence|..|lia|].
  - unfold keyboard. destruct B6 as [?|(? & ? & ?)], C6 as [?|(? & ? & ?)]; [left; congruence|right; split_and!; congruence..].
  - unfold display. destruct B7 as [?|(? & ?)], C7 as [?|(? & ?)]; [left; congruence|right; split; congruence..].
  - intros Hs. specialize (C9 Hs). destruct C6 as [E|(_ & ? & _)]; [|congruence].
    injection E as E1 _ _. specialize (B9 ltac:(congruence)). lia.
Qed.

Lemma background_clock k l : live k -> (length l <= length (clock k))%nat -> background k (set_clock k l).
Proof. intros [] ?. by split; auto; split. Qed.

(** ** Interrupts *)

(** The poll of the keyboard. *)
Lemma fire_read k : live k -> exists k', fire k ConsoleReadInt = Ret k' /\ background k k' /\
  display k' = display k /\ clock k' = clock k /\
  (cin_scheduled (consoleInput k) = true ->
    cin_scheduled (consoleInput k') = false \/ (delay_of k' < delay_of k)%nat).
Proof.
  intros L. simpl. destruct (cin_scheduled (consoleInput k)) eqn:Hc.
  2: { exists k. split; [done|]. by split; [apply background_refl|]. }
  pose proof L as [Hp _ [l Hin] [o Hout] Hne]. destruct (Hp Hc) as [Hi Hw].
  unfold ConsoleInput_CallBack, PollFile. cbn. rewrite Hi. cbn.
  assert (Hinput : input k = before_eof l) by (unfold input, stream; by rewrite Hc, Hin).
  destruct (select_law _ _ _ Hin) as (h1 & -> & Hin1 & Hd1 & Ho1).
  destruct (delay (host k) (readFileNo (consoleInput k))) as [|d] eqn:Hdel; cbn.
  - destruct (sread_law _ _ _ Hin1 Hd1) as (h2 & E2 & Hin2 & Ho2). unfold ReadPartial. rewrite E2. cbn.
    assert (Hout2 : out_stream h2 (writeFileNo (consoleOutput k)) = Some o) by (rewrite Ho2, Ho1; done || congruence).
    destruct l as [|b l]; cbn; (eexists; split; [reflexivity|]).
    + cbn in Hin2. split; [|split; [done|split; [done|by left]]]. split; cbn; try done.
      * split; cbn; [done| |by rewrite Hin2|by rewrite Hout2|done].
        intros _. rewrite Hw. split; [lia|]. by exists (byte.of_Z 255).
      * unfold output. cbn. by rewrite Hout2, Hout.
      * right. split_and!; [done|done|lia].
      * by left.
    + cbn in Hin2. split; [|split; [done|split; [done|by left]]]. split; cbn; try done.
      * split; cbn; [done| |by rewrite Hin2|by rewrite Hout2|done]. intros _. rewrite Hw. split; [lia|by exists b].
      * rewrite Hinput. unfold input, stream. cbn. rewrite Hin2. cbn. case_if; [done|by rewrite of_schar].
      * unfold output. cbn. by rewrite Hout2, Hout.
      * right. split_and!; [done|done|lia].
      * by left.
  - cbn in Hd1. eexists. split; [reflexivity|]. unfold delay_of. cbn. rewrite Hd1, Hdel.
    split; [|split; [done|split; [done|right; lia]]].
    split; cbn; try done.
    + split; cbn; [done|done|by rewrite Hin1| |done]. rewrite Ho1 by congruence. by eexists.
    + rewrite Hinput. unfold stream. cbn. by rewrite Hin1.
    + unfold output. cbn. by rewrite Ho1 by congruence.
    + left. unfold keyboard. cbn. by rewrite Hc, Hi.
    + by left.
    + unfold delay_of. cbn. rewrite Hd1, Hdel. lia.
Qed.

(** The end of an output. *)
Lemma fire_write k : live k -> exists k', fire k ConsoleWriteInt = Ret k' /\ background k k' /\
  cout_scheduled (consoleOutput k') = false /\ delay_of k' = delay_of k /\
  cin_scheduled (consoleInput k') = cin_scheduled (consoleInput k).
Proof.
  intros L. simpl. destruct (cout_scheduled (consoleOutput k)) eqn:Hc.
  2: { exists k. split; [done|]. by split; [apply background_refl|]. }
  eexists. split; [reflexivity|]. split; [|done]. destruct L as [? ? ? ? ?].
  split; cbn; try done; [by left|by right].
Qed.

Lemma fire_all_background l : forall k, live k -> exists k', fire_all k l = Ret k' /\ background k k'.
Proof.
  induction l as [|i l IH]; intros k L; [by exists k; split; [|apply background_refl]|]. simpl.
  assert (Hi : exists k1, fire k i = Ret k1 /\ background k k1).
  { destruct i; [destruct (fire_read k L) as (k1 & ? & ? & _)|destruct (fire_write k L) as (k1 & ? & ? & _)]; by exists k1. }
  destruct Hi as (k1 & -> & B1). destruct (IH k1 (bg_live _ _ B1)) as (k2 & E2 & B2). exists k2. rewrite rbind_Ret, E2.
  split; [done|]. by eapply background_trans.
Qed.

Lemma OneTick_background k : live k -> exists k', OneTick k = Ret k' /\ background k k'.
Proof.
  intros L. unfold OneTick. destruct (clock k) as [|due rest] eqn:Hk.
  { exists k. split; [done|by apply background_refl]. }
  assert (B0 : background k (set_clock k rest)) by (apply background_clock; [done|rewrite Hk; simpl; lia]).
  destruct (fire_all_background due _ (bg_live _ _ B0)) as (k' & E & B). exists k'. split; [done|].
  by eapply background_trans.
Qed.

(** Idling brings the interrupt that is waited for nearer. *)
Lemma Idle_background k : live k -> exists k', Idle k = Ret k' /\ background k k' /\
  ((length (clock k') < length (clock k))%nat \/
   (cout_scheduled (consoleOutput k') = false /\
    (cin_scheduled (consoleInput k) = true ->
      cin_scheduled (consoleInput k') = false \/ (delay_of k' < delay_of k)%nat))).
Proof.
  intros L. unfold Idle. destruct (clock k) as [|due rest] eqn:Hk.
  - cbn [fire_all]. destruct (fire_read k L) as (k1 & -> & B1 & _ & _ & Hr). rewrite rbind_Ret.
    destruct (fire_write k1 (bg_live _ _ B1)) as (k2 & -> & B2 & Hs & Hd & Hc). rewrite rbind_Ret.
    exists k2. split; [done|]. split; [by eapply background_trans|]. right. split; [done|]. by rewrite Hc, Hd.
  - assert (B0 : background k (set_clock k rest)) by (apply background_clock; [done|rewrite Hk; simpl; lia]).
    destruct (fire_all_background due _ (bg_live _ _ B0)) as (k' & E & B). exists k'. split; [done|].
    split; [by eapply background_trans|]. left. pose proof (bg_clock _ _ B). simpl in *. lia.
Qed.

(** ** Waiting *)

(** The keyboard has signalled, or will. *)
Definition attended k : Prop := cin_scheduled (consoleInput k) = true \/ in_waitFor k = 1.

Lemma attended_background k k' : background k k' -> attended k -> attended k'.
Proof.
  intros B Hk. destruct (bg_keyboard _ _ B) as [E|(_ & _ & ?)]; [|by right]. injection E as E1 _ E3.
  unfold attended. by rewrite E1, E3.
Qed.

Lemma wait_in_ready n k : live k -> in_waitFor k = 1 ->
  exists k', wait_in n k = Ret k' /\ background (set_in k (in_lock k) 0 (consoleInput k)) k'.
Proof.
  intros L Hone. replace (wait_in n k) with (OneTick (set_in k (in_lock k) 0 (consoleInput k))).
  2: { destruct n; simpl; by rewrite Hone. }
  apply OneTick_background. destruct L as [Hp Hr ? ? ?]. split; try done; intros Hc; cbn in *.
  - by destruct (Hp Hc).
  - destruct (Hr Hc). split; [lia|done].
Qed.

(** For the next character, or the end of the input. *)
Lemma wait_in_spec n : forall k, live k -> attended k ->
  (length (clock k) + delay_of k < n)%nat ->
  exists k1 k', wait_in n k = Ret k' /\ background k k1 /\ in_waitFor k1 = 1 /\
    background (set_in k1 (in_lock k1) 0 (consoleInput k1)) k'.
Proof.
  induction n as [|n IH]; intros k L Hw Hn; [lia|].
  destruct (decide (in_waitFor k = 1)) as [Hone|Hone].
  { destruct (wait_in_ready (S n) k L Hone) as (k' & ? & ?). exists k, k'. by split; [|split; [apply background_refl|]]. }
  destruct Hw as [Hc|]; [|done]. destruct (lv_polled k L Hc) as [_ Hz]. simpl. rewrite Hz. cbn.
  destruct (Idle_background k L) as (k1 & -> & B1 & Hprog). rewrite rbind_Ret. pose proof (bg_live _ _ B1) as L1.
  destruct (bg_keyboard _ _ B1) as [E|(_ & _ & Hone1)].
  - injection E as E _ _. rewrite Hc in E. pose proof (bg_clock _ _ B1). pose proof (bg_delay _ _ B1 E).
    destruct (IH k1 L1 (or_introl E)) as (k2 & k' & ? & ? & ? & ?).
    { destruct Hprog as [|[_ Hd]]; [lia|]. destruct (Hd Hc); [congruence|lia]. }
    exists k2, k'. split; [done|]. split; [by eapply background_trans|done].
  - destruct (wait_in_ready n k1 L1 Hone1) as (k' & ? & ?). by exists k1, k'.
Qed.

Lemma wait_out_ready n k : live k -> out_waitFor k = 1 ->
  exists k', wait_out n k = Ret k' /\ background (set_out k (out_lock k) 0 (consoleOutput k)) k'.
Proof.
  intros L Hone. replace (wait_out n k) with (OneTick (set_out k (out_lock k) 0 (consoleOutput k))).
  2: { destruct n; simpl; by rewrite Hone. }
  apply OneTick_background. by destruct L.
Qed.

(** For the end of an output. *)
Lemma wait_out_spec n : forall k, live k ->
  cout_scheduled (consoleOutput k) = true /\ out_waitFor k = 0 -> (length (clock k) < n)%nat ->
  exists k1 k', wait_out n k = Ret k' /\ background k k1 /\ display k1 = (false, false, 1) /\
    background (set_out k1 (out_lock k1) 0 (consoleOutput k1)) k'.
Proof.
  induction n as [|n IH]; intros k L [Hs Hz] Hn; [lia|]. simpl. rewrite Hz. cbn.
  destruct (Idle_background k L) as (k1 & -> & B1 & Hprog). rewrite rbind_Ret. pose proof (bg_live _ _ B1) as L1.
  destruct (bg_display _ _ B1) as [E|[_ E]].
  - injection E as E1 E2 E3. destruct Hprog as [Hlt|[Hf _]]; [|congruence].
    destruct (IH k1 L1) as (k2 & k' & ? & ? & ? & ?); [split; congruence|lia|].
    exists k2, k'. split; [done|]. split; [by eapply background_trans|done].
  - rewrite Hz in E. injection E as E1 E2 E3.
    destruct (wait_out_ready n k1 L1 E3) as (k' & ? & ?). exists k1, k'. split; [done|]. split; [done|].
    split; [|done]. unfold display. by rewrite E1, E2, E3.
Qed.

(** ** The synchronous operations *)

Definition signalled k : Prop :=
  cin_scheduled (consoleInput k) = false -> incoming (consoleInput k) <> EOF -> in_waitFor k = 1.

Lemma signalled_background k k' : background k k' -> signalled k -> signalled k'.
Proof.
  intros B Hs Hc Hi. destruct (bg_keyboard _ _ B) as [E|(_ & _ & ?)]; [|done]. injection E as E1 E2 E3.
  rewrite E3. apply Hs; congruence.
Qed.

Lemma display_background k k' : background k k' -> cout_scheduled (consoleOutput k) = false -> display k' = display k.
Proof. intros B Hc. destruct (bg_display _ _ B) as [|[? _]]; [done|congruence]. Qed.

(** What interrupts do while nobody is inside the console. *)
Lemma quiet_background k k' : background k k' -> quiet k -> quiet k'.
Proof.
  intros B [L Hl Hs Hol Hos Hb Hc]. pose proof (display_background _ _ B Hc) as E. injection E as E1 E2 E3.
  destruct (bg_locks _ _ B) as [? ?]. split; try congruence; [apply (bg_live _ _ B)|].
  by apply (signalled_background k k' B).
Qed.

Lemma input_ready k b l : quiet k -> input k = b :: l -> attended k.
Proof.
  intros Q. unfold input, attended. destruct (cin_scheduled (consoleInput k)) eqn:Hc; [by left|].
  destruct (Z.eqb_spec (incoming (consoleInput k)) EOF) as [He|He]; [done|]. intros _. right. by apply (q_signalled k Q Hc).
Qed.

Lemma GetChar_result n k : quiet k -> attended k ->
  (length (clock k) + max_delay < n)%nat ->
  exists k' c, GetChar n k = Ret (k', c) /\ quiet k' /\ output k' = output k /\
    (length (clock k') <= length (clock k))%nat /\
    match input k with
    | [] => c = EOF /\ input k' = [] /\ cin_scheduled (consoleInput k') = false /\ in_waitFor k' = 0
    | b :: l => c = schar b /\ c <> EOF /\ input k' = l /\ attended k'
    end.
Proof.
  intros [L Hl Hs Hol Hos Hb Hc] Hready Hn. unfold GetChar. rewrite Hl.
  destruct (OneTick_background (set_in k true (in_waitFor k) (consoleInput k))) as (k2 & -> & B2); [by destruct L|].
  rewrite rbind_Ret. destruct (wait_in_spec n k2) as (k3 & k4 & -> & B3 & Hw3 & B4).
  { apply (bg_live _ _ B2). }
  { by apply (attended_background _ _ B2). }
  { pose proof (bg_clock _ _ B2). pose proof (delay_law (host k2) (readFileNo (consoleInput k2))). unfold delay_of. cbn in *. lia. }
  rewrite rbind_Ret. pose proof (bg_live _ _ B3) as L3. pose proof (bg_live _ _ B4) as L4.
  assert (Hs3 : cin_scheduled (consoleInput k3) = false).
  { destruct (cin_scheduled (consoleInput k3)) eqn:E; [|done]. destruct (lv_polled k3 L3 E). lia. }
  assert (E4 : keyboard k4 = (false, incoming (consoleInput k3), 0)).
  { destruct (bg_keyboard _ _ B4) as [->|(E & _)]; [unfold keyboard; cbn; by rewrite Hs3|cbn in E; congruence]. }
  injection E4 as Es4 Ei4 Ew4.
  assert (Hin4 : input k = input k4).
  { rewrite (bg_input _ _ B4). change (input k = input k3). by rewrite (bg_input _ _ B3), (bg_input _ _ B2). }
  assert (Hout4 : output k4 = output k).
  { rewrite (bg_output _ _ B4). change (output k3 = output k). by rewrite (bg_output _ _ B3), (bg_output _ _ B2). }
  assert (Hd4 : display k4 = display k).
  { assert (E2 : display k2 = display k) by (by apply (display_background _ _ B2)).
    assert (E3 : display k3 = display k2) by (apply (display_background _ _ B3); injection E2; congruence).
    rewrite (display_background _ _ B4); [change (display k3 = display k)|change (cout_scheduled (consoleOutput k3) = false)];
      [congruence|rewrite E2 in E3; injection E3; congruence]. }
  assert (Hl4 : in_lock k4 = true /\ out_lock k4 = false).
  { destruct (bg_locks _ _ B4) as [-> ->]. cbn. destruct (bg_locks _ _ B3) as [-> ->]. by destruct (bg_locks _ _ B2) as [-> ->]. }
  assert (Hk4 : (length (clock k4) <= length (clock k))%nat).
  { pose proof (bg_clock _ _ B2). pose proof (bg_clock _ _ B3). pose proof (bg_clock _ _ B4). cbn in *. lia. }
  clear k2 B2 k3 B3 Hw3 B4 L3 Hs3 Ei4. unfold ConsoleInput_GetChar. cbn. destruct Hl4 as [-> Hl4]. cbn.
  set (c := mkCin _ _ _). set (k5 := set_in (set_in k4 true (in_waitFor k4) c) false (in_waitFor k4) c).
  assert (Q5 : quiet k5 /\ match input k with
    | [] => incoming (consoleInput k4) = EOF /\ input k5 = [] /\ cin_scheduled (consoleInput k5) = false
    | b :: l => incoming (consoleInput k4) = schar b /\ incoming (consoleInput k4) <> EOF /\ input k5 = l /\ attended k5 end).
  { injection Hd4 as E1 E2 E3. destruct (lv_read k4 L4 Es4) as [_ [b Hb4]].
    destruct L4 as [_ _ ? ? ?]. rewrite Hin4. unfold input at 1. rewrite Es4.
    destruct (Z.eqb_spec (incoming (consoleInput k4)) EOF) as [He|He].
    - assert (Ec : c = mkCin (readFileNo (consoleInput k4)) EOF false) by (unfold c; rewrite ?He; cbn; by rewrite ?Es4).
      assert (Q : quiet k5).
      { unfold k5. rewrite Ec. split; [split|..]; cbn; try done; try congruence.
        intros _. split; [lia|]. by exists (byte.of_Z 255). }
      split; [done|]. unfold k5. rewrite Ec. by split_and!.
    - assert (Ec : c = mkCin (readFileNo (consoleInput k4)) EOF true) by done.
      assert (Q : quiet k5) by (unfold k5; rewrite Ec; split; [split|..]; cbn; try done; congruence).
      split; [done|]. split; [by rewrite Hb4, of_schar|]. split; [done|]. unfold k5. rewrite Ec. split; [done|by left]. }
  destruct Q5 as [Q5 Hcase]. destruct (OneTick_background k5 (q_live k5 Q5)) as (k6 & E6 & B6).
  exists k6, (incoming (consoleInput k4)). fold k5. rewrite E6, rbind_Ret. split; [done|].
  split; [by apply (quiet_background k5)|]. split; [by rewrite (bg_output _ _ B6)|].
  split; [pose proof (bg_clock _ _ B6); cbn in *; lia|]. rewrite (bg_input _ _ B6). destruct (input k).
  2: { destruct Hcase as (? & ? & ? & ?). do 3 (split; [done|]). by apply (attended_background k5). }
  destruct Hcase as (? & ? & Hf). split; [done|]. split; [done|].
  destruct (bg_keyboard _ _ B6) as [E|(E & _)]; [|congruence]. injection E as -> _ ->. split; [done|]. done.
Qed.

Lemma PutChar_result n k c : quiet k -> (length (clock k) < n)%nat ->
  exists k', PutChar n k c = Ret k' /\ quiet k' /\ input k' = input k /\
    output k' = output k ++ [byte.of_Z c] /\ (length (clock k') <= length (clock k))%nat /\
    (attended k -> attended k').
Proof.
  intros [L Hl Hs Hol Hos Hb Hc] Hn. unfold PutChar. rewrite Hol.
  destruct (OneTick_background (set_out k true (out_waitFor k) (consoleOutput k))) as (k2 & -> & B2); [by destruct L|].
  rewrite rbind_Ret. pose proof (display_background _ _ B2 Hc) as E2. injection E2 as E21 E22 E23. cbn in E21, E22, E23.
  unfold ConsoleOutput_PutChar, WriteFile. rewrite E22, Hb. cbn.
  pose proof (bg_live _ _ B2) as L2. destruct (lv_out k2 L2) as [o Ho].
  destruct (swrite_law _ _ _ [byte.of_Z c] Ho) as (h' & -> & Ho' & Hin'). cbn.
  change (Z.of_nat 1 =? Z.of_nat 1) with true. cbn.
  set (k3 := set_out (set_host k2 h') (out_lock k2) (out_waitFor k2) (mkCout (writeFileNo (consoleOutput k2)) true true)).
  assert (L3 : live k3).
  { destruct L2 as [? ? [l Hin] ? ?]. split; cbn; [done|done|by rewrite Hin', Hin|by rewrite Ho'|done]. }
  assert (I3 : input k3 = input k).
  { etrans; [|exact (bg_input _ _ B2)]. unfold input, stream. cbn. by rewrite Hin' by apply L2. }
  assert (O3 : output k3 = output k ++ [byte.of_Z c]).
  { change (output k) with (output (set_out k true (out_waitFor k) (consoleOutput k))). rewrite <- (bg_output _ _ B2).
    unfold output. cbn. by rewrite Ho', Ho. }
  assert (S3 : signalled k3) by exact (signalled_background _ _ B2 Hs).
  destruct (wait_out_spec n k3) as (k4 & k5 & -> & B4 & D4 & B5); [done|split; [done|cbn; congruence]| |].
  { pose proof (bg_clock _ _ B2). cbn in *. lia. }
  rewrite rbind_Ret. injection D4 as D41 D42 D43. pose proof (display_background _ _ B5 D41) as D5.
  injection D5 as D51 D52 D53. cbn in D51, D52, D53.
  destruct (bg_locks _ _ B2) as [Hl2 Hol2], (bg_locks _ _ B4) as [Hl4 Hol4], (bg_locks _ _ B5) as [Hl5 Hol5]. cbn in *.
  rewrite Hol5, Hol4, Hol2. cbn. set (k6 := set_out k5 false (out_waitFor k5) (consoleOutput k5)).
  assert (Q6 : quiet k6).
  { split; cbn; try congruence; [by destruct (bg_live _ _ B5)|].
    apply (signalled_background _ _ B5), (signalled_background _ _ B4), S3. }
  destruct (OneTick_background k6 (q_live k6 Q6)) as (k7 & -> & B7). exists k7. split; [done|].
  split; [by apply (quiet_background k6)|]. rewrite (bg_input _ _ B7), (bg_output _ _ B7).
  change (input k6) with (input k5). change (output k6) with (output k5). rewrite (bg_input _ _ B5), (bg_output _ _ B5).
  change (input (set_out _ _ _ _)) with (input k4). change (output (set_out _ _ _ _)) with (output k4).
  rewrite (bg_input _ _ B4), (bg_output _ _ B4). split; [done|]. split; [done|].
  pose proof (bg_clock _ _ B2). pose proof (bg_clock _ _ B4). pose proof (bg_clock _ _ B5). pose proof (bg_clock _ _ B7).
  cbn in *. split; [lia|]. intros Ha.
  apply (attended_background _ _ B7), (attended_background _ _ B5), (attended_background _ _ B4), (attended_background _ _ B2), Ha.
Qed.

(** Enough idling: every entry of the clock, every poll that finds nothing, and one more. *)
Definition enough k : nat := S (length (clock k) + max_delay).

#[export] Program Instance Console_terminal : Terminal (Console H) := {
  t_wf := quiet;
  t_in := input;
  t_out := output;
  getChar k := GetChar (enough k) k;
  putChar k := PutChar (enough k) k
}.
Next Obligation.
  intros k b l Q Hin Hne. destruct (GetChar_result (enough k) k Q) as (k' & c & HG & Q' & Ho & _ & Hcase).
  { by eapply input_ready. }
  { unfold enough. lia. }
  rewrite Hin in Hcase. destruct Hcase as (-> & _ & ? & _). by exists k'.
Qed.
Next Obligation.
  intros k c Q. destruct (PutChar_result (enough k) k c Q) as (k' & ? & ? & ? & ? & _); [unfold enough; lia|]. by exists k'.
Qed.

(** ** Sessions *)

(** What a program does with the console; [Pass] is anything else, for which time passes. *)
Inductive op : Type := Get | Put (c : Z) | Pass.

Fixpoint session (polls : nat) (ops : list op) (k : Console H) : result (Console H * list Z) :=
  match ops with
  | [] => Ret (k, [])
  | Get :: ops =>
      let* (k, c) := GetChar polls k in
      let* (k, cs) := session polls ops k in
      Ret (k, c :: cs)
  | Put c :: ops => let* k := PutChar polls k c in session polls ops k
  | Pass :: ops => let* k := OneTick k in session polls ops k
  end.

(** The number of characters asked for, and the characters written. *)
Fixpoint gets (ops : list op) : nat :=
  match ops with
  | [] => 0
  | Get :: ops => S (gets ops)
  | _ :: ops => gets ops
  end.
Definition puts (ops : list op) : list byte :=
  omap (fun o => match o with Put c => Some (byte.of_Z c) | _ => None end) ops.

(** Without polling, nothing signals the keyboard any more. *)
Lemma wait_in_never n : forall k, live k -> cin_scheduled (consoleInput k) = false -> in_waitFor k = 0 ->
  wait_in n k = NoFuel.
Proof.
  induction n as [|n IH]; intros k L Hs Hz; simpl; rewrite Hz; [done|]. cbn.
  destruct (Idle_background k L) as (k1 & -> & B1 & _). rewrite rbind_Ret.
  destruct (bg_keyboard _ _ B1) as [E|(E & _)]; [|congruence]. injection E as E1 _ E3.
  apply IH; [apply (bg_live _ _ B1)|congruence..].
Qed.

End streams.

(** ** Sequences of characters, on any terminal *)

Section sequences.
Context {T : Type} `{Terminal T}.
Implicit Types (t : T).

(** The next [n] characters typed. *)
Fixpoint getChars (n : nat) t : result (T * list Z) :=
  match n with
  | O => Ret (t, [])
  | S n =>
      let* (t, c) := getChar t in
      let* (t, cs) := getChars n t in
      Ret (t, c :: cs)
  end.

Fixpoint putChars (cs : list Z) t : result T :=
  match cs with
  | [] => Ret t
  | c :: cs => let* t := putChar t c in putChars cs t
  end.

Definition typable (l : list byte) : Prop := Forall (fun b => schar b <> EOF) l.

Lemma getChars_spec l r t : t_wf t -> t_in t = l ++ r -> typable l ->
  exists t', getChars (length l) t = Ret (t', schar <$> l) /\ t_wf t' /\
    t_in t' = r /\ t_out t' = t_out t.
Proof.
  revert t. induction l as [|b l IH]; intros t Hwf Hin Hty; [by exists t|].
  apply Forall_cons in Hty as [Hb Hty].
  destruct (getChar_spec t b (l ++ r) Hwf Hin Hb) as (t1 & Hg & Hwf1 & Hin1 & Ho1).
  destruct (IH t1 Hwf1 Hin1 Hty) as (t2 & Hgs & Hwf2 & Hin2 & Ho2).
  exists t2. simpl. rewrite Hg. simpl. rewrite Hgs. simpl. by rewrite Ho2.
Qed.

Lemma putChars_spec cs t : t_wf t ->
  exists t', putChars cs t = Ret t' /\ t_wf t' /\ t_in t' = t_in t /\
    t_out t' = t_out t ++ (byte.of_Z <$> cs).
Proof.
  revert t. induction cs as [|c cs IH]; intros t Hwf.
  { exists t. by rewrite app_nil_r. }
  destruct (putChar_spec t c Hwf) as (t1 & Hp & Hwf1 & Hin1 & Ho1).
  destruct (IH t1 Hwf1) as (t2 & Hps & Hwf2 & Hin2 & Ho2).
  exists t2. simpl. rewrite Hp. simpl. rewrite Hps, Hin2, Ho2, Ho1, <- app_assoc. done.
Qed.
End sequences.

(** ** Claims *)

(** C37: the console delivers what is typed and displays what is written, whatever the
    order of [GetChar], [PutChar] and other work, and whenever interrupts fire: the
    keyboard poll may come at any tick, while [PutChar] waits too, and read a character
    ahead, and polls may take long (up to the host's bound).  The calls of [GetChar]
    return the characters typed, in order and each once; the characters given to
    [PutChar] are displayed, in order and each once; what is still to be typed, a
    character read ahead included, is left for later; and every call returns, with the
    locks free again.  [input] ends before the first byte that reads as [EOF]. *)
Theorem console_delivers {H} `{CharDevices H} n (k : Console H) ops l r :
  quiet k -> input k = l ++ r -> length l = gets ops ->
  (length (clock k) + max_delay < n)%nat ->
  exists k', session n ops k = Ret (k', schar <$> l) /\ quiet k' /\ input k' = r /\
    output k' = output k ++ puts ops.
Proof.
  revert k l. induction ops as [|o ops IH]; intros k l Q Hin Hl Hn.
  { destruct l; [|done]. exists k. by rewrite app_nil_r. }
  destruct o as [|c|]; cbn [session].
  - destruct l as [|b l]; [done|]. cbn in Hin, Hl. injection Hl as Hl.
    destruct (GetChar_result n k Q) as (k1 & c & -> & Q1 & Ho & Hk & Hcase); [by eapply input_ready|done|].
    rewrite Hin in Hcase. destruct Hcase as (-> & _ & Hin1 & _). rewrite rbind_Ret.
    destruct (IH k1 l Q1 Hin1 Hl) as (k' & -> & ? & ? & Ho'); [lia|]. rewrite rbind_Ret. exists k'. by rewrite Ho', Ho.
  - destruct (PutChar_result n k c Q) as (k1 & -> & Q1 & Hin1 & Ho & Hk & _); [lia|]. rewrite rbind_Ret.
    destruct (IH k1 l Q1) as (k' & -> & ? & ? & Ho'); [congruence|done|lia|]. exists k'.
    split; [done|]. do 2 (split; [done|]). by rewrite Ho', Ho, <- app_assoc.
  - destruct (OneTick_background k (q_live k Q)) as (k1 & -> & B). rewrite rbind_Ret.
    destruct (IH k1 l) as (k' & -> & ? & ? & Ho').
    + by apply (quiet_background k).
    + by rewrite (bg_input _ _ B).
    + done.
    + pose proof (bg_clock _ _ B). lia.
    + exists k'. by rewrite Ho', (bg_output _ _ B).
Qed.

(** The end of the input stops the keyboard for good.  At the end of the input, or at a
    typed byte 255, whose [char] value is [EOF], even if more input follows, [GetChar]
    returns [EOF] once; the next call waits for ever, since no further poll is scheduled. *)
Theorem console_stops {H} `{CharDevices H} n (k : Console H) :
  quiet k -> attended k -> input k = [] ->
  (length (clock k) + max_delay < n)%nat ->
  exists k', GetChar n k = Ret (k', EOF) /\ input k' = [] /\ forall polls, GetChar polls k' = NoFuel.
Proof.
  intros Q Hs He Hn. destruct (GetChar_result n k Q Hs Hn) as (k' & c & -> & Q' & _ & _ & Hcase).
  rewrite He in Hcase. destruct Hcase as (-> & Hi & Hf & Hw). exists k'. do 2 (split; [done|]). intros polls.
  unfold GetChar. rewrite (q_in_lock _ Q').
  destruct (OneTick_background (set_in k' true (in_waitFor k') (consoleInput k'))) as (k2 & -> & B);
    [by destruct (q_live _ Q')|]. rewrite rbind_Ret.
  destruct (bg_keyboard _ _ B) as [E|(E & _)]; [|cbn in E; congruence]. injection E as E1 _ E3. cbn in *.
  by rewrite wait_in_never; [..|apply (bg_live _ _ B)|congruence|congruence].
Qed.

(** ** The toy host's files as character devices *)

Definition toy_in (h : ToyHost) (fd : Z) : option (list byte) :=
  match h !! fd with
  | Some (data, pos) => if 0 <=? pos then Some (drop (Z.to_nat pos) data) else None
  | None => None
  end.
Definition toy_out (h : ToyHost) (fd : Z) : option (list byte) :=
  match h !! fd with
  | Some (data, pos) => if pos =? Z.of_nat (length data) then Some data else None
  | None => None
  end.

#[export] Program Instance ToyHost_devices : CharDevices ToyHost := {
  in_stream := toy_in;
  out_stream := toy_out;
  delay h fd := O;
  max_delay := O
}.
Next Obligation. done. Qed.
Next Obligation.
  intros h fd l Hin. unfold toy_in, toy_out in *. simpl in *. unfold ToyHost in *.
  destruct (h !! fd) as [[data pos]|] eqn:E; [|done].
  exists h. rewrite E. by repeat split.
Qed.
Next Obligation.
  intros h fd l Hin _. unfold toy_in, toy_out in *. simpl in *. unfold ToyHost in *. destruct (h !! fd) as [[data pos]|]; [|done].
  destruct (Z.leb_spec 0 pos); [|done]. injection Hin as <-.
  destruct (drop (Z.to_nat pos) data) as [|b r] eqn:E; simpl; (eexists; split; [done|]).
  - rewrite lookup_insert_eq, Z.add_0_r, (proj2 (Z.leb_le 0 pos)), E by lia. split; [done|].
    intros fd' Hne. by rewrite lookup_insert_ne.
  - change (Z.of_nat 1) with 1.
    rewrite lookup_insert_eq, (proj2 (Z.leb_le 0 (pos + 1))) by lia.
    replace (Z.to_nat (pos + 1)) with (Z.to_nat pos + 1)%nat by lia.
    rewrite <- drop_drop, E. split; [done|]. intros fd' Hne. by rewrite lookup_insert_ne.
Qed.
Next Obligation.
  intros h fd l bs Hout. unfold toy_in, toy_out in *. simpl in *. unfold ToyHost in *. destruct (h !! fd) as [[data pos]|]; [|done].
  destruct (Z.eqb_spec pos (Z.of_nat (length data))); [|done]. injection Hout as <-. subst pos.
  eexists. split; [done|]. rewrite lookup_insert_eq, Nat2Z.id. split.
  - rewrite take_ge, drop_ge, app_nil_r, length_app, Nat2Z.inj_add, Z.eqb_refl by lia. done.
  - intros fd' Hne. by rewrite lookup_insert_ne.
Qed.

(** A keyboard with the text [l] and an empty display, and simulated time. *)
Definition timed_console (l : list byte) (time : list (list ConsoleInt)) : Console ToyHost :=
  mkConsole {[ 0 := (l, 0); 1 := ([], 0) ]} false 0 (mkCin 0 EOF true) false 0
    (mkCout 1 false false) 0 0 time.

Definition toy_console (l : list byte) : Console ToyHost := timed_console l [].

Lemma timed_console_quiet l time : quiet (timed_console l time).
Proof. split; try done; split; try done; simpl; by eexists. Qed.

Lemma timed_console_input l time : input (timed_console l time) = before_eof l.
Proof. done. Qed.

Definition hello : list byte := byte.of_Z <$> [104; 105; 10].

(** The keyboard is polled while the first character is being displayed, and reads [h]
    ahead. *)
Definition poll_early : list (list ConsoleInt) := [[]; [ConsoleReadInt]; []; [ConsoleWriteInt]].

Lemma console_delivers_witness :
  exists k', session 5 [Put 33; Get; Pass; Put 34; Get] (timed_console hello poll_early) = Ret (k', [104; 105]) /\
    input k' = [byte.of_Z 10] /\ output k' = [byte.of_Z 33; byte.of_Z 34].
Proof.
  destruct (console_delivers 5 (timed_console hello poll_early) [Put 33; Get; Pass; Put 34; Get]
    [byte.of_Z 104; byte.of_Z 105] [byte.of_Z 10] (timed_console_quiet hello poll_early)) as (k' & Hs & _ & Hin & Ho).
  - reflexivity.
  - reflexivity.
  - simpl. lia.
  - exists k'. split; [exact Hs|]. split; [exact Hin|exact Ho].
Defined.

Lemma console_stops_witness :
  exists k', GetChar 1 (toy_console (byte.of_Z <$> [255; 104])) = Ret (k', EOF) /\
    GetChar 1000 k' = NoFuel.
Proof.
  destruct (console_stops 1 (toy_console (byte.of_Z <$> [255; 104])) (timed_console_quiet _ _)) as (k' & HG & _ & HH).
  - left. reflexivity.
  - reflexivity.
  - simpl. lia.
  - exists k'. split; [exact HG|apply HH].
Defined.
