(* ===== verification/FileHdr.v ===== *)
(** * File headers

    Model of filesys/filehdr.{h,cc}: the header of a file, its 128-byte image on
    disk (32 little-endian [int]s), the allocation of data sectors from a bit map
    of free sectors and their release.  The bit map is used through
    [BitAllocator], the disk through [BlockDevice]. *)

From S2P Require Import Prelude Bitmap Host Disk.

Definition NumDirect : Z := (SectorSize - 2 * 4) / 4.
Definition MaxFileSize : Z := NumDirect * SectorSize.

Record FileHeader : Type := mkHeader {
  numBytes : Z;
  numSectors : Z;
  dataSectors : list Z
}.

#[global] Instance FileHeader_eq_dec : EqDecision FileHeader.
Proof. solve_decision. Defined.

(** The bytes of the object in memory, and back. *)
Definition word_bytes (z : Z) : list byte := le_split 4 (u32 z).
Definition header_bytes (hdr : FileHeader) : list byte :=
  concat (word_bytes <$> (numBytes hdr :: numSectors hdr :: dataSectors hdr)).

(** [n] consecutive [int]s of a memory area. *)
Fixpoint words_of (n : nat) (bs : list byte) : list Z :=
  match n with
  | O => []
  | S n' => s32 (le_combine (take 4 bs)) :: words_of n' (drop 4 bs)
  end.

Definition header_of (bs : list byte) : result FileHeader :=
  match words_of (2 + Z.to_nat NumDirect) bs with
  | nb :: ns :: ds => Ret (mkHeader nb ns ds)
  | _ => Fault
  end.

Section header.
Context {D B : Type} `{BlockDevice D} `{BitAllocator B}.

(** [FileHeader::Allocate]: whether it succeeded, with the header and the map as
    it leaves them. *)
Definition Allocate (hdr : FileHeader) (freeMap : B) (fileSize : Z)
    : result (bool * FileHeader * B) :=
  let hdr := mkHeader fileSize (divRoundUp fileSize SectorSize) (dataSectors hdr) in
  let* clear := al_numclear freeMap in
  if clear <? numSectors hdr then Ret (false, hdr, freeMap) else
  let* (ds, freeMap) := forZ 0 (numSectors hdr) (fun i (st : list Z * B) =>
      let (ds, freeMap) := st in
      let* (sector, freeMap) := al_find freeMap in
      let* ds := zset ds i sector in
      assert* (sector >=? 0) in
      Ret (ds, freeMap)) (dataSectors hdr, freeMap) in
  Ret (true, mkHeader (numBytes hdr) (numSectors hdr) ds, freeMap).

Definition Deallocate (hdr : FileHeader) (freeMap : B) : result B :=
  forZ 0 (numSectors hdr) (fun i freeMap =>
    let* sector := zget (dataSectors hdr) i in
    let* marked := al_test freeMap sector in
    assert* marked in
    al_clear freeMap sector) freeMap.

Definition FetchFrom (dev : D) (sector : Z) : result (D * FileHeader) :=
  let* (dev, bs) := bd_read dev sector in
  let* hdr := header_of bs in
  Ret (dev, hdr).

Definition WriteBack (dev : D) (hdr : FileHeader) (sector : Z) : result D :=
  bd_write dev sector (header_bytes hdr).

Definition ByteToSector (hdr : FileHeader) (offset : Z) : result Z :=
  zget (dataSectors hdr) (Z.quot offset SectorSize).

Definition FileLength (hdr : FileHeader) : Z := numBytes hdr.

(** [FileHeader::Print]: what it prints, the sector numbers and the bytes. *)
Definition Print (dev : D) (hdr : FileHeader) : result (D * (list Z * list (list byte))) :=
  let* secs := forZ 0 (numSectors hdr) (fun i acc =>
      let* s := zget (dataSectors hdr) i in Ret (acc ++ [s])) [] in
  let* (dev, _, out) := forZ 0 (numSectors hdr) (fun i (st : D * Z * list (list byte)) =>
      let '(dev, k, out) := st in
      let* s := zget (dataSectors hdr) i in
      let* (dev, data) := bd_read dev s in
      let n := Z.max 0 (Z.min SectorSize (numBytes hdr - k)) in
      let* line := zslice data 0 n in
      Ret (dev, k + n, out ++ [line])) (dev, 0, []) in
  Ret (dev, (secs, out)).
End header.

(** ** Well-formed headers *)

Record wf_hdr (hdr : FileHeader) : Prop := {
  wfh_len : Z.of_nat (length (dataSectors hdr)) = NumDirect;
  wfh_bytes : 0 <= numBytes hdr;
  wfh_sectors : numSectors hdr = divRoundUp (numBytes hdr) SectorSize;
  wfh_max : numSectors hdr <= NumDirect;
  wfh_range : Forall (fun s => 0 <= s < NumSectors)
                (take (Z.to_nat (numSectors hdr)) (dataSectors hdr));
  wfh_nodup : NoDup (take (Z.to_nat (numSectors hdr)) (dataSectors hdr));
  wfh_s32 : Forall is_s32 (dataSectors hdr)
}.

(** The sectors that hold the file. *)
Definition sectors_of (hdr : FileHeader) : list Z :=
  take (Z.to_nat (numSectors hdr)) (dataSectors hdr).

(** ** Lemmas: the image on disk *)

Lemma word_bytes_length z : length (word_bytes z) = 4%nat.
Proof. apply length_le_split. Qed.

Lemma word_bytes_value z : is_s32 z -> s32 (le_combine (word_bytes z)) = z.
Proof.
  intros Hz. unfold word_bytes. rewrite le_combine_split.
  rewrite (Z.mod_small (u32 z)) by apply u32_range. rewrite s32_u32. by apply s32_id.
Qed.

Lemma words_of_concat (ws : list Z) bs : Forall is_s32 ws ->
  words_of (length ws) (concat (word_bytes <$> ws) ++ bs) = ws.
Proof.
  induction 1 as [|w ws Hw Hws IH]; [done|].
  cbn [length words_of fmap list_fmap concat].
  rewrite <- app_assoc.
  rewrite (take_app_length' (word_bytes w)) by (by rewrite word_bytes_length).
  rewrite (drop_app_length' (word_bytes w)) by (by rewrite word_bytes_length).
  by rewrite word_bytes_value, IH.
Qed.

Lemma header_bytes_length hdr : Z.of_nat (length (dataSectors hdr)) = NumDirect ->
  Z.of_nat (length (header_bytes hdr)) = SectorSize.
Proof.
  intros Hl. unfold header_bytes.
  assert (E : forall ws, length (concat (word_bytes <$> ws)) = (4 * length ws)%nat).
  { induction ws as [|w ws IH]; [done|]. cbn [fmap list_fmap concat].
    rewrite length_app, word_bytes_length, IH. simpl. lia. }
  rewrite E. simpl length. change NumDirect with 30 in Hl. unfold SectorSize. lia.
Qed.

(** Reading back a header's bytes gives the header. *)
Lemma header_roundtrip hdr : Z.of_nat (length (dataSectors hdr)) = NumDirect ->
  is_s32 (numBytes hdr) -> is_s32 (numSectors hdr) -> Forall is_s32 (dataSectors hdr) ->
  header_of (header_bytes hdr) = Ret hdr.
Proof.
  intros Hl Hb Hn Hs. unfold header_of, header_bytes.
  rewrite <- (app_nil_r (concat _)).
  replace (2 + Z.to_nat NumDirect)%nat
    with (length (numBytes hdr :: numSectors hdr :: dataSectors hdr)) by (simpl; lia).
  rewrite words_of_concat; [by destruct hdr|]. constructor; [done|]. by constructor.
Qed.

(** ** Lemmas: allocation *)

Section allocation.
Context {B : Type} `{BitAllocator B}.
Implicit Types (b : B) (hdr : FileHeader).

(** [allocated b b' l]: [b'] is [b] with the sectors [l], all free before, taken. *)
Record allocated (b b' : B) (l : list Z) : Prop := {
  alc_wf : al_wf b';
  alc_size : al_size b' = al_size b;
  alc_range : Forall (fun s => 0 <= s < al_size b) l;
  alc_free : Forall (fun s => al_bit b s = false) l;
  alc_nodup : NoDup l;
  alc_bits : forall j, 0 <= j -> al_bit b' j = bool_decide (j ∈ l) || al_bit b j;
  alc_count : clear_below (al_bit b') (al_size b) =
              clear_below (al_bit b) (al_size b) - Z.of_nat (length l)
}.

Lemma allocated_nil b : al_wf b -> allocated b b [].
Proof.
  intros. split; [done|done|constructor|constructor|by apply NoDup_nil|done|simpl; lia].
Qed.

Lemma allocated_find b b' l : allocated b b' l -> 0 < clear_below (al_bit b') (al_size b) ->
  exists s b'', al_find b' = Ret (s, b'') /\ 0 <= s < al_size b /\ allocated b b'' (l ++ [s]).
Proof.
  intros [Hwf Hsz Hr Hf Hn Hb Hc] Hpos.
  destruct (al_find_spec b' Hwf) as [(s & b'' & Hs & Hrs & Hfs & _ & Hwf' & Hsz' & Hb')|[_ Hall]].
  - exists s, b''. split; [done|]. rewrite Hsz in Hrs. split; [done|].
    assert (Hs0 : bool_decide (s ∈ l) || al_bit b s = false) by (rewrite <- Hb by lia; done).
    apply orb_false_iff in Hs0 as [Hnl%bool_decide_eq_false Hfree].
    split; [done|congruence| | | | |].
    + apply Forall_app. split; [done|]. by constructor.
    + apply Forall_app. split; [done|]. by constructor.
    + apply NoDup_app. split; [done|]. split; [|apply NoDup_singleton].
      intros x Hx ->%list_elem_of_singleton. done.
    + intros j Hj. rewrite Hb', Hb by done. rewrite orb_assoc. f_equal.
      rewrite <- bool_decide_or. apply bool_decide_ext. rewrite elem_of_app, list_elem_of_singleton.
      tauto.
    + rewrite (clear_below_set (al_bit b') (al_bit b'') s) by done.
      rewrite length_app. simpl. lia.
  - rewrite Hsz in Hall. rewrite clear_below_full in Hpos by done. lia.
Qed.

(** The state of the loop of [Allocate] before iteration [i]. *)
Definition alloc_inv (hdr : FileHeader) (b : B) (i : Z) (st : list Z * B) : Prop :=
  length st.1 = length (dataSectors hdr) /\
  drop (Z.to_nat i) st.1 = drop (Z.to_nat i) (dataSectors hdr) /\
  allocated b st.2 (take (Z.to_nat i) st.1).

Lemma alloc_step hdr b i ds b' :
  0 <= i < Z.of_nat (length (dataSectors hdr)) ->
  i < clear_below (al_bit b) (al_size b) ->
  alloc_inv hdr b i (ds, b') ->
  exists st', (let* (sector, b'') := al_find b' in
               let* ds' := zset ds i sector in
               assert* (sector >=? 0) in Ret (ds', b'')) = Ret st' /\
    alloc_inv hdr b (i + 1) st'.
Proof.
  intros Hi Hc (Hlen & Hdrop & Hal). simpl in *.
  pose proof (alc_count _ _ _ Hal) as Hcnt. rewrite length_take in Hcnt.
  destruct (allocated_find b b' _ Hal) as (s & b'' & -> & Hs & Hal'); [lia|].
  rewrite rbind_Ret, zset_in, rbind_Ret by lia.
  rewrite Z.geb_leb, (proj2 (Z.leb_le 0 s)), ASSERT_true, rbind_Ret by (done || lia).
  eexists. split; [done|]. unfold alloc_inv. simpl. rewrite length_insert.
  replace (Z.to_nat (i + 1)) with (S (Z.to_nat i)) by lia.
  assert (Hlt : (Z.to_nat i < length ds)%nat) by lia.
  split; [done|]. split.
  - rewrite drop_insert_lt by lia.
    apply (f_equal (drop 1)) in Hdrop. rewrite !drop_drop in Hdrop.
    by rewrite Nat.add_1_r in Hdrop.
  - rewrite (take_S_r _ _ s) by (apply list_lookup_insert_eq; lia).
    rewrite take_insert_ge by lia. done.
Qed.

(** [Allocate] on every branch. *)
Lemma Allocate_spec hdr b fileSize : al_wf b ->
  Z.of_nat (length (dataSectors hdr)) = NumDirect -> 0 <= fileSize ->
  let n := divRoundUp fileSize SectorSize in
  let free := clear_below (al_bit b) (al_size b) in
  if free <? n then
    Allocate hdr b fileSize = Ret (false, mkHeader fileSize n (dataSectors hdr), b)
  else if n <=? NumDirect then
    exists hdr' b', Allocate hdr b fileSize = Ret (true, hdr', b') /\
      numBytes hdr' = fileSize /\ numSectors hdr' = n /\
      Z.of_nat (length (dataSectors hdr')) = NumDirect /\
      Z.of_nat (length (sectors_of hdr')) = n /\
      drop (Z.to_nat n) (dataSectors hdr') = drop (Z.to_nat n) (dataSectors hdr) /\
      allocated b b' (sectors_of hdr')
  else Allocate hdr b fileSize = Fault.
Proof.
  intros Hwf Hlen Hsz n free.
  assert (Hn : 0 <= n) by (apply divRoundUp_nonneg; unfold SectorSize; lia).
  unfold Allocate. rewrite al_numclear_spec, rbind_Ret by done.
  cbn [numSectors dataSectors numBytes]. fold n free.
  destruct (Z.ltb_spec free n) as [|Hfree]; [done|].
  set (body := fun i (st : list Z * B) => _).
  assert (Hstep : forall i st, 0 <= i < n -> i < NumDirect -> alloc_inv hdr b i st ->
    exists st', body i st = Ret st' /\ alloc_inv hdr b (i + 1) st').
  { intros i [ds b'] Hi Hd Hinv. apply alloc_step; [lia| |done]. unfold free in Hfree. lia. }
  assert (Hinit : alloc_inv hdr b 0 (dataSectors hdr, b)).
  { split; [done|]. split; [done|]. by apply allocated_nil. }
  destruct (Z.leb_spec n NumDirect) as [Hle|Hgt].
  - destruct (forZ_inv (alloc_inv hdr b) 0 n body (dataSectors hdr, b))
      as ([ds b'] & -> & (Hl & Hd & Hal)); [lia|done| |].
    { intros i st Hi Hinv. apply Hstep; [lia|lia|done]. }
    rewrite rbind_Ret. do 2 eexists. split; [done|]. simpl in *.
    do 2 (split; [done|]). split; [lia|]. unfold sectors_of. simpl.
    split; [rewrite length_take; lia|]. done.
  - assert (Hsplit : exists st, forZ 0 NumDirect body (dataSectors hdr, b) = Ret st /\
        alloc_inv hdr b NumDirect st).
    { apply forZ_inv; [unfold NumDirect; vm_compute; congruence|done|].
      intros i st Hi Hinv. apply Hstep; [lia|lia|done]. }
    destruct Hsplit as ([ds b'] & Hrun & (Hl & _ & Hal)). simpl in *.
    rewrite (forZ_app 0 NumDirect n), Hrun, rbind_Ret by (unfold NumDirect in *; lia).
    rewrite forZ_step by lia. unfold body at 1.
    pose proof (alc_count _ _ _ Hal) as Hcnt. rewrite length_take in Hcnt.
    destruct (allocated_find b b' _ Hal) as (s & b'' & -> & _ & _);
      [unfold free in Hfree; lia|].
    rewrite rbind_Ret, zset_out by lia. done.
Qed.

(** [Deallocate] of a file whose sectors are all marked frees exactly those. *)
Lemma Deallocate_spec hdr b : al_wf b -> 0 <= numSectors hdr ->
  numSectors hdr <= Z.of_nat (length (dataSectors hdr)) ->
  Forall (fun s => 0 <= s < al_size b /\ al_bit b s = true) (sectors_of hdr) ->
  NoDup (sectors_of hdr) ->
  exists b', Deallocate hdr b = Ret b' /\ al_wf b' /\ al_size b' = al_size b /\
    forall j, 0 <= j -> al_bit b' j = negb (bool_decide (j ∈ sectors_of hdr)) && al_bit b j.
Proof.
  intros Hwf Hn Hlen Hall Hnd. unfold Deallocate.
  destruct (forZ_inv (fun i b' => al_wf b' /\ al_size b' = al_size b /\
      forall j, 0 <= j ->
        al_bit b' j = negb (bool_decide (j ∈ take (Z.to_nat i) (dataSectors hdr))) && al_bit b j)
    0 (numSectors hdr) (fun i freeMap =>
      let* sector := zget (dataSectors hdr) i in
      let* marked := al_test freeMap sector in
      assert* marked in al_clear freeMap sector) b) as (b' & -> & ? & ? & ?);
    [done|done| |by exists b'].
  intros i b' Hi (Hwf' & Hsz & Hb).
  destruct (zget_spec (dataSectors hdr) i) as (s & -> & Hs); [lia|]. rewrite rbind_Ret.
  assert (Hin : sectors_of hdr !! Z.to_nat i = Some s)
    by (unfold sectors_of; rewrite lookup_take_lt; [done|lia]).
  pose proof (Forall_lookup_1 _ _ _ _ Hall Hin) as [Hr Hm].
  assert (Hnew : s ∉ take (Z.to_nat i) (dataSectors hdr)).
  { intros (k & Hk)%list_elem_of_lookup. apply lookup_take_Some in Hk as [Hk Hlt].
    assert (k = Z.to_nat i); [|lia]. apply (NoDup_lookup (sectors_of hdr) _ _ s Hnd); [|done].
    unfold sectors_of. by rewrite lookup_take_lt by lia. }
  rewrite al_test_spec, rbind_Ret by (done || lia).
  rewrite Hb, bool_decide_eq_false_2, Hm by (done || lia). simpl.
  destruct (al_clear_spec b' s Hwf' ltac:(lia)) as (b'' & -> & ? & ? & Hb'').
  eexists. split; [done|]. split; [done|]. split; [congruence|].
  intros j Hj. rewrite Hb'', Hb by done. rewrite andb_assoc. f_equal.
  replace (Z.to_nat (i + 1)) with (S (Z.to_nat i)) by lia.
  rewrite (take_S_r _ _ _ Hs), <- negb_orb, <- bool_decide_or. f_equal.
  apply bool_decide_ext. rewrite elem_of_app, list_elem_of_singleton. tauto.
Qed.
End allocation.

(** ** Claims *)

(** C33: [Allocate] on every branch.  Without enough free sectors it returns FALSE
    and leaves the map alone.  Otherwise, for a size of at most [MaxFileSize], it
    succeeds with a header that has just enough sectors for the bytes, all
    distinct, inside the map and free before, now marked, and no other bit
    changed, so the count of free sectors drops by their number.  A size above
    [MaxFileSize] is not rejected: the loop runs off the end of [dataSectors]. *)
Theorem Allocate_correct {B} `{BitAllocator B} (hdr : FileHeader) (b : B) fileSize :
  al_wf b -> Z.of_nat (length (dataSectors hdr)) = NumDirect -> 0 <= fileSize ->
  let free := clear_below (al_bit b) (al_size b) in
  (fileSize > SectorSize * free ->
     exists hdr', Allocate hdr b fileSize = Ret (false, hdr', b)) /\
  (fileSize <= SectorSize * free -> fileSize <= MaxFileSize ->
     exists hdr' b', Allocate hdr b fileSize = Ret (true, hdr', b') /\
       FileLength hdr' = fileSize /\
       SectorSize * (numSectors hdr' - 1) < fileSize <= SectorSize * numSectors hdr' /\
       Z.of_nat (length (sectors_of hdr')) = numSectors hdr' /\
       NoDup (sectors_of hdr') /\
       Forall (fun s => 0 <= s < al_size b /\ al_bit b s = false) (sectors_of hdr') /\
       (forall j, 0 <= j -> al_bit b' j = bool_decide (j ∈ sectors_of hdr') || al_bit b j) /\
       clear_below (al_bit b') (al_size b) = free - numSectors hdr') /\
  (MaxFileSize < fileSize <= SectorSize * free -> Allocate hdr b fileSize = Fault).
Proof.
  intros Hwf Hlen Hsz free. pose proof (Allocate_spec hdr b fileSize Hwf Hlen Hsz) as HA.
  cbv zeta in HA. fold free in HA.
  pose proof (divRoundUp_spec fileSize SectorSize Hsz ltac:(unfold SectorSize; lia)) as Hn.
  unfold MaxFileSize. change NumDirect with 30 in *. unfold SectorSize in *.
  destruct (Z.ltb_spec free (divRoundUp fileSize 128)) as [Hlt|Hge].
  - split; [intros _; by eexists|]. split; intros; lia.
  - split; [intros; lia|]. destruct (Z.leb_spec (divRoundUp fileSize 128) 30).
    + split; [|intros; lia]. intros _ _.
      destruct HA as (hdr' & b' & HA & Hb & Hs & Hl & Hls & _ & [? ? Hr Hf ? ? Hc]).
      exists hdr', b'. split; [done|]. unfold FileLength. rewrite Hb, Hs. split; [done|].
      split; [lia|]. split; [done|]. split; [done|].
      split; [by apply Forall_and|]. split; [done|]. rewrite Hc, Hls. done.
    + split; [intros; lia|]. done.
Qed.

(** [Deallocate] undoes [Allocate]: the header of a successful allocation can
    be deallocated from the resulting map, no assertion fails, and every bit is
    again what it was, so the space is reusable. *)
Theorem Deallocate_undoes_Allocate {B} `{BitAllocator B} (hdr hdr' : FileHeader) (b b' : B) fileSize :
  al_wf b -> Z.of_nat (length (dataSectors hdr)) = NumDirect -> 0 <= fileSize ->
  Allocate hdr b fileSize = Ret (true, hdr', b') ->
  exists b'', Deallocate hdr' b' = Ret b'' /\ al_wf b'' /\ al_size b'' = al_size b /\
    (forall j, 0 <= j -> al_bit b'' j = al_bit b j) /\
    clear_below (al_bit b'') (al_size b'') = clear_below (al_bit b) (al_size b).
Proof.
  intros Hwf Hlen Hsz HA. pose proof (Allocate_spec hdr b fileSize Hwf Hlen Hsz) as HS.
  cbv zeta in HS. rewrite HA in HS. case_if_in HS; [done|]. case_if_in HS; [|done].
  destruct HS as (hdr1 & b1 & [= <- <-] & Hb & Hs & Hl & Hls & _ & [Hwf' Hsz' Hr Hf Hnd Hbits _]).
  assert (0 <= numSectors hdr') by (rewrite Hs; apply divRoundUp_nonneg; unfold SectorSize; lia).
  to_prop. destruct (Deallocate_spec hdr' b' Hwf') as (b'' & Hde & ? & Hsz'' & Hbits''); try done.
  - lia.
  - apply Forall_forall. intros s Hin. rewrite Forall_forall in Hr, Hf.
    pose proof (Hr s Hin). split; [lia|]. rewrite Hbits by lia.
    by rewrite bool_decide_eq_true_2.
  - exists b''. split; [done|]. split; [done|]. split; [congruence|].
    assert (Hsame : forall j, 0 <= j -> al_bit b'' j = al_bit b j).
    { intros j Hj. rewrite Hbits'', Hbits by done. case_bool_decide as Hj'; [|done].
      rewrite Forall_forall in Hf. by rewrite Hf. }
    split; [done|]. rewrite Hsz'', Hsz'. apply clear_below_ext. intros; apply Hsame; lia.
Qed.

(** A header written to a sector is the header fetched from it, and no other
    sector changes: the image has exactly the size of a sector. *)
Theorem header_persists {D} `{BlockDevice D} (dev : D) hdr sector :
  bd_wf dev -> 0 <= sector < NumSectors ->
  Z.of_nat (length (dataSectors hdr)) = NumDirect ->
  is_s32 (numBytes hdr) -> is_s32 (numSectors hdr) -> Forall is_s32 (dataSectors hdr) ->
  exists dev', WriteBack dev hdr sector = Ret dev' /\ bd_wf dev' /\
    (forall j, 0 <= j < NumSectors -> j <> sector -> bd_sector dev' j = bd_sector dev j) /\
    exists dev'', FetchFrom dev' sector = Ret (dev'', hdr) /\ bd_wf dev'' /\
      forall j, bd_sector dev'' j = bd_sector dev' j.
Proof.
  intros Hwf Hs Hl Hb Hn Hd. unfold WriteBack, FetchFrom.
  destruct (bd_write_spec dev sector (header_bytes hdr) Hwf Hs (header_bytes_length _ Hl))
    as (dev' & -> & Hwf' & Hsec).
  exists dev'. split; [done|]. split; [done|]. split.
  { intros j Hj Hne. rewrite Hsec by done. by rewrite (proj2 (Z.eqb_neq j sector)). }
  destruct (bd_read_spec dev' sector Hwf' Hs) as (dev'' & -> & ? & ?).
  rewrite (Hsec sector Hs), Z.eqb_refl, rbind_Ret, header_roundtrip by done.
  simpl. eauto.
Qed.

(** ** Concrete headers *)

Definition blank_header : FileHeader := mkHeader 0 0 (replicate 30 0).

Definition half_map : Bitmap := mkBitmap 1024 32 (replicate 16 (2 ^ 32 - 1) ++ replicate 16 0).

Lemma half_map_wf : al_wf half_map.
Proof.
  change (wf_bitmap half_map).
  split; [simpl; lia|]. split; [done|]. split; [done|].
  apply Forall_app. split; apply Forall_replicate; unfold is_u32; lia.
Qed.

Lemma Allocate_correct_witness :
  exists hdr' b', Allocate blank_header half_map 1000 = Ret (true, hdr', b') /\
    FileLength hdr' = 1000 /\ NoDup (sectors_of hdr').
Proof.
  destruct (Allocate_correct blank_header half_map 1000 half_map_wf eq_refl ltac:(lia))
    as (_ & HA & _).
  destruct HA as (hdr' & b' & HA & Hl & _ & _ & Hn & _); [vm_compute; congruence..|].
  exists hdr', b'. split; [exact HA|]. split; [exact Hl|exact Hn].
Defined.

Lemma Deallocate_undoes_Allocate_witness :
  exists hdr' b' b'', Allocate blank_header half_map 1000 = Ret (true, hdr', b') /\
    Deallocate hdr' b' = Ret b'' /\ clear_below (bit b'') 1024 = 512.
Proof.
  destruct (Allocate blank_header half_map 1000) as [[[ok hdr'] b']| | | |] eqn:E;
    [|vm_compute in E; discriminate E..].
  assert (ok = true) by (vm_compute in E; injection E; congruence). subst ok.
  destruct (Deallocate_undoes_Allocate blank_header hdr' half_map b' 1000 half_map_wf eq_refl
    ltac:(lia) E) as (b'' & HD & _ & Hsz & _ & Hc).
  exists hdr', b', b''. split; [reflexivity|]. split; [exact HD|].
  rewrite Hsz in Hc. etransitivity; [exact Hc|]. vm_compute. reflexivity.
Defined.

Lemma header_persists_witness :
  exists dev', WriteBack sample_synchdisk (mkHeader 300 3 (replicate 30 77)) 5 = Ret dev' /\
    exists dev'', FetchFrom dev' 5 = Ret (dev'', mkHeader 300 3 (replicate 30 77)).
Proof.
  destruct (header_persists sample_synchdisk (mkHeader 300 3 (replicate 30 77)) 5)
    as (dev' & HW & _ & _ & dev'' & HF & _).
  - apply sample_synchdisk_idle.
  - vm_compute. split; congruence.
  - reflexivity.
  - unfold is_s32. simpl. lia.
  - unfold is_s32. simpl. lia.
  - apply Forall_replicate. unfold is_s32. lia.
  - exists dev'. split; [exact HW|]. exists dev''. exact HF.
Defined.
