(* ===== verification/OpenFile.v ===== *)
(** * Open files of the Nachos file system

    Model of filesys/openfile.{h,cc} (without [FILESYS_STUB]): an in-memory file
    header with a seek position, and reads and writes of arbitrary byte ranges
    in terms of whole sectors.  The contents of a fresh [new char[n]] are an
    argument, [garbage]. *)

From S2P Require Import Prelude Bitmap Host Disk FileHdr.

Record OpenFile : Type := mkOpenFile {
  hdr : FileHeader;
  seekPosition : Z
}.

Section openfile.
Context {D : Type} `{BlockDevice D}.
Variable garbage : nat -> byte.

Definition new_OpenFile (dev : D) (sector : Z) : result (D * OpenFile) :=
  let* (dev, h) := FetchFrom dev sector in
  Ret (dev, mkOpenFile h 0).

Definition Seek (f : OpenFile) (position : Z) : OpenFile := mkOpenFile (hdr f) position.

Definition Length (f : OpenFile) : Z := FileLength (hdr f).

(** The sectors [firstSector] to [lastSector] of the file, into [buf]. *)
Definition read_sectors (f : OpenFile) (firstSector lastSector : Z) (dev : D)
    (buf : list byte) : result (D * list byte) :=
  forZ firstSector (lastSector + 1) (fun i (st : D * list byte) =>
    let (dev, buf) := st in
    let* s := ByteToSector (hdr f) (i * SectorSize) in
    let* (dev, data) := bd_read dev s in
    let* buf := zsplice buf ((i - firstSector) * SectorSize) data in
    Ret (dev, buf)) (dev, buf).

Definition write_sectors (f : OpenFile) (firstSector lastSector : Z) (dev : D)
    (buf : list byte) : result D :=
  forZ firstSector (lastSector + 1) (fun i dev =>
    let* s := ByteToSector (hdr f) (i * SectorSize) in
    let* data := zslice buf ((i - firstSector) * SectorSize) SectorSize in
    bd_write dev s data) dev.

(** [OpenFile::ReadAt]: the count it returns and the bytes it copies to [into]. *)
Definition ReadAt (dev : D) (f : OpenFile) (numBytes position : Z)
    : result (D * (Z * list byte)) :=
  let fileLength := FileLength (hdr f) in
  if (numBytes <=? 0) || (position >=? fileLength) then Ret (dev, (0, [])) else
  let numBytes :=
    if s32 (position + numBytes) >? fileLength then fileLength - position else numBytes in
  let firstSector := divRoundDown position SectorSize in
  let lastSector := divRoundDown (s32 (position + numBytes - 1)) SectorSize in
  let numSectors := 1 + lastSector - firstSector in
  let buf := uninit garbage (Z.to_nat (numSectors * SectorSize)) in
  let* (dev, buf) := read_sectors f firstSector lastSector dev buf in
  let* bytes := zslice buf (position - firstSector * SectorSize) numBytes in
  Ret (dev, (numBytes, bytes)).

(** [ReadAt(&buf[at], SectorSize, sector * SectorSize)], when [cond]. *)
Definition read_partial (cond : bool) (dev : D) (f : OpenFile) (buf : list byte)
    (at_ sector : Z) : result (D * list byte) :=
  if cond then
    let* (dev, (_, bs)) := ReadAt dev f SectorSize (sector * SectorSize) in
    let* buf := zsplice buf at_ bs in
    Ret (dev, buf)
  else Ret (dev, buf).

(** "read in first and last sector, if they are to be partially modified" *)
Definition read_edges (dev : D) (f : OpenFile) (buf : list byte)
    (firstSector lastSector : Z) (firstAligned lastAligned : bool) : result (D * list byte) :=
  let* (dev, buf) := read_partial (negb firstAligned) dev f buf 0 firstSector in
  read_partial (negb lastAligned && (negb (firstSector =? lastSector) || firstAligned))
    dev f buf ((lastSector - firstSector) * SectorSize) lastSector.

Definition WriteAt (dev : D) (f : OpenFile) (from : list byte) (numBytes position : Z)
    : result (D * Z) :=
  let fileLength := FileLength (hdr f) in
  if (numBytes <=? 0) || (position >=? fileLength) then Ret (dev, 0) else
  let numBytes :=
    if s32 (position + numBytes) >? fileLength then fileLength - position else numBytes in
  let firstSector := divRoundDown position SectorSize in
  let lastSector := divRoundDown (s32 (position + numBytes - 1)) SectorSize in
  let numSectors := 1 + lastSector - firstSector in
  let buf := uninit garbage (Z.to_nat (numSectors * SectorSize)) in
  let firstAligned := position =? firstSector * SectorSize in
  let lastAligned := position + numBytes =? (lastSector + 1) * SectorSize in
  let* (dev, buf) := read_edges dev f buf firstSector lastSector firstAligned lastAligned in
  let* src := zslice from 0 numBytes in
  let* buf := zsplice buf (position - firstSector * SectorSize) src in
  let* dev := write_sectors f firstSector lastSector dev buf in
  Ret (dev, numBytes).

Definition Read (dev : D) (f : OpenFile) (numBytes : Z)
    : result (D * OpenFile * (Z * list byte)) :=
  let* (dev, (result, bytes)) := ReadAt dev f numBytes (seekPosition f) in
  Ret (dev, mkOpenFile (hdr f) (seekPosition f + result), (result, bytes)).

Definition Write (dev : D) (f : OpenFile) (from : list byte) (numBytes : Z)
    : result (D * OpenFile * Z) :=
  let* (dev, result) := WriteAt dev f from numBytes (seekPosition f) in
  Ret (dev, mkOpenFile (hdr f) (seekPosition f + result), result).

(** ** Contents of a file *)

(** All the bytes of the file's sectors, and the bytes of the file. *)
Definition image (dev : D) (h : FileHeader) : list byte :=
  concat (bd_sector dev <$> sectors_of h).
Definition file_bytes (dev : D) (h : FileHeader) : list byte :=
  take (Z.to_nat (numBytes h)) (image dev h).
End openfile.

Abbreviation SS := 128%nat.

Section lemmas.
Context {D : Type} `{BlockDevice D}.
Variable garbage : nat -> byte.
Implicit Types (dev : D) (f : OpenFile) (h : FileHeader).

Lemma sectors_of_length h : wf_hdr h -> 0 <= numSectors h ->
  Z.of_nat (length (sectors_of h)) = numSectors h.
Proof. intros [Hl _ _ Hm _ _ _] ?. unfold sectors_of. rewrite length_take. lia. Qed.

Lemma numSectors_nonneg h : wf_hdr h -> 0 <= numSectors h.
Proof.
  intros [_ Hb Hs _ _ _ _]. rewrite Hs. apply divRoundUp_nonneg; unfold SectorSize; lia.
Qed.

Lemma numSectors_bound h : wf_hdr h ->
  SectorSize * (numSectors h - 1) < numBytes h <= SectorSize * numSectors h.
Proof.
  intros [_ Hb Hs _ _ _ _]. rewrite Hs. apply divRoundUp_spec; unfold SectorSize; lia.
Qed.

Lemma image_chunks dev h : bd_wf dev -> wf_hdr h ->
  Forall (fun s => length s = SS) (bd_sector dev <$> sectors_of h).
Proof.
  intros Hd Hh. apply Forall_fmap, Forall_forall. intros s Hs.
  pose proof (proj1 (Forall_forall _ _) (wfh_range _ Hh) s Hs) as Hr.
  pose proof (bd_sector_len dev s Hd Hr). unfold SectorSize in *. simpl. lia.
Qed.

Lemma image_length dev h : bd_wf dev -> wf_hdr h ->
  Z.of_nat (length (image dev h)) = SectorSize * numSectors h.
Proof.
  intros Hd Hh. unfold image. rewrite (length_chunks SS) by (by apply image_chunks).
  rewrite length_fmap. pose proof (numSectors_nonneg h Hh).
  pose proof (sectors_of_length h Hh). unfold SectorSize. lia.
Qed.

Lemma file_bytes_length dev h : bd_wf dev -> wf_hdr h ->
  Z.of_nat (length (file_bytes dev h)) = numBytes h.
Proof.
  intros Hd Hh. unfold file_bytes. rewrite length_take.
  pose proof (image_length dev h Hd Hh). pose proof (numSectors_bound h Hh).
  pose proof (wfh_bytes h Hh). unfold SectorSize in *. lia.
Qed.

Lemma image_ext dev dev' h : (forall j, bd_sector dev' j = bd_sector dev j) ->
  image dev' h = image dev h.
Proof.
  intros Hj. unfold image. f_equal. apply list_fmap_ext. intros. apply Hj.
Qed.

(** The sector that holds byte [i * SectorSize]. *)
Lemma ByteToSector_spec h i : wf_hdr h -> 0 <= i < numSectors h ->
  exists s, ByteToSector h (i * SectorSize) = Ret s /\ 0 <= s < NumSectors /\
    sectors_of h !! Z.to_nat i = Some s.
Proof.
  intros Hh Hi. unfold ByteToSector, SectorSize. rewrite Z.quot_mul by lia.
  pose proof (wfh_len h Hh). pose proof (wfh_max h Hh).
  destruct (zget_spec (dataSectors h) i) as (s & Hg & Hs); [lia|].
  exists s. split; [done|].
  assert (Hin : sectors_of h !! Z.to_nat i = Some s)
    by (unfold sectors_of; rewrite lookup_take_lt; [done|lia]).
  split; [|done]. by apply (Forall_lookup_1 _ _ _ _ (wfh_range h Hh) Hin).
Qed.

(** The loop of [ReadAt] gathers a range of the image. *)
Lemma read_sectors_spec f dev a b buf : bd_wf dev -> wf_hdr (hdr f) ->
  0 <= a -> a <= b + 1 -> b < numSectors (hdr f) ->
  Z.of_nat (length buf) = (1 + b - a) * SectorSize ->
  exists dev', read_sectors f a b dev buf =
      Ret (dev', take (length buf) (drop (Z.to_nat a * SS) (image dev (hdr f)))) /\
    bd_wf dev' /\ forall j, bd_sector dev' j = bd_sector dev j.
Proof.
  intros Hd Hh Ha Hab Hb Hlen. unfold read_sectors.
  set (img := image dev (hdr f)). set (X := drop (Z.to_nat a * SS) img).
  pose proof (image_length dev (hdr f) Hd Hh) as HI. fold img in HI. unfold SectorSize in *.
  assert (HX : length X = (length img - Z.to_nat a * SS)%nat) by (unfold X; by rewrite length_drop).
  destruct (forZ_inv (fun i (st : D * list byte) => bd_wf st.1 /\
      (forall j, bd_sector st.1 j = bd_sector dev j) /\
      st.2 = take (Z.to_nat (i - a) * SS) X ++ drop (Z.to_nat (i - a) * SS) buf)
    a (b + 1) (fun i (st : D * list byte) =>
      let (dev, buf) := st in
      let* s := ByteToSector (hdr f) (i * 128) in
      let* (dev, data) := bd_read dev s in
      let* buf := zsplice buf ((i - a) * 128) data in
      Ret (dev, buf)) (dev, buf)) as ([dev' buf'] & -> & Hd' & Hs' & Hbuf).
  - lia.
  - simpl. split; [done|]. split; [done|]. by rewrite Z.sub_diag.
  - intros i [dev1 buf1] Hi (Hd1 & Hs1 & Hb1). simpl in Hd1, Hs1, Hb1. subst buf1.
    destruct (ByteToSector_spec (hdr f) i Hh ltac:(lia)) as (s & HB & Hr & Hs).
    change SectorSize with 128 in HB. rewrite HB, rbind_Ret.
    destruct (bd_read_spec dev1 s Hd1 Hr) as (dev2 & -> & Hd2 & Hs2). rewrite rbind_Ret.
    assert (Hc : bd_sector dev1 s = take SS (drop (Z.to_nat (i - a) * SS) X)).
    { rewrite Hs1. unfold X. rewrite drop_drop.
      replace (Z.to_nat a * SS + Z.to_nat (i - a) * SS)%nat with (Z.to_nat i * SS)%nat by lia.
      symmetry. apply chunk_slice; [by apply image_chunks|]. by rewrite list_lookup_fmap, Hs. }
    pose proof (bd_sector_len dev1 s Hd1 Hr) as Hsl. unfold SectorSize in Hsl.
    set (k := (Z.to_nat (i - a) * SS)%nat) in *.
    assert (Htk : length (take k X) = k) by (rewrite length_take; lia).
    rewrite zsplice_in; [|lia|rewrite length_app, Htk, length_drop; lia].
    simpl. eexists. split; [done|]. simpl. split; [done|]. split; [intros j; by rewrite Hs2|].
    replace (Z.to_nat ((i - a) * 128)) with k by lia.
    rewrite take_app_length' by lia. rewrite <- drop_drop, drop_app_length' by lia.
    replace (Z.to_nat (i + 1 - a) * SS)%nat with (k + SS)%nat by lia.
    rewrite Hc, <- take_take_drop, <- app_assoc. do 2 f_equal.
    rewrite <- Hc, drop_drop. f_equal. lia.
  - exists dev'. split; [|done]. simpl in Hbuf. rewrite Hbuf.
    rewrite (drop_ge buf), app_nil_r by lia. do 3 f_equal. lia.
Qed.

(** The loop of [WriteAt] replaces a range of the image. *)
Lemma write_sectors_spec f dev a b buf : bd_wf dev -> wf_hdr (hdr f) ->
  0 <= a -> a <= b + 1 -> b < numSectors (hdr f) ->
  Z.of_nat (length buf) = (1 + b - a) * SectorSize ->
  let img := image dev (hdr f) in
  exists dev', write_sectors f a b dev buf = Ret dev' /\ bd_wf dev' /\
    image dev' (hdr f) = take (Z.to_nat a * SS) img ++ buf ++
                         drop (Z.to_nat a * SS + length buf) img /\
    forall j, 0 <= j < NumSectors -> j ∉ sectors_of (hdr f) -> bd_sector dev' j = bd_sector dev j.
Proof.
  intros Hd Hh Ha Hab Hb Hlen img. unfold write_sectors.
  pose proof (image_length dev (hdr f) Hd Hh) as HI. fold img in HI. unfold SectorSize in *.
  pose proof (numSectors_nonneg _ Hh). pose proof (sectors_of_length _ Hh ltac:(done)).
  destruct (forZ_inv (fun i dev' => bd_wf dev' /\
      image dev' (hdr f) = take (Z.to_nat a * SS) img ++ take (Z.to_nat (i - a) * SS) buf ++
                           drop (Z.to_nat i * SS) img /\
      forall j, 0 <= j < NumSectors -> j ∉ sectors_of (hdr f) -> bd_sector dev' j = bd_sector dev j)
    a (b + 1) (fun i dev =>
      let* s := ByteToSector (hdr f) (i * 128) in
      let* data := zslice buf ((i - a) * 128) 128 in
      bd_write dev s data) dev) as (dev' & -> & Hd' & Him & Hout).
  - lia.
  - split; [done|]. split; [|done]. rewrite Z.sub_diag. simpl. by rewrite take_drop.
  - intros i dev1 Hi (Hd1 & Him1 & Hout1).
    destruct (ByteToSector_spec (hdr f) i Hh ltac:(lia)) as (s & HB & Hr & Hs).
    change SectorSize with 128 in HB. rewrite HB, rbind_Ret.
    rewrite zslice_in by lia. rewrite rbind_Ret.
    replace (Z.to_nat ((i - a) * 128)) with (Z.to_nat (i - a) * SS)%nat by lia.
    set (k := (Z.to_nat (i - a) * SS)%nat) in *. set (c := take (Z.to_nat 128) (drop k buf)).
    assert (Hcl : length c = SS) by (unfold c; rewrite length_take, length_drop; lia).
    destruct (bd_write_spec dev1 s c Hd1 Hr) as (dev2 & -> & Hd2 & Hs2);
      [rewrite Hcl; unfold SectorSize; lia|].
    exists dev2. split; [done|]. split; [done|]. split.
    + assert (Hch : bd_sector dev2 <$> sectors_of (hdr f) =
        <[Z.to_nat i := c]> (bd_sector dev1 <$> sectors_of (hdr f))).
      { apply list_eq. intros j. rewrite list_lookup_fmap.
        destruct (decide (j = Z.to_nat i)) as [->|Hne].
        - rewrite list_lookup_insert_eq by (rewrite length_fmap; by eapply lookup_lt_Some).
          rewrite Hs. simpl. by rewrite Hs2, Z.eqb_refl.
        - rewrite list_lookup_insert_ne, list_lookup_fmap by done.
          destruct (sectors_of (hdr f) !! j) as [t|] eqn:Ht; [|done]. simpl.
          rewrite Hs2 by (apply (Forall_lookup_1 _ _ _ _ (wfh_range _ Hh) Ht)).
          rewrite (proj2 (Z.eqb_neq t s)); [done|]. intros ->.
          apply Hne. by apply (NoDup_lookup _ _ _ _ (wfh_nodup _ Hh) Ht). }
      unfold image. rewrite Hch.
      rewrite (chunk_insert SS) by (first [by apply image_chunks | rewrite length_fmap; lia]).
      fold (image dev1 (hdr f)). rewrite Him1.
      assert (Hl1 : length (take (Z.to_nat a * SS) img) = (Z.to_nat a * SS)%nat)
        by (rewrite length_take; lia).
      assert (Hl2 : length (take k buf) = k) by (rewrite length_take; lia).
      replace (Z.to_nat i * SS)%nat with (Z.to_nat a * SS + k)%nat by lia.
      rewrite !app_assoc.
      rewrite take_app_length' by (rewrite length_app; lia).
      replace (Z.to_nat a * SS + k + SS)%nat
        with (length (take (Z.to_nat a * SS) img ++ take k buf) + SS)%nat
        by (rewrite length_app; lia).
      rewrite drop_app_add, drop_drop, <- !app_assoc. f_equal.
      replace (Z.to_nat (i + 1 - a) * SS)%nat with (k + SS)%nat by lia.
      rewrite <- take_take_drop, <- app_assoc. do 3 f_equal. lia.
    + intros j Hj Hni. rewrite Hs2 by done.
      rewrite (proj2 (Z.eqb_neq j s)); [by apply Hout1|].
      intros ->. apply Hni. by eapply list_elem_of_lookup_2.
  - exists dev'. split; [done|]. split; [done|]. split; [|done].
    rewrite Him. rewrite (take_ge buf) by lia. do 3 f_equal. lia.
Qed.

(** The request as the code clips it: [n] bytes in sectors [a] to [b]. *)
Record clipped (h : FileHeader) (nb pos n a b : Z) : Prop := {
  clip_n : n = Z.min nb (numBytes h - pos);
  clip_pos : 0 < n;
  clip_a : a = pos / SectorSize;
  clip_b : b = (pos + n - 1) / SectorSize;
  clip_range : 0 <= a <= b /\ b < numSectors h;
  clip_start : 0 <= pos - a * SectorSize < SectorSize;
  clip_end : b * SectorSize <= pos + n - 1 < (b + 1) * SectorSize
}.

Lemma clip_request h nb pos : wf_hdr h -> numBytes h < 2 ^ 31 ->
  0 < nb -> 0 <= pos < numBytes h -> pos + nb < 2 ^ 31 ->
  let n := if s32 (pos + nb) >? numBytes h then numBytes h - pos else nb in
  let a := divRoundDown pos SectorSize in
  let b := divRoundDown (s32 (pos + n - 1)) SectorSize in
  clipped h nb pos n a b.
Proof.
  intros Hh Hmax Hnb Hpos Hov n a b.
  assert (Hn : n = Z.min nb (numBytes h - pos)).
  { unfold n. rewrite s32_id by (unfold is_s32; lia). rewrite Z.gtb_ltb.
    destruct (Z.ltb_spec (numBytes h) (pos + nb)); lia. }
  assert (Ha : a = pos / SectorSize)
    by (unfold a, divRoundDown, SectorSize; rewrite Z.quot_div_nonneg; lia).
  assert (Hb : b = (pos + n - 1) / SectorSize).
  { unfold b, divRoundDown, SectorSize.
    rewrite s32_id by (unfold is_s32; lia). rewrite Z.quot_div_nonneg; lia. }
  pose proof (numSectors_bound h Hh) as Hs. clearbody n a b.
  unfold SectorSize in *.
  pose proof (Z.div_mod pos 128 ltac:(lia)). pose proof (Z.mod_pos_bound pos 128 ltac:(lia)).
  pose proof (Z.div_mod (pos + n - 1) 128 ltac:(lia)).
  pose proof (Z.mod_pos_bound (pos + n - 1) 128 ltac:(lia)).
  rewrite <- Ha, <- Hb in *. split; unfold SectorSize; try done; lia.
Qed.

Lemma ReadAt_empty dev f nb pos : nb <= 0 \/ numBytes (hdr f) <= pos ->
  ReadAt garbage dev f nb pos = Ret (dev, (0, [])).
Proof.
  intros Hor. unfold ReadAt, FileLength.
  replace ((nb <=? 0) || (pos >=? numBytes (hdr f))) with true; [done|].
  symmetry. apply orb_true_iff. rewrite Z.geb_leb, !Z.leb_le. lia.
Qed.

Lemma ReadAt_spec dev f nb pos : bd_wf dev -> wf_hdr (hdr f) -> numBytes (hdr f) < 2 ^ 31 ->
  0 < nb -> 0 <= pos < numBytes (hdr f) -> pos + nb < 2 ^ 31 ->
  let n := Z.min nb (numBytes (hdr f) - pos) in
  exists dev', ReadAt garbage dev f nb pos =
      Ret (dev', (n, take (Z.to_nat n) (drop (Z.to_nat pos) (file_bytes dev (hdr f))))) /\
    bd_wf dev' /\ forall j, bd_sector dev' j = bd_sector dev j.
Proof.
  intros Hd Hh Hmax Hnb Hpos Hov n. unfold ReadAt, FileLength.
  replace ((nb <=? 0) || (pos >=? numBytes (hdr f))) with false.
  2: { symmetry. apply orb_false_iff. rewrite Z.geb_leb, !Z.leb_gt. lia. }
  pose proof (clip_request (hdr f) nb pos Hh Hmax Hnb Hpos Hov) as [Hn Hn0 Ha Hb Hr Hst Hen].
  cbv zeta in *. set (n' := if s32 (pos + nb) >? numBytes (hdr f) then numBytes (hdr f) - pos else nb) in *.
  set (a := divRoundDown pos SectorSize) in *. set (b := divRoundDown (s32 _) SectorSize) in *.
  assert (n' = n) as -> by done. clearbody a b.
  destruct (read_sectors_spec f dev a b (uninit garbage (Z.to_nat ((1 + b - a) * SectorSize))))
    as (dev' & -> & Hd' & Hs'); try done; try lia.
  { rewrite length_uninit. unfold SectorSize in *. lia. }
  rewrite rbind_Ret, length_uninit. exists dev'. split; [|done].
  pose proof (image_length dev (hdr f) Hd Hh) as HI. unfold SectorSize in *.
  set (img := image dev (hdr f)) in *.
  rewrite zslice_in by (rewrite ?length_take, ?length_drop; lia).
  rewrite rbind_Ret. do 3 f_equal. unfold file_bytes. fold img.
  apply list_eq. intros i. destruct (decide (i < Z.to_nat n)%nat) as [Hi|Hi].
  - rewrite !lookup_take_lt by lia. rewrite !lookup_drop.
    rewrite !lookup_take_lt by lia. rewrite lookup_drop. f_equal. lia.
  - by rewrite !lookup_take_ge by lia.
Qed.

(** A sector of the file read into [buf] puts the image's bytes there, up to the
    end of the file. *)
Lemma read_partial_spec cond dev f buf at_ sec :
  bd_wf dev -> wf_hdr (hdr f) -> numBytes (hdr f) < 2 ^ 31 - 128 ->
  0 <= sec -> sec * SectorSize < numBytes (hdr f) ->
  0 <= at_ -> at_ + SectorSize <= Z.of_nat (length buf) ->
  exists dev' buf', read_partial garbage cond dev f buf at_ sec = Ret (dev', buf') /\
    bd_wf dev' /\ (forall j, bd_sector dev' j = bd_sector dev j) /\ length buf' = length buf /\
    (cond = true -> forall j, 0 <= j < SectorSize -> sec * SectorSize + j < numBytes (hdr f) ->
       buf' !! Z.to_nat (at_ + j) = image dev (hdr f) !! Z.to_nat (sec * SectorSize + j)) /\
    (forall j, (j < Z.to_nat at_ \/ Z.to_nat (at_ + SectorSize) <= j)%nat -> buf' !! j = buf !! j) /\
    (cond = false -> buf' = buf).
Proof.
  intros Hd Hh Hmax Hsec Hlt Hat Hroom. unfold read_partial. destruct cond.
  2: { exists dev, buf. by repeat split. }
  unfold SectorSize in *.
  destruct (ReadAt_spec dev f 128 (sec * 128) Hd Hh) as (dev' & -> & Hd' & Hs'); try lia.
  rewrite rbind_Ret. set (n := Z.min 128 (numBytes (hdr f) - sec * 128)).
  set (bs := take (Z.to_nat n) _).
  pose proof (file_bytes_length dev (hdr f) Hd Hh) as HF.
  assert (Hbs : Z.of_nat (length bs) = n) by (unfold bs; rewrite length_take, length_drop; lia).
  rewrite zsplice_in by lia. rewrite rbind_Ret. do 2 eexists. split; [done|].
  split; [done|]. split; [done|]. split; [apply length_splice; lia|]. split; [|split; [|done]].
  - intros _ j Hj Hjn. rewrite lookup_splice_in by lia. unfold bs, file_bytes.
    rewrite lookup_take_lt, lookup_drop, lookup_take_lt by lia. f_equal. lia.
  - intros j Hj. apply lookup_splice_out; lia.
Qed.

Lemma WriteAt_empty dev f from nb pos : nb <= 0 \/ numBytes (hdr f) <= pos ->
  WriteAt garbage dev f from nb pos = Ret (dev, 0).
Proof.
  intros Hor. unfold WriteAt, FileLength.
  replace ((nb <=? 0) || (pos >=? numBytes (hdr f))) with true; [done|].
  symmetry. apply orb_true_iff. rewrite Z.geb_leb, !Z.leb_le. lia.
Qed.

(** The buffer before the copy: every byte of the request's sectors that the
    request does not replace and that belongs to the file is the file's. *)
Lemma read_edges_spec f dev buf nb pos n a b :
  bd_wf dev -> wf_hdr (hdr f) -> numBytes (hdr f) < 2 ^ 31 - 128 -> 0 <= pos < numBytes (hdr f) ->
  clipped (hdr f) nb pos n a b -> Z.of_nat (length buf) = (1 + b - a) * SectorSize ->
  let firstAligned := pos =? a * SectorSize in
  let lastAligned := pos + n =? (b + 1) * SectorSize in
  exists dev' buf',
    read_edges garbage dev f buf a b firstAligned lastAligned = Ret (dev', buf') /\
    bd_wf dev' /\ (forall j, bd_sector dev' j = bd_sector dev j) /\ length buf' = length buf /\
    forall j, a * SectorSize <= j < (b + 1) * SectorSize -> j < numBytes (hdr f) ->
      j < pos \/ pos + n <= j ->
      buf' !! Z.to_nat (j - a * SectorSize) = image dev (hdr f) !! Z.to_nat j.
Proof.
  intros Hd Hh Hmax Hpos [Hn Hn0 Ha Hb Hr Hst Hen] Hlen fa la. unfold read_edges, SectorSize in *.
  destruct (read_partial_spec (negb fa) dev f buf 0 a Hd Hh Hmax)
    as (dev1 & buf1 & -> & Hd1 & Hs1 & Hl1 & Hin1 & Hout1 & Hno1);
    [unfold SectorSize; lia..|]. rewrite rbind_Ret.
  destruct (read_partial_spec (negb la && (negb (a =? b) || fa)) dev1 f buf1 ((b - a) * 128) b
    Hd1 Hh Hmax) as (dev2 & buf2 & -> & Hd2 & Hs2 & Hl2 & Hin2 & Hout2 & Hno2);
    [unfold SectorSize; lia..|]. unfold SectorSize in *.
  exists dev2, buf2. split; [done|]. split; [done|]. split; [intros; by rewrite Hs2|].
  split; [congruence|]. intros j Hj Hjn Hor.
  rewrite (image_ext dev dev1) in Hin2 by done.
  assert (Hfa : fa = true <-> pos = a * 128) by (unfold fa; apply Z.eqb_eq).
  assert (Hla : la = true <-> pos + n = (b + 1) * 128) by (unfold la; apply Z.eqb_eq).
  destruct (decide (b * 128 <= j /\ negb la && (negb (a =? b) || fa) = true)) as [[Hbj Hc]|Hno].
  - specialize (Hin2 Hc (j - b * 128)).
    replace (Z.to_nat (j - a * 128)) with (Z.to_nat ((b - a) * 128 + (j - b * 128))) by lia.
    rewrite Hin2 by lia. f_equal. lia.
  - (* the first read covers the byte *)
    assert (Hcase : j < (a + 1) * 128 /\ fa = false /\
      (j < b * 128 \/ negb la && (negb (a =? b) || fa) = false)).
    { destruct Hor as [Hlt|Hge].
      - assert (fa = false) by (destruct fa; [|done]; destruct Hfa as [Hfa _]; specialize (Hfa eq_refl); lia).
        split; [lia|]. split; [done|].
        destruct (decide (b * 128 <= j)); [right|left; lia].
        destruct (negb la && (negb (a =? b) || fa)); [exfalso; apply Hno; done|done].
      - assert (Hlf : la = false).
        { destruct la; [|done]. destruct Hla as [Hla _]. specialize (Hla eq_refl). lia. }
        assert (Hbj : b * 128 <= j) by lia.
        destruct (negb la && (negb (a =? b) || fa)) eqn:Hc; [exfalso; by apply Hno|].
        rewrite Hlf in Hc. simpl in Hc. apply orb_false_iff in Hc as [Hc1 Hc2].
        apply negb_false_iff, Z.eqb_eq in Hc1. subst b. split; [lia|]. split; [done|]. by right. }
    destruct Hcase as (Hj1 & Hf & Hc). rewrite Hf in Hin1. simpl in Hin1.
    specialize (Hin1 eq_refl (j - a * 128)).
    assert (E1 : buf1 !! Z.to_nat (j - a * 128) = image dev (hdr f) !! Z.to_nat j).
    { replace (Z.to_nat (j - a * 128)) with (Z.to_nat (0 + (j - a * 128))) by lia.
      rewrite Hin1 by lia. f_equal. lia. }
    rewrite <- E1. destruct Hc as [Hc|Hc]; [apply Hout2; lia|by rewrite (Hno2 Hc)].
Qed.

(** [WriteAt] replaces exactly the requested bytes of the file. *)
Lemma WriteAt_spec dev f from nb pos :
  bd_wf dev -> wf_hdr (hdr f) -> numBytes (hdr f) < 2 ^ 31 - 128 ->
  0 < nb -> 0 <= pos < numBytes (hdr f) -> pos + nb < 2 ^ 31 -> nb <= Z.of_nat (length from) ->
  let n := Z.min nb (numBytes (hdr f) - pos) in
  let old := file_bytes dev (hdr f) in
  exists dev', WriteAt garbage dev f from nb pos = Ret (dev', n) /\ bd_wf dev' /\
    file_bytes dev' (hdr f) =
      take (Z.to_nat pos) old ++ take (Z.to_nat n) from ++ drop (Z.to_nat (pos + n)) old /\
    forall j, 0 <= j < NumSectors -> j ∉ sectors_of (hdr f) -> bd_sector dev' j = bd_sector dev j.
Proof.
  intros Hd Hh Hmax Hnb Hpos Hov Hfrom n old. unfold WriteAt, FileLength.
  replace ((nb <=? 0) || (pos >=? numBytes (hdr f))) with false.
  2: { symmetry. apply orb_false_iff. rewrite Z.geb_leb, !Z.leb_gt. lia. }
  pose proof (clip_request (hdr f) nb pos Hh ltac:(lia) Hnb Hpos Hov) as Hclip.
  cbv zeta in *.
  set (n' := if s32 (pos + nb) >? numBytes (hdr f) then numBytes (hdr f) - pos else nb) in *.
  set (a := divRoundDown pos SectorSize) in *.
  set (b := divRoundDown (s32 (pos + n' - 1)) SectorSize) in *.
  clearbody a b n'. assert (n' = n) as -> by apply Hclip.
  set (buf := uninit garbage (Z.to_nat ((1 + b - a) * SectorSize))).
  pose proof Hclip as [_ Hn0 _ _ Hr Hst Hen].
  assert (Hbl : Z.of_nat (length buf) = (1 + b - a) * SectorSize)
    by (unfold buf; rewrite length_uninit; unfold SectorSize in *; lia).
  destruct (read_edges_spec f dev buf nb pos n a b Hd Hh Hmax Hpos Hclip Hbl)
    as (dev1 & buf1 & -> & Hd1 & Hs1 & Hl1 & Hold). rewrite rbind_Ret.
  rewrite zslice_in by lia. rewrite rbind_Ret, drop_0.
  set (src := take (Z.to_nat n) from).
  assert (Hsl : Z.of_nat (length src) = n) by (unfold src; rewrite length_take; lia).
  unfold SectorSize in *. rewrite zsplice_in by lia. rewrite rbind_Ret.
  set (off := Z.to_nat (pos - a * 128)).
  set (buf2 := take off buf1 ++ src ++ drop (off + length src) buf1).
  assert (Hl2 : length buf2 = length buf1) by (apply length_splice; unfold off; lia).
  destruct (write_sectors_spec f dev1 a b buf2 Hd1 Hh) as (dev2 & -> & Hd2 & Him & Hout);
    try lia; try (unfold SectorSize; lia).
  rewrite rbind_Ret. exists dev2. split; [done|]. split; [done|]. split.
  2: { intros j Hj Hni. rewrite Hout by done. apply Hs1. }
  rewrite (image_ext dev dev1) in Him by done.
  pose proof (image_length dev (hdr f) Hd Hh) as HI. unfold SectorSize in HI.
  pose proof (file_bytes_length dev (hdr f) Hd Hh) as HF. fold old in HF.
  unfold file_bytes. rewrite Him. set (img := image dev (hdr f)) in *.
  assert (Hold' : forall j, (j < Z.to_nat (numBytes (hdr f)))%nat -> old !! j = img !! j)
    by (intros j Hj; unfold old, file_bytes; by rewrite lookup_take_lt by lia).
  apply list_eq. intros j.
  replace (Z.to_nat (pos + n)) with (Z.to_nat pos + length src)%nat by lia.
  destruct (decide (j < Z.to_nat (numBytes (hdr f)))%nat) as [Hj|Hj].
  2: { rewrite lookup_take_ge by lia. rewrite lookup_ge_None_2; [done|].
       rewrite length_splice; lia. }
  rewrite lookup_take_lt by lia.
  destruct (decide (Z.to_nat pos <= j < Z.to_nat pos + length src)%nat) as [Hin|Hne].
  - rewrite (lookup_splice_in old) by lia.
    rewrite lookup_splice_in by lia. unfold buf2. rewrite lookup_splice_in by (unfold off; lia).
    f_equal. unfold off. lia.
  - rewrite (lookup_splice_out old) by lia. rewrite Hold' by lia.
    destruct (decide (Z.to_nat a * SS <= j < Z.to_nat a * SS + length buf2)%nat) as [Hb|Hb].
    + rewrite lookup_splice_in by lia. unfold buf2. rewrite lookup_splice_out by (unfold off; lia).
      rewrite <- (Nat2Z.id j) at 2. rewrite <- Hold by lia. f_equal. lia.
    + by rewrite lookup_splice_out by lia.
Qed.
End lemmas.

(** ** Claims *)

(** [ReadAt] is a slice of the file.  For a request inside the range of [int]
    it returns 0 past the end or for an empty request, otherwise as many of the
    requested bytes as the file has from [position] on, and those bytes; the
    disk's sectors do not change, whatever the buffer held before. *)
Theorem ReadAt_slice {D} `{BlockDevice D} garbage (dev : D) f nb pos :
  bd_wf dev -> wf_hdr (hdr f) -> numBytes (hdr f) < 2 ^ 31 -> 0 <= pos -> pos + nb < 2 ^ 31 ->
  exists dev' n bytes, ReadAt garbage dev f nb pos = Ret (dev', (n, bytes)) /\
    bd_wf dev' /\ (forall j, bd_sector dev' j = bd_sector dev j) /\
    n = Z.max 0 (Z.min nb (Length f - pos)) /\
    bytes = take (Z.to_nat n) (drop (Z.to_nat pos) (file_bytes dev (hdr f))) /\
    Z.of_nat (length bytes) = n.
Proof.
  intros Hd Hh Hmax Hpos Hov. unfold Length, FileLength.
  destruct (decide (nb <= 0 \/ numBytes (hdr f) <= pos)) as [He|He].
  - rewrite ReadAt_empty by done. exists dev, 0, []. do 3 (split; [done|]).
    split; [lia|]. done.
  - destruct (ReadAt_spec garbage dev f nb pos Hd Hh Hmax) as (dev' & -> & Hd' & Hs'); try lia.
    do 3 eexists. split; [done|]. split; [done|]. split; [done|]. split; [lia|]. split; [done|].
    pose proof (file_bytes_length dev (hdr f) Hd Hh). rewrite length_take, length_drop. lia.
Qed.

(** C19: [WriteAt] updates the file in place.  The bytes from [position] on are
    replaced by the caller's, as many as fit; all other bytes of the file and
    all sectors of other files keep their contents, although whole sectors are
    written; a following [ReadAt] of the same range returns the bytes written. *)
Theorem WriteAt_updates {D} `{BlockDevice D} garbage (dev : D) f from nb pos :
  bd_wf dev -> wf_hdr (hdr f) -> numBytes (hdr f) < 2 ^ 31 - 128 ->
  0 < nb -> 0 <= pos < Length f -> pos + nb < 2 ^ 31 -> nb <= Z.of_nat (length from) ->
  let n := Z.min nb (Length f - pos) in
  let old := file_bytes dev (hdr f) in
  exists dev', WriteAt garbage dev f from nb pos = Ret (dev', n) /\ bd_wf dev' /\
    file_bytes dev' (hdr f) =
      take (Z.to_nat pos) old ++ take (Z.to_nat n) from ++ drop (Z.to_nat (pos + n)) old /\
    (forall j, 0 <= j < NumSectors -> j ∉ sectors_of (hdr f) ->
       bd_sector dev' j = bd_sector dev j) /\
    forall g, exists dev'', ReadAt g dev' f nb pos = Ret (dev'', (n, take (Z.to_nat n) from)).
Proof.
  intros Hd Hh Hmax Hnb Hpos Hov Hfrom n old. unfold Length, FileLength in *.
  destruct (WriteAt_spec garbage dev f from nb pos) as (dev' & HW & Hd' & Hf & Hout); try done.
  exists dev'. do 4 (split; [done|]). intros g.
  destruct (ReadAt_spec g dev' f nb pos Hd' Hh) as (dev'' & -> & _); try lia.
  exists dev''. do 3 f_equal. rewrite Hf.
  pose proof (file_bytes_length dev (hdr f) Hd Hh).
  rewrite drop_app_length' by (rewrite length_take; lia).
  rewrite take_app_length' by (rewrite length_take; lia). done.
Qed.

(** The seek position.  [Write] at the position a [Seek] set, then [Seek] back
    and [Read], returns what was written, and both advance the position by the
    number of bytes they transferred. *)
Theorem Seek_Write_Read {D} `{BlockDevice D} garbage (dev : D) f0 from nb pos :
  bd_wf dev -> wf_hdr (hdr f0) -> numBytes (hdr f0) < 2 ^ 31 - 128 ->
  0 < nb -> 0 <= pos < Length f0 -> pos + nb < 2 ^ 31 -> nb <= Z.of_nat (length from) ->
  let n := Z.min nb (Length f0 - pos) in
  exists dev1 f1 dev2 f2,
    Write garbage dev (Seek f0 pos) from nb = Ret (dev1, f1, n) /\
    seekPosition f1 = pos + n /\
    Read garbage dev1 (Seek f1 pos) nb = Ret (dev2, f2, (n, take (Z.to_nat n) from)) /\
    seekPosition f2 = pos + n.
Proof.
  intros Hd Hh Hmax Hnb Hpos Hov Hfrom n. unfold Write, Read, Length, FileLength in *. simpl.
  destruct (WriteAt_spec garbage dev (Seek f0 pos) from nb pos) as (dev' & -> & Hd' & Hf & _);
    try done. rewrite rbind_Ret. simpl in *.
  exists dev', (mkOpenFile (hdr f0) (pos + n)).
  destruct (ReadAt_spec garbage dev' (mkOpenFile (hdr f0) pos) nb pos Hd' Hh)
    as (dev'' & HR & _); try (simpl; lia).
  unfold Seek. simpl in *. rewrite HR, rbind_Ret.
  exists dev'', (mkOpenFile (hdr f0) (pos + n)). do 2 (split; [done|]). split; [|done].
  do 3 f_equal. rewrite Hf.
  pose proof (file_bytes_length dev (hdr f0) Hd Hh).
  rewrite drop_app_length' by (rewrite length_take; lia).
  rewrite take_app_length' by (rewrite length_take; lia). done.
Qed.

(** ** A concrete file *)

(** 300 bytes in sectors 9, 4 and 700. *)
Definition sample_header : FileHeader := mkHeader 300 3 ([9; 4; 700] ++ replicate 27 0).
Definition sample_file : OpenFile := mkOpenFile sample_header 0.
Definition zero_garbage (n : nat) : byte := byte.of_Z 0.
Definition sample_text : list byte := replicate 150 (byte.of_Z 65).

Lemma sample_header_wf : wf_hdr sample_header.
Proof.
  split; try done.
  - repeat constructor; vm_compute; congruence.
  - apply (bool_decide_unpack _). vm_compute. exact I.
  - apply Forall_app. split; [|apply Forall_replicate]; repeat constructor; unfold is_s32; lia.
Qed.

Lemma ReadAt_slice_witness :
  exists dev' bytes, ReadAt zero_garbage sample_synchdisk sample_file 200 250 =
      Ret (dev', (50, bytes)) /\ length bytes = 50%nat.
Proof.
  destruct (ReadAt_slice zero_garbage sample_synchdisk sample_file 200 250 sample_synchdisk_wf
    sample_header_wf ltac:(simpl; lia) ltac:(lia) ltac:(lia))
    as (dev' & n & bytes & HR & _ & _ & Hn & _ & Hl).
  assert (n = 50) as -> by (rewrite Hn; reflexivity).
  exists dev', bytes. split; [exact HR|]. lia.
Defined.

Lemma WriteAt_updates_witness :
  exists dev', WriteAt zero_garbage sample_synchdisk sample_file sample_text 150 100 =
      Ret (dev', 150) /\
    exists dev'', ReadAt zero_garbage dev' sample_file 150 100 = Ret (dev'', (150, sample_text)).
Proof.
  destruct (WriteAt_updates zero_garbage sample_synchdisk sample_file sample_text 150 100
    sample_synchdisk_wf sample_header_wf ltac:(simpl; lia) ltac:(lia)
    ltac:(unfold Length; simpl; lia) ltac:(lia) ltac:(vm_compute; congruence))
    as (dev' & HW & _ & _ & _ & HR).
  exists dev'. split; [exact HW|]. exact (HR zero_garbage).
Defined.

Lemma Seek_Write_Read_witness :
  exists dev1 f1, Write zero_garbage sample_synchdisk (Seek sample_file 100) sample_text 150 =
      Ret (dev1, f1, 150) /\ seekPosition f1 = 250.
Proof.
  destruct (Seek_Write_Read zero_garbage sample_synchdisk sample_file sample_text 150 100
    sample_synchdisk_wf sample_header_wf ltac:(simpl; lia) ltac:(lia)
    ltac:(unfold Length; simpl; lia) ltac:(lia) ltac:(vm_compute; congruence))
    as (dev1 & f1 & _ & _ & HW & Hp & _).
  exists dev1, f1. split; [exact HW|exact Hp].
Defined.
