(* ===== verification/PBitmap.v ===== *)
(** * Bit maps kept in a Nachos file

    Model of filesys/pbitmap.{h,cc}: a [Bitmap] whose array of words is read from
    and written to an open file as it lies in memory, four little-endian bytes a
    word. *)

From S2P Require Import Prelude Bitmap Host Disk FileHdr OpenFile.

(** The bytes of [map], and back; the words are unsigned. *)
Definition map_bytes (ws : list Z) : list byte := concat (le_split 4 <$> ws).

Fixpoint uwords_of (n : nat) (bs : list byte) : list Z :=
  match n with
  | O => []
  | S n' => le_combine (take 4 bs) :: uwords_of n' (drop 4 bs)
  end.

Section pbitmap.
Context {D : Type} `{BlockDevice D}.
Variable garbage : nat -> byte.

(** [PersistentBitmap::PersistentBitmap(int)] is [Bitmap]'s constructor. *)
Definition new_PersistentBitmap (g : nat -> Z) (numItems : Z) : result Bitmap :=
  new_Bitmap g numItems.

Definition FetchFrom (dev : D) (b : Bitmap) (file : OpenFile) : result (D * Bitmap) :=
  let* (dev, (_, bs)) := ReadAt garbage dev file (numWords b * 4) 0 in
  let* img := zsplice (map_bytes (map b)) 0 bs in
  Ret (dev, mkBitmap (numBits b) (numWords b) (uwords_of (length (map b)) img)).

(** [PersistentBitmap::PersistentBitmap(OpenFile *, int)] *)
Definition new_PersistentBitmap_from (g : nat -> Z) (dev : D) (file : OpenFile) (numItems : Z)
    : result (D * Bitmap) :=
  let* b := new_Bitmap g numItems in
  FetchFrom dev b file.

Definition WriteBack (dev : D) (b : Bitmap) (file : OpenFile) : result D :=
  let* (dev, _) := WriteAt garbage dev file (map_bytes (map b)) (numWords b * 4) 0 in
  Ret dev.
End pbitmap.

(** ** Lemmas *)

Lemma map_bytes_length ws : length (map_bytes ws) = (length ws * 4)%nat.
Proof.
  unfold map_bytes. rewrite (length_chunks 4), length_fmap; [done|].
  apply Forall_fmap, Forall_forall. intros w _. apply length_le_split.
Qed.

Lemma uwords_of_map_bytes ws bs : Forall is_u32 ws ->
  uwords_of (length ws) (map_bytes ws ++ bs) = ws.
Proof.
  unfold map_bytes. induction 1 as [|w ws Hw Hws IH]; [done|].
  cbn [length uwords_of fmap list_fmap concat]. rewrite <- app_assoc.
  rewrite (take_app_length' (le_split 4 w)) by (by rewrite length_le_split).
  rewrite (drop_app_length' (le_split 4 w)) by (by rewrite length_le_split).
  rewrite le_combine_split, IH. f_equal. apply Z.mod_small. done.
Qed.

Section roundtrip.
Context {D : Type} `{BlockDevice D}.

(** The file starts with the bit map. *)
Definition holds_map (dev : D) (file : OpenFile) (b : Bitmap) : Prop :=
  take (length (map b) * 4) (file_bytes dev (hdr file)) = map_bytes (map b).

Lemma map_length b : wf_bitmap b -> Z.of_nat (length (map b)) = numWords b.
Proof. intros (_ & _ & ? & _). lia. Qed.

(** Fetching into any bit map of the same size gives the one in the file. *)
Lemma map_FetchFrom_holds g (dev : D) file b b0 :
  bd_wf dev -> wf_hdr (hdr file) -> numBytes (hdr file) < 2 ^ 31 ->
  wf_bitmap b -> wf_bitmap b0 -> numBits b0 = numBits b ->
  numWords b * 4 <= numBytes (hdr file) -> holds_map dev file b ->
  exists dev', FetchFrom g dev b0 file = Ret (dev', b) /\ bd_wf dev' /\
    forall j, bd_sector dev' j = bd_sector dev j.
Proof.
  intros Hd Hh Hmax Hb Hb0 Hbits Hroom Hholds. unfold FetchFrom.
  assert (Hw : numWords b0 = numWords b).
  { destruct Hb as (_ & -> & _), Hb0 as (_ & -> & _). by rewrite Hbits. }
  pose proof (map_length b Hb). pose proof (map_length b0 Hb0).
  assert (0 < numWords b).
  { destruct Hb as (? & -> & _). pose proof (divRoundUp_spec (numBits b) BitsInWord).
    unfold BitsInWord, BitsInByte in *. nia. }
  destruct (ReadAt_spec g dev file (numWords b * 4) 0 Hd Hh Hmax) as (dev' & HR & Hd' & Hs'); try lia.
  rewrite Hw, HR, rbind_Ret. clear HR. rewrite drop_0, Z.sub_0_r, Z.min_l by lia.
  replace (Z.to_nat (numWords b * 4)) with (length (map b) * 4)%nat by lia.
  rewrite Hholds.
  rewrite zsplice_in by (rewrite ?map_bytes_length; lia). rewrite rbind_Ret. cbn [Z.to_nat].
  change (take 0 (map_bytes (map b0))) with (@nil byte). rewrite app_nil_l.
  replace (length (map b0)) with (length (map b)) by lia.
  rewrite uwords_of_map_bytes by apply Hb.
  exists dev'. split; [|done]. do 2 f_equal. destruct b. simpl in *. by rewrite Hbits.
Qed.

Lemma map_WriteBack_holds g (dev : D) file b :
  bd_wf dev -> wf_hdr (hdr file) -> numBytes (hdr file) < 2 ^ 31 - 128 ->
  wf_bitmap b -> numWords b * 4 <= numBytes (hdr file) ->
  exists dev', WriteBack g dev b file = Ret dev' /\ bd_wf dev' /\ holds_map dev' file b /\
    forall j, 0 <= j < NumSectors -> j ∉ sectors_of (hdr file) -> bd_sector dev' j = bd_sector dev j.
Proof.
  intros Hd Hh Hmax Hb Hroom. unfold WriteBack.
  pose proof (map_length b Hb).
  assert (0 < numWords b).
  { destruct Hb as (? & -> & _). pose proof (divRoundUp_spec (numBits b) BitsInWord).
    unfold BitsInWord, BitsInByte in *. nia. }
  destruct (WriteAt_spec g dev file (map_bytes (map b)) (numWords b * 4) 0 Hd Hh Hmax)
    as (dev' & -> & Hd' & Hf & Hout); try lia; [rewrite map_bytes_length; lia|].
  rewrite rbind_Ret. exists dev'. split; [done|]. split; [done|]. split; [|done].
  unfold holds_map. rewrite Hf. rewrite Z.sub_0_r, Z.min_l by lia. cbn [Z.to_nat].
  change (take 0 (file_bytes dev (hdr file))) with (@nil byte). rewrite app_nil_l.
  rewrite (take_ge (map_bytes _)) by (rewrite map_bytes_length; lia).
  apply take_app_length'. by rewrite map_bytes_length.
Qed.
End roundtrip.

(** ** Claims *)

(** A bit map written back to a file that has room for it is the bit map a
    later [FetchFrom] or constructor from that file yields, whatever the new
    object held before, and sectors of other files are not touched. *)
Theorem pbitmap_roundtrip {D} `{BlockDevice D} g gw (dev : D) file b :
  bd_wf dev -> wf_hdr (hdr file) -> numBytes (hdr file) < 2 ^ 31 - 128 ->
  wf_bitmap b -> numWords b * 4 <= Length file ->
  exists dev', WriteBack g dev b file = Ret dev' /\ bd_wf dev' /\
    (forall j, 0 <= j < NumSectors -> j ∉ sectors_of (hdr file) ->
       bd_sector dev' j = bd_sector dev j) /\
    (forall b0, wf_bitmap b0 -> numBits b0 = numBits b ->
       exists dev'', FetchFrom g dev' b0 file = Ret (dev'', b)) /\
    exists dev'', new_PersistentBitmap_from g gw dev' file (numBits b) = Ret (dev'', b).
Proof.
  intros Hd Hh Hmax Hb Hroom. unfold Length, FileLength in Hroom.
  destruct (map_WriteBack_holds g dev file b Hd Hh Hmax Hb Hroom) as (dev' & HW & Hd' & Hh' & Hout).
  exists dev'. do 3 (split; [done|]).
  assert (HF : forall b0, wf_bitmap b0 -> numBits b0 = numBits b ->
       exists dev'', FetchFrom g dev' b0 file = Ret (dev'', b)).
  { intros b0 Hb0 Hn. destruct (map_FetchFrom_holds g dev' file b b0) as (dev'' & HF & _); try done; [lia|].
    eauto. }
  split; [done|]. unfold new_PersistentBitmap_from.
  destruct (new_Bitmap_spec gw (numBits b)) as (b0 & -> & Hb0 & Hn & _); [apply Hb|].
  rewrite rbind_Ret. by apply HF.
Qed.

Lemma pbitmap_roundtrip_witness :
  exists dev', WriteBack zero_garbage sample_synchdisk half_map sample_file = Ret dev' /\
    exists dev'', new_PersistentBitmap_from zero_garbage (fun _ => 0) dev' sample_file 1024 =
      Ret (dev'', half_map).
Proof.
  destruct (pbitmap_roundtrip zero_garbage (fun _ => 0) sample_synchdisk sample_file half_map
    sample_synchdisk_wf sample_header_wf ltac:(simpl; lia) half_map_wf ltac:(vm_compute; congruence))
    as (dev' & HW & _ & _ & _ & HF).
  exists dev'. split; [exact HW|exact HF].
Defined.
