(* ===== verification/Directory.v ===== *)
(** * Directories

    Model of filesys/directory.{h,cc}: a fixed table of entries, each with a
    name of at most [FileNameMaxLen] characters and the sector of the file's
    header, kept in a Nachos file as it lies in memory.  A [char *] argument is
    the memory it points to, up to and with the terminating zero at least.
    [strncmp], [strncpy] and the reading of a string by [printf] are those of the
    C library. *)

From S2P Require Import Prelude CString Bitmap Host Disk FileHdr OpenFile.

Definition FileNameMaxLen : Z := 9.

(** An entry is 20 bytes on this build: [bool inUse], three bytes of padding,
    [int sector], [char name[10]], two bytes of padding. *)
Record DirectoryEntry : Type := mkDirEntry {
  inUse : bool;
  pad1 : list byte;
  sector : Z;
  name : list byte;
  pad2 : list byte
}.
Definition sizeof_DirectoryEntry : Z := 20.

Record Directory : Type := mkDirectory {
  tableSize : Z;
  table : list DirectoryEntry
}.

(** ** The C string functions of bounded length *)

(** [strncmp(a, b, n) == 0] *)
Fixpoint strncmp_eq (n : nat) (a b : list byte) : result bool :=
  match n with
  | O => Ret true
  | S n' =>
      match a, b with
      | x :: a', y :: b' =>
          if bool_decide (x = y) then
            if bool_decide (x = NUL) then Ret true else strncmp_eq n' a' b'
          else Ret false
      | _, _ => Fault
      end
  end.

(** The [n] bytes that [strncpy(dst, src, n)] stores. *)
Fixpoint strncpy (n : nat) (src : list byte) : result (list byte) :=
  match n with
  | O => Ret []
  | S n' =>
      match src with
      | [] => Fault
      | x :: src' =>
          if bool_decide (x = NUL) then Ret (replicate n NUL)
          else let* r := strncpy n' src' in Ret (x :: r)
      end
  end.

(** ** The image of the table *)

Definition entry_bytes (e : DirectoryEntry) : list byte :=
  [byte.of_Z (if inUse e then 1 else 0)] ++ pad1 e ++ word_bytes (sector e) ++ name e ++ pad2 e.

Definition entry_of (bs : list byte) : DirectoryEntry :=
  mkDirEntry (negb (bool_decide (bs !! 0%nat = Some NUL)))
    (take 3 (drop 1 bs)) (s32 (le_combine (take 4 (drop 4 bs))))
    (take 10 (drop 8 bs)) (take 2 (drop 18 bs)).

Definition table_bytes (t : list DirectoryEntry) : list byte := concat (entry_bytes <$> t).

Fixpoint entries_of (n : nat) (bs : list byte) : list DirectoryEntry :=
  match n with
  | O => []
  | S n' => entry_of (take 20 bs) :: entries_of n' (drop 20 bs)
  end.

(** ** Operations *)

(** [Directory::Directory]; [g] is what [new DirectoryEntry[size]] contains. *)
Definition new_Directory (g : nat -> DirectoryEntry) (size : Z) : result Directory :=
  let* t := forZ 0 size (fun i t =>
      let* e := zget t i in
      zset t i (mkDirEntry false (pad1 e) (sector e) (name e) (pad2 e)))
    (uninit g (Z.to_nat size)) in
  Ret (mkDirectory size t).

Section persistence.
Context {D : Type} `{BlockDevice D}.
Variable garbage : nat -> byte.

Definition FetchFrom (dev : D) (d : Directory) (file : OpenFile) : result (D * Directory) :=
  let* (dev, (_, bs)) := ReadAt garbage dev file (tableSize d * sizeof_DirectoryEntry) 0 in
  let* img := zsplice (table_bytes (table d)) 0 bs in
  Ret (dev, mkDirectory (tableSize d) (entries_of (length (table d)) img)).

Definition WriteBack (dev : D) (d : Directory) (file : OpenFile) : result D :=
  let* (dev, _) :=
    WriteAt garbage dev file (table_bytes (table d)) (tableSize d * sizeof_DirectoryEntry) 0 in
  Ret dev.
End persistence.

Definition FindIndex (d : Directory) (nm : list byte) : result Z :=
  let* r := searchZ 0 (tableSize d) (fun i =>
      let* e := zget (table d) i in
      if inUse e then
        let* eq := strncmp_eq (Z.to_nat FileNameMaxLen) (name e) nm in
        Ret (if eq then Some i else None)
      else Ret None) in
  Ret (default (-1) r).

Definition Find (d : Directory) (nm : list byte) : result Z :=
  let* i := FindIndex d nm in
  if negb (i =? -1) then
    let* e := zget (table d) i in Ret (sector e)
  else Ret (-1).

Definition Add (d : Directory) (nm : list byte) (newSector : Z) : result (bool * Directory) :=
  let* i := FindIndex d nm in
  if negb (i =? -1) then Ret (false, d) else
  let* r := searchZ 0 (tableSize d) (fun i =>
      let* e := zget (table d) i in
      if negb (inUse e) then
        let* nm' := strncpy (Z.to_nat FileNameMaxLen) nm in
        let* nm'' := zsplice (name e) 0 nm' in
        let* t := zset (table d) i (mkDirEntry true (pad1 e) newSector nm'' (pad2 e)) in
        Ret (Some t)
      else Ret None) in
  match r with
  | Some t => Ret (true, mkDirectory (tableSize d) t)
  | None => Ret (false, d)
  end.

Definition Remove (d : Directory) (nm : list byte) : result (bool * Directory) :=
  let* i := FindIndex d nm in
  if i =? -1 then Ret (false, d) else
  let* e := zget (table d) i in
  let* t := zset (table d) i (mkDirEntry false (pad1 e) (sector e) (name e) (pad2 e)) in
  Ret (true, mkDirectory (tableSize d) t).

(** [Directory::List]: the names it prints, in order. *)
Definition List (d : Directory) : result (list (list byte)) :=
  forZ 0 (tableSize d) (fun i out =>
    let* e := zget (table d) i in
    if inUse e then let* s := c_str (name e) in Ret (out ++ [s]) else Ret out) [].

(** [Directory::Print]: name, header sector, and the printed file of each entry. *)
Definition Print {D} `{BlockDevice D} (dev : D) (d : Directory)
    : result (D * list (list byte * Z * (list Z * list (list byte)))) :=
  forZ 0 (tableSize d) (fun i (st : D * list (list byte * Z * (list Z * list (list byte)))) =>
    let (dev, out) := st in
    let* e := zget (table d) i in
    if inUse e then
      let* s := c_str (name e) in
      let* (dev, h) := FileHdr.FetchFrom dev (sector e) in
      let* (dev, p) := FileHdr.Print dev h in
      Ret (dev, out ++ [(s, sector e, p)])
    else Ret (dev, out)) (dev, []).

(** ** The abstract directory *)

(** What identifies a name: its first nine characters, up to the zero. *)
Fixpoint key_n (n : nat) (a : list byte) : list byte :=
  match n, a with
  | S n', x :: a' => if bool_decide (x = NUL) then [] else x :: key_n n' a'
  | _, _ => []
  end.
Definition key (nm : list byte) : list byte := key_n (Z.to_nat FileNameMaxLen) nm.

(** The entry in use under a key. *)
Definition has_key (k : list byte) (e : DirectoryEntry) : Prop :=
  inUse e = true /\ key (name e) = k.
#[global] Instance has_key_dec k e : Decision (has_key k e).
Proof. unfold has_key. apply _. Defined.

Definition lookup_name (d : Directory) (k : list byte) : option Z :=
  match list_find (has_key k) (table d) with
  | Some (_, e) => Some (sector e)
  | None => None
  end.

(** The number of entries in use. *)
Definition used (d : Directory) : nat := length (filter (fun e => inUse e = true) (table d)).

Record wf_entry (e : DirectoryEntry) : Prop := {
  we_name : length (name e) = 10%nat;
  we_pad1 : length (pad1 e) = 3%nat;
  we_pad2 : length (pad2 e) = 2%nat;
  we_sector : is_s32 (sector e)
}.

(** The table has its size, and no two entries in use have the same name. *)
Record wf_dir (d : Directory) : Prop := {
  wd_size : Z.of_nat (length (table d)) = tableSize d;
  wd_entries : Forall wf_entry (table d);
  wd_unique : forall i j e e', table d !! i = Some e -> table d !! j = Some e' ->
    inUse e = true -> inUse e' = true -> key (name e) = key (name e') -> i = j
}.

(** ** Lemmas: strings *)

(** The first [n] characters can be read. *)
Definition readable (n : nat) (a : list byte) : Prop := (n <= length a)%nat \/ NUL ∈ a.

Lemma readable_cons n x a : readable (S n) (x :: a) -> x <> NUL -> readable n a.
Proof.
  intros [Hl|Hin] Hx; [left; simpl in Hl; lia|].
  apply elem_of_cons in Hin as [Heq|Hin]; [congruence|]. by right.
Qed.

Lemma readable_nil n : ~ readable (S n) [].
Proof. intros [Hl|Hin]; [simpl in Hl; lia|by apply elem_of_nil in Hin]. Qed.

Lemma strncmp_eq_spec n : forall a b, readable n a -> readable n b ->
  strncmp_eq n a b = Ret (bool_decide (key_n n a = key_n n b)).
Proof.
  induction n as [|n IH]; intros a b Ha Hb; [done|].
  destruct a as [|x a]; [by apply readable_nil in Ha|].
  destruct b as [|y b]; [by apply readable_nil in Hb|]. simpl.
  destruct (decide (x = y)) as [->|Hne].
  - rewrite bool_decide_eq_true_2 by done.
    destruct (decide (y = NUL)) as [->|Hy].
    + rewrite !bool_decide_eq_true_2 by done. done.
    + rewrite (bool_decide_eq_false_2 (y = NUL)) by done.
      rewrite IH by (by eapply readable_cons). f_equal. apply bool_decide_ext.
      split; [by intros ->|by intros [= ->]].
  - rewrite (bool_decide_eq_false_2 (x = y)) by done. f_equal. symmetry.
    apply bool_decide_eq_false_2.
    destruct (decide (x = NUL)) as [->|Hx], (decide (y = NUL)) as [->|Hy]; try done;
      rewrite ?(bool_decide_eq_true_2 (NUL = NUL)), ?(bool_decide_eq_false_2 (x = NUL)),
        ?(bool_decide_eq_false_2 (y = NUL)) by done; congruence.
Qed.

Lemma strncpy_spec n : forall src, readable n src ->
  exists bs, strncpy n src = Ret bs /\ length bs = n /\
    forall rest, key_n n (bs ++ rest) = key_n n src.
Proof.
  induction n as [|n IH]; intros src Hs; [by exists []|].
  destruct src as [|x src]; [by apply readable_nil in Hs|]. simpl.
  destruct (decide (x = NUL)) as [->|Hx].
  - rewrite bool_decide_eq_true_2 by done. eexists. split; [done|].
    split; [simpl; by rewrite length_replicate|]. intros rest. simpl.
    done.
  - rewrite bool_decide_eq_false_2 by done.
    destruct (IH src ltac:(by eapply readable_cons)) as (bs & -> & Hl & Hk).
    rewrite rbind_Ret. eexists. split; [done|]. split; [simpl; lia|].
    intros rest. simpl. rewrite bool_decide_eq_false_2 by done. by rewrite Hk.
Qed.

(** ** Lemmas: the table *)

Lemma readable_cstring n nm : is_cstring nm -> readable n nm.
Proof. by right. Qed.

Lemma readable_name e : wf_entry e -> readable (Z.to_nat FileNameMaxLen) (name e).
Proof. intros [Hn _ _ _]. left. rewrite Hn. vm_compute. lia. Qed.

Lemma FindIndex_spec d nm : wf_dir d -> is_cstring nm ->
  FindIndex d nm = Ret (match list_find (has_key (key nm)) (table d) with
                        | Some (i, _) => Z.of_nat i | None => -1 end).
Proof.
  intros [Hsz Hent _] Hnm. unfold FindIndex.
  rewrite (searchZ_list_find (has_key (key nm)) (fun i _ => Z.of_nat i) (table d)); [|done|].
  - rewrite rbind_Ret. by destruct (list_find _ _) as [[i e]|].
  - intros i e He. rewrite (zget_lookup _ _ e), rbind_Ret by (lia || by rewrite Nat2Z.id).
    destruct (inUse e) eqn:Hu; [|by rewrite decide_False by (intros [? _]; congruence)].
    rewrite strncmp_eq_spec, rbind_Ret;
      [|by eapply readable_name, Forall_lookup_1|by apply readable_cstring].
    fold (key (name e)) (key nm). unfold has_key.
    case_bool_decide as Hk; case_decide as Hk'; unfold has_key in Hk'; naive_solver.
Qed.

Lemma Find_spec d nm : wf_dir d -> is_cstring nm ->
  Find d nm = Ret (default (-1) (lookup_name d (key nm))).
Proof.
  intros Hd Hnm. unfold Find, lookup_name. rewrite FindIndex_spec, rbind_Ret by done.
  destruct (list_find _ _) as [[i e]|] eqn:Hf; [|done].
  apply list_find_Some in Hf as (Hi & _ & _).
  rewrite (proj2 (Z.eqb_neq (Z.of_nat i) (-1))) by lia. simpl.
  by rewrite (zget_lookup _ _ e) by (lia || by rewrite Nat2Z.id).
Qed.

(** With unique names the entry under a key is the only one. *)
Lemma lookup_name_Some d k s : wf_dir d ->
  lookup_name d k = Some s <-> exists e, e ∈ table d /\ has_key k e /\ sector e = s.
Proof.
  intros Hd. unfold lookup_name. split.
  - destruct (list_find _ _) as [[i e]|] eqn:Hf; [|done]. intros [= <-].
    apply list_find_Some in Hf as (Hi & Hk & _). exists e. split; [|done].
    by eapply list_elem_of_lookup_2.
  - intros (e & (j & Hj)%list_elem_of_lookup & Hk & <-).
    destruct (list_find _ _) as [[i e']|] eqn:Hf.
    + apply list_find_Some in Hf as (Hi & [Hu' Hk'] & _). destruct Hk as [Hu Hk].
      assert (i = j) as -> by (eapply (wd_unique d Hd); try done; congruence). congruence.
    + apply list_find_None in Hf. rewrite Forall_lookup in Hf. naive_solver.
Qed.

Lemma lookup_name_None d k : wf_dir d ->
  lookup_name d k = None <-> forall e, e ∈ table d -> ~ has_key k e.
Proof.
  intros Hd. split.
  - intros Hn e He Hk. assert (lookup_name d k = Some (sector e)); [|congruence].
    apply lookup_name_Some; [done|]. eauto.
  - intros Hno. destruct (lookup_name d k) as [s|] eqn:Hl; [|done].
    apply lookup_name_Some in Hl as (e & He & Hk & _); [|done]. by apply Hno in Hk.
Qed.

(** Replacing one entry of the table. *)
Lemma lookup_name_insert d i e e' :
  wf_dir d -> wf_entry e' -> table d !! i = Some e ->
  (inUse e' = true -> forall j x, j <> i -> table d !! j = Some x -> ~ has_key (key (name e')) x) ->
  let d' := mkDirectory (tableSize d) (<[i := e']> (table d)) in
  wf_dir d' /\
  forall k s, lookup_name d' k = Some s <->
    (has_key k e' /\ sector e' = s) \/
    (~ has_key k e /\ lookup_name d k = Some s).
Proof.
  intros Hd He' Hi Huniq d'. apply lookup_lt_Some in Hi as Hlt.
  assert (Hd' : wf_dir d').
  { destruct Hd as [Hsz Hent Hu]. split; simpl.
    - by rewrite length_insert.
    - by apply Forall_insert.
    - intros a b x y Ha Hb Hux Huy Hk.
      apply list_lookup_insert_Some in Ha as [(<- & <- & _)|[Hai Ha]],
        Hb as [(<- & <- & _)|[Hbi Hb]]; try done.
      + exfalso. apply (Huniq Hux b y); try done.
      + exfalso. apply (Huniq Huy a x); try done.
      + by eapply Hu. }
  split; [done|]. intros k s. rewrite !lookup_name_Some by done. split.
  - intros (x & (j & Hj)%list_elem_of_lookup & Hk & Hs).
    apply list_lookup_insert_Some in Hj as [(<- & <- & _)|[Hne Hj]]; [by left|]. right. split.
    + intros Hke. apply Hne. symmetry. destruct Hk, Hke. eapply (wd_unique d Hd); try done. congruence.
    + exists x. split; [by eapply list_elem_of_lookup_2|done].
  - intros [[Hk Hs]|[Hnk (x & (j & Hj)%list_elem_of_lookup & Hk & Hs)]].
    + exists e'. split; [|done]. eapply list_elem_of_lookup_2. by apply list_lookup_insert_eq.
    + exists x. split; [|done]. apply (list_elem_of_lookup_2 _ j).
      simpl. rewrite list_lookup_insert_ne; [done|]. intros ->. naive_solver.
Qed.

Lemma used_insert d i e e' : table d !! i = Some e ->
  let d' := mkDirectory (tableSize d) (<[i := e']> (table d)) in
  (used d' + (if inUse e then 1 else 0) = used d + (if inUse e' then 1 else 0))%nat.
Proof.
  intros Hi. unfold used. simpl. rewrite (insert_take_drop _ i) by (by eapply lookup_lt_Some).
  rewrite <- (take_drop_middle (table d) i e) at 3 by done.
  rewrite !filter_app, !length_app, !filter_cons. destruct (inUse e), (inUse e'); simpl; lia.
Qed.

Lemma used_full d : wf_dir d ->
  (forall e, e ∈ table d -> inUse e = true) <-> Z.of_nat (used d) = tableSize d.
Proof.
  intros [Hsz _ _]. rewrite <- Hsz. unfold used. generalize (table d) as t. clear.
  intros t. split.
  - intros Hall. induction t as [|x t IH]; [done|]. rewrite filter_cons_True by (apply Hall; constructor).
    simpl. rewrite !Nat2Z.inj_succ, IH; [done|]. intros e He. apply Hall. by constructor.
  - intros Hlen e He. apply Nat2Z.inj in Hlen.
    destruct (inUse e) eqn:Hu; [done|].
    assert (Hlt : (length (filter (fun e => inUse e = true) t) < length t)%nat); [|lia].
    apply length_filter_lt with e; [done|]. by rewrite Hu.
Qed.

(** ** Lemmas: adding and removing names *)

Lemma key_splice e bs nm : wf_entry e -> length bs = Z.to_nat FileNameMaxLen ->
  (forall rest, key_n (Z.to_nat FileNameMaxLen) (bs ++ rest) = key nm) ->
  exists nm', zsplice (name e) 0 bs = Ret nm' /\ length nm' = 10%nat /\ key nm' = key nm.
Proof.
  intros [Hn _ _ _] Hl Hk. unfold FileNameMaxLen in *.
  rewrite zsplice_in by lia. eexists. split; [done|].
  rewrite length_splice by lia. split; [done|]. unfold key at 1, FileNameMaxLen. simpl take. apply Hk.
Qed.

Lemma Add_spec d nm s : wf_dir d -> is_cstring nm -> is_s32 s ->
  match lookup_name d (key nm) with
  | Some _ => Add d nm s = Ret (false, d)
  | None =>
      if Z.of_nat (used d) =? tableSize d then Add d nm s = Ret (false, d)
      else exists d', Add d nm s = Ret (true, d') /\ wf_dir d' /\ tableSize d' = tableSize d /\
        used d' = S (used d) /\
        forall k, lookup_name d' k = if decide (k = key nm) then Some s else lookup_name d k
  end.
Proof.
  intros Hd Hnm Hs. pose proof Hd as [Hsz Hent _]. unfold Add.
  rewrite FindIndex_spec, rbind_Ret by done.
  destruct (lookup_name d (key nm)) as [s0|] eqn:Hl.
  { unfold lookup_name in Hl. destruct (list_find _ _) as [[i e]|]; [|done].
    by rewrite (proj2 (Z.eqb_neq (Z.of_nat i) (-1))) by lia. }
  assert (Hnone : list_find (has_key (key nm)) (table d) = None)
    by (unfold lookup_name in Hl; by destruct (list_find _ _) as [[i e]|]).
  rewrite Hnone. simpl negb. cbv iota.
  destruct (strncpy_spec (Z.to_nat FileNameMaxLen) nm) as (bs & Hcp & Hbl & Hbk);
    [by apply readable_cstring|].
  assert (Hupd : forall i e, table d !! i = Some e -> exists nm', zsplice (name e) 0 bs = Ret nm' /\
    length nm' = 10%nat /\ key nm' = key nm).
  { intros i e He. apply key_splice; [by eapply Forall_lookup_1|done|]. intros. apply Hbk. }
  set (upd := fun (i : nat) e => match zsplice (name e) 0 bs with
    | Ret nm' => <[i := mkDirEntry true (pad1 e) s nm' (pad2 e)]> (table d) | _ => table d end).
  rewrite (searchZ_list_find (fun e => inUse e = false) upd (table d)); [|done|].
  2: { intros i e He. rewrite (zget_lookup _ _ e), rbind_Ret by (lia || by rewrite Nat2Z.id).
       destruct (inUse e); cbn [negb]; [done|]. rewrite Hcp, rbind_Ret.
       destruct (Hupd i e He) as (nm' & Hz & _). unfold upd. rewrite Hz, rbind_Ret.
       apply lookup_lt_Some in He. rewrite zset_in by lia. by rewrite Nat2Z.id. }
  rewrite rbind_Ret.
  destruct (list_find (fun e => inUse e = false) (table d)) as [[i e]|] eqn:Hfree.
  - apply list_find_Some in Hfree as (Hi & Hu & _).
    rewrite (proj2 (Z.eqb_neq _ _)).
    2: { intros Hfull. apply (used_full d Hd) with e in Hfull; [congruence|].
         by eapply list_elem_of_lookup_2. }
    destruct (Hupd i e Hi) as (nm' & Hz & Hlen & Hkey). unfold upd. rewrite Hz.
    eexists. split; [done|].
    pose proof (Forall_lookup_1 _ _ _ _ Hent Hi) as [? ? ? ?].
    destruct (lookup_name_insert d i e (mkDirEntry true (pad1 e) s nm' (pad2 e)) Hd)
      as [Hd' Hlook]; [by split|done| |].
    { simpl. rewrite Hkey. intros _ j x _ Hx. apply (proj1 (lookup_name_None d (key nm) Hd) Hl).
      by eapply list_elem_of_lookup_2. }
    split; [done|]. split; [done|]. split.
    { pose proof (used_insert d i e (mkDirEntry true (pad1 e) s nm' (pad2 e)) Hi) as Hc.
      rewrite Hu in Hc. simpl in Hc. lia. }
    intros k. apply option_eq. intros s'. rewrite Hlook. unfold has_key. simpl. rewrite Hkey.
    case_decide as Hk; [subst k; naive_solver|].
    split; [intros [[[_ ?] _]|[_ ?]]; [congruence|done]|].
    intros ?. right. split; [|done]. intros [? _]. congruence.
  - apply list_find_None in Hfree.
    rewrite (proj2 (Z.eqb_eq _ _)); [done|]. apply (used_full d Hd). intros e He.
    rewrite Forall_forall in Hfree. specialize (Hfree e He). by destruct (inUse e).
Qed.

Lemma dir_Remove_spec d nm : wf_dir d -> is_cstring nm ->
  match lookup_name d (key nm) with
  | None => Remove d nm = Ret (false, d)
  | Some _ =>
      exists d', Remove d nm = Ret (true, d') /\ wf_dir d' /\ tableSize d' = tableSize d /\
        used d = S (used d') /\
        forall k, lookup_name d' k = if decide (k = key nm) then None else lookup_name d k
  end.
Proof.
  intros Hd Hnm. pose proof Hd as [Hsz Hent _]. unfold Remove.
  rewrite FindIndex_spec, rbind_Ret by done. unfold lookup_name at 1.
  destruct (list_find _ _) as [[i e]|] eqn:Hf; [|done].
  apply list_find_Some in Hf as (Hi & [Hu Hk] & _).
  rewrite (proj2 (Z.eqb_neq (Z.of_nat i) (-1))) by lia.
  rewrite (zget_lookup _ _ e), rbind_Ret by (lia || by rewrite Nat2Z.id).
  apply lookup_lt_Some in Hi as Hlt. rewrite zset_in by lia. rewrite rbind_Ret, Nat2Z.id.
  pose proof (Forall_lookup_1 _ _ _ _ Hent Hi) as [? ? ? ?].
  set (e' := mkDirEntry false (pad1 e) (sector e) (name e) (pad2 e)).
  destruct (lookup_name_insert d i e e' Hd) as [Hd' Hlook]; [by split|done|done|].
  eexists. split; [done|]. split; [done|]. split; [done|]. split.
  { pose proof (used_insert d i e e' Hi) as Hc. rewrite Hu in Hc. simpl in Hc. lia. }
  intros k. apply option_eq. intros s'. rewrite Hlook. unfold has_key, e'. simpl. rewrite Hk.
  case_decide as Hkk; [subst k; naive_solver|].
  split; [intros [[[? _] _]|[_ ?]]; done|].
  intros ?. right. split; [|done]. intros [_ ?]. congruence.
Qed.

(** ** Lemmas: the image *)

Lemma entry_bytes_length e : wf_entry e -> length (entry_bytes e) = 20%nat.
Proof.
  intros [Hn H1 H2 _]. unfold entry_bytes.
  rewrite !length_app, word_bytes_length, Hn, H1, H2. done.
Qed.

Lemma entry_roundtrip e : wf_entry e -> entry_of (entry_bytes e) = e.
Proof.
  intros [Hn H1 H2 Hs]. unfold entry_bytes, entry_of.
  pose proof (word_bytes_length (sector e)) as Hw.
  pose proof (word_bytes_value (sector e) Hs) as Hv.
  destruct e as [u p1 s n p2]. cbn [sector name pad1 pad2 inUse] in *.
  generalize dependent (word_bytes s). intros w Hw Hv. simpl.
  f_equal.
  - by destruct u.
  - rewrite drop_0. by rewrite take_app_length' by lia.
  - rewrite drop_app_length' by lia. rewrite take_app_length' by lia.
    done.
  - rewrite (app_assoc p1), drop_app_length' by (rewrite length_app; lia).
    by rewrite take_app_length' by lia.
  - rewrite !(app_assoc p1), (app_assoc (p1 ++ _)).
    rewrite drop_app_length' by (rewrite !length_app; lia). by rewrite take_ge by lia.
Qed.

Lemma table_bytes_length t : Forall wf_entry t -> length (table_bytes t) = (length t * 20)%nat.
Proof.
  intros Ht. unfold table_bytes. rewrite (length_chunks 20), length_fmap; [done|].
  apply Forall_fmap. eapply Forall_impl; [done|]. intros e He. by apply entry_bytes_length.
Qed.

Lemma entries_of_table t bs : Forall wf_entry t ->
  entries_of (length t) (table_bytes t ++ bs) = t.
Proof.
  unfold table_bytes. induction 1 as [|e t He Ht IH]; [done|].
  cbn [length entries_of fmap list_fmap concat]. rewrite <- app_assoc.
  rewrite (take_app_length' (entry_bytes e)) by (by rewrite entry_bytes_length).
  rewrite (drop_app_length' (entry_bytes e)) by (by rewrite entry_bytes_length).
  by rewrite entry_roundtrip, IH.
Qed.

Section roundtrip.
Context {D : Type} `{BlockDevice D}.

(** The file starts with the directory's table. *)
Definition holds_dir (dev : D) (file : OpenFile) (d : Directory) : Prop :=
  take (length (table d) * 20) (file_bytes dev (hdr file)) = table_bytes (table d).

Lemma dir_FetchFrom_holds g (dev : D) file d d0 :
  bd_wf dev -> wf_hdr (hdr file) -> numBytes (hdr file) < 2 ^ 31 ->
  wf_dir d -> 0 < tableSize d ->
  Forall wf_entry (table d0) -> Z.of_nat (length (table d0)) = tableSize d0 ->
  tableSize d0 = tableSize d ->
  tableSize d * 20 <= numBytes (hdr file) -> holds_dir dev file d ->
  exists dev', FetchFrom g dev d0 file = Ret (dev', d) /\ bd_wf dev' /\
    forall j, bd_sector dev' j = bd_sector dev j.
Proof.
  intros Hd Hh Hmax [Hsz Hent Hu] Hpos Hent0 Hsz0 Heq Hroom Hholds.
  unfold FetchFrom, sizeof_DirectoryEntry.
  destruct (ReadAt_spec g dev file (tableSize d * 20) 0 Hd Hh Hmax) as (dev' & HR & Hd' & Hs'); try lia.
  rewrite Heq, HR, rbind_Ret. clear HR. rewrite drop_0, Z.sub_0_r, Z.min_l by lia.
  replace (Z.to_nat (tableSize d * 20)) with (length (table d) * 20)%nat by lia.
  rewrite Hholds.
  rewrite zsplice_in by (rewrite ?table_bytes_length by done; lia). rewrite rbind_Ret. cbn [Z.to_nat].
  change (take 0 (table_bytes (table d0))) with (@nil byte). rewrite app_nil_l.
  replace (length (table d0)) with (length (table d)) by lia.
  rewrite entries_of_table by done.
  exists dev'. split; [|done]. by destruct d.
Qed.

Lemma dir_WriteBack_holds g (dev : D) file d :
  bd_wf dev -> wf_hdr (hdr file) -> numBytes (hdr file) < 2 ^ 31 - 128 ->
  wf_dir d -> 0 < tableSize d -> tableSize d * 20 <= numBytes (hdr file) ->
  exists dev', WriteBack g dev d file = Ret dev' /\ bd_wf dev' /\ holds_dir dev' file d /\
    forall j, 0 <= j < NumSectors -> j ∉ sectors_of (hdr file) -> bd_sector dev' j = bd_sector dev j.
Proof.
  intros Hd Hh Hmax [Hsz Hent Hu] Hpos Hroom. unfold WriteBack, sizeof_DirectoryEntry.
  destruct (WriteAt_spec g dev file (table_bytes (table d)) (tableSize d * 20) 0 Hd Hh Hmax)
    as (dev' & -> & Hd' & Hf & Hout); try lia; [rewrite table_bytes_length by done; lia|].
  rewrite rbind_Ret. exists dev'. split; [done|]. split; [done|]. split; [|done].
  unfold holds_dir. rewrite Hf. rewrite Z.sub_0_r, Z.min_l by lia. cbn [Z.to_nat].
  change (take 0 (file_bytes dev (hdr file))) with (@nil byte). rewrite app_nil_l.
  rewrite (take_ge (table_bytes _)) by (rewrite table_bytes_length by done; lia).
  apply take_app_length'. by rewrite table_bytes_length.
Qed.
End roundtrip.

(** What the constructor makes of the storage it gets. *)
Lemma new_Directory_spec g size : 0 <= size -> (forall i, wf_entry (g i)) ->
  exists d, new_Directory g size = Ret d /\ wf_dir d /\ tableSize d = size /\
    used d = 0%nat /\ forall k, lookup_name d k = None.
Proof.
  intros Hs Hg. unfold new_Directory.
  set (clear := fun e => mkDirEntry false (pad1 e) (sector e) (name e) (pad2 e)).
  rewrite (forZ_fill clear).
  - rewrite rbind_Ret. eexists. split; [done|].
    assert (Hno : forall e, e ∈ clear <$> uninit g (Z.to_nat size) -> inUse e = false).
    { intros e (e0 & -> & _)%list_elem_of_fmap. done. }
    assert (Hwf : wf_dir (mkDirectory size (clear <$> uninit g (Z.to_nat size)))).
    { split; simpl.
      - rewrite length_fmap, length_uninit. lia.
      - apply Forall_fmap, Forall_forall. intros e (i & -> & _)%list_elem_of_fmap.
        destruct (Hg i). by split.
      - intros i j e e' Hi Hj Hue. apply list_elem_of_lookup_2, Hno in Hi. congruence. }
    split; [done|]. split; [done|]. split.
    + unfold used. simpl.
      apply Nat.le_0_r. destruct (filter _ _) as [|e l] eqn:Hf; [done|].
      assert (He : e ∈ filter (fun e => inUse e = true) (clear <$> uninit g (Z.to_nat size)))
        by (rewrite Hf; constructor).
      apply list_elem_of_filter in He as [? He]. apply Hno in He. congruence.
    + intros k. apply lookup_name_None; [done|]. intros e He [Hu _]. apply Hno in He. congruence.
  - rewrite length_uninit. lia.
  - intros i l' x Hl Hi Hx. rewrite (zget_lookup _ _ _ Hi Hx), rbind_Ret.
    apply lookup_lt_Some in Hx. by rewrite zset_in by lia.
Qed.

(** ** Claims *)

(** C20: a directory is a finite map from names (their first nine characters) to
    header sectors, of bounded size.  [Find] looks a name up; [Add] refuses a
    name that is present or a full table and otherwise binds it and nothing
    else; [Remove] refuses an absent name and otherwise unbinds it and nothing
    else; names stay unique. *)
Theorem directory_is_map d nm s : wf_dir d -> is_cstring nm -> is_s32 s ->
  Find d nm = Ret (default (-1) (lookup_name d (key nm))) /\
  match lookup_name d (key nm) with
  | Some _ => Add d nm s = Ret (false, d)
  | None =>
      if Z.of_nat (used d) =? tableSize d then Add d nm s = Ret (false, d)
      else exists d', Add d nm s = Ret (true, d') /\ wf_dir d' /\ tableSize d' = tableSize d /\
        used d' = S (used d) /\ Find d' nm = Ret s /\
        forall k, lookup_name d' k = if decide (k = key nm) then Some s else lookup_name d k
  end /\
  match lookup_name d (key nm) with
  | None => Remove d nm = Ret (false, d)
  | Some _ =>
      exists d', Remove d nm = Ret (true, d') /\ wf_dir d' /\ tableSize d' = tableSize d /\
        used d = S (used d') /\ Find d' nm = Ret (-1) /\
        forall k, lookup_name d' k = if decide (k = key nm) then None else lookup_name d k
  end.
Proof.
  intros Hd Hnm Hs. split; [by apply Find_spec|].
  pose proof (Add_spec d nm s Hd Hnm Hs) as HA. pose proof (dir_Remove_spec d nm Hd Hnm) as HR.
  destruct (lookup_name d (key nm)) as [s0|] eqn:Hl; (split; [|]); try done.
  - destruct HR as (d' & HR & Hd' & Ht & Hu & Hk). exists d'. do 4 (split; [done|]).
    split; [|done]. by rewrite Find_spec, Hk, decide_True.
  - case_if; [done|]. destruct HA as (d' & HA & Hd' & Ht & Hu & Hk). exists d'.
    do 4 (split; [done|]). split; [|done]. by rewrite Find_spec, Hk, decide_True.
Qed.

(** A directory written back to a file with room for its table is what a
    fresh directory object fetches from that file. *)
Theorem directory_persists {D} `{BlockDevice D} g ge (dev : D) file d :
  bd_wf dev -> wf_hdr (hdr file) -> numBytes (hdr file) < 2 ^ 31 - 128 ->
  wf_dir d -> 0 < tableSize d -> tableSize d * sizeof_DirectoryEntry <= Length file ->
  (forall i, wf_entry (ge i)) ->
  exists dev', WriteBack g dev d file = Ret dev' /\ bd_wf dev' /\
    (forall j, 0 <= j < NumSectors -> j ∉ sectors_of (hdr file) ->
       bd_sector dev' j = bd_sector dev j) /\
    exists d0 dev'', new_Directory ge (tableSize d) = Ret d0 /\
      FetchFrom g dev' d0 file = Ret (dev'', d).
Proof.
  intros Hd Hh Hmax Hdir Hpos Hroom Hge. unfold Length, FileLength, sizeof_DirectoryEntry in Hroom.
  destruct (dir_WriteBack_holds g dev file d Hd Hh Hmax Hdir Hpos Hroom) as (dev' & HW & Hd' & Hh' & Hout).
  exists dev'. do 3 (split; [done|]).
  destruct (new_Directory_spec ge (tableSize d)) as (d0 & Hn & [Hsz0 Hent0 _] & Ht & _); [lia|done|].
  destruct (dir_FetchFrom_holds g dev' file d d0) as (dev'' & HF & _); try done; [lia|].
  by exists d0, dev''.
Qed.

(** ** Concrete directories *)

Definition blank_entry : DirectoryEntry :=
  mkDirEntry false (replicate 3 NUL) 0 (replicate 10 NUL) (replicate 2 NUL).
Definition sample_name : list byte := byte.of_Z <$> [104; 97; 108; 116; 0].
Definition sample_dir : Directory := mkDirectory 10 (replicate 10 blank_entry).

Lemma blank_entry_wf : wf_entry blank_entry.
Proof. by split. Qed.

Lemma sample_dir_wf : wf_dir sample_dir.
Proof.
  split; [done|apply Forall_replicate, blank_entry_wf|].
  intros i j e e' Hi Hj Hu. apply lookup_replicate in Hi as [-> _]. done.
Qed.

Lemma directory_is_map_witness :
  exists d', Add sample_dir sample_name 42 = Ret (true, d') /\ Find d' sample_name = Ret 42.
Proof.
  destruct (directory_is_map sample_dir sample_name 42 sample_dir_wf) as (_ & HA & _).
  - unfold is_cstring. apply (bool_decide_unpack _). vm_compute. exact I.
  - unfold is_s32. lia.
  - destruct HA as (d' & HA & _ & _ & _ & HF & _). exists d'. split; [exact HA|exact HF].
Defined.

Lemma directory_persists_witness :
  exists dev', WriteBack zero_garbage sample_synchdisk sample_dir sample_file = Ret dev' /\
    exists d0 dev'', new_Directory (fun _ => blank_entry) 10 = Ret d0 /\
      FetchFrom zero_garbage dev' d0 sample_file = Ret (dev'', sample_dir).
Proof.
  destruct (directory_persists zero_garbage (fun _ => blank_entry) sample_synchdisk sample_file
    sample_dir sample_synchdisk_wf sample_header_wf ltac:(simpl; lia) sample_dir_wf
    ltac:(simpl; lia) ltac:(vm_compute; congruence) (fun _ => blank_entry_wf))
    as (dev' & HW & _ & _ & HF).
  exists dev'. split; [exact HW|exact HF].
Defined.

(** A name of nine characters is stored without its terminating zero, since
    [strncpy] stops at [FileNameMaxLen] and the tenth byte of the entry is never
    initialised: whether [List] stays inside the entry's name depends on what
    the freshly allocated table contained. *)
Theorem List_unterminated_name :
  let nm := (byte.of_Z <$> [97; 98; 99; 100; 101; 102; 103; 104; 105; 0]) : list byte in
  let listing (b : Z) :=
    let* d := new_Directory (fun _ => mkDirEntry false (replicate 3 NUL) 0
                               (replicate 10 (byte.of_Z b)) (replicate 2 NUL)) 10 in
    let* (ok, d) := Add d nm 5 in
    List d in
  listing 0 = Ret [byte.of_Z <$> [97; 98; 99; 100; 101; 102; 103; 104; 105]] /\
  listing 120 = Fault.
Proof. by vm_compute. Qed.
