(* ===== verification/FileSys.v ===== *)
(** * The Nachos file system

    Model of filesys/filesys.cc and of the [FileSystem] class of
    filesys/filesys.h without [FILESYS_STUB]: formatting a disk, creating,
    opening, removing and listing files, over the directory and the free map
    that are themselves files.  The contents of uninitialised objects ([new
    char[n]], a fresh bit map, directory or header) are arguments. *)

From S2P Require Import Prelude CString Bitmap Host Disk FileHdr OpenFile PBitmap Directory.

Definition FreeMapSector : Z := 0.
Definition DirectorySector : Z := 1.
Definition FreeMapFileSize : Z := NumSectors / BitsInByte.
Definition NumDirEntries : Z := 10.
Definition DirectoryFileSize : Z := sizeof_DirectoryEntry * NumDirEntries.

Section filesys.
Context {D : Type} `{BlockDevice D}.
Variables (garbage : nat -> byte) (g_words : nat -> Z) (g_entries : nat -> DirectoryEntry)
  (g_hdr : FileHeader).

Record FileSystem : Type := mkFS {
  dev : D;
  freeMapFile : OpenFile;
  directoryFile : OpenFile
}.

(** [new Directory(NumDirEntries)] followed by [FetchFrom(directoryFile)]. *)
Definition fetch_directory (fs : FileSystem) : result (FileSystem * Directory) :=
  let* d := new_Directory g_entries NumDirEntries in
  let* (dv, d) := Directory.FetchFrom garbage (dev fs) d (directoryFile fs) in
  Ret (mkFS dv (freeMapFile fs) (directoryFile fs), d).

(** [new PersistentBitmap(freeMapFile, NumSectors)] *)
Definition fetch_freeMap (fs : FileSystem) : result (FileSystem * Bitmap) :=
  let* (dv, b) := new_PersistentBitmap_from garbage g_words (dev fs) (freeMapFile fs) NumSectors in
  Ret (mkFS dv (freeMapFile fs) (directoryFile fs), b).

Definition new_FileSystem (dv : D) (format : bool) : result FileSystem :=
  if format then
    let* freeMap := new_PersistentBitmap g_words NumSectors in
    let* directory := new_Directory g_entries NumDirEntries in
    let* freeMap := Mark freeMap FreeMapSector in
    let* freeMap := Mark freeMap DirectorySector in
    let* (ok, mapHdr, freeMap) := Allocate g_hdr freeMap FreeMapFileSize in
    assert* ok in
    let* (ok, dirHdr, freeMap) := Allocate g_hdr freeMap DirectoryFileSize in
    assert* ok in
    let* dv := FileHdr.WriteBack dv mapHdr FreeMapSector in
    let* dv := FileHdr.WriteBack dv dirHdr DirectorySector in
    let* (dv, freeMapFile) := new_OpenFile dv FreeMapSector in
    let* (dv, directoryFile) := new_OpenFile dv DirectorySector in
    let* dv := PBitmap.WriteBack garbage dv freeMap freeMapFile in
    let* dv := Directory.WriteBack garbage dv directory directoryFile in
    Ret (mkFS dv freeMapFile directoryFile)
  else
    let* (dv, freeMapFile) := new_OpenFile dv FreeMapSector in
    let* (dv, directoryFile) := new_OpenFile dv DirectorySector in
    Ret (mkFS dv freeMapFile directoryFile).

Definition Create (fs : FileSystem) (name : list byte) (initialSize : Z)
    : result (bool * FileSystem) :=
  let* (fs, directory) := fetch_directory fs in
  let* found := Find directory name in
  if negb (found =? -1) then Ret (false, fs) else
  let* (fs, freeMap) := fetch_freeMap fs in
  let* (sector, freeMap) := FindAndSet freeMap in
  if sector =? -1 then Ret (false, fs) else
  let* (added, directory) := Add directory name sector in
  if negb added then Ret (false, fs) else
  let* (ok, hdr, freeMap) := Allocate g_hdr freeMap initialSize in
  if negb ok then Ret (false, fs) else
  let* dv := FileHdr.WriteBack (dev fs) hdr sector in
  let* dv := Directory.WriteBack garbage dv directory (directoryFile fs) in
  let* dv := PBitmap.WriteBack garbage dv freeMap (freeMapFile fs) in
  Ret (true, mkFS dv (freeMapFile fs) (directoryFile fs)).

(** [FileSystem::Open]: [None] is the null pointer. *)
Definition Open (fs : FileSystem) (name : list byte) : result (FileSystem * option OpenFile) :=
  let* (fs, directory) := fetch_directory fs in
  let* sector := Find directory name in
  if sector >=? 0 then
    let* (dv, openFile) := new_OpenFile (dev fs) sector in
    Ret (mkFS dv (freeMapFile fs) (directoryFile fs), Some openFile)
  else Ret (fs, None).

Definition Remove (fs : FileSystem) (name : list byte) : result (bool * FileSystem) :=
  let* (fs, directory) := fetch_directory fs in
  let* sector := Find directory name in
  if sector =? -1 then Ret (false, fs) else
  let* (dv, fileHdr) := FileHdr.FetchFrom (dev fs) sector in
  let fs := mkFS dv (freeMapFile fs) (directoryFile fs) in
  let* (fs, freeMap) := fetch_freeMap fs in
  let* freeMap := Deallocate fileHdr freeMap in
  let* freeMap := Clear freeMap sector in
  let* (_, directory) := Directory.Remove directory name in
  let* dv := PBitmap.WriteBack garbage (dev fs) freeMap (freeMapFile fs) in
  let* dv := Directory.WriteBack garbage dv directory (directoryFile fs) in
  Ret (true, mkFS dv (freeMapFile fs) (directoryFile fs)).

Definition List (fs : FileSystem) : result (FileSystem * list (list byte)) :=
  let* (fs, directory) := fetch_directory fs in
  let* names := Directory.List directory in
  Ret (fs, names).

(** [FileSystem::Print]: what is printed of the two headers, the free map and
    the directory. *)
Definition Print (fs : FileSystem) :=
  let* (fs, freeMap) := fetch_freeMap fs in
  let* directory := new_Directory g_entries NumDirEntries in
  let* (dv, bitHdr) := FileHdr.FetchFrom (dev fs) FreeMapSector in
  let* (dv, p1) := FileHdr.Print dv bitHdr in
  let* (dv, dirHdr) := FileHdr.FetchFrom dv DirectorySector in
  let* (dv, p2) := FileHdr.Print dv dirHdr in
  let* bits := Bitmap.Print freeMap in
  let* (dv, directory) := Directory.FetchFrom garbage dv directory (directoryFile fs) in
  let* (dv, p3) := Directory.Print dv directory in
  Ret (mkFS dv (freeMapFile fs) (directoryFile fs), (p1, p2, bits, p3)).
End filesys.
Arguments FileSystem : clear implicits.
Arguments mkFS {D}.

(** ** The invariant of a file system

    [files] maps each name (by its key) to the sector of its header and the
    header.  Every sector has at most one owner: the two well-known header
    sectors, the data of the free map, the data of the directory, or one file,
    and it is marked in the free map exactly when it has one. *)

(** The files by the key of their names. *)
Abbreviation files_t := (gmap (list byte) (Z * FileHeader)).

Inductive owner : Type := Headers | MapData | DirData | FileOf (k : list byte).

#[global] Instance owner_eq_dec : EqDecision owner.
Proof. solve_decision. Defined.

Section invariant.
Context {D : Type} `{BlockDevice D}.
Implicit Types (fs : FileSystem D) (dv : D) (b : Bitmap) (d : Directory) (files : files_t).


Definition owns (fs : FileSystem D) (files : files_t) (o : owner) : list Z :=
  match o with
  | Headers => [FreeMapSector; DirectorySector]
  | MapData => sectors_of (hdr (freeMapFile fs))
  | DirData => sectors_of (hdr (directoryFile fs))
  | FileOf k =>
      match files !! k with Some (s, h) => s :: sectors_of h | None => [] end
  end.

(** [s] holds the image of header [h]. *)
Definition header_at (dv : D) (s : Z) (h : FileHeader) : Prop :=
  header_of (bd_sector dv s) = Ret h.

Record fs_inv (fs : FileSystem D) (b : Bitmap) (d : Directory) (files : files_t) : Prop := {
  fi_dev : bd_wf (dev fs);
  fi_maphdr : wf_hdr (hdr (freeMapFile fs)) /\ numBytes (hdr (freeMapFile fs)) = FreeMapFileSize;
  fi_dirhdr : wf_hdr (hdr (directoryFile fs)) /\
              numBytes (hdr (directoryFile fs)) = DirectoryFileSize;
  fi_boot : header_at (dev fs) FreeMapSector (hdr (freeMapFile fs)) /\
            header_at (dev fs) DirectorySector (hdr (directoryFile fs));
  fi_map : wf_bitmap b /\ numBits b = NumSectors /\ holds_map (dev fs) (freeMapFile fs) b;
  fi_dir : wf_dir d /\ tableSize d = NumDirEntries /\ holds_dir (dev fs) (directoryFile fs) d;
  fi_names : forall k, lookup_name d k = fst <$> files !! k;
  fi_files : forall k s h, files !! k = Some (s, h) -> wf_hdr h /\ header_at (dev fs) s h;
  fi_range : forall o s, s ∈ owns fs files o -> 0 <= s < NumSectors;
  fi_nodup : forall o, NoDup (owns fs files o);
  fi_owner : forall o o' s, s ∈ owns fs files o -> s ∈ owns fs files o' -> o = o';
  fi_marked : forall s, 0 <= s < NumSectors -> bit b s = true <-> exists o, s ∈ owns fs files o
}.

(** ** Lemmas: what a device change preserves *)

Lemma image_agree dv dv' h : (forall s, s ∈ sectors_of h -> bd_sector dv' s = bd_sector dv s) ->
  image dv' h = image dv h.
Proof.
  intros Hs. unfold image. f_equal. apply list_fmap_ext. intros i s Hi.
  apply Hs. by eapply list_elem_of_lookup_2.
Qed.

Lemma file_bytes_agree dv dv' h :
  (forall s, s ∈ sectors_of h -> bd_sector dv' s = bd_sector dv s) ->
  file_bytes dv' h = file_bytes dv h.
Proof. intros Hs. unfold file_bytes. by rewrite (image_agree dv dv'). Qed.

Lemma fs_inv_read fs dv b d files : fs_inv fs b d files -> bd_wf dv ->
  (forall j, bd_sector dv j = bd_sector (dev fs) j) ->
  fs_inv (mkFS dv (freeMapFile fs) (directoryFile fs)) b d files.
Proof.
  intros [? ? ? [Hb1 Hb2] (? & ? & Hm) (? & ? & Hd) ? Hf ? ? ? ?] Hwf Hs.
  assert (Hh : forall s h, header_at (dev fs) s h -> header_at dv s h)
    by (intros s h; unfold header_at; by rewrite Hs).
  split; simpl; try done.
  - auto.
  - split; [done|]. split; [done|]. unfold holds_map in *. by rewrite (file_bytes_agree (dev fs)).
  - split; [done|]. split; [done|]. unfold holds_dir in *. by rewrite (file_bytes_agree (dev fs)).
  - intros k s h Hk. destruct (Hf k s h Hk). auto.
Qed.

Lemma header_at_fetch dv s h : bd_wf dv -> 0 <= s < NumSectors -> header_at dv s h ->
  exists dv', FileHdr.FetchFrom dv s = Ret (dv', h) /\ bd_wf dv' /\
    forall j, bd_sector dv' j = bd_sector dv j.
Proof.
  intros Hd Hs Hh. unfold FileHdr.FetchFrom.
  destruct (bd_read_spec dv s Hd Hs) as (dv' & -> & ? & ?). rewrite rbind_Ret.
  unfold header_at in Hh. rewrite Hh. simpl. eauto.
Qed.

(** Writing a header. *)
Lemma header_write dv s h : bd_wf dv -> 0 <= s < NumSectors -> wf_hdr h ->
  numBytes h < 2 ^ 31 ->
  exists dv', FileHdr.WriteBack dv h s = Ret dv' /\ bd_wf dv' /\ header_at dv' s h /\
    forall j, 0 <= j < NumSectors -> j <> s -> bd_sector dv' j = bd_sector dv j.
Proof.
  intros Hd Hs [Hl Hb Hn Hm _ _ H32] Hmax. unfold FileHdr.WriteBack.
  destruct (bd_write_spec dv s (header_bytes h) Hd Hs (header_bytes_length _ Hl))
    as (dv' & -> & ? & Hsec).
  exists dv'. split; [done|]. split; [done|]. split.
  - unfold header_at. rewrite Hsec, Z.eqb_refl by done. apply header_roundtrip; try done.
    + unfold is_s32. lia.
    + pose proof (divRoundUp_nonneg (numBytes h) SectorSize).
      change NumDirect with 30 in Hm. unfold is_s32, SectorSize in *. lia.
  - intros j Hj Hne. rewrite Hsec by done. by rewrite (proj2 (Z.eqb_neq j s)).
Qed.

(** A batch of writes that touches the free map, the directory and sectors that
    had no owner. *)
Lemma fs_inv_update fs b d files (fresh : Z -> Prop) dv (b' : Bitmap)
    (d' : Directory) (files' : files_t) :
  fs_inv fs b d files -> bd_wf dv ->
  (forall x o, fresh x -> x ∉ owns fs files o) ->
  (forall j, 0 <= j < NumSectors -> j ∉ owns fs files MapData -> j ∉ owns fs files DirData ->
     ~ fresh j -> bd_sector dv j = bd_sector (dev fs) j) ->
  wf_bitmap b' -> numBits b' = NumSectors -> holds_map dv (freeMapFile fs) b' ->
  wf_dir d' -> tableSize d' = NumDirEntries -> holds_dir dv (directoryFile fs) d' ->
  (forall k, lookup_name d' k = fst <$> files' !! k) ->
  (forall k s h, files' !! k = Some (s, h) ->
     files !! k = Some (s, h) \/ wf_hdr h /\ header_at dv s h) ->
  (forall k s, s ∈ owns fs files' (FileOf k) -> 0 <= s < NumSectors) ->
  (forall k, NoDup (owns fs files' (FileOf k))) ->
  (forall o o' s, s ∈ owns fs files' o -> s ∈ owns fs files' o' -> o = o') ->
  (forall s, 0 <= s < NumSectors -> bit b' s = true <-> exists o, s ∈ owns fs files' o) ->
  fs_inv (mkFS dv (freeMapFile fs) (directoryFile fs)) b' d' files' /\
  forall k s h, files !! k = Some (s, h) -> file_bytes dv h = file_bytes (dev fs) h.
Proof.
  intros [? ? ? [Hb1 Hb2] _ _ _ Hf Hrange Hnd Hown _] Hdv Hfresh Hframe Hb' Hnb' Hhm Hd' Hts Hhd
    Hnames Hfiles Hr' Hn' Ho' Hm'.
  assert (Hkeep : forall o s, o <> MapData -> o <> DirData -> s ∈ owns fs files o ->
    bd_sector dv s = bd_sector (dev fs) s).
  { intros o s Ho1 Ho2 Hin. apply Hframe.
    - by eapply Hrange.
    - intros Hin'. by eapply Ho1, Hown.
    - intros Hin'. by eapply Ho2, Hown.
    - intros Hx. by eapply Hfresh. }
  assert (Hat : forall o s h, o <> MapData -> o <> DirData -> s ∈ owns fs files o ->
    header_at (dev fs) s h -> header_at dv s h).
  { intros o s h ? ? Hin. unfold header_at. by rewrite (Hkeep o). }
  split.
  - split; simpl; try done.
    + split; [apply (Hat Headers)|apply (Hat Headers)]; try done; simpl; set_solver.
    + intros k s h Hk. destruct (Hfiles k s h Hk) as [Hold|]; [|done].
      destruct (Hf k s h Hold). split; [done|]. apply (Hat (FileOf k)); try done.
      simpl. rewrite Hold. set_solver.
    + intros [| | |k] s Hs; try (by apply (Hrange Headers)); try (by apply (Hrange MapData));
        try (by apply (Hrange DirData)). by apply (Hr' k).
    + intros [| | |k]; try (by apply (Hnd Headers)); try (by apply (Hnd MapData));
        try (by apply (Hnd DirData)). by apply (Hn' k).
  - intros k s h Hk. apply file_bytes_agree. intros x Hx. apply (Hkeep (FileOf k)); try done.
    simpl. rewrite Hk. set_solver.
Qed.
(** Writing the data of one file. *)
Lemma fs_inv_data fs b d files k s h dv : fs_inv fs b d files -> files !! k = Some (s, h) ->
  bd_wf dv ->
  (forall j, 0 <= j < NumSectors -> j ∉ sectors_of h -> bd_sector dv j = bd_sector (dev fs) j) ->
  fs_inv (mkFS dv (freeMapFile fs) (directoryFile fs)) b d files /\
  forall k' s' h', k' <> k -> files !! k' = Some (s', h') ->
    file_bytes dv h' = file_bytes (dev fs) h'.
Proof.
  intros [_ ? ? [Hb1 Hb2] (? & ? & Hm) (? & ? & Hd) ? Hf Hrange Hnd Hown ?] Hk Hdv Hframe.
  assert (Hkeep : forall o x, o <> FileOf k -> x ∈ owns fs files o ->
    bd_sector dv x = bd_sector (dev fs) x).
  { intros o x Ho Hin. apply Hframe; [by eapply Hrange|]. intros Hx. apply Ho.
    apply (Hown _ _ x Hin). simpl. rewrite Hk. set_solver. }
  assert (Hat : forall o x h', o <> FileOf k -> x ∈ owns fs files o ->
    header_at (dev fs) x h' -> header_at dv x h').
  { intros o x h' ? Hin. unfold header_at. by rewrite (Hkeep o). }
  split.
  - split; cbn [dev freeMapFile directoryFile]; try done.
    + split; [apply (Hat Headers)|apply (Hat Headers)]; try done; simpl; set_solver.
    + split; [done|]. split; [done|]. unfold holds_map in *.
      rewrite (file_bytes_agree (dev fs)); [done|]. intros x Hx. by apply (Hkeep MapData).
    + split; [done|]. split; [done|]. unfold holds_dir in *.
      rewrite (file_bytes_agree (dev fs)); [done|]. intros x Hx. by apply (Hkeep DirData).
    + intros k' s' h' Hk'. destruct (Hf k' s' h' Hk') as [? Hat']. split; [done|].
      destruct (decide (k' = k)) as [->|Hne].
      * simplify_eq. unfold header_at. rewrite Hframe; [done| |].
        -- apply (Hrange (FileOf k)). simpl. rewrite Hk. set_solver.
        -- pose proof (Hnd (FileOf k)) as Hn. simpl in Hn. rewrite Hk in Hn.
           by apply NoDup_cons in Hn as [? _].
      * apply (Hat (FileOf k')); [congruence| |done]. simpl. rewrite Hk'. set_solver.
  - intros k' s' h' Hne Hk'. apply file_bytes_agree. intros x Hx. apply (Hkeep (FileOf k')); [congruence|].
    simpl. rewrite Hk'. set_solver.
Qed.
End invariant.

Section operations.
Context {D : Type} `{BlockDevice D}.
Implicit Types (fs : FileSystem D) (b : Bitmap) (d : Directory) (files : files_t).
Variables (garbage : nat -> byte) (g_words : nat -> Z) (g_entries : nat -> DirectoryEntry)
  (g_hdr : FileHeader).
Hypothesis g_entries_wf : forall i, wf_entry (g_entries i).
Hypothesis g_hdr_len : Z.of_nat (length (dataSectors g_hdr)) = NumDirect.
Hypothesis g_hdr_s32 : Forall is_s32 (dataSectors g_hdr).

Lemma fetch_directory_spec fs b d files : fs_inv fs b d files ->
  exists fs', fetch_directory garbage g_entries fs = Ret (fs', d) /\ fs_inv fs' b d files /\
    freeMapFile fs' = freeMapFile fs /\ directoryFile fs' = directoryFile fs /\
    forall j, bd_sector (dev fs') j = bd_sector (dev fs) j.
Proof.
  intros Hi. pose proof Hi as [Hd _ [Hh Hn] _ _ (Hwd & Hts & Hhd) _ _ _ _ _ _].
  unfold fetch_directory.
  destruct (new_Directory_spec g_entries NumDirEntries) as (d0 & -> & [Hsz0 Hent0 _] & Ht0 & _);
    [vm_compute; congruence|done|]. rewrite rbind_Ret.
  destruct (dir_FetchFrom_holds garbage (dev fs) (directoryFile fs) d d0 Hd Hh)
    as (dv & -> & Hdv & Hs);
    [by rewrite Hn|done|by rewrite Hts|done|done|congruence|by rewrite Hn, Hts|done|].
  rewrite rbind_Ret. eexists. split; [done|]. split; [by apply fs_inv_read|]. done.
Qed.

Lemma fetch_freeMap_spec fs b d files : fs_inv fs b d files ->
  exists fs', fetch_freeMap garbage g_words fs = Ret (fs', b) /\ fs_inv fs' b d files /\
    freeMapFile fs' = freeMapFile fs /\ directoryFile fs' = directoryFile fs /\
    forall j, bd_sector (dev fs') j = bd_sector (dev fs) j.
Proof.
  intros Hi. pose proof Hi as [Hd [Hh Hn] _ _ (Hwb & Hnb & Hhm) _ _ _ _ _ _ _].
  unfold fetch_freeMap, new_PersistentBitmap_from.
  destruct (new_Bitmap_spec g_words NumSectors) as (b0 & -> & Hb0 & Hn0 & _);
    [vm_compute; congruence|]. rewrite rbind_Ret.
  assert (Hw : numWords b = 32) by (destruct Hwb as (_ & -> & _); by rewrite Hnb).
  destruct (map_FetchFrom_holds garbage (dev fs) (freeMapFile fs) b b0 Hd Hh)
    as (dv & -> & Hdv & Hs); [by rewrite Hn|done|done|congruence|by rewrite Hn, Hw|done|].
  rewrite rbind_Ret. eexists. split; [done|]. split; [by apply fs_inv_read|]. done.
Qed.

(** [Open] finds exactly the files there are. *)
Lemma Open_spec fs b d files name : fs_inv fs b d files -> is_cstring name ->
  exists fs', Open garbage g_entries fs name =
      Ret (fs', (fun p => mkOpenFile (snd p) 0) <$> files !! key name) /\
    fs_inv fs' b d files /\ forall j, bd_sector (dev fs') j = bd_sector (dev fs) j.
Proof.
  intros Hi Hnm. unfold Open.
  destruct (fetch_directory_spec fs b d files Hi) as (fs1 & -> & Hi1 & Hm1 & Hd1 & Hs1).
  rewrite rbind_Ret. pose proof Hi1 as [Hdv1 _ _ _ _ (Hwd & _ & _) Hnames Hfiles Hrange _ _ _].
  rewrite Find_spec, rbind_Ret, Hnames by done.
  destruct (files !! key name) as [[s h]|] eqn:Hk; simpl; [|by exists fs1].
  assert (Hs : 0 <= s < NumSectors)
    by (apply (Hrange (FileOf (key name))); simpl; rewrite Hk; set_solver).
  rewrite Z.geb_leb, (proj2 (Z.leb_le 0 s)) by lia. unfold new_OpenFile.
  destruct (Hfiles _ _ _ Hk) as [_ Hat].
  destruct (header_at_fetch (dev fs1) s h Hdv1 Hs Hat) as (dv & -> & Hdv & Hsec).
  simpl. eexists. split; [done|]. split; [by apply fs_inv_read|].
  intros j. simpl. by rewrite Hsec, Hs1.
Qed.

(** Sectors just allocated belong to nobody else. *)
Lemma free_unowned fs b d files s o : fs_inv fs b d files -> 0 <= s < NumSectors ->
  bit b s = false -> s ∉ owns fs files o.
Proof.
  intros Hi Hs Hb Hin. assert (bit b s = true); [|congruence].
  apply (fi_marked _ _ _ _ Hi s Hs). eauto.
Qed.

Lemma owns_insert_other fs (files : files_t) k v o :
  o <> FileOf k -> owns fs (<[k := v]> files) o = owns fs files o.
Proof.
  intros Ho. destruct o as [| | |k']; try done. simpl.
  rewrite lookup_insert_ne; [done|]. congruence.
Qed.

Lemma owns_delete_other fs (files : files_t) k o :
  o <> FileOf k -> owns fs (delete k files) o = owns fs files o.
Proof.
  intros Ho. destruct o as [| | |k']; try done. simpl.
  rewrite lookup_delete_ne; [done|]. congruence.
Qed.

(** The header of a successful allocation is well formed. *)
Lemma allocated_header (b1 b2 : Bitmap) h size : 0 <= size -> numBits b1 = NumSectors ->
  numBytes h = size -> numSectors h = divRoundUp size SectorSize ->
  numSectors h <= NumDirect ->
  Z.of_nat (length (dataSectors h)) = NumDirect ->
  drop (Z.to_nat (numSectors h)) (dataSectors h) =
    drop (Z.to_nat (numSectors h)) (dataSectors g_hdr) ->
  allocated b1 b2 (sectors_of h) -> wf_hdr h.
Proof.
  intros Hsz Hnb Hb Hs Hmax Hl Hdrop [_ _ Hr _ Hnd _ _]. change al_size with numBits in Hr.
  rewrite Hnb in Hr. split; try done; try (by rewrite Hb).
  rewrite <- (take_drop (Z.to_nat (numSectors h)) (dataSectors h)), Hdrop.
  apply Forall_app. split.
  - eapply Forall_impl; [exact Hr|]. simpl. intros x Hx.
    change NumSectors with 1024 in Hx. unfold is_s32. lia.
  - by apply Forall_drop.
Qed.

(** Everything [Create] writes, once all its checks have passed. *)
Lemma Create_writes fs b d files name s h b1 b2 d' :
  fs_inv fs b d files -> files !! key name = None ->
  0 <= s < NumSectors -> bit b s = false ->
  wf_bitmap b1 -> numBits b1 = NumSectors ->
  (forall j, 0 <= j -> bit b1 j = bool_decide (j = s) || bit b j) ->
  wf_hdr h -> numBytes h < 2 ^ 31 -> allocated b1 b2 (sectors_of h) ->
  wf_dir d' -> tableSize d' = NumDirEntries ->
  (forall k, lookup_name d' k = if decide (k = key name) then Some s else lookup_name d k) ->
  exists dv,
    (let* dv := FileHdr.WriteBack (dev fs) h s in
     let* dv := Directory.WriteBack garbage dv d' (directoryFile fs) in
     PBitmap.WriteBack garbage dv b2 (freeMapFile fs)) = Ret dv /\
    fs_inv (mkFS dv (freeMapFile fs) (directoryFile fs)) b2 d' (<[key name := (s, h)]> files) /\
    forall k s' h', files !! k = Some (s', h') -> file_bytes dv h' = file_bytes (dev fs) h'.
Proof.
  intros Hi Hnew Hs Hfree Hb1 Hnb1 Hbits1 Hh Hmax Hal Hd' Hts Hnames'.
  pose proof Hi as [Hdv [Hmh Hmn] [Hdh Hdn] _ _ _ Hnames _ Hrange Hnd Hown Hmark].
  destruct Hal as [Hb2 Hnb2 Har Haf Hand Hab _].
  change (@al_size Bitmap _) with numBits in *. change (@al_bit Bitmap _) with bit in *.
  change (@al_wf Bitmap _) with wf_bitmap in *.
  rewrite Forall_forall in Har, Haf.
  assert (Hx : forall x, x ∈ s :: sectors_of h -> 0 <= x < NumSectors /\ bit b x = false).
  { intros x [->|Hx]%elem_of_cons; [done|]. pose proof (Har x Hx) as Hr. pose proof (Haf x Hx) as Hf.
    rewrite Hnb1 in Hr. split; [done|]. rewrite Hbits1 in Hf by lia.
    apply orb_false_iff in Hf as [_ ?]. done. }
  assert (Hsnot : s ∉ sectors_of h).
  { intros Hin. pose proof (Haf s Hin) as Hf. rewrite Hbits1 in Hf by lia.
    by rewrite bool_decide_eq_true_2 in Hf. }
  assert (Hun : forall x o, x ∈ s :: sectors_of h -> x ∉ owns fs files o).
  { intros x o Hin. destruct (Hx x Hin). by eapply free_unowned. }
  destruct (header_write (dev fs) s h Hdv Hs Hh Hmax) as (dv1 & -> & Hdv1 & Hat1 & Hs1).
  rewrite rbind_Ret.
  destruct (dir_WriteBack_holds garbage dv1 (directoryFile fs) d' Hdv1 Hdh)
    as (dv2 & -> & Hdv2 & Hhd2 & Hs2);
    [by rewrite Hdn|done|by rewrite Hts|by rewrite Hdn, Hts|].
  rewrite rbind_Ret.
  assert (Hw2 : numWords b2 = 32) by (destruct Hb2 as (_ & -> & _); by rewrite Hnb2, Hnb1).
  destruct (map_WriteBack_holds garbage dv2 (freeMapFile fs) b2 Hdv2 Hmh)
    as (dv3 & -> & Hdv3 & Hhm3 & Hs3); [by rewrite Hmn|done|by rewrite Hmn, Hw2|].
  exists dv3. split; [done|].
  assert (Hfr : forall j, 0 <= j < NumSectors -> j ∉ owns fs files MapData ->
    j ∉ owns fs files DirData -> j <> s -> bd_sector dv3 j = bd_sector (dev fs) j).
  { intros j Hj Hj1 Hj2 Hj3. rewrite Hs3, Hs2, Hs1 by done. done. }
  apply (fs_inv_update fs b d files (fun x => x = s)); try done; try (by rewrite ?Hnb2).
  - intros x o ->. apply Hun. set_solver.
  - unfold holds_dir in *. rewrite (file_bytes_agree dv2); [done|].
    intros x Hin. apply Hs3; [by apply (Hrange DirData)|].
    intros Hin'. assert (DirData = MapData) by (by apply (Hown _ _ x)). done.
  - intros k. rewrite Hnames'. case_decide as Hk; [by rewrite Hk, lookup_insert_eq|].
    rewrite lookup_insert_ne by done. apply Hnames.
  - intros k s' h' Hk. destruct (decide (k = key name)) as [->|Hne].
    + rewrite lookup_insert_eq in Hk. injection Hk as <- <-. right. split; [done|].
      unfold header_at.
      rewrite Hs3, Hs2; try done; [apply (Hun s DirData)|apply (Hun s MapData)]; set_solver.
    + left. by rewrite lookup_insert_ne in Hk.
  - intros k x. destruct (decide (k = key name)) as [->|Hne].
    + simpl. rewrite lookup_insert_eq. intros Hin. by apply Hx.
    + rewrite owns_insert_other by congruence. apply Hrange.
  - intros k. destruct (decide (k = key name)) as [->|Hne].
    + simpl. rewrite lookup_insert_eq. by constructor.
    + rewrite owns_insert_other by congruence. apply Hnd.
  - assert (Hdis : forall o x, o <> FileOf (key name) ->
      x ∈ owns fs (<[key name := (s, h)]> files) o ->
      x ∈ owns fs (<[key name := (s, h)]> files) (FileOf (key name)) -> False).
    { intros o x Ho Hx1 Hx2. rewrite owns_insert_other in Hx1 by done.
      simpl in Hx2. rewrite lookup_insert_eq in Hx2. by eapply Hun. }
    intros o o' x Ho Ho'.
    destruct (decide (o = FileOf (key name))) as [->|Hne], (decide (o' = FileOf (key name))) as [->|Hne'];
      [done|exfalso; by eapply Hdis|exfalso; by eapply Hdis|].
    rewrite owns_insert_other in Ho, Ho' by done. by eapply Hown.
  - intros x Hxr. rewrite Hab, Hbits1 by lia. rewrite !orb_true_iff, !bool_decide_eq_true, Hmark by done.
    split.
    + intros [Hin|[->|[o Ho]]].
      * exists (FileOf (key name)). simpl. rewrite lookup_insert_eq. set_solver.
      * exists (FileOf (key name)). simpl. rewrite lookup_insert_eq. set_solver.
      * exists o. rewrite owns_insert_other; [done|]. intros ->. simpl in Ho. rewrite Hnew in Ho. set_solver.
    + intros [o Ho]. destruct (decide (o = FileOf (key name))) as [->|Hne].
      * simpl in Ho. rewrite lookup_insert_eq in Ho. set_solver.
      * rewrite owns_insert_other in Ho by done. eauto.
Qed.

(** The condition under which [Create] succeeds. *)
Definition can_create (b : Bitmap) (d : Directory) (files : files_t) (name : list byte)
    (size : Z) : Prop :=
  files !! key name = None /\ Z.of_nat (used d) <> NumDirEntries /\
  1 + divRoundUp size SectorSize <= clear_below (bit b) NumSectors.

Lemma Create_spec fs b d files name size : fs_inv fs b d files -> is_cstring name ->
  0 <= size <= MaxFileSize ->
  (can_create b d files name size /\
   exists fs' b' d' s h,
     Create garbage g_words g_entries g_hdr fs name size = Ret (true, fs') /\
     fs_inv fs' b' d' (<[key name := (s, h)]> files) /\ numBytes h = size /\
     forall k s' h', files !! k = Some (s', h') ->
       file_bytes (dev fs') h' = file_bytes (dev fs) h') \/
  (~ can_create b d files name size /\
   exists fs', Create garbage g_words g_entries g_hdr fs name size = Ret (false, fs') /\
     fs_inv fs' b d files /\ forall j, bd_sector (dev fs') j = bd_sector (dev fs) j).
Proof.
  intros Hi Hnm Hsz. unfold Create, can_create.
  destruct (fetch_directory_spec fs b d files Hi) as (fs1 & -> & Hi1 & Hm1 & Hd1 & Hs1).
  rewrite rbind_Ret. pose proof Hi1 as [_ _ _ _ (Hwb & Hnb & _) (Hwd & Hts & _) Hnames _ Hrange _ _ _].
  rewrite Find_spec, rbind_Ret, Hnames by done.
  destruct (files !! key name) as [[s0 h0]|] eqn:Hk.
  { assert (0 <= s0 < NumSectors)
      by (apply (Hrange (FileOf (key name))); simpl; rewrite Hk; set_solver).
    simpl default. rewrite (proj2 (Z.eqb_neq s0 (-1))) by lia. cbn [negb].
    right. split; [by intros [? _]|]. by exists fs1. }
  simpl default. rewrite Z.eqb_refl. cbn [negb].
  destruct (fetch_freeMap_spec fs1 b d files Hi1) as (fs2 & -> & Hi2 & Hm2 & Hd2 & Hs2).
  rewrite rbind_Ret.
  assert (Hsame : forall j, bd_sector (dev fs2) j = bd_sector (dev fs) j)
    by (intros j; by rewrite Hs2).
  assert (Hcount : clear_below (bit b) NumSectors = clear_below (bit b) (numBits b)) by (by rewrite Hnb).
  rewrite Hcount. pose proof (divRoundUp_nonneg size SectorSize ltac:(lia) ltac:(done)) as Hn0.
  destruct (FindAndSet_spec b Hwb) as [(s & b1 & -> & Hs & Hfree & _ & Hwb1 & Hnb1 & Hbits1)|[-> Hall]].
  2: { rewrite rbind_Ret, Z.eqb_refl. right. split; [|by exists fs2].
       intros (_ & _ & Hc). rewrite clear_below_full in Hc by done. lia. }
  rewrite rbind_Ret. rewrite (proj2 (Z.eqb_neq s (-1))) by lia.
  assert (Hc1 : clear_below (bit b1) (numBits b1) = clear_below (bit b) (numBits b) - 1)
    by (rewrite Hnb1; by apply (clear_below_set (bit b) (bit b1) s)).
  pose proof (Add_spec d name s Hwd Hnm) as HA. rewrite Hnames, Hk in HA. simpl fmap in HA.
  cbv iota in HA. rewrite Hts in HA.
  assert (Hs32 : is_s32 s) by (rewrite Hnb in Hs; change NumSectors with 1024 in Hs; unfold is_s32; lia).
  specialize (HA Hs32). destruct (Z.eqb_spec (Z.of_nat (used d)) NumDirEntries) as [Hfull|Hroom].
  { rewrite HA, rbind_Ret. cbn [negb]. right. split; [by intros (_ & ? & _)|]. by exists fs2. }
  destruct HA as (d' & -> & Hwd' & Hts' & _ & Hlook). rewrite rbind_Ret. cbn [negb].
  pose proof (Allocate_spec g_hdr b1 size Hwb1 g_hdr_len ltac:(lia)) as HAl. cbv zeta in HAl.
  change (@al_size Bitmap _ b1) with (numBits b1) in HAl.
  change (@al_bit Bitmap _ b1) with (bit b1) in HAl.
  assert (Hn : divRoundUp size SectorSize <= NumDirect).
  { pose proof (divRoundUp_spec size SectorSize ltac:(lia) ltac:(done)).
    unfold MaxFileSize in Hsz. change NumDirect with 30 in *. unfold SectorSize in *. lia. }
  rewrite (proj2 (Z.leb_le _ _) Hn) in HAl.
  destruct (Z.ltb_spec (clear_below (bit b1) (numBits b1)) (divRoundUp size SectorSize)) as [Hlt|Hge].
  { rewrite HAl, rbind_Ret. right. split; [intros (_ & _ & ?); lia|]. by exists fs2. }
  destruct HAl as (h & b2 & -> & Hhb & Hhs & Hhl & _ & Hdrop & Hal). rewrite rbind_Ret. cbn [negb].
  left. split; [split_and!; [done|done|lia]|].
  destruct (Create_writes fs2 b d files name s h b1 b2 d' Hi2 Hk) as (dv & HW & Hinv & Hold);
    try done; try congruence.
  - eapply (allocated_header b1 b2 h size); try done; try lia; try congruence; by rewrite Hhs.
  - rewrite Hhb. change MaxFileSize with 3840 in Hsz. lia.
  - exists (mkFS dv (freeMapFile fs2) (directoryFile fs2)), b2, d', s, h.
    split; [|split; [exact Hinv|split; [done|]]].
    + destruct (FileHdr.WriteBack (dev fs2) h s); try done. simpl in *.
      destruct (Directory.WriteBack _ _ _ _); try done. simpl in *. by rewrite HW.
    + intros k s' h' Hk'. simpl. rewrite (Hold k s' h' Hk'). apply file_bytes_agree. done.
Qed.

(** Everything [Remove] writes. *)
Lemma Remove_writes fs b d files name s h b1 b2 d' :
  fs_inv fs b d files -> files !! key name = Some (s, h) ->
  wf_bitmap b1 -> numBits b1 = NumSectors ->
  (forall j, 0 <= j -> bit b1 j = negb (bool_decide (j ∈ sectors_of h)) && bit b j) ->
  wf_bitmap b2 -> numBits b2 = NumSectors ->
  (forall j, 0 <= j -> bit b2 j = negb (bool_decide (j = s)) && bit b1 j) ->
  wf_dir d' -> tableSize d' = NumDirEntries ->
  (forall k, lookup_name d' k = if decide (k = key name) then None else lookup_name d k) ->
  exists dv,
    (let* dv := PBitmap.WriteBack garbage (dev fs) b2 (freeMapFile fs) in
     Directory.WriteBack garbage dv d' (directoryFile fs)) = Ret dv /\
    fs_inv (mkFS dv (freeMapFile fs) (directoryFile fs)) b2 d' (delete (key name) files) /\
    forall k s' h', files !! k = Some (s', h') -> file_bytes dv h' = file_bytes (dev fs) h'.
Proof.
  intros Hi Hk Hb1 Hnb1 Hbits1 Hb2 Hnb2 Hbits2 Hd' Hts Hnames'.
  pose proof Hi as [Hdv [Hmh Hmn] [Hdh Hdn] _ _ _ Hnames _ Hrange Hnd Hown Hmark].
  assert (Hw2 : numWords b2 = 32) by (destruct Hb2 as (_ & -> & _); by rewrite Hnb2).
  destruct (map_WriteBack_holds garbage (dev fs) (freeMapFile fs) b2 Hdv Hmh)
    as (dv1 & -> & Hdv1 & Hhm1 & Hs1); [by rewrite Hmn|done|by rewrite Hmn, Hw2|].
  rewrite rbind_Ret.
  destruct (dir_WriteBack_holds garbage dv1 (directoryFile fs) d' Hdv1 Hdh)
    as (dv2 & -> & Hdv2 & Hhd2 & Hs2);
    [by rewrite Hdn|done|by rewrite Hts|by rewrite Hdn, Hts|].
  exists dv2. split; [done|].
  apply (fs_inv_update fs b d files (fun _ => False)); try done.
  - intros j Hj Hj1 Hj2 _. by rewrite Hs2, Hs1.
  - unfold holds_map in *. rewrite (file_bytes_agree dv1); [done|].
    intros x Hin. apply Hs2; [by apply (Hrange MapData)|].
    intros Hin'. assert (MapData = DirData) by (by apply (Hown _ _ x)). done.
  - intros k. rewrite Hnames'. case_decide as Hk'; [by rewrite Hk', lookup_delete_eq|].
    rewrite lookup_delete_ne by done. apply Hnames.
  - intros k s' h' Hk'. left. by apply lookup_delete_Some in Hk' as [_ ?].
  - intros k x. destruct (decide (k = key name)) as [->|Hne].
    + simpl. rewrite lookup_delete_eq. set_solver.
    + rewrite owns_delete_other by congruence. apply Hrange.
  - intros k. destruct (decide (k = key name)) as [->|Hne].
    + simpl. rewrite lookup_delete_eq. constructor.
    + rewrite owns_delete_other by congruence. apply Hnd.
  - assert (Hsub : forall o x, x ∈ owns fs (delete (key name) files) o -> x ∈ owns fs files o).
    { intros o x. destruct (decide (o = FileOf (key name))) as [->|Hne].
      - simpl. rewrite lookup_delete_eq. set_solver.
      - by rewrite owns_delete_other. }
    intros o o' x Ho Ho'. eapply Hown; by apply Hsub.
  - intros x Hx. rewrite Hbits2, Hbits1 by lia.
    rewrite !andb_true_iff, !negb_true_iff, !bool_decide_eq_false, Hmark by done.
    assert (HF : x ∈ owns fs files (FileOf (key name)) <-> x = s \/ x ∈ sectors_of h)
      by (simpl; rewrite Hk; set_solver).
    split.
    + intros (Hne & Hni & o & Ho). exists o. rewrite owns_delete_other; [done|].
      intros ->. apply HF in Ho. tauto.
    + intros [o Ho]. destruct (decide (o = FileOf (key name))) as [->|Hne].
      { simpl in Ho. rewrite lookup_delete_eq in Ho. set_solver. }
      rewrite owns_delete_other in Ho by done.
      assert (Hno : ~ x ∈ owns fs files (FileOf (key name)))
        by (intros Hin; apply Hne; by eapply Hown).
      rewrite HF in Hno. split; [tauto|]. split; [tauto|]. eauto.
Qed.

Lemma Remove_spec fs b d files name : fs_inv fs b d files -> is_cstring name ->
  match files !! key name with
  | None => exists fs', Remove garbage g_words g_entries fs name = Ret (false, fs') /\
      fs_inv fs' b d files /\ forall j, bd_sector (dev fs') j = bd_sector (dev fs) j
  | Some (s, h) => exists fs' b' d', Remove garbage g_words g_entries fs name = Ret (true, fs') /\
      fs_inv fs' b' d' (delete (key name) files) /\
      forall k s' h', files !! k = Some (s', h') ->
        file_bytes (dev fs') h' = file_bytes (dev fs) h'
  end.
Proof.
  intros Hi Hnm. unfold Remove.
  destruct (fetch_directory_spec fs b d files Hi) as (fs1 & -> & Hi1 & Hm1 & Hd1 & Hs1).
  rewrite rbind_Ret. pose proof Hi1 as [Hdv1 _ _ _ _ (Hwd & Hts & _) Hnames Hfiles Hrange Hnd _ Hmark].
  rewrite Find_spec, rbind_Ret, Hnames by done.
  destruct (files !! key name) as [[s h]|] eqn:Hk; [|by exists fs1].
  assert (Hin : forall x, x ∈ s :: sectors_of h -> x ∈ owns fs1 files (FileOf (key name)))
    by (intros x; simpl; by rewrite Hk).
  assert (Hs : 0 <= s < NumSectors) by (apply (Hrange (FileOf (key name))), Hin; set_solver).
  simpl default. rewrite (proj2 (Z.eqb_neq s (-1))) by lia.
  destruct (Hfiles _ _ _ Hk) as [Hh Hat].
  destruct (header_at_fetch (dev fs1) s h Hdv1 Hs Hat) as (dv & -> & Hdv & Hsec).
  rewrite rbind_Ret.
  pose proof (fs_inv_read fs1 dv b d files Hi1 Hdv Hsec) as Hi1'.
  destruct (fetch_freeMap_spec _ b d files Hi1') as (fs2 & -> & Hi2 & Hm2 & Hd2 & Hs2).
  rewrite rbind_Ret. simpl in Hm2, Hd2, Hs2.
  pose proof Hi2 as [_ _ _ _ (Hwb & Hnb & _) _ _ _ _ _ _ _].
  pose proof (Hnd (FileOf (key name))) as Hnds. simpl in Hnds. rewrite Hk in Hnds.
  apply NoDup_cons in Hnds as [Hsn Hnds].
  assert (Hbit : forall x, x ∈ s :: sectors_of h -> 0 <= x < NumSectors /\ bit b x = true).
  { intros x Hx. assert (0 <= x < NumSectors) by (by eapply Hrange, Hin). split; [done|].
    apply Hmark; [done|]. exists (FileOf (key name)). by apply Hin. }
  assert (Hwb' : @al_wf Bitmap Bitmap_allocator b) by exact Hwb.
  destruct (Deallocate_spec h b Hwb') as (b1 & -> & Hwb1 & Hnb1 & Hbits1).
  { by apply numSectors_nonneg. }
  { pose proof (wfh_len h Hh). pose proof (wfh_max h Hh). lia. }
  { apply Forall_forall. intros x Hx. change (@al_size Bitmap _ b) with (numBits b). rewrite Hnb.
    apply Hbit. set_solver. }
  { done. }
  change (@al_size Bitmap _) with numBits in *. change (@al_bit Bitmap _) with bit in *.
  change (@al_wf Bitmap _) with wf_bitmap in *.
  rewrite rbind_Ret.
  destruct (Clear_spec b1 s Hwb1) as (b2 & -> & Hwb2 & Hnb2 & Hbits2); [rewrite Hnb1, Hnb; done|].
  rewrite rbind_Ret.
  pose proof (dir_Remove_spec d name Hwd Hnm) as HR. rewrite Hnames, Hk in HR. simpl in HR.
  destruct HR as (d' & -> & Hwd' & Hts' & _ & Hlook). rewrite rbind_Ret.
  destruct (Remove_writes fs2 b d files name s h b1 b2 d' Hi2 Hk) as (dv' & HW & Hinv & Hold);
    try done; try congruence.
  exists (mkFS dv' (freeMapFile fs2) (directoryFile fs2)), b2, d'.
  split; [|split; [exact Hinv|]].
  - destruct (PBitmap.WriteBack _ _ _ _); try done. simpl in *. by rewrite HW.
  - intros k s' h' Hk'. simpl. rewrite (Hold k s' h' Hk'). apply file_bytes_agree.
    intros x _. by rewrite Hs2, Hsec, Hs1.
Qed.

(** ** Formatting *)

(** An allocation that fits, on a bit map of all the sectors. *)
Lemma Allocate_ok b size : wf_bitmap b -> numBits b = NumSectors -> 0 <= size ->
  divRoundUp size SectorSize <= NumDirect ->
  divRoundUp size SectorSize <= clear_below (bit b) NumSectors ->
  exists h b', Allocate g_hdr b size = Ret (true, h, b') /\ numBytes h = size /\ wf_hdr h /\
    wf_bitmap b' /\ numBits b' = NumSectors /\
    (forall s, s ∈ sectors_of h -> 0 <= s < NumSectors /\ bit b s = false) /\
    (forall j, 0 <= j -> bit b' j = bool_decide (j ∈ sectors_of h) || bit b j) /\
    clear_below (bit b') NumSectors = clear_below (bit b) NumSectors - divRoundUp size SectorSize.
Proof.
  intros Hb Hn Hsz Hmax Hroom.
  pose proof (Allocate_spec g_hdr b size Hb g_hdr_len Hsz) as HA. cbv zeta in HA.
  change (@al_size Bitmap _ b) with (numBits b) in HA.
  change (@al_bit Bitmap _ b) with (bit b) in HA. rewrite Hn in HA.
  rewrite (proj2 (Z.ltb_ge _ _) Hroom), (proj2 (Z.leb_le _ _) Hmax) in HA.
  destruct HA as (h & b' & -> & Hhb & Hhs & Hhl & Hsl & Hdrop & Hal).
  exists h, b'. split; [done|]. split; [done|].
  split; [eapply (allocated_header b b' h size); try done; try lia; by rewrite Hhs|].
  destruct Hal as [Hb' Hn' Hr Hf _ Hbits Hcount]. rewrite Forall_forall in Hr, Hf.
  change (@al_size Bitmap _) with numBits in *. change (@al_bit Bitmap _) with bit in *.
  rewrite Hn in *. split_and!; try done; [|lia].
  intros x Hx. split; [by apply Hr|by apply Hf].
Qed.

(** The sectors a formatted disk uses. *)
Definition formatted (mapHdr dirHdr : FileHeader) : list Z :=
  [FreeMapSector; DirectorySector] ++ sectors_of mapHdr ++ sectors_of dirHdr.

Lemma format_map b : wf_bitmap b -> numBits b = NumSectors ->
  (forall j, 0 <= j < NumSectors -> bit b j = false) ->
  exists b1 b2 mapHdr b3 dirHdr b4,
    Mark b FreeMapSector = Ret b1 /\ Mark b1 DirectorySector = Ret b2 /\
    Allocate g_hdr b2 FreeMapFileSize = Ret (true, mapHdr, b3) /\
    Allocate g_hdr b3 DirectoryFileSize = Ret (true, dirHdr, b4) /\
    wf_hdr mapHdr /\ numBytes mapHdr = FreeMapFileSize /\
    wf_hdr dirHdr /\ numBytes dirHdr = DirectoryFileSize /\
    wf_bitmap b4 /\ numBits b4 = NumSectors /\ clear_below (bit b4) NumSectors = 1019 /\
    NoDup (formatted mapHdr dirHdr) /\
    (forall s, s ∈ formatted mapHdr dirHdr -> 0 <= s < NumSectors) /\
    forall s, 0 <= s < NumSectors -> bit b4 s = true <-> s ∈ formatted mapHdr dirHdr.
Proof.
  intros Hb Hn Hclear.
  assert (H0 : 0 <= FreeMapSector < NumSectors) by (split; vm_compute; congruence).
  assert (H1 : 0 <= DirectorySector < NumSectors) by (split; vm_compute; congruence).
  destruct (Mark_spec b FreeMapSector Hb) as (b1 & E1 & Hb1 & Hn1 & Hm1); [by rewrite Hn|].
  destruct (Mark_spec b1 DirectorySector Hb1) as (b2 & E2 & Hb2 & Hn2 & Hm2); [by rewrite Hn1, Hn|].
  assert (Hc2 : clear_below (bit b2) NumSectors = 1022).
  { rewrite (clear_below_set (bit b1) (bit b2) DirectorySector), (clear_below_set (bit b) (bit b1) FreeMapSector);
      try done; auto.
    - rewrite clear_below_empty; [done|done|done].
    - rewrite Hm1, Hclear by done. done. }
  destruct (Allocate_ok b2 FreeMapFileSize Hb2)
    as (mh & b3 & E3 & Hnm & Hwm & Hb3 & Hn3 & Hr3 & Hm3 & Hc3);
    [congruence|vm_compute; congruence|vm_compute; congruence|rewrite Hc2; vm_compute; congruence|].
  change (divRoundUp FreeMapFileSize SectorSize) with 1 in Hc3.
  destruct (Allocate_ok b3 DirectoryFileSize Hb3)
    as (dh & b4 & E4 & Hnd & Hwd & Hb4 & Hn4 & Hr4 & Hm4 & Hc4);
    [congruence|vm_compute; congruence|vm_compute; congruence|
     rewrite Hc3, Hc2; vm_compute; congruence|].
  exists b1, b2, mh, b3, dh, b4.
  assert (Hbit2 : forall s, 0 <= s < NumSectors ->
    bit b2 s = true <-> s ∈ [FreeMapSector; DirectorySector]).
  { intros s Hs. rewrite Hm2, Hm1, Hclear by lia.
    rewrite orb_false_r, orb_true_iff, !bool_decide_eq_true. set_solver. }
  assert (Hbit3 : forall s, 0 <= s < NumSectors ->
    bit b3 s = true <-> s ∈ [FreeMapSector; DirectorySector] \/ s ∈ sectors_of mh).
  { intros s Hs. rewrite Hm3 by lia. rewrite orb_true_iff, bool_decide_eq_true, Hbit2 by done. tauto. }
  split_and!; try done.
  - rewrite Hc4, Hc3, Hc2. done.
  - unfold formatted. apply NoDup_app. split; [by repeat constructor; set_solver|]. split.
    { intros x Hx [Hx'|Hx']%elem_of_app.
      - destruct (Hr3 x Hx') as [Hr Hf]. apply Hbit2 in Hx; [congruence|done].
      - destruct (Hr4 x Hx') as [Hr Hf].
        assert (bit b3 x = true) by (apply Hbit3; auto). congruence. }
    apply NoDup_app. split; [by apply wfh_nodup|]. split; [|by apply wfh_nodup].
    intros x Hx Hx'. destruct (Hr4 x Hx') as [Hr Hf].
    assert (bit b3 x = true) by (apply Hbit3; auto). congruence.
  - intros s [Hs|[Hs|Hs]%elem_of_app]%elem_of_app; [|by apply Hr3|by apply Hr4].
    apply elem_of_cons in Hs as [->|Hs]; [done|]. by apply list_elem_of_singleton in Hs as ->.
  - intros s Hs. rewrite Hm4 by lia.
    rewrite orb_true_iff, bool_decide_eq_true, Hbit3 by done. unfold formatted. set_solver.
Qed.

Lemma new_OpenFile_spec dv s h : bd_wf dv -> 0 <= s < NumSectors -> header_at dv s h ->
  exists dv', new_OpenFile dv s = Ret (dv', mkOpenFile h 0) /\ bd_wf dv' /\
    forall j, bd_sector dv' j = bd_sector dv j.
Proof.
  intros Hd Hs Hh. unfold new_OpenFile.
  destruct (header_at_fetch dv s h Hd Hs Hh) as (dv' & -> & ? & ?). rewrite rbind_Ret. eauto.
Qed.

Lemma format_spec dv : bd_wf dv ->
  exists fs b d, new_FileSystem garbage g_words g_entries g_hdr dv true = Ret fs /\
    fs_inv fs b d ∅ /\ used d = 0%nat /\ clear_below (bit b) NumSectors = 1019.
Proof.
  intros Hdv. unfold new_FileSystem, new_PersistentBitmap.
  destruct (new_Bitmap_spec g_words NumSectors) as (b0 & -> & Hb0 & Hn0 & Hc0); [vm_compute; congruence|].
  rewrite rbind_Ret.
  destruct (new_Directory_spec g_entries NumDirEntries) as (d & -> & Hwd & Hts & Hu & Hl);
    [vm_compute; congruence|done|]. rewrite rbind_Ret.
  destruct (format_map b0 Hb0 Hn0 Hc0) as (b1 & b2 & mh & b3 & dh & b & -> & R2 & R3 & R4 &
    Hwm & Hnm & Hwdh & Hnd & Hb & Hn & Hcount & Hdup & Hrange & Hbits).
  rewrite rbind_Ret, R2, rbind_Ret, R3, rbind_Ret. cbn [ASSERT]. rewrite rbind_Ret.
  rewrite R4, rbind_Ret. cbn [ASSERT]. rewrite rbind_Ret. clear b1 b2 b3 R2 R3 R4 b0 Hb0 Hn0 Hc0.
  assert (Hmem : forall s, s ∈ [FreeMapSector; DirectorySector] ->
    (0 <= s < NumSectors) /\ (s ∉ sectors_of mh) /\ (s ∉ sectors_of dh)).
  { intros s Hs. apply NoDup_app in Hdup as (_ & Hdis & _).
    assert (s ∉ sectors_of mh ++ sectors_of dh) by (by apply Hdis).
    split; [apply Hrange; unfold formatted; set_solver|set_solver]. }
  assert (Hmd : forall s, s ∈ sectors_of mh -> s ∈ sectors_of dh -> False).
  { intros s. apply NoDup_app in Hdup as (_ & _ & [_ [Hdis _]]%NoDup_app). apply Hdis. }
  destruct (Hmem FreeMapSector) as (H0 & H0m & H0d); [set_solver|].
  destruct (Hmem DirectorySector) as (H1 & H1m & H1d); [set_solver|].
  destruct (header_write dv FreeMapSector mh Hdv H0 Hwm) as (dv1 & -> & Hdv1 & Hat1 & Hs1);
    [by rewrite Hnm|]. rewrite rbind_Ret.
  destruct (header_write dv1 DirectorySector dh Hdv1 H1 Hwdh) as (dv2 & -> & Hdv2 & Hat2 & Hs2);
    [by rewrite Hnd|]. rewrite rbind_Ret.
  assert (Hat1' : header_at dv2 FreeMapSector mh) by (unfold header_at; by rewrite Hs2).
  destruct (new_OpenFile_spec dv2 FreeMapSector mh Hdv2 H0 Hat1') as (dv3 & -> & Hdv3 & Hs3).
  rewrite rbind_Ret.
  destruct (new_OpenFile_spec dv3 DirectorySector dh Hdv3 H1) as (dv4 & -> & Hdv4 & Hs4);
    [unfold header_at; by rewrite Hs3|]. rewrite rbind_Ret.
  assert (Hw : numWords b = 32) by (destruct Hb as (_ & -> & _); by rewrite Hn).
  destruct (map_WriteBack_holds garbage dv4 (mkOpenFile mh 0) b Hdv4 Hwm)
    as (dv5 & -> & Hdv5 & Hhm5 & Hs5); [cbn [hdr]; by rewrite Hnm|done|cbn [hdr]; by rewrite Hnm, Hw|].
  rewrite rbind_Ret.
  destruct (dir_WriteBack_holds garbage dv5 (mkOpenFile dh 0) d Hdv5 Hwdh)
    as (dv6 & -> & Hdv6 & Hhd6 & Hs6);
    [cbn [hdr]; by rewrite Hnd|done|by rewrite Hts|cbn [hdr]; by rewrite Hnd, Hts|].
  rewrite rbind_Ret. cbn [hdr] in Hs5, Hs6.
  eexists _, b, d. split; [done|]. split; [|done].
  split; cbn [dev freeMapFile directoryFile hdr]; try done.
  - unfold header_at. rewrite Hs6, Hs5, Hs4, Hs3 by done. rewrite Hs6, Hs5, Hs4, Hs3 by done. done.
  - split; [done|]. split; [done|]. unfold holds_map in *. cbn [hdr] in *.
    rewrite (file_bytes_agree dv5); [done|]. intros x Hx. apply Hs6.
    + apply Hrange. unfold formatted. set_solver.
    + intros Hx'. by eapply Hmd.
  - intros o s Hs. destruct o as [| | |k]; simpl in Hs; [by apply Hmem| | |].
    + apply Hrange. unfold formatted. set_solver.
    + apply Hrange. unfold formatted. set_solver.
    + by apply elem_of_nil in Hs.
  - apply NoDup_app in Hdup as (? & _ & (? & _ & ?)%NoDup_app).
    intros [| | |k]; simpl; try done. constructor.
  - intros o o' s Ho Ho'. destruct o as [| | |k], o' as [| | |k']; simpl in Ho, Ho'; try done;
      try (by apply elem_of_nil in Ho); try (by apply elem_of_nil in Ho'); exfalso;
      try (by eapply Hmd); try (destruct (Hmem _ Ho) as (_ & ? & ?); done);
      destruct (Hmem _ Ho') as (_ & ? & ?); done.
  - intros s Hs. rewrite Hbits by done. unfold formatted. rewrite !elem_of_app. split.
    + intros [Hx|[Hx|Hx]]; [by exists Headers|by exists MapData|by exists DirData].
    + intros [[| | |k] Ho]; simpl in Ho; try tauto. by apply elem_of_nil in Ho.
Qed.

(** Mounting: [new FileSystem(false)] on the disk of a file system. *)
Lemma mount_spec fs b d files : fs_inv fs b d files ->
  exists fs', new_FileSystem garbage g_words g_entries g_hdr (dev fs) false = Ret fs' /\
    fs_inv fs' b d files /\ forall j, bd_sector (dev fs') j = bd_sector (dev fs) j.
Proof.
  intros Hi. pose proof Hi as [Hdv _ _ [Hb1 Hb2] _ _ _ _ Hrange _ _ _]. unfold new_FileSystem.
  destruct (new_OpenFile_spec (dev fs) FreeMapSector (hdr (freeMapFile fs)) Hdv) as (dv1 & -> & Hdv1 & Hs1);
    [apply (Hrange Headers); simpl; set_solver|done|]. rewrite rbind_Ret.
  destruct (new_OpenFile_spec dv1 DirectorySector (hdr (directoryFile fs)) Hdv1) as (dv2 & -> & Hdv2 & Hs2);
    [apply (Hrange Headers); simpl; set_solver|unfold header_at; by rewrite Hs1|]. rewrite rbind_Ret.
  eexists. split; [done|]. cbn [dev]. split; [|intros j; by rewrite Hs2, Hs1].
  assert (Hi' : fs_inv (mkFS dv2 (freeMapFile fs) (directoryFile fs)) b d files).
  { apply fs_inv_read; [done|done|]. intros j. by rewrite Hs2, Hs1. }
  destruct Hi' as [? ? ? ? ? ? ? ? Hr Hn Ho Hm].
  split; cbn [dev freeMapFile directoryFile hdr] in *; done.
Qed.

End operations.

(** ** Claims *)

(** What the uninitialised memory of new objects may hold: any bytes, and as many
    of them as the objects have. *)
Record garbage_ok (g_entries : nat -> DirectoryEntry) (g_hdr : FileHeader) : Prop := {
  go_entries : forall i, wf_entry (g_entries i);
  go_len : Z.of_nat (length (dataSectors g_hdr)) = NumDirect;
  go_s32 : Forall is_s32 (dataSectors g_hdr)
}.

(** C12: formatting any disk gives a file system that satisfies the invariant and
    has no files, with two sectors for the headers, one for the free map and two
    for the directory in use; the disk it leaves can be mounted ([format] =
    false) to a file system with the same invariant, in which no name opens. *)
Theorem format_then_mount {D} `{BlockDevice D} (garbage : nat -> byte)
    (g_words : nat -> Z) (g_entries : nat -> DirectoryEntry) (g_hdr : FileHeader) (dv : D) :
  garbage_ok g_entries g_hdr -> bd_wf dv ->
  exists fs b d, new_FileSystem garbage g_words g_entries g_hdr dv true = Ret fs /\
    fs_inv fs b d ∅ /\ clear_below (bit b) NumSectors = NumSectors - 5 /\
    exists fs', new_FileSystem garbage g_words g_entries g_hdr (dev fs) false = Ret fs' /\
      fs_inv fs' b d ∅ /\
      forall name, is_cstring name ->
        exists fs'', Open garbage g_entries fs' name = Ret (fs'', None).
Proof.
  intros [Hge Hgl Hg32] Hdv.
  destruct (format_spec garbage g_words g_entries g_hdr Hge Hgl Hg32 dv Hdv)
    as (fs & b & d & Hnew & Hi & _ & Hc).
  exists fs, b, d. do 3 (split; [done|]).
  destruct (mount_spec garbage g_words g_entries g_hdr Hge Hgl Hg32 fs b d ∅ Hi) as (fs' & Hmnt & Hi' & _).
  exists fs'. do 2 (split; [done|]). intros name Hnm.
  destruct (Open_spec garbage g_entries g_hdr Hge Hgl Hg32 fs' b d ∅ name Hi' Hnm) as (fs'' & HO & _).
  exists fs''. by rewrite HO, lookup_empty.
Qed.

(** C5: [Create].  It succeeds exactly when the name is new, the directory has a
    free slot and the disk has room for the header and the data; it then adds
    one file of the asked length and leaves the contents of every other file
    alone.  In every other case it returns false with the disk as it was: what
    was taken from the in-memory free map is not written back. *)
Theorem Create_correct {D} `{BlockDevice D} (garbage : nat -> byte)
    (g_words : nat -> Z) (g_entries : nat -> DirectoryEntry) (g_hdr : FileHeader) (fs : FileSystem D)
    (b : Bitmap) (d : Directory) (files : files_t)
    (name : list byte) (size : Z) :
  garbage_ok g_entries g_hdr -> fs_inv fs b d files -> is_cstring name -> 0 <= size <= MaxFileSize ->
  (can_create b d files name size /\
   exists fs' b' d' s h,
     Create garbage g_words g_entries g_hdr fs name size = Ret (true, fs') /\
     fs_inv fs' b' d' (<[key name := (s, h)]> files) /\ numBytes h = size /\
     forall k s' h', files !! k = Some (s', h') ->
       file_bytes (dev fs') h' = file_bytes (dev fs) h') \/
  (~ can_create b d files name size /\
   exists fs', Create garbage g_words g_entries g_hdr fs name size = Ret (false, fs') /\
     fs_inv fs' b d files /\ forall j, bd_sector (dev fs') j = bd_sector (dev fs) j).
Proof. intros [? ? ?]. by apply Create_spec. Qed.

(** C8: [Remove].  It returns true exactly when the name is there; it then takes
    the file out of the directory and gives back exactly its header and data
    sectors, and the contents of the other files stay. *)
Theorem Remove_correct {D} `{BlockDevice D} (garbage : nat -> byte)
    (g_words : nat -> Z) (g_entries : nat -> DirectoryEntry) (g_hdr : FileHeader) (fs : FileSystem D)
    (b : Bitmap) (d : Directory) (files : files_t)
    (name : list byte) :
  garbage_ok g_entries g_hdr -> fs_inv fs b d files -> is_cstring name ->
  match files !! key name with
  | None => exists fs', Remove garbage g_words g_entries fs name = Ret (false, fs') /\
      fs_inv fs' b d files /\ forall j, bd_sector (dev fs') j = bd_sector (dev fs) j
  | Some (s, h) => exists fs' b' d', Remove garbage g_words g_entries fs name = Ret (true, fs') /\
      fs_inv fs' b' d' (delete (key name) files) /\
      (forall k s' h', files !! k = Some (s', h') ->
        file_bytes (dev fs') h' = file_bytes (dev fs) h') /\
      exists fs'', Open garbage g_entries fs' name = Ret (fs'', None)
  end.
Proof.
  intros [Hge Hgl Hg32] Hi Hnm.
  pose proof (Remove_spec garbage g_words g_entries g_hdr Hge Hgl Hg32 fs b d files name Hi Hnm) as HR.
  destruct (files !! key name) as [[s h]|]; [|done].
  destruct HR as (fs' & b' & d' & HR & Hi' & Hold). exists fs', b', d'. do 3 (split; [done|]).
  destruct (Open_spec garbage g_entries g_hdr Hge Hgl Hg32 fs' b' d' _ name Hi' Hnm) as (fs'' & HO & _).
  exists fs''. by rewrite HO, lookup_delete_eq.
Qed.

(** C10: what is written to a file survives a reboot.  Opening a file and writing
    into it through [WriteAt] keeps the invariant and the contents of all other
    files; mounting the disk afresh and opening the same name gives a file whose
    bytes at that place are the ones written. *)
Theorem data_survives_mount {D} `{BlockDevice D} (garbage : nat -> byte)
    (g_words : nat -> Z) (g_entries : nat -> DirectoryEntry) (g_hdr : FileHeader)
    (fs : FileSystem D) (b : Bitmap) (d : Directory) (files : files_t)
    (name : list byte) (s : Z) (h : FileHeader) (from : list byte) (nb pos : Z) :
  garbage_ok g_entries g_hdr -> fs_inv fs b d files -> is_cstring name ->
  files !! key name = Some (s, h) -> 0 < nb -> 0 <= pos -> pos + nb <= numBytes h ->
  nb = Z.of_nat (length from) ->
  exists fs1 f dv, Open garbage g_entries fs name = Ret (fs1, Some f) /\
    WriteAt garbage (dev fs1) f from nb pos = Ret (dv, nb) /\
    fs_inv (mkFS dv (freeMapFile fs1) (directoryFile fs1)) b d files /\
    (forall k' s' h', k' <> key name -> files !! k' = Some (s', h') ->
      file_bytes dv h' = file_bytes (dev fs) h') /\
    exists fs2 fs3 f' dv',
      new_FileSystem garbage g_words g_entries g_hdr dv false = Ret fs2 /\
      Open garbage g_entries fs2 name = Ret (fs3, Some f') /\
      ReadAt garbage (dev fs3) f' nb pos = Ret (dv', (nb, from)).
Proof.
  intros [Hge Hgl Hg32] Hi Hnm Hk Hnb Hpos Hfit Hlen.
  destruct (Open_spec garbage g_entries g_hdr Hge Hgl Hg32 fs b d files name Hi Hnm) as (fs1 & HO & Hi1 & Hs1).
  rewrite Hk in HO. destruct (fi_files _ _ _ _ Hi1 _ _ _ Hk) as [Hh _].
  assert (Hmax : numBytes h <= 3840).
  { pose proof (wfh_sectors h Hh). pose proof (wfh_max h Hh) as Hm. change NumDirect with 30 in Hm.
    pose proof (divRoundUp_spec (numBytes h) SectorSize (wfh_bytes h Hh) ltac:(done)).
    unfold SectorSize in *. lia. }
  pose proof (fi_dev _ _ _ _ Hi1) as Hd1.
  destruct (WriteAt_spec garbage (dev fs1) (mkOpenFile h 0) from nb pos Hd1 Hh)
    as (dv & HW & Hdv & Hf & Hout); cbn [hdr] in *; try lia.
  rewrite Z.min_l in HW, Hf by lia.
  destruct (fs_inv_data fs1 b d files (key name) s h dv Hi1 Hk Hdv Hout) as [Hi2 Hothers].
  exists fs1, (mkOpenFile h 0), dv. do 3 (split; [done|]). split.
  { intros k' s' h' Hne Hk'. rewrite (Hothers k' s' h' Hne Hk'). by apply file_bytes_agree. }
  destruct (mount_spec garbage g_words g_entries g_hdr Hge Hgl Hg32 _ b d files Hi2) as (fs2 & HM & Hi2' & Hs2).
  destruct (Open_spec garbage g_entries g_hdr Hge Hgl Hg32 fs2 b d files name Hi2' Hnm) as (fs3 & HO3 & Hi3 & Hs3).
  rewrite Hk in HO3.
  destruct (ReadAt_spec garbage (dev fs3) (mkOpenFile h 0) nb pos (fi_dev _ _ _ _ Hi3) Hh)
    as (dv' & HR & _); cbn [hdr] in *; try lia.
  exists fs2, fs3, (mkOpenFile h 0), dv'. do 2 (split; [done|]). rewrite HR. do 3 f_equal; [lia|].
  rewrite Z.min_l by lia. rewrite (file_bytes_agree dv); [|by intros x _; rewrite Hs3, Hs2].
  rewrite Hf. pose proof (file_bytes_length (dev fs1) h Hd1 Hh).
  rewrite drop_app_length' by (rewrite length_take; lia).
  rewrite take_app_length' by (rewrite length_take; lia). apply take_ge. lia.
Qed.

(** ** A concrete file system: a blank disk, formatted *)

Definition zero_words (n : nat) : Z := 0.
Definition blank_entries (n : nat) : DirectoryEntry := blank_entry.
Definition blank_header : FileHeader := mkHeader 0 0 (replicate 30 0).

Lemma blank_garbage : garbage_ok blank_entries blank_header.
Proof.
  split; [intros i; apply blank_entry_wf|done|].
  apply Forall_replicate. unfold is_s32. lia.
Qed.

Lemma sample_name_cstring : is_cstring sample_name.
Proof. unfold is_cstring. apply (bool_decide_unpack _). vm_compute. exact I. Qed.

(** The formatted disk. *)
Lemma sample_fs : exists (fs : FileSystem (SynchDisk ToyHost)) (b : Bitmap) (d : Directory),
  new_FileSystem zero_garbage zero_words blank_entries blank_header sample_synchdisk true = Ret fs /\
  fs_inv fs b d ∅ /\ can_create b d ∅ sample_name 200.
Proof.
  destruct blank_garbage as [Hg Hl H32].
  destruct (format_spec zero_garbage zero_words blank_entries blank_header Hg Hl H32
    sample_synchdisk sample_synchdisk_wf) as (fs & b & d & Hf & Hi & Hu & Hc).
  exists fs, b, d. split; [exact Hf|]. split; [exact Hi|]. split; [apply lookup_empty|].
  rewrite Hu, Hc. split; vm_compute; congruence.
Qed.

(** The formatted disk with one file of 200 bytes. *)
Lemma sample_fs_one : exists (fs : FileSystem (SynchDisk ToyHost)) (b : Bitmap) (d : Directory) (s : Z) (h : FileHeader),
  fs_inv fs b d {[ key sample_name := (s, h) ]} /\ numBytes h = 200.
Proof.
  destruct sample_fs as (fs & b & d & _ & Hi & Hcan). destruct blank_garbage as [Hg Hl H32].
  destruct (Create_spec zero_garbage zero_words blank_entries blank_header Hg Hl H32
    fs b d ∅ sample_name 200 Hi sample_name_cstring) as [(_ & fs' & b' & d' & s & h & _ & Hi' & Hn & _)|[Hno _]];
    [split; vm_compute; congruence| |done].
  by exists fs', b', d', s, h.
Qed.

Lemma format_then_mount_witness :
  exists fs fs' : FileSystem (SynchDisk ToyHost),
    new_FileSystem zero_garbage zero_words blank_entries blank_header sample_synchdisk true = Ret fs /\
    new_FileSystem zero_garbage zero_words blank_entries blank_header (dev fs) false = Ret fs'.
Proof.
  destruct (format_then_mount zero_garbage zero_words blank_entries blank_header sample_synchdisk
    blank_garbage sample_synchdisk_wf) as (fs & b & d & Hf & _ & _ & fs' & Hm & _).
  exists fs, fs'. split; [exact Hf|exact Hm].
Defined.

Lemma Create_correct_witness :
  exists fs fs' : FileSystem (SynchDisk ToyHost),
    new_FileSystem zero_garbage zero_words blank_entries blank_header sample_synchdisk true = Ret fs /\
    Create zero_garbage zero_words blank_entries blank_header fs sample_name 200 = Ret (true, fs').
Proof.
  destruct sample_fs as (fs & b & d & Hf & Hi & Hcan).
  assert (Hsz : 0 <= 200 <= MaxFileSize) by (split; vm_compute; congruence).
  destruct (Create_correct zero_garbage zero_words blank_entries blank_header fs b d ∅ sample_name
    200 blank_garbage Hi sample_name_cstring Hsz) as [(_ & fs' & _ & _ & _ & _ & HC & _)|[Hno _]].
  - exists fs, fs'. split; [exact Hf|exact HC].
  - destruct (Hno Hcan).
Defined.

Lemma Remove_correct_witness :
  exists fs fs' : FileSystem (SynchDisk ToyHost),
    Remove zero_garbage zero_words blank_entries fs sample_name = Ret (true, fs').
Proof.
  destruct sample_fs_one as (fs & b & d & s & h & Hi & _). exists fs.
  pose proof (Remove_correct zero_garbage zero_words blank_entries blank_header fs b d _ sample_name
    blank_garbage Hi sample_name_cstring) as HR.
  rewrite lookup_singleton_eq in HR. destruct HR as (fs' & _ & _ & HR & _). exists fs'. exact HR.
Defined.

Lemma data_survives_mount_witness :
  exists (fs fs1 : FileSystem (SynchDisk ToyHost)) f dv fs2 fs3 f' dv',
    Open zero_garbage blank_entries fs sample_name = Ret (fs1, Some f) /\
    WriteAt zero_garbage (dev fs1) f sample_text 150 20 = Ret (dv, 150) /\
    new_FileSystem zero_garbage zero_words blank_entries blank_header dv false = Ret fs2 /\
    Open zero_garbage blank_entries fs2 sample_name = Ret (fs3, Some f') /\
    ReadAt zero_garbage (dev fs3) f' 150 20 = Ret (dv', (150, sample_text)).
Proof.
  destruct sample_fs_one as (fs & b & d & s & h & Hi & Hn).
  destruct (data_survives_mount zero_garbage zero_words blank_entries blank_header fs b d _
    sample_name s h sample_text 150 20 blank_garbage Hi sample_name_cstring
    (lookup_singleton_eq _ _) ltac:(lia) ltac:(lia) ltac:(lia) eq_refl)
    as (fs1 & f & dv & HO & HW & _ & _ & fs2 & fs3 & f' & dv' & HM & HO' & HR).
  exists fs, fs1, f, dv, fs2, fs3, f', dv'.
  split; [exact HO|]. split; [exact HW|]. split; [exact HM|]. split; [exact HO'|exact HR].
Defined.
