(* ===== verification/FileSysStub.v ===== *)
(** * The stub file system

    Model of the [FILESYS_STUB] halves of filesys/openfile.h and
    filesys/filesys.h, which the build of build.linux uses: open files that are
    descriptors of the host, and per-process tables of them with their modes and
    names.  The tables come from [new] and start with whatever the memory held;
    a pointer is null, wild (never initialised), or to an object. *)

From S2P Require Import Prelude CString Host.

Definition MAX_PROCESS : Z := 1.
Definition MAX_FILE : Z := 20.
Definition CONSOLE_IN : Z := 0.
Definition CONSOLE_OUT : Z := 1.
Definition MODE_READWRITE : Z := 0.
Definition MODE_READ : Z := 1.

(** ** Open files: filesys/openfile.h *)

Module StubFile.
Record OpenFile : Type := mkOpenFile {
  file : Z;
  currentOffset : Z
}.

Section openfile.
Context {H : Type} `{HostOS H}.

Definition new_OpenFile (f : Z) : OpenFile := mkOpenFile f 0.

(** The destructor: [Close] here is the one of lib/sysdep.cc. *)
Definition delete_OpenFile (h : H) (f : OpenFile) : result H :=
  let* (h, _) := Close h (file f) in Ret h.

(** The number of bytes and the bytes stored into [into]. *)
Definition ReadAt (h : H) (f : OpenFile) (numBytes position : Z) : result (H * (Z * list byte)) :=
  let* h := Lseek h (file f) position 0 in
  ReadPartial h (file f) numBytes.

Definition WriteAt (h : H) (f : OpenFile) (from : list byte) (numBytes position : Z)
    : result (H * Z) :=
  let* h := Lseek h (file f) position 0 in
  let* bs := zslice from 0 numBytes in
  let* h := WriteFile h (file f) bs in
  Ret (h, numBytes).

Definition Read (h : H) (f : OpenFile) (numBytes : Z) : result (H * OpenFile * (Z * list byte)) :=
  let* (h, (numRead, bs)) := ReadAt h f numBytes (currentOffset f) in
  Ret (h, mkOpenFile (file f) (s32 (currentOffset f + numRead)), (numRead, bs)).

Definition Write (h : H) (f : OpenFile) (from : list byte) (numBytes : Z)
    : result (H * OpenFile * Z) :=
  let* (h, numWritten) := WriteAt h f from numBytes (currentOffset f) in
  Ret (h, mkOpenFile (file f) (s32 (currentOffset f + numWritten)), numWritten).

Definition Length (h : H) (f : OpenFile) : result (H * Z) :=
  let* h := Lseek h (file f) 0 2 in
  Ret (Tell h (file f)).

Definition Seek (f : OpenFile) (position : Z) : OpenFile * Z :=
  (mkOpenFile (file f) position, position).
End openfile.
End StubFile.

(** ** The tables: filesys/filesys.h *)

Inductive FilePtr : Type :=
  | FNull
  | FWild
  | FObj (f : StubFile.OpenFile).

(** A [char *]: the array it points to, as long as it was allocated. *)
Inductive NamePtr : Type :=
  | NNull
  | NWild
  | NArr (a : list byte).

Record FileSystem : Type := mkFileSystem {
  FileTable : list (list FilePtr);
  id : list (list Z);
  openMode : list (list Z);
  name : list (list NamePtr)
}.

(** [t[i][j]] and [t[i][j] = x] *)
Definition get2 {A} (t : list (list A)) (i j : Z) : result A :=
  let* row := zget t i in zget row j.
Definition set2 {A} (t : list (list A)) (i j : Z) (x : A) : result (list (list A)) :=
  let* row := zget t i in
  let* row := zset row j x in
  zset t i row.

Section construction.
Variables (g_file : nat -> FilePtr) (g_id g_mode : nat -> Z) (g_name : nat -> NamePtr).

(** The constructor; the rows of the outer arrays are set one by one. *)
Definition new_FileSystem : result FileSystem :=
  forZ 0 MAX_PROCESS (fun i fs =>
    let ids := uninit g_id (Z.to_nat MAX_FILE) in
    let* ids := zset ids CONSOLE_IN CONSOLE_IN in
    let* ids := zset ids CONSOLE_OUT CONSOLE_OUT in
    Ret (mkFileSystem
      (FileTable fs ++ [uninit g_file (Z.to_nat MAX_FILE)])
      (id fs ++ [ids])
      (openMode fs ++ [uninit g_mode (Z.to_nat MAX_FILE)])
      (name fs ++ [uninit g_name (Z.to_nat MAX_FILE)])))
    (mkFileSystem [] [] [] []).
End construction.

Section filesys.
Context {H : Type} `{HostOS H}.
(** The copy loop of [OpenMode], [name[i][j][index++] = fileName[index]], does not
    say which side is evaluated first before C++17; the build asks for C++11. *)
Variable rhs_first : bool.
(** What [new char[len]] and an uninitialised [int] hold. *)
Variables (g_char : nat -> byte) (g_fd : Z).

(** [delete FileTable[i][j]] *)
Definition delete_file (h : H) (p : FilePtr) : result H :=
  match p with
  | FNull => Ret h
  | FWild => Fault
  | FObj f => StubFile.delete_OpenFile h f
  end.

(** [delete name[i][j]] *)
Definition delete_name (p : NamePtr) : result unit :=
  match p with NWild => Fault | _ => Ret tt end.

(** The destructor: what it does to the host. *)
Definition delete_FileSystem (h : H) (fs : FileSystem) : result H :=
  forZ 0 MAX_PROCESS (fun i h =>
    forZ 0 MAX_FILE (fun j h =>
      let* p := get2 (FileTable fs) i j in
      let* h := delete_file h p in
      let* n := get2 (name fs) i j in
      let* _ := delete_name n in
      Ret h) h) h.

(** [name[i][j] != nullptr && strcmp(fileName, name[i][j]) == 0 && openMode[i][j] == mode] *)
Definition name_matches (fs : FileSystem) (fileName : list byte) (mode i j : Z) : result bool :=
  let* n := get2 (name fs) i j in
  match n with
  | NNull => Ret false
  | NWild => Fault
  | NArr a =>
      let* same := strcmp_eq fileName a in
      if same then let* md := get2 (openMode fs) i j in Ret (md =? mode) else Ret false
  end.

Definition checkFileMode (fs : FileSystem) (fileName : list byte) (mode : Z) : result bool :=
  let* r := searchZ 0 MAX_PROCESS (fun i =>
    searchZ 2 MAX_FILE (fun j =>
      let* b := name_matches fs fileName mode i j in
      Ret (if b then Some tt else None))) in
  Ret (match r with Some _ => true | None => false end).

Definition checkFileModeRead (fs : FileSystem) (fileName : list byte) : result bool :=
  checkFileMode fs fileName MODE_READ.
Definition checkFileModeReadWrite (fs : FileSystem) (fileName : list byte) : result bool :=
  checkFileMode fs fileName MODE_READWRITE.

(** The slot of a file ID: in each process the first from slot 2 on; of several
    processes the last. *)
Definition find_slot (fs : FileSystem) (fileID : Z) : result (option (Z * Z)) :=
  forZ 0 MAX_PROCESS (fun i found =>
    let* r := searchZ 2 MAX_FILE (fun j =>
      let* x := get2 (id fs) i j in
      Ret (if x =? fileID then Some (i, j) else None)) in
    Ret (match r with Some s => Some s | None => found end)) None.

(** The first slot of a file ID, where [Close] returns from inside the loops. *)
Definition first_slot (fs : FileSystem) (fileID : Z) : result (option (Z * Z)) :=
  searchZ 0 MAX_PROCESS (fun i =>
    searchZ 2 MAX_FILE (fun j =>
      let* x := get2 (id fs) i j in
      Ret (if x =? fileID then Some (i, j) else None))).

(** [FileSystem::Close]; the call [Close(fileID)] inside it is to itself.  [fuel]
    bounds the depth of that recursion. *)
Fixpoint Close (fuel : nat) (h : H) (fs : FileSystem) (fileID : Z)
    : result (H * FileSystem * Z) :=
  match fuel with
  | O => NoFuel
  | S fuel =>
      if fileID <? 0 then Ret (h, fs, -1) else
      let* slot := first_slot fs fileID in
      match slot with
      | None => Ret (h, fs, -1)
      | Some (i, j) =>
          let* p := get2 (FileTable fs) i j in
          let* h := delete_file h p in
          let* ft := set2 (FileTable fs) i j FNull in
          let* ids := set2 (id fs) i j 0 in
          let* n := get2 (name fs) i j in
          let* _ := delete_name n in
          let* nm := set2 (name fs) i j NNull in
          let* md := set2 (openMode fs) i j 0 in
          let* (h, fs, _) := Close fuel h (mkFileSystem ft ids md nm) fileID in
          Ret (h, fs, 0)
      end
  end.

(** Each call of [Close] below comes with fuel for the slots there are. *)
Definition close_fuel : nat := 20.

Definition Create (h : H) (fs : FileSystem) (nm : list byte) : result (H * FileSystem * Z) :=
  let* len := strlen nm in
  if len =? 0 then Ret (h, fs, -1) else
  let* cname := c_str nm in
  let* (h, fileDescriptor) := OpenForWrite h cname in
  if fileDescriptor <? 0 then Ret (h, fs, -1) else
  let* (h, fs, _) := Close close_fuel h fs fileDescriptor in
  Ret (h, fs, 0).

(** [while (index != len) name[i][j][index++] = fileName[index]] *)
Definition copy_name (fileName : list byte) (len : Z) : result (list byte) :=
  forZ 0 len (fun index a =>
    let* ch := zget fileName (if rhs_first then index else index + 1) in
    zset a index ch) (uninit g_char (Z.to_nat len)).

(** The loops that put the file into a free slot of each process; the flag is
    [k]. *)
Definition add_file (fs : FileSystem) (fileName : list byte) (fileDescriptor type : Z)
    : result (FileSystem * bool) :=
  forZ 0 MAX_PROCESS (fun i st =>
    let '(fs, k) := st in
    let* free := searchZ 2 MAX_FILE (fun j =>
      let* p := get2 (FileTable fs) i j in
      Ret (match p with FNull => Some j | _ => None end)) in
    match free with
    | None => Ret (fs, k)
    | Some j =>
        let* ft := set2 (FileTable fs) i j (FObj (StubFile.new_OpenFile fileDescriptor)) in
        let* ids := set2 (id fs) i j fileDescriptor in
        let* md := set2 (openMode fs) i j type in
        let* len := strlen fileName in
        let* a := copy_name fileName len in
        let* nm := set2 (name fs) i j (NArr a) in
        Ret (mkFileSystem ft ids md nm, true)
    end) (fs, false).

Definition OpenMode (h : H) (fs : FileSystem) (fileName : list byte) (type : Z)
    : result (H * FileSystem * Z) :=
  let* len := strlen fileName in
  if len =? 0 then Ret (h, fs, -1) else
  let* cname := c_str fileName in
  let* opened :=
    if type =? MODE_READ then
      let* busy := checkFileModeRead fs fileName in
      if busy then Ret None else let* r := OpenForRead h cname false in Ret (Some r)
    else if type =? MODE_READWRITE then
      let* busy := checkFileModeReadWrite fs fileName in
      if busy then Ret None else let* r := OpenForReadWrite h cname false in Ret (Some r)
    else Ret (Some (h, g_fd)) in
  match opened with
  | None => Ret (h, fs, -1)
  | Some (h, fileDescriptor) =>
      let* (fs, k) := add_file fs fileName fileDescriptor type in
      if k : bool then Ret (h, fs, fileDescriptor)
      else
        let* (h, fs, _) := Close close_fuel h fs fileDescriptor in
        Ret (h, fs, -1)
  end.

(** The open file of a slot, null when there is none. *)
Definition slot_file (fs : FileSystem) (slot : option (Z * Z)) : result FilePtr :=
  match slot with
  | None => Ret FNull
  | Some (i, j) => get2 (FileTable fs) i j
  end.

(** The file object after a call on it. *)
Definition update_slot (fs : FileSystem) (slot : option (Z * Z)) (f : StubFile.OpenFile)
    : result FileSystem :=
  match slot with
  | None => Ret fs
  | Some (i, j) =>
      let* ft := set2 (FileTable fs) i j (FObj f) in
      Ret (mkFileSystem ft (id fs) (openMode fs) (name fs))
  end.

(** The search of [Write], which returns at once (the flag) when the slot it finds
    is not open for writing. *)
Definition find_writable (fs : FileSystem) (fileID : Z) : result (bool * option (Z * Z)) :=
  forZ 0 MAX_PROCESS (fun i st =>
    let '(stop, found) := st in
    if stop : bool then Ret st else
    let* r := searchZ 2 MAX_FILE (fun j =>
      let* x := get2 (id fs) i j in
      Ret (if x =? fileID then Some (i, j) else None)) in
    match r with
    | None => Ret (false, found)
    | Some (i, j) =>
        let* md := get2 (openMode fs) i j in
        Ret (negb (md =? MODE_READWRITE), Some (i, j))
    end) (false, None).

(** [strlen(buffer) != size] compares as unsigned. *)
Definition Write (h : H) (fs : FileSystem) (buffer : list byte) (size fileID : Z)
    : result (H * FileSystem * Z) :=
  if fileID <? 0 then Ret (h, fs, -1) else
  let* len := strlen buffer in
  if negb (u32 len =? u32 size) then Ret (h, fs, -1) else
  let* (stop, slot) := find_writable fs fileID in
  if stop : bool then Ret (h, fs, -1) else
  let* p := slot_file fs slot in
  match p with
  | FNull => Ret (h, fs, -1)
  | FWild => Fault
  | FObj f =>
      let* (h, f, result) := StubFile.Write h f buffer size in
      let* fs := update_slot fs slot f in
      Ret (h, fs, result)
  end.

(** The result and the bytes stored into [buffer]. *)
Definition Read (h : H) (fs : FileSystem) (size fileID : Z)
    : result (H * FileSystem * (Z * list byte)) :=
  if fileID <? 0 then Ret (h, fs, (-1, [])) else
  let* slot := find_slot fs fileID in
  let* p := slot_file fs slot in
  match p with
  | FNull => Ret (h, fs, (-1, []))
  | FWild => Fault
  | FObj f =>
      let* (h, f, result) := StubFile.Read h f size in
      let* fs := update_slot fs slot f in
      Ret (h, fs, result)
  end.

Definition Seek (h : H) (fs : FileSystem) (pos fileID : Z) : result (H * FileSystem * Z) :=
  if fileID <? 0 then Ret (h, fs, -1) else
  let* slot := find_slot fs fileID in
  let* p := slot_file fs slot in
  match p with
  | FNull => Ret (h, fs, -1)
  | FWild => Fault
  | FObj f =>
      if pos <? -1 then Ret (h, fs, -1) else
      let* (h, pos) := if pos =? -1 then StubFile.Length h f else Ret (h, pos) in
      let (f, result) := StubFile.Seek f pos in
      let* fs := update_slot fs slot f in
      Ret (h, fs, result)
  end.

Definition Remove (h : H) (fs : FileSystem) (fileName : list byte) : result (H * Z) :=
  let* len := strlen fileName in
  if len =? 0 then Ret (h, -1) else
  let* rd := checkFileModeRead fs fileName in
  if rd : bool then Ret (h, -1) else
  let* rw := checkFileModeReadWrite fs fileName in
  if rw : bool then Ret (h, -1) else
  let* cname := c_str fileName in
  let (h, result) := Unlink h cname in
  if negb result then Ret (h, -1) else Ret (h, 1).

(** [Open], the one the kernel itself uses: [None] is a null pointer. *)
Definition Open (h : H) (fileName : list byte) : result (H * option StubFile.OpenFile) :=
  let* cname := c_str fileName in
  let* (h, fileDescriptor) := OpenForReadWrite h cname false in
  if fileDescriptor =? -1 then Ret (h, None)
  else Ret (h, Some (StubFile.new_OpenFile fileDescriptor)).
End filesys.

(** ** The shape of the tables *)

(** One process with a row of [MAX_FILE] cells. *)
Definition grid {A} (t : list (list A)) : Prop := exists row, t = [row] /\ length row = 20%nat.

Definition cell {A} (t : list (list A)) (j : Z) : option A :=
  match t with row :: _ => row !! Z.to_nat j | [] => None end.

Record wf_tables (fs : FileSystem) : Prop := {
  wt_files : grid (FileTable fs);
  wt_ids : grid (id fs);
  wt_modes : grid (openMode fs);
  wt_names : grid (name fs)
}.

(** A slot as it is before its first use, in zeroed memory, and after [Close]. *)
Record empty_slot (fs : FileSystem) (j : Z) : Prop := {
  es_file : cell (FileTable fs) j = Some FNull;
  es_name : cell (name fs) j = Some NNull
}.

(** The other slots are as they were. *)
Definition same_slots (P : Z -> Prop) (fs fs' : FileSystem) : Prop :=
  forall j, 0 <= j -> P j ->
    cell (FileTable fs') j = cell (FileTable fs) j /\ cell (id fs') j = cell (id fs) j /\
    cell (openMode fs') j = cell (openMode fs) j /\ cell (name fs') j = cell (name fs) j.

Section tables.
Context {A : Type}.
Implicit Types (t : list (list A)).

Lemma get2_cell t j x : 0 <= j -> cell t j = Some x -> get2 t 0 j = Ret x.
Proof.
  intros Hj Hc. unfold get2. destruct t as [|row t]; [done|].
  rewrite (zget_lookup _ 0 row), rbind_Ret by done. by apply zget_lookup.
Qed.

Lemma get2_spec t j : grid t -> 0 <= j < MAX_FILE ->
  exists x, get2 t 0 j = Ret x /\ cell t j = Some x.
Proof.
  intros (row & -> & Hl) Hj. unfold MAX_FILE in Hj. simpl.
  destruct (lookup_lt_is_Some_2 row (Z.to_nat j)) as [x Hx]; [lia|].
  exists x. split; [|done]. apply get2_cell; [lia|done].
Qed.

Lemma set2_spec t j x : grid t -> 0 <= j < MAX_FILE ->
  exists t', set2 t 0 j x = Ret t' /\ grid t' /\ cell t' j = Some x /\
    forall j', 0 <= j' -> j' <> j -> cell t' j' = cell t j'.
Proof.
  intros (row & -> & Hl) Hj. unfold MAX_FILE in Hj. unfold set2.
  rewrite (zget_lookup _ 0 row), rbind_Ret by done. rewrite zset_in, rbind_Ret by lia.
  rewrite zset_in by done. simpl. eexists. split; [done|]. split; [eexists; split; [done|by rewrite length_insert]|].
  split; [apply list_lookup_insert_eq; lia|]. intros j' ? ?. apply list_lookup_insert_ne. lia.
Qed.
End tables.

Lemma forZ_one {S} (body : Z -> S -> result S) s : forZ 0 MAX_PROCESS body s = body 0 s.
Proof. unfold forZ. simpl. by destruct (body 0 s). Qed.

Lemma searchZ_one {A} (body : Z -> result (option A)) : searchZ 0 MAX_PROCESS body = body 0.
Proof. unfold searchZ. simpl. by destruct (body 0) as [[x|]| | | |]. Qed.

(** ** Lemmas: finding a slot *)

Section slots.
Implicit Types (fs : FileSystem).

Lemma search_cells {A B} (t : list (list A)) (f : A -> Z -> option B) : grid t ->
  (exists j x a, 2 <= j < MAX_FILE /\ cell t j = Some x /\ f x j = Some a /\
     (forall j' x', 2 <= j' < j -> cell t j' = Some x' -> f x' j' = None) /\
     searchZ 2 MAX_FILE (fun j => let* x := get2 t 0 j in Ret (f x j)) = Ret (Some a)) \/
  ((forall j x, 2 <= j < MAX_FILE -> cell t j = Some x -> f x j = None) /\
   searchZ 2 MAX_FILE (fun j => let* x := get2 t 0 j in Ret (f x j)) = Ret None).
Proof.
  intros Ht.
  destruct (searchZ_spec (fun j => cell t j ≫= fun x => f x j) 2 MAX_FILE
    (fun j => let* x := get2 t 0 j in Ret (f x j))) as [(j & a & Hj & Hf & Hb & Hs)|[Hb Hs]];
    [done| | |].
  - intros j Hj. destruct (get2_spec t j Ht) as (x & -> & ->); [lia|]. done.
  - left. destruct (cell t j) as [x|] eqn:Hc; [|done]. exists j, x, a. do 3 (split; [done|]).
    split; [|done]. intros j' x' Hj' Hx'. specialize (Hb j' Hj'). by rewrite Hx' in Hb.
  - right. split; [|done]. intros j x Hj Hx. specialize (Hb j Hj). by rewrite Hx in Hb.
Qed.

Lemma first_slot_spec fs fid : grid (id fs) ->
  (exists j, 2 <= j < MAX_FILE /\ cell (id fs) j = Some fid /\
     (forall j', 2 <= j' < j -> cell (id fs) j' <> Some fid) /\
     first_slot fs fid = Ret (Some (0, j))) \/
  ((forall j, 2 <= j < MAX_FILE -> cell (id fs) j <> Some fid) /\ first_slot fs fid = Ret None).
Proof.
  intros Hg. unfold first_slot. rewrite searchZ_one.
  destruct (search_cells (id fs) (fun x j => if x =? fid then Some (0, j) else None) Hg)
    as [(j & x & a & Hj & Hc & Hf & Hb & ->)|[Hb ->]].
  - left. destruct (Z.eqb_spec x fid); [|done]. subst x. injection Hf as <-.
    exists j. split; [done|]. split; [done|]. split; [|done]. intros j' Hj' Hx.
    specialize (Hb j' fid Hj' Hx). by rewrite Z.eqb_refl in Hb.
  - right. split; [|done]. intros j Hj Hx. specialize (Hb j fid Hj Hx). by rewrite Z.eqb_refl in Hb.
Qed.

Lemma find_slot_first fs fid : find_slot fs fid = first_slot fs fid.
Proof.
  unfold find_slot, first_slot. rewrite forZ_one, searchZ_one.
  by destruct (searchZ 2 MAX_FILE _) as [[x|]| | | |].
Qed.

Lemma first_slot_at fs fid j : grid (id fs) -> 2 <= j < MAX_FILE -> cell (id fs) j = Some fid ->
  (forall j', 2 <= j' < MAX_FILE -> cell (id fs) j' = Some fid -> j' = j) ->
  first_slot fs fid = Ret (Some (0, j)).
Proof.
  intros Hg Hj Hc Hu. destruct (first_slot_spec fs fid Hg) as [(j' & Hj' & Hc' & _ & ->)|[Hno _]].
  - by rewrite (Hu j' Hj' Hc').
  - by destruct (Hno j Hj).
Qed.
End slots.

(** ** Lemmas: [Close] *)

Section close.
Context {H : Type} `{HostOS H}.
Implicit Types (h : H) (fs : FileSystem).

(** What emptying slot [j] leaves. *)
Record emptied (fs fs' : FileSystem) (j : Z) : Prop := {
  em_wf : wf_tables fs';
  em_slot : empty_slot fs' j;
  em_id : cell (id fs') j = Some 0;
  em_mode : cell (openMode fs') j = Some 0;
  em_others : same_slots (fun x => x <> j) fs fs'
}.

(** One level of [Close], up to the deletion of the file object. *)
Lemma Close_step fuel h fs fid j p : wf_tables fs -> 0 <= fid -> 2 <= j < MAX_FILE ->
  first_slot fs fid = Ret (Some (0, j)) -> cell (FileTable fs) j = Some p ->
  cell (name fs) j <> Some NWild ->
  exists fs', emptied fs fs' j /\
    Close (S fuel) h fs fid =
    let* h' := delete_file h p in
    let* (h, fs, _) := Close fuel h' fs' fid in Ret (h, fs, 0).
Proof.
  intros [Hf Hi Hm Hn] Hfid Hj Hs Hp Hw.
  destruct (set2_spec (FileTable fs) j FNull Hf) as (ft & E1 & ? & ? & Hft); [lia|].
  destruct (set2_spec (id fs) j 0 Hi) as (ids & E2 & ? & ? & Hids); [lia|].
  destruct (set2_spec (openMode fs) j 0 Hm) as (md & E3 & ? & ? & Hmd); [lia|].
  destruct (set2_spec (name fs) j NNull Hn) as (nm & E4 & ? & ? & Hnm); [lia|].
  destruct (get2_spec (name fs) j Hn) as (np & E5 & Hnp); [lia|].
  exists (mkFileSystem ft ids md nm). split.
  - split; simpl; try (split; done); try done.
    intros j' ? ?. simpl. rewrite Hft, Hids, Hmd, Hnm by done. done.
  - simpl Close. rewrite (proj2 (Z.ltb_ge fid 0)) by lia. rewrite Hs, rbind_Ret.
    rewrite (get2_cell _ _ p) by (lia || done). rewrite rbind_Ret.
    destruct (delete_file h p) as [h'| | | |]; simpl; try done.
    rewrite E1, rbind_Ret, E2, rbind_Ret, E5, rbind_Ret.
    destruct np; [| by rewrite Hnp in Hw |]; simpl; by rewrite E4, rbind_Ret, E3, rbind_Ret.
Qed.

Lemma Close_unknown fuel h fs fid : grid (id fs) ->
  fid < 0 \/ (forall j, 2 <= j < MAX_FILE -> cell (id fs) j <> Some fid) ->
  Close (S fuel) h fs fid = Ret (h, fs, -1).
Proof.
  intros Hg Hno. simpl. destruct (Z.ltb_spec fid 0); [done|].
  destruct (first_slot_spec fs fid Hg) as [(j & Hj & Hc & _)|[_ ->]]; [|done].
  destruct Hno as [?|Hno]; [lia|]. by destruct (Hno j Hj).
Qed.

(** Closing the one slot of a file ID other than 0. *)
Lemma Close_one fuel h h' fs fid j f r : wf_tables fs -> 0 < fid -> 2 <= j < MAX_FILE ->
  cell (id fs) j = Some fid ->
  (forall j', 2 <= j' < MAX_FILE -> cell (id fs) j' = Some fid -> j' = j) ->
  cell (FileTable fs) j = Some (FObj f) -> cell (name fs) j <> Some NWild ->
  os_close h (StubFile.file f) = (h', r) -> 0 <= r ->
  exists fs', Close (S (S fuel)) h fs fid = Ret (h', fs', 0) /\ emptied fs fs' j.
Proof.
  intros Hwf Hfid Hj Hid Hu Hf Hw Hc Hr.
  destruct (Close_step (S fuel) h fs fid j (FObj f)) as (fs' & He & ->); try done; try lia.
  { by apply first_slot_at; [apply wt_ids|..]. }
  exists fs'. split; [|done]. simpl delete_file. unfold StubFile.delete_OpenFile, Host.Close.
  rewrite Hc. rewrite ASSERT_true by (rewrite Z.geb_leb; lia). cbn [rbind].
  rewrite Close_unknown; [done|apply (em_wf _ _ _ He)|]. right. intros j' Hj' Hid'.
  destruct (decide (j' = j)) as [->|Hne]; [rewrite (em_id _ _ _ He) in Hid'; injection Hid'; lia|].
  destruct (em_others _ _ _ He j') as (_ & E & _ & _); [lia|done|].
  rewrite E in Hid'. auto.
Qed.

(** The number of slots with a file ID bounds the recursion of [Close]. *)
Definition open_count fs (fid : Z) : nat :=
  length (filter (fun j => cell (id fs) j = Some fid) (seqZ 2 18)).

Lemma filter_drop_one (P Q : Z -> Prop) `{!forall x, Decision (P x), !forall x, Decision (Q x)}
    (l : list Z) j : j ∈ l -> P j -> ~ Q j -> (forall x, x ∈ l -> Q x -> P x) ->
  (length (filter Q l) < length (filter P l))%nat.
Proof.
  intros Hj HP HQ.
  assert (Hle : forall l, (forall x, x ∈ l -> Q x -> P x) ->
    (length (filter Q l) <= length (filter P l))%nat).
  { intros l' Hsub. induction l' as [|x l' IH]; [done|]. rewrite !filter_cons.
    specialize (IH ltac:(set_solver)).
    destruct (decide (Q x)), (decide (P x)); simpl; try lia. assert (P x) by (apply Hsub; [set_solver|done]); done. }
  induction l as [|x l IH]; intros Hsub; [by apply elem_of_nil in Hj|].
  rewrite !filter_cons. apply elem_of_cons in Hj as [<-|Hj].
  - rewrite (decide_False (P := Q j)), (decide_True (P := P j)) by done. simpl.
    specialize (Hle l ltac:(set_solver)). lia.
  - specialize (IH Hj ltac:(set_solver)). destruct (decide (Q x)), (decide (P x)); simpl; try lia.
    assert (P x) by (apply Hsub; [set_solver|done]); done.
Qed.

Lemma Close_total fuel : forall h fs fid, wf_tables fs -> fid <> 0 ->
  (forall j, 2 <= j < MAX_FILE -> cell (name fs) j <> Some NWild) ->
  (open_count fs fid < fuel)%nat -> Close fuel h fs fid <> NoFuel.
Proof.
  induction fuel as [|fuel IH]; intros h fs fid Hwf Hfid Hnw Hc; [lia|].
  destruct (decide (fid < 0)) as [Hneg|Hpos].
  { rewrite Close_unknown by (auto || apply Hwf). done. }
  destruct (first_slot_spec fs fid (wt_ids _ Hwf)) as [(j & Hj & Hid & _ & Hs)|[Hno _]].
  2: { rewrite Close_unknown by (auto || apply Hwf). done. }
  destruct (get2_spec (FileTable fs) j (wt_files _ Hwf)) as (p & _ & Hp); [lia|].
  destruct (Close_step fuel h fs fid j p) as (fs' & He & ->); auto; [lia|].
  assert (Hrec : forall h', Close fuel h' fs' fid <> NoFuel).
  { intros h'. apply IH; [apply He|done| |].
    - intros j' Hj'. destruct (decide (j' = j)) as [->|Hne].
      + by rewrite (es_name _ _ (em_slot _ _ _ He)).
      + destruct (em_others _ _ _ He j') as (_ & _ & _ & ->); auto. lia.
    - eapply Nat.lt_le_trans; [apply (filter_drop_one (fun x => cell (id fs) x = Some fid)) with j|].
      + apply elem_of_seqZ. unfold MAX_FILE in Hj. lia.
      + done.
      + rewrite (em_id _ _ _ He). intros [= ?]. lia.
      + intros x [Hx0 _]%elem_of_seqZ Hx. destruct (decide (x = j)) as [->|Hne].
        { rewrite (em_id _ _ _ He) in Hx. injection Hx. lia. }
        destruct (em_others _ _ _ He x) as (_ & <- & _ & _); [lia|done|done].
      + unfold open_count in Hc. lia. }
  destruct p as [| |f]; simpl; try done.
  - specialize (Hrec h). by destruct (Close fuel h fs' fid) as [[[? ?] ?]| | | |].
  - unfold StubFile.delete_OpenFile, Host.Close. destruct (os_close h (StubFile.file f)) as [h' r].
    destruct (r >=? 0); simpl; [|done]. specialize (Hrec h').
    by destruct (Close fuel h' fs' fid) as [[[? ?] ?]| | | |].
Qed.

(** [Close(0)] when a slot from 2 on has ID 0 and is empty. *)
Lemma Close_zero fuel : forall h fs, wf_tables fs ->
  (exists j, 2 <= j < MAX_FILE /\ cell (id fs) j = Some 0) ->
  (forall j, 2 <= j < MAX_FILE -> cell (id fs) j = Some 0 -> empty_slot fs j) ->
  Close fuel h fs 0 = NoFuel.
Proof.
  induction fuel as [|fuel IH]; intros h fs Hwf (j0 & Hj0 & Hid0) Hempty; [done|].
  destruct (first_slot_spec fs 0 (wt_ids _ Hwf)) as [(j & Hj & Hid & _ & Hs)|[Hno _]];
    [|by destruct (Hno j0 Hj0)].
  destruct (Hempty j Hj Hid) as [Hf Hn].
  destruct (Close_step fuel h fs 0 j FNull) as (fs' & He & ->); auto; [lia|by rewrite Hn|].
  simpl. rewrite IH; [done|apply He|exists j; split; [done|apply He]|].
  intros j' Hj' Hid'. destruct (decide (j' = j)) as [->|Hne]; [apply He|].
  destruct (em_others _ _ _ He j') as (E1 & E2 & _ & E4); [lia|done|].
  rewrite E2 in Hid'. destruct (Hempty j' Hj' Hid') as [? ?]. split; congruence.
Qed.
End close.

(** ** Lemmas: [OpenMode] *)

Section open.
Context {H : Type} `{HostOS H}.
Variables (rhs_first : bool) (g_char : nat -> byte) (g_fd : Z).
Implicit Types (h : H) (fs : FileSystem).

(** The name that lands in the table: unterminated, or without its first
    character, depending on the order of evaluation. *)
Definition stored_name (s : list byte) : list byte :=
  if rhs_first then s else tail (s ++ [NUL]).

Lemma copy_name_spec fileName s : holds_str fileName s -> s <> [] ->
  copy_name rhs_first g_char fileName (Z.of_nat (length s)) = Ret (stored_name s).
Proof.
  intros [_ [rest ->]] Hne. unfold copy_name.
  set (src := if rhs_first then s else tail (s ++ [NUL])).
  assert (Hl : length src = length s)
    by (unfold src; destruct rhs_first; [done|]; destruct s; [done|]; simpl; rewrite length_app; simpl; lia).
  assert (Hget : forall i, (i < length s)%nat -> exists x, src !! i = Some x /\
    zget (s ++ NUL :: rest) (if rhs_first then Z.of_nat i else Z.of_nat i + 1) = Ret x).
  { intros i Hi. destruct (lookup_lt_is_Some_2 src i) as [x Hx]; [lia|]. exists x. split; [done|].
    unfold src in Hx. destruct rhs_first.
    - apply zget_lookup; [lia|]. rewrite Nat2Z.id, lookup_app_l by lia. done.
    - apply zget_lookup; [lia|]. replace (Z.to_nat (Z.of_nat i + 1)) with (S i) by lia.
      rewrite lookup_tail in Hx. rewrite <- Hx.
      change (NUL :: rest) with ([NUL] ++ rest). rewrite app_assoc.
      rewrite lookup_app_l by (rewrite length_app; simpl; lia). done. }
  destruct (forZ_inv (fun i a => length a = length s /\ take (Z.to_nat i) a = take (Z.to_nat i) src)
    0 (Z.of_nat (length s)) (fun index a =>
      let* ch := zget (s ++ NUL :: rest) (if rhs_first then index else index + 1) in
      zset a index ch) (uninit g_char (Z.to_nat (Z.of_nat (length s))))) as (a & -> & Ha & Ht).
  - lia.
  - split; [|done]. rewrite length_uninit. lia.
  - intros i a Hi [Ha Ht]. destruct (Hget (Z.to_nat i)) as (x & Hx & Hz); [lia|].
    rewrite Z2Nat.id in Hz by lia. rewrite Hz, rbind_Ret, zset_in by lia.
    eexists. split; [done|]. split; [by rewrite length_insert|].
    replace (Z.to_nat (i + 1)) with (S (Z.to_nat i)) by lia.
    rewrite (take_S_r _ _ x) by (apply list_lookup_insert_eq; lia).
    rewrite take_insert_ge by lia. rewrite Ht. symmetry. by apply take_S_r.
  - rewrite Nat2Z.id in Ht. unfold stored_name. fold src. f_equal.
    rewrite <- (take_ge a (length s)), Ht by lia. apply take_ge. lia.
Qed.

(** Comparing the stored name with the name it was made from. *)
Lemma stored_name_strcmp fileName s : holds_str fileName s -> s <> [] ->
  strcmp_eq fileName (stored_name s) = if rhs_first then Fault else Ret false.
Proof.
  intros Hs Hne. unfold stored_name. destruct rhs_first; [by apply strcmp_eq_unterminated|].
  destruct s as [|x s]; [done|]. simpl. rewrite (strcmp_eq_holds _ _ (x :: s) s).
  - rewrite bool_decide_eq_false_2; [done|]. intros E. apply (f_equal length) in E. simpl in E. lia.
  - done.
  - destruct Hs as [Hn _]. split; [set_solver|]. by exists [].
Qed.

(** A file in slot [j]. *)
Record opened fs (fs' : FileSystem) (j fd type : Z) (s : list byte) : Prop := {
  op_wf : wf_tables fs';
  op_file : cell (FileTable fs') j = Some (FObj (StubFile.mkOpenFile fd 0));
  op_id : cell (id fs') j = Some fd;
  op_mode : cell (openMode fs') j = Some type;
  op_name : cell (name fs') j = Some (NArr (stored_name s));
  op_others : same_slots (fun x => x <> j) fs fs'
}.

Lemma add_file_spec fs fileName s fd type : wf_tables fs -> holds_str fileName s -> s <> [] ->
  (exists j fs', 2 <= j < MAX_FILE /\ cell (FileTable fs) j = Some FNull /\
     add_file rhs_first g_char fs fileName fd type = Ret (fs', true) /\ opened fs fs' j fd type s) \/
  ((forall j, 2 <= j < MAX_FILE -> cell (FileTable fs) j <> Some FNull) /\
   add_file rhs_first g_char fs fileName fd type = Ret (fs, false)).
Proof.
  intros [Hf Hi Hm Hn] Hs Hne. unfold add_file. rewrite forZ_one.
  destruct (search_cells (FileTable fs) (fun p j => match p with FNull => Some j | _ => None end) Hf)
    as [(j & p & a & Hj & Hc & Hp & _ & ->)|[Hno ->]].
  - left. destruct p; try done. injection Hp as <-.
    rewrite rbind_Ret.
    destruct (set2_spec (FileTable fs) j (FObj (StubFile.new_OpenFile fd)) Hf) as (ft & -> & ? & ? & Hft); [lia|].
    rewrite rbind_Ret.
    destruct (set2_spec (id fs) j fd Hi) as (ids & -> & ? & ? & Hids); [lia|]. rewrite rbind_Ret.
    destruct (set2_spec (openMode fs) j type Hm) as (md & -> & ? & ? & Hmd); [lia|].
    rewrite rbind_Ret, (strlen_holds _ s), rbind_Ret, copy_name_spec, rbind_Ret by done.
    destruct (set2_spec (name fs) j (NArr (stored_name s)) Hn) as (nm & -> & ? & ? & Hnm); [lia|].
    rewrite rbind_Ret. exists j, (mkFileSystem ft ids md nm). do 3 (split; [done|]).
    split; simpl; try (split; done); try done.
    intros j' ? ?. simpl. rewrite Hft, Hids, Hmd, Hnm by done. done.
  - right. split; [intros j Hj Hc; by specialize (Hno j FNull Hj Hc)|].
    done.
Qed.

Definition is_mode (type : Z) : Prop := type = MODE_READ \/ type = MODE_READWRITE.

(** [OpenMode] up to the table, for a name that the check does not find. *)
Lemma OpenMode_host h h' fs fileName s type fd : holds_str fileName s -> s <> [] -> is_mode type ->
  checkFileMode fs fileName type = Ret false ->
  os_open h s (type =? MODE_READWRITE) false = (h', fd) ->
  OpenMode rhs_first g_char g_fd h fs fileName type =
  let* (fs, k) := add_file rhs_first g_char fs fileName fd type in
  if k : bool then Ret (h', fs, fd)
  else let* (h, fs, _) := Close close_fuel h' fs fd in Ret (h, fs, -1).
Proof.
  intros Hs Hne Hm Hc Ho. unfold OpenMode.
  rewrite (strlen_holds _ s), rbind_Ret, (c_str_holds _ s) by done.
  rewrite (proj2 (Z.eqb_neq _ 0)) by (destruct s; simpl; [done|lia]). rewrite rbind_Ret.
  destruct Hm as [-> | ->]; simpl in Ho |- *.
  - unfold checkFileModeRead. rewrite Hc. simpl. unfold OpenForRead. by rewrite Ho.
  - unfold checkFileModeReadWrite. rewrite Hc. simpl. unfold OpenForReadWrite. by rewrite Ho.
Qed.
End open.

(** ** Lemmas: the data of an open file *)

Section data.
Context {H : Type} `{RegularFile H}.
Implicit Types (h : H) (fs : FileSystem).

(** File ID [fid] is slot [j], which holds [f] in mode [m]. *)
Record file_at fs (fid j : Z) (f : StubFile.OpenFile) (m : Z) : Prop := {
  fa_wf : wf_tables fs;
  fa_range : 2 <= j < MAX_FILE;
  fa_id : 0 <= fid;
  fa_slot : first_slot fs fid = Ret (Some (0, j));
  fa_file : cell (FileTable fs) j = Some (FObj f);
  fa_mode : cell (openMode fs) j = Some m
}.

Lemma slot_file_at fs fid j f m : file_at fs fid j f m ->
  slot_file fs (Some (0, j)) = Ret (FObj f).
Proof. intros [? ? ? ? ? ?]. simpl. apply get2_cell; [lia|done]. Qed.

Lemma update_slot_at fs fid j f m f' : file_at fs fid j f m ->
  exists fs', update_slot fs (Some (0, j)) f' = Ret fs' /\ file_at fs' fid j f' m /\
    same_slots (fun x => x <> j) fs fs'.
Proof.
  intros [[Hf Hi Hm Hn] Hj Hfid Hs Hfile Hmode]. unfold update_slot.
  destruct (set2_spec (FileTable fs) j (FObj f') Hf) as (ft & -> & ? & ? & Hft); [lia|].
  rewrite rbind_Ret. eexists. split; [done|]. split; [split; try done|].
  intros j' ? ?. simpl. by rewrite Hft.
Qed.

Lemma find_writable_at fs fid j f : file_at fs fid j f MODE_READWRITE ->
  find_writable fs fid = Ret (false, Some (0, j)).
Proof.
  intros [_ Hj _ Hs _ Hmode]. unfold find_writable. rewrite forZ_one. cbn [fst snd].
  unfold first_slot in Hs. rewrite searchZ_one in Hs. rewrite Hs, rbind_Ret.
  rewrite (get2_cell _ _ MODE_READWRITE) by (lia || done). done.
Qed.

(** The three operations on a file that is open for reading and writing. *)
Lemma Write_at h fs fid j f data pos buffer s : file_at fs fid j f MODE_READWRITE ->
  at_file h (StubFile.file f) data pos ->
  0 <= StubFile.currentOffset f <= Z.of_nat (length data) ->
  StubFile.currentOffset f + Z.of_nat (length s) < 2 ^ 31 -> holds_str buffer s ->
  let off := Z.to_nat (StubFile.currentOffset f) in
  exists h' fs' pos', Write h fs buffer (Z.of_nat (length s)) fid =
      Ret (h', fs', Z.of_nat (length s)) /\
    file_at fs' fid j (StubFile.mkOpenFile (StubFile.file f)
      (StubFile.currentOffset f + Z.of_nat (length s))) MODE_READWRITE /\
    same_slots (fun x => x <> j) fs fs' /\
    at_file h' (StubFile.file f) (take off data ++ s ++ drop (off + length s) data) pos'.
Proof.
  intros Hfa Hat Hoff Hmax Hs off. unfold Write.
  rewrite (proj2 (Z.ltb_ge fid 0)) by apply Hfa. rewrite (strlen_holds _ s), rbind_Ret, Z.eqb_refl by done.
  cbn [negb]. rewrite (find_writable_at _ _ _ _ Hfa), rbind_Ret.
  rewrite (slot_file_at _ _ _ _ _ Hfa), rbind_Ret. unfold StubFile.Write, StubFile.WriteAt, Lseek.
  destruct (lseek_law h _ _ _ (StubFile.currentOffset f) Hat) as (h1 & E1 & Hat1); [lia|].
  change SEEK_SET with 0 in E1. rewrite E1. rewrite ASSERT_true by (rewrite Z.geb_leb; lia). cbn [rbind].
  destruct Hs as [Hnul [rest ->]]. rewrite zslice_in by (rewrite ?length_app; lia). cbn [rbind].
  rewrite Nat2Z.id. change (Z.to_nat 0) with 0%nat. rewrite drop_0, take_app_length. unfold WriteFile.
  destruct (write_law h1 _ _ _ s Hat1) as (h2 & -> & Hat2); [lia|]. rewrite Z.eqb_refl. cbn [ASSERT rbind].
  rewrite s32_id by (unfold is_s32; lia).
  destruct (update_slot_at _ _ _ _ _ (StubFile.mkOpenFile (StubFile.file f)
    (StubFile.currentOffset f + Z.of_nat (length s))) Hfa) as (fs' & -> & Hfa' & Hsame). cbn [rbind].
  eexists h2, fs', _. split; [done|]. split; [done|]. split; [done|]. exact Hat2.
Qed.

Lemma Seek_at h fs fid j f m data pos p : file_at fs fid j f m ->
  at_file h (StubFile.file f) data pos -> -1 <= p ->
  let target := if p =? -1 then Z.of_nat (length data) else p in
  exists h' fs' pos', Seek h fs p fid = Ret (h', fs', target) /\
    file_at fs' fid j (StubFile.mkOpenFile (StubFile.file f) target) m /\
    same_slots (fun x => x <> j) fs fs' /\ at_file h' (StubFile.file f) data pos'.
Proof.
  intros Hfa Hat Hp target. unfold Seek.
  rewrite (proj2 (Z.ltb_ge fid 0)) by apply Hfa. rewrite find_slot_first, (fa_slot _ _ _ _ _ Hfa), rbind_Ret.
  rewrite (slot_file_at _ _ _ _ _ Hfa), rbind_Ret, (proj2 (Z.ltb_ge p (-1))) by lia.
  assert (HL : exists h' pos', (if p =? -1 then StubFile.Length h f else Ret (h, p)) = Ret (h', target) /\
    at_file h' (StubFile.file f) data pos').
  { unfold target. destruct (p =? -1); [|eauto]. unfold StubFile.Length, Lseek, Tell.
    destruct (lseek_end_law h _ _ _ Hat) as (h1 & E1 & Hat1). change SEEK_END with 2 in E1. rewrite E1.
    rewrite ASSERT_true by (rewrite Z.geb_leb; lia). cbn [rbind].
    destruct (lseek_cur_law h1 _ _ _ Hat1) as (h2 & E2 & Hat2); [lia|]. rewrite E2. eauto. }
  destruct HL as (h' & pos' & -> & Hat'). rewrite rbind_Ret. cbn [StubFile.Seek].
  destruct (update_slot_at _ _ _ _ _ (StubFile.mkOpenFile (StubFile.file f) target) Hfa)
    as (fs' & -> & Hfa' & Hsame). cbn [rbind]. by exists h', fs', pos'.
Qed.

Lemma Read_at h fs fid j f m data pos size : file_at fs fid j f m ->
  at_file h (StubFile.file f) data pos -> 0 <= StubFile.currentOffset f -> 0 <= size ->
  StubFile.currentOffset f + size < 2 ^ 31 ->
  let bs := take (Z.to_nat size) (drop (Z.to_nat (StubFile.currentOffset f)) data) in
  exists h' fs' pos', Read h fs size fid = Ret (h', fs', (Z.of_nat (length bs), bs)) /\
    file_at fs' fid j (StubFile.mkOpenFile (StubFile.file f)
      (StubFile.currentOffset f + Z.of_nat (length bs))) m /\
    same_slots (fun x => x <> j) fs fs' /\ at_file h' (StubFile.file f) data pos'.
Proof.
  intros Hfa Hat Hoff Hsz Hmax bs. unfold Read.
  rewrite (proj2 (Z.ltb_ge fid 0)) by apply Hfa. rewrite find_slot_first, (fa_slot _ _ _ _ _ Hfa), rbind_Ret.
  rewrite (slot_file_at _ _ _ _ _ Hfa), rbind_Ret. unfold StubFile.Read, StubFile.ReadAt, Lseek, ReadPartial.
  destruct (lseek_law h _ _ _ (StubFile.currentOffset f) Hat) as (h1 & E1 & Hat1); [lia|].
  change SEEK_SET with 0 in E1. rewrite E1. rewrite ASSERT_true by (rewrite Z.geb_leb; lia). cbn [rbind].
  destruct (read_law h1 _ _ _ size Hat1) as (h2 & E2 & Hat2); [lia|lia|]. fold bs in E2, Hat2. rewrite E2.
  cbn [rbind]. assert (Z.of_nat (length bs) <= size) by (unfold bs; rewrite length_take; lia).
  rewrite s32_id by (unfold is_s32; lia).
  destruct (update_slot_at _ _ _ _ _ (StubFile.mkOpenFile (StubFile.file f)
    (StubFile.currentOffset f + Z.of_nat (length bs))) Hfa) as (fs' & -> & Hfa' & Hsame). cbn [rbind].
  eexists h2, fs', _. split; [done|]. split; [done|]. split; [done|]. exact Hat2.
Qed.
End data.

(** ** Claims *)

(** Opening and closing.  [OpenMode] on a non-empty name that the duplicate
    check does not find, with a free slot, opens the file on the host in the
    asked mode, puts it into a free slot with its descriptor as ID, and leaves
    the other slots alone; closing that ID (two levels of [Close]'s recursion)
    closes the descriptor on the host exactly once and empties the slot. *)
Theorem open_then_close {H} `{HostOS H} rhs_first g_char g_fd (h h1 h2 : H) fs fileName s type fd r :
  wf_tables fs -> holds_str fileName s -> s <> [] -> is_mode type ->
  checkFileMode fs fileName type = Ret false ->
  (exists j, 2 <= j < MAX_FILE /\ cell (FileTable fs) j = Some FNull) ->
  os_open h s (type =? MODE_READWRITE) false = (h1, fd) -> 0 < fd ->
  (forall j, 2 <= j < MAX_FILE -> cell (id fs) j <> Some fd) ->
  os_close h1 fd = (h2, r) -> 0 <= r ->
  exists fs1 fs2 j, 2 <= j < MAX_FILE /\ cell (FileTable fs) j = Some FNull /\
    OpenMode rhs_first g_char g_fd h fs fileName type = Ret (h1, fs1, fd) /\
    opened rhs_first fs fs1 j fd type s /\
    Close close_fuel h1 fs1 fd = Ret (h2, fs2, 0) /\ emptied fs1 fs2 j.
Proof.
  intros Hwf Hs Hne Hm Hc (j0 & Hj0 & Hfree) Ho Hfd Hfresh Hcl Hr.
  rewrite (OpenMode_host _ _ _ h h1 fs fileName s type fd) by done.
  destruct (add_file_spec rhs_first g_char fs fileName s fd type Hwf Hs Hne)
    as [(j & fs1 & Hj & Hnull & -> & Hop)|[Hno _]]; [|by destruct (Hno j0 Hj0)].
  rewrite rbind_Ret.
  destruct (Close_one 18 h1 h2 fs1 fd j (StubFile.mkOpenFile fd 0) r) as (fs2 & HC & He); try done;
    try apply Hop.
  - intros j' Hj' Hid. destruct (decide (j' = j)) as [|Hd]; [done|].
    destruct (op_others _ _ _ _ _ _ _ Hop j') as (_ & E & _ & _); [lia|done|].
    rewrite E in Hid. by destruct (Hfresh j' Hj').
  - by rewrite (op_name _ _ _ _ _ _ _ Hop).
  - by exists fs1, fs2, j.
Qed.

(** Reading, writing and seeking.  Writing a string to a file open for reading
    and writing stores it at the file's position, extending the file if needed;
    seeking back and reading returns it; seeking to -1 goes to the new end.  No
    other slot changes. *)
Theorem stub_write_read {H} `{RegularFile H} (h : H) fs fid j f data pos buffer s :
  file_at fs fid j f MODE_READWRITE -> at_file h (StubFile.file f) data pos ->
  0 <= StubFile.currentOffset f <= Z.of_nat (length data) ->
  StubFile.currentOffset f + Z.of_nat (length s) < 2 ^ 31 -> holds_str buffer s ->
  let off := StubFile.currentOffset f in
  let n := Z.of_nat (length s) in
  exists h1 fs1 h2 fs2 h3 fs3, Write h fs buffer n fid = Ret (h1, fs1, n) /\
    Seek h1 fs1 off fid = Ret (h2, fs2, off) /\
    Read h2 fs2 n fid = Ret (h3, fs3, (n, s)) /\
    same_slots (fun x => x <> j) fs fs3 /\
    exists h4 fs4, Seek h3 fs3 (-1) fid =
      Ret (h4, fs4, Z.max (Z.of_nat (length data)) (off + n)).
Proof.
  intros Hfa Hat Hoff Hmax Hs off n.
  destruct (Write_at h fs fid j f data pos buffer s Hfa Hat Hoff Hmax Hs)
    as (h1 & fs1 & p1 & HW & Hfa1 & Hsame1 & Hat1).
  set (data' := take _ data ++ _) in Hat1.
  destruct (Seek_at h1 fs1 fid j _ _ data' p1 off Hfa1 Hat1) as (h2 & fs2 & p2 & HS & Hfa2 & Hsame2 & Hat2);
    [lia|]. cbn [StubFile.file] in Hat2, Hfa2.
  rewrite (proj2 (Z.eqb_neq off (-1))) in HS, Hfa2 by lia.
  destruct (Read_at h2 fs2 fid j _ _ data' p2 n Hfa2 Hat2) as (h3 & fs3 & p3 & HR & Hfa3 & Hsame3 & Hat3);
    cbn [StubFile.currentOffset StubFile.file] in *; try lia.
  destruct (Seek_at h3 fs3 fid j _ _ data' p3 (-1) Hfa3 Hat3) as (h4 & fs4 & p4 & HE & _); [lia|].
  exists h1, fs1, h2, fs2, h3, fs3.
  assert (Hbs : take (Z.to_nat n) (drop (Z.to_nat off) data') = s).
  { unfold data', n. rewrite drop_app_length' by (rewrite length_take; lia).
    rewrite Nat2Z.id. by rewrite take_app_length. }
  rewrite Hbs in HR. do 3 (split; [done|]). split.
  - intros x Hx0 Hx. destruct (Hsame1 x Hx0 Hx) as (<- & <- & <- & <-),
      (Hsame2 x Hx0 Hx) as (<- & <- & <- & <-). by apply Hsame3.
  - exists h4, fs4. rewrite HE. change (-1 =? -1) with true. cbv iota. do 2 f_equal. unfold data'.
    rewrite !length_app, length_take, length_drop. unfold n, off. lia.
Qed.

(** Closing descriptor 0 never ends.  After a file has been closed its slot
    keeps the ID 0, and [Close] calls itself: a later [Close(0)], which a user
    program can ask for, recurses for ever, whatever the fuel, in any table whose
    slots with ID 0 are empty.  Every other ID is dealt with by [close_fuel]
    levels. *)
Theorem Close_zero_diverges {H} `{HostOS H} (h : H) fs fs' j :
  wf_tables fs -> (forall i, 2 <= i < MAX_FILE -> cell (id fs) i = Some 0 -> empty_slot fs i) ->
  2 <= j < MAX_FILE -> emptied fs fs' j ->
  (forall fuel, Close fuel h fs' 0 = NoFuel) /\
  ((forall i, 2 <= i < MAX_FILE -> cell (name fs') i <> Some NWild) ->
    forall fid, fid <> 0 -> Close close_fuel h fs' fid <> NoFuel).
Proof.
  intros Hwf Hempty Hj He. split.
  - intros fuel. apply Close_zero; [apply He|exists j; split; [done|apply He]|].
    intros i Hi Hid. destruct (decide (i = j)) as [->|Hne]; [apply He|].
    destruct (em_others _ _ _ He i) as (E1 & E2 & _ & E4); [lia|done|]. rewrite E2 in Hid.
    destruct (Hempty i Hi Hid). split; congruence.
  - intros Hnw fid Hfid. apply Close_total; [apply He|done|done|].
    unfold open_count, close_fuel. eapply Nat.le_lt_trans; [apply length_filter|].
    rewrite length_seqZ. lia.
Qed.

(** The check for a file that is already open cannot find it.  Whichever side
    of the copy loop's assignment is evaluated first, the name stored by a
    successful [OpenMode] is not the C string it came from: looking the same name
    up again runs past the stored array, or does not match. *)
Theorem duplicate_open_missed {H} `{HostOS H} rhs_first g_char g_fd (h h1 : H) fs fs1 fileName s type fd :
  wf_tables fs -> holds_str fileName s -> s <> [] -> is_mode type ->
  (forall j, 2 <= j < MAX_FILE -> cell (name fs) j = Some NNull) ->
  (exists j, 2 <= j < MAX_FILE /\ cell (FileTable fs) j = Some FNull) ->
  os_open h s (type =? MODE_READWRITE) false = (h1, fd) ->
  OpenMode rhs_first g_char g_fd h fs fileName type = Ret (h1, fs1, fd) ->
  checkFileMode fs1 fileName type = if rhs_first then Fault else Ret false.
Proof.
  intros Hwf Hs Hne Hm Hnull (j0 & Hj0 & Hfree) Ho HO.
  assert (Hcheck : forall g, (forall j, 2 <= j < MAX_FILE -> cell (name g) j = Some NNull) ->
    checkFileMode g fileName type = Ret false).
  { intros g Hg. unfold checkFileMode. rewrite searchZ_one.
    destruct (searchZ_spec (fun _ => @None unit) 2 MAX_FILE (fun j =>
      let* b := name_matches g fileName type 0 j in Ret (if b then Some tt else None)))
      as [(j & a & _ & ? & _)|[_ ->]]; try done.
    intros j Hj. unfold name_matches. rewrite (get2_cell _ _ NNull) by (lia || auto). done. }
  rewrite (OpenMode_host _ _ _ h h1 fs fileName s type fd) in HO by auto.
  destruct (add_file_spec rhs_first g_char fs fileName s fd type Hwf Hs Hne)
    as [(j & fs1' & Hj & _ & E & Hop)|[Hno _]]; [|by destruct (Hno j0 Hj0)].
  rewrite E, rbind_Ret in HO. injection HO as ->.
  unfold checkFileMode. rewrite searchZ_one.
  assert (Hstep : forall i, 2 <= i < MAX_FILE -> name_matches fs1 fileName type 0 i =
    if decide (i = j) then if rhs_first then Fault else Ret false else Ret false).
  { intros i Hi. unfold name_matches. destruct (decide (i = j)) as [->|Hd].
    - rewrite (get2_cell _ _ (NArr (stored_name rhs_first s))), rbind_Ret by (lia || apply Hop).
      rewrite stored_name_strcmp by done. by destruct rhs_first.
    - destruct (op_others _ _ _ _ _ _ _ Hop i) as (_ & _ & _ & Ei); [lia|done|].
      rewrite (get2_cell _ _ NNull); [done|lia|]. rewrite Ei. auto. }
  clear -Hstep Hj. revert Hstep Hj. generalize 2. intros lo.
  remember (Z.to_nat (MAX_FILE - lo)) as n eqn:Hn. revert lo Hn.
  induction n as [|n IH]; intros lo Hn Hstep Hj; [lia|].
  rewrite searchZ_step, Hstep by lia. destruct (decide (lo = j)) as [->|Hd].
  - destruct rhs_first; [done|]. rewrite rbind_Ret, rbind_Ret.
    destruct (searchZ_spec (fun _ => @None unit) (j + 1) MAX_FILE (fun j =>
      let* b := name_matches fs1 fileName type 0 j in Ret (if b then Some tt else None)))
      as [(j' & a & _ & ? & _)|[_ ->]]; try done; [lia|].
    intros i Hi. rewrite Hstep by lia. by destruct (decide (i = j)).
  - rewrite rbind_Ret, rbind_Ret. apply IH; [lia| |lia]. intros i Hi. apply Hstep. lia.
Qed.

(** An open that fails on the host still takes a slot, which no [Close] frees. *)
Theorem failed_open_keeps_slot {H} `{HostOS H} rhs_first g_char g_fd (h h1 : H) fs fileName s type :
  wf_tables fs -> holds_str fileName s -> s <> [] -> is_mode type ->
  checkFileMode fs fileName type = Ret false ->
  (exists j, 2 <= j < MAX_FILE /\ cell (FileTable fs) j = Some FNull) ->
  os_open h s (type =? MODE_READWRITE) false = (h1, -1) ->
  exists fs1 j, OpenMode rhs_first g_char g_fd h fs fileName type = Ret (h1, fs1, -1) /\
    opened rhs_first fs fs1 j (-1) type s /\ Close close_fuel h1 fs1 (-1) = Ret (h1, fs1, -1).
Proof.
  intros Hwf Hs Hne Hm Hc (j0 & Hj0 & Hfree) Ho.
  rewrite (OpenMode_host _ _ _ h h1 fs fileName s type (-1)) by done.
  destruct (add_file_spec rhs_first g_char fs fileName s (-1) type Hwf Hs Hne)
    as [(j & fs1 & Hj & Hnull & -> & Hop)|[Hno _]]; [|by destruct (Hno j0 Hj0)].
  exists fs1, j. done.
Qed.

(** ** Concrete tables and hosts *)

(** A host that opens descriptor 7 and records what is closed. *)
Definition FdHost : Type := list Z.
#[export] Instance FdHost_os : HostOS FdHost := {
  os_open h name rw creat := (h, 7);
  os_read h fd n := (h, (0, []));
  os_write h fd bs := (h, Z.of_nat (length bs));
  os_lseek h fd off whence := (h, off);
  os_close h fd := (h ++ [fd], 0);
  os_select h fd := (h, 0);
  os_unlink h name := (h, 0)
}.

(** The tables in zeroed memory. *)
Definition blank_fs : FileSystem :=
  mkFileSystem [replicate 20 FNull] [replicate 20 0] [replicate 20 0] [replicate 20 NNull].
Definition word_name : list byte := byte.of_Z <$> [97; 98; 99; 0].
Definition word_chars : list byte := byte.of_Z <$> [97; 98; 99].

Lemma blank_fs_wf : wf_tables blank_fs.
Proof. split; (eexists; split; [reflexivity|reflexivity]). Qed.

Lemma blank_fs_cells j : 2 <= j < MAX_FILE ->
  cell (FileTable blank_fs) j = Some FNull /\ cell (id blank_fs) j = Some 0 /\
  cell (name blank_fs) j = Some NNull.
Proof.
  intros Hj. unfold MAX_FILE in Hj. cbn [cell FileTable id name blank_fs].
  rewrite !lookup_replicate_2 by lia. done.
Qed.

Lemma word_name_holds : holds_str word_name word_chars.
Proof.
  split; [apply (bool_decide_unpack _); vm_compute; exact I|]. exists []. reflexivity.
Qed.

Lemma open_then_close_witness :
  exists fs1 fs2, OpenMode true (fun _ => NUL) 0 ([] : FdHost) blank_fs word_name MODE_READ =
      Ret ([], fs1, 7) /\ Close close_fuel ([] : FdHost) fs1 7 = Ret ([7], fs2, 0).
Proof.
  destruct (open_then_close true (fun _ => NUL) 0 ([] : FdHost) [] [7] blank_fs word_name word_chars
    MODE_READ 7 0 blank_fs_wf word_name_holds) as (fs1 & fs2 & j & _ & _ & HO & _ & HC & _).
  - discriminate.
  - left. reflexivity.
  - reflexivity.
  - exists 2. split; [split; vm_compute; congruence|reflexivity].
  - reflexivity.
  - lia.
  - intros j Hj. destruct (blank_fs_cells j Hj) as (_ & -> & _). congruence.
  - reflexivity.
  - lia.
  - exists fs1, fs2. split; [exact HO|exact HC].
Defined.

(** Descriptor 5 of the toy host in slot 2, open for reading and writing. *)
Definition rw_fs : FileSystem :=
  mkFileSystem [<[2%nat := FObj (StubFile.mkOpenFile 5 1)]> (replicate 20 FNull)]
    [<[2%nat := 5]> (replicate 20 0)] [replicate 20 0] [replicate 20 NNull].
Definition rw_host : ToyHost := {[ 5 := (byte.of_Z <$> [120; 121], 0) ]}.

Lemma rw_fs_at : file_at rw_fs 5 2 (StubFile.mkOpenFile 5 1) MODE_READWRITE.
Proof.
  split; try reflexivity; try (split; vm_compute; congruence); try lia.
  split; (eexists; split; [reflexivity|reflexivity]).
Qed.

Lemma stub_write_read_witness :
  exists h1 fs1 h2 fs2 h3 fs3, Write rw_host rw_fs word_name 3 5 = Ret (h1, fs1, 3) /\
    Seek h1 fs1 1 5 = Ret (h2, fs2, 1) /\ Read h2 fs2 3 5 = Ret (h3, fs3, (3, word_chars)).
Proof.
  destruct (stub_write_read rw_host rw_fs 5 2 (StubFile.mkOpenFile 5 1) (byte.of_Z <$> [120; 121]) 0
    word_name word_chars rw_fs_at) as (h1 & fs1 & h2 & fs2 & h3 & fs3 & HW & HS & HR & _).
  - reflexivity.
  - simpl. lia.
  - simpl. lia.
  - exact word_name_holds.
  - exists h1, fs1, h2, fs2, h3, fs3. split; [exact HW|]. split; [exact HS|exact HR].
Defined.

Lemma Close_zero_diverges_witness :
  exists fs2, Close close_fuel rw_host rw_fs 5 = Ret (delete 5 rw_host, fs2, 0) /\
    Close 100 rw_host fs2 0 = NoFuel.
Proof.
  destruct (Close_one 18 rw_host (delete 5 rw_host) rw_fs 5 2 (StubFile.mkOpenFile 5 1) 0)
    as (fs2 & HC & He); try reflexivity; try lia; try (split; vm_compute; congruence).
  - apply rw_fs_at.
  - intros j Hj Hid. unfold MAX_FILE in Hj. cbn [cell id rw_fs] in Hid.
    destruct (decide (j = 2)) as [|Hne]; [done|].
    rewrite list_lookup_insert_ne, lookup_replicate_2 in Hid by lia. congruence.
  - simpl. congruence.
  - destruct (Close_zero_diverges rw_host rw_fs fs2 2 (fa_wf _ _ _ _ _ rw_fs_at))
      as [Hdiv _]; [|split; vm_compute; congruence|exact He|].
    + intros i Hi Hid. unfold MAX_FILE in Hi. cbn [cell id rw_fs] in Hid. destruct (decide (i = 2)) as [->|Hne].
      { vm_compute in Hid. congruence. }
      split; cbn [cell FileTable name rw_fs]; [|rewrite lookup_replicate_2 by lia; done].
      rewrite list_lookup_insert_ne, lookup_replicate_2 by lia. done.
    + exists fs2. split; [exact HC|apply Hdiv].
Defined.

Lemma duplicate_open_missed_witness :
  exists fs1, OpenMode true (fun _ => NUL) 0 ([] : FdHost) blank_fs word_name MODE_READ =
      Ret ([], fs1, 7) /\ checkFileMode fs1 word_name MODE_READ = Fault.
Proof.
  destruct (OpenMode true (fun _ => NUL) 0 ([] : FdHost) blank_fs word_name MODE_READ)
    as [[[h fs1] fd]| | | |] eqn:HO; try (vm_compute in HO; congruence).
  assert (E : h = [] /\ fd = 7) by (vm_compute in HO; split; congruence).
  destruct E as [-> ->]. exists fs1. split; [reflexivity|].
  apply (duplicate_open_missed true (fun _ => NUL) 0 ([] : FdHost) [] blank_fs fs1 word_name word_chars
    MODE_READ 7 blank_fs_wf word_name_holds).
  - discriminate.
  - left. reflexivity.
  - intros j Hj. apply (blank_fs_cells j Hj).
  - exists 2. split; [split; vm_compute; congruence|reflexivity].
  - reflexivity.
  - exact HO.
Defined.
