(* ===== verification/AddrSpace.v ===== *)
(** * Address spaces of user programs

    Model of userprog/addrspace.h and userprog/addrspace.cc with the object file
    format of userprog/noff.h, as built with RDATA: the identity page table,
    loading a program from a host file, starting it, and the kernel's own address
    translation.  [Execute] is modelled up to the call of [Machine::Run], which does
    not return.  The machine and the address space share the page table once it is
    installed; here the machine has its own copy from then on. *)

From S2P Require Import Prelude CString Machine Host FileSysStub.

Definition UserStackSize : Z := 1024.
Definition NOFFMAGIC : Z := 0xbadfad.

Record Segment : Type := mkSegment {
  virtualAddr : Z;
  inFileAddr : Z;
  size : Z
}.

Record NoffHeader : Type := mkNoff {
  noffMagic : Z;
  code : Segment;
  initData : Segment;
  readonlyData : Segment;
  uninitData : Segment
}.

(** [sizeof(NoffHeader)]: thirteen [int]s *)
Definition sizeofNoff : Z := 52.

(** The [k]-th [int] of an object. *)
Definition int_at (bs : list byte) (k : nat) : Z := s32 (le_combine (take 4 (drop (4 * k) bs))).

Definition segment_of (bs : list byte) (k : nat) : Segment :=
  mkSegment (int_at bs k) (int_at bs (k + 1)) (int_at bs (k + 2)).

Definition noff_of (bs : list byte) : NoffHeader :=
  mkNoff (int_at bs 0) (segment_of bs 1) (segment_of bs 4) (segment_of bs 7) (segment_of bs 10).

(** [WordToHost] takes and returns [unsigned int]. *)
Definition swap_int (z : Z) : Z := s32 (WordToHost (u32 z)).
Definition swap_segment (s : Segment) : Segment :=
  mkSegment (swap_int (virtualAddr s)) (swap_int (inFileAddr s)) (swap_int (size s)).

Definition SwapHeader (noffH : NoffHeader) : NoffHeader :=
  mkNoff (swap_int (noffMagic noffH)) (swap_segment (code noffH)) (swap_segment (initData noffH))
    (swap_segment (readonlyData noffH)) (swap_segment (uninitData noffH)).

Record AddrSpace : Type := mkSpace {
  pageTable : list TranslationEntry;
  numPages : Z
}.

Section addrspace.
Context {H : Type} `{HostOS H}.
(** What fresh memory and the member that the constructor does not set hold. *)
Variables (g_entry : nat -> TranslationEntry) (g_pages : Z) (g_char : nat -> byte).

(** The constructor, with the machine, whose memory is cleared. *)
Definition new_AddrSpace (m : Machine) : result (AddrSpace * Machine) :=
  let* pt := forZ 0 NumPhysPages (fun i pt => zset pt i (mkEntry i i true false false false))
    (uninit g_entry (Z.to_nat NumPhysPages)) in
  let* mem := zsplice (mainMemory m) 0 (replicate (Z.to_nat MemorySize) NUL) in
  Ret (mkSpace pt g_pages, set_mainMemory m mem).

(** One of the [if (size > 0) ReadAt(...)] of [Load]; the count that [ReadAt]
    returns is not looked at. *)
Definition load_segment (h : H) (f : StubFile.OpenFile) (mem : list byte) (s : Segment)
    : result (H * list byte) :=
  if size s >? 0 then
    let* (h, (_, bs)) := StubFile.ReadAt h f (size s) (inFileAddr s) in
    let* mem := zsplice mem (virtualAddr s) bs in
    Ret (h, mem)
  else Ret (h, mem).

(** The size of the address space; the sum of [int]s is made [unsigned]. *)
Definition space_size (noffH : NoffHeader) : Z :=
  u32 (size (code noffH) + size (readonlyData noffH) + size (initData noffH) +
       size (uninitData noffH) + UserStackSize).

(** [Load]: the flag is the result. *)
Definition Load (h : H) (sp : AddrSpace) (m : Machine) (fileName : list byte)
    : result (H * AddrSpace * Machine * bool) :=
  let* (h, executable) := Open h fileName in
  match executable with
  | None => Ret (h, sp, m, false)
  | Some f =>
      let* (h, (_, bs)) := StubFile.ReadAt h f sizeofNoff 0 in
      let* raw := zsplice (uninit g_char (Z.to_nat sizeofNoff)) 0 bs in
      let noffH := noff_of raw in
      let noffH :=
        if negb (noffMagic noffH =? NOFFMAGIC) && (WordToHost (u32 (noffMagic noffH)) =? NOFFMAGIC)
        then SwapHeader noffH else noffH in
      assert* (noffMagic noffH =? NOFFMAGIC) in
      let pages := divRoundUp (space_size noffH) PageSize in
      assert* (pages <=? NumPhysPages) in
      let* (h, mem) := load_segment h f (mainMemory m) (code noffH) in
      let* (h, mem) := load_segment h f mem (initData noffH) in
      let* (h, mem) := load_segment h f mem (readonlyData noffH) in
      let* h := StubFile.delete_OpenFile h f in
      Ret (h, mkSpace (pageTable sp) pages, set_mainMemory m mem, true)
  end.
End addrspace.

Definition InitRegisters (sp : AddrSpace) (m : Machine) : result Machine :=
  let* m := forZ 0 NumTotalRegs (fun i m => WriteRegister m i 0) m in
  let* m := WriteRegister m PCReg 0 in
  let* m := WriteRegister m NextPCReg 4 in
  WriteRegister m StackReg (s32 (u32 (numPages sp * PageSize - 16))).

Definition SaveState (sp : AddrSpace) : AddrSpace := sp.

Definition RestoreState (sp : AddrSpace) (m : Machine) : Machine :=
  mkMachine (registers m) (mainMemory m) (tlb m) (Some (pageTable sp)) (numPages sp)
    (singleStep m) (runUntilTime m).

(** [Execute] up to [machine->Run()]. *)
Definition Execute (sp : AddrSpace) (m : Machine) : result Machine :=
  let* m := InitRegisters sp m in
  Ret (RestoreState sp m).

(** [Translate]: the exception, or the physical address, and the space with the
    use and dirty bits set; [vaddr] and the result are [unsigned]. *)
Definition Translate (sp : AddrSpace) (vaddr : Z) (isReadWrite : bool)
    : result (AddrSpace * (ExceptionType + Z)) :=
  let vpn := vaddr / PageSize in
  let offset := vaddr mod PageSize in
  if vpn >=? numPages sp then Ret (sp, inl AddressErrorException) else
  let* pte := zget (pageTable sp) vpn in
  if isReadWrite && readOnly pte then Ret (sp, inl ReadOnlyException) else
  let pfn := physicalPage pte in
  if pfn >=? NumPhysPages then Ret (sp, inl BusErrorException) else
  let* pt := zset (pageTable sp) vpn (mark_used pte isReadWrite) in
  let paddr := u32 (pfn * PageSize + offset) in
  assert* (paddr <? MemorySize) in
  Ret (mkSpace pt (numPages sp), inr paddr).

(** ** Starting a program *)

Definition identity_entry (i : nat) : TranslationEntry :=
  mkEntry (Z.of_nat i) (Z.of_nat i) true false false false.
Definition identity_table : list TranslationEntry := identity_entry <$> seq 0 128.

Definition zero_memory : list byte := replicate (Z.to_nat MemorySize) NUL.

Lemma new_AddrSpace_spec g_entry g_pages m : Z.of_nat (length (mainMemory m)) = MemorySize ->
  new_AddrSpace g_entry g_pages m =
    Ret (mkSpace identity_table g_pages, set_mainMemory m zero_memory).
Proof.
  intros Hmem. unfold new_AddrSpace.
  destruct (forZ_inv (fun i (pt : list TranslationEntry) => length pt = 128%nat /\
      forall j : nat, Z.of_nat j < i -> pt !! j = Some (identity_entry j))
    0 NumPhysPages (fun i pt => zset pt i (mkEntry i i true false false false))
    (uninit g_entry (Z.to_nat NumPhysPages))) as (pt & -> & Hl & Hpt).
  - unfold NumPhysPages. lia.
  - rewrite length_uninit. split; [done|]. intros j Hj. lia.
  - intros i pt Hi [Hl Hpt]. unfold NumPhysPages in Hi. rewrite zset_in by lia. eexists. split; [done|].
    rewrite length_insert. split; [done|]. intros j Hj. destruct (decide (j = Z.to_nat i)) as [->|Hne].
    + rewrite list_lookup_insert_eq by lia. unfold identity_entry. by rewrite Z2Nat.id by lia.
    + rewrite list_lookup_insert_ne by done. apply Hpt. lia.
  - rewrite rbind_Ret, zsplice_in by (rewrite ?length_replicate; unfold MemorySize, NumPhysPages, PageSize in *; lia).
    rewrite rbind_Ret. f_equal. f_equal.
    + f_equal. apply list_eq. intros j. unfold identity_table. rewrite list_lookup_fmap.
      destruct (decide (j < 128)%nat).
      * rewrite Hpt by (unfold NumPhysPages; lia). by rewrite lookup_seq_lt by lia.
      * rewrite lookup_ge_None_2 by lia. by rewrite lookup_seq_ge by lia.
    + f_equal. rewrite drop_ge, app_nil_r by (rewrite length_replicate; lia). done.
Qed.

(** The registers a program starts with. *)
Definition start_registers (pages : Z) : list Z :=
  <[29%nat := pages * PageSize - 16]> (<[35%nat := 4]> (replicate 40 0)).

Lemma WriteRegister_spec m n v : length (registers m) = 40%nat -> 0 <= n < NumTotalRegs ->
  WriteRegister m n v = Ret (set_registers m (<[Z.to_nat n := v]> (registers m))).
Proof.
  intros Hl Hn. unfold WriteRegister. rewrite Z.geb_leb, (proj2 (Z.leb_le _ _)), (proj2 (Z.ltb_lt _ _)) by lia.
  simpl. by rewrite zset_in by (unfold NumTotalRegs in *; lia).
Qed.

Lemma InitRegisters_spec sp m : length (registers m) = 40%nat -> 1 <= numPages sp <= NumPhysPages ->
  InitRegisters sp m = Ret (set_registers m (start_registers (numPages sp))).
Proof.
  intros Hl Hp. unfold InitRegisters.
  destruct (forZ_inv (fun i m' => m' = set_registers m (registers m') /\ length (registers m') = 40%nat /\
      forall j : nat, Z.of_nat j < i -> registers m' !! j = Some 0)
    0 NumTotalRegs (fun i m => WriteRegister m i 0) m) as (m1 & -> & Hm1 & Hl1 & Hz).
  - unfold NumTotalRegs. lia.
  - split; [by destruct m|]. split; [done|]. intros j Hj. lia.
  - intros i m' Hi (Hm' & Hl' & Hz). unfold NumTotalRegs in Hi.
    rewrite WriteRegister_spec by (done || unfold NumTotalRegs; lia). eexists. split; [done|]. simpl.
    split; [by rewrite Hm'|]. rewrite length_insert. split; [done|].
    intros j Hj. destruct (decide (j = Z.to_nat i)) as [->|Hne].
    + rewrite list_lookup_insert_eq; [done|lia].
    + rewrite list_lookup_insert_ne by done. apply Hz. lia.
  - assert (Hr : registers m1 = replicate 40 0).
    { apply list_eq. intros j. destruct (decide (j < 40)%nat).
      - rewrite Hz by (unfold NumTotalRegs; lia). by rewrite lookup_replicate_2.
      - rewrite !lookup_ge_None_2; [done|rewrite length_replicate; lia|lia]. }
    rewrite Hm1, Hr. rewrite s32_u32, s32_id by (unfold is_s32, NumPhysPages, PageSize in *; lia).
    clear. rewrite rbind_Ret. unfold PCReg, NextPCReg, StackReg, NumTotalRegs in *.
    rewrite WriteRegister_spec by (done || unfold NumTotalRegs; lia). rewrite rbind_Ret.
    rewrite WriteRegister_spec by (done || unfold NumTotalRegs; lia). rewrite rbind_Ret.
    rewrite WriteRegister_spec by (done || unfold NumTotalRegs; lia). done.
Qed.

(** ** Loading *)

(** The bytes of memory that a segment occupies. *)
Definition in_segment (s : Segment) (k : nat) : Prop :=
  virtualAddr s <= Z.of_nat k < virtualAddr s + size s.

(** A segment that lies in memory and in the file. *)
Definition segment_fits (s : Segment) (data : list byte) : Prop :=
  0 <= size s /\ 0 <= virtualAddr s /\ virtualAddr s + size s <= MemorySize /\
  0 <= inFileAddr s /\ inFileAddr s + size s <= Z.of_nat (length data).

(** The memory holds the segment. *)
Definition holds_segment (mem data : list byte) (s : Segment) : Prop :=
  forall i : nat, Z.of_nat i < size s ->
    mem !! (Z.to_nat (virtualAddr s) + i)%nat = data !! (Z.to_nat (inFileAddr s) + i)%nat.

Definition disjoint_segments (s t : Segment) : Prop := forall k, in_segment s k -> ~ in_segment t k.

Section loading.
Context {H : Type} `{RegularFile H}.

Lemma ReadAt_file h f data pos off n : at_file h (StubFile.file f) data pos -> 0 <= off -> 0 <= n ->
  off + n <= Z.of_nat (length data) ->
  exists h' pos', StubFile.ReadAt h f n off = Ret (h', (n, take (Z.to_nat n) (drop (Z.to_nat off) data))) /\
    at_file h' (StubFile.file f) data pos'.
Proof.
  intros Hat ? ? ?. unfold StubFile.ReadAt, Lseek, ReadPartial.
  destruct (lseek_law h _ data pos off Hat) as (h1 & Hs & Hat1); [lia|]. unfold SEEK_SET in Hs. rewrite Hs.
  rewrite Z.geb_leb, (proj2 (Z.leb_le 0 off)) by lia. simpl.
  destruct (read_law h1 _ data off n Hat1) as (h2 & -> & Hat2); [lia|lia|].
  eexists _, _. split; [|exact Hat2]. do 3 f_equal. rewrite length_take, length_drop. lia.
Qed.

Lemma load_segment_spec h f data pos mem s : at_file h (StubFile.file f) data pos ->
  Z.of_nat (length mem) = MemorySize -> segment_fits s data ->
  exists h' mem' pos', load_segment h f mem s = Ret (h', mem') /\
    at_file h' (StubFile.file f) data pos' /\ length mem' = length mem /\
    holds_segment mem' data s /\ forall k, ~ in_segment s k -> mem' !! k = mem !! k.
Proof.
  intros Hat Hmem (? & ? & ? & ? & ?). unfold load_segment. rewrite Z.gtb_ltb.
  destruct (Z.ltb_spec 0 (size s)).
  - destruct (ReadAt_file h f data pos (inFileAddr s) (size s) Hat) as (h' & pos' & -> & Hat'); try lia.
    rewrite rbind_Ret. set (bs := take _ _).
    assert (Hbs : length bs = Z.to_nat (size s)) by (unfold bs; rewrite length_take, length_drop; lia).
    rewrite zsplice_in by lia. rewrite rbind_Ret. eexists _, _, _. split; [done|]. split; [done|].
    split; [by rewrite length_splice by lia|]. split.
    + intros i Hi. rewrite lookup_splice_in by lia. unfold bs.
      rewrite lookup_take_lt by lia. rewrite lookup_drop. f_equal. lia.
    + intros k Hk. apply lookup_splice_out; [lia|]. unfold in_segment in Hk. lia.
  - eexists _, _, _. split; [done|]. split; [done|]. split; [done|]. split; [|done].
    intros i Hi. lia.
Qed.

Lemma holds_segment_keep mem mem' data s t : holds_segment mem data s ->
  0 <= virtualAddr s -> (forall k, ~ in_segment t k -> mem' !! k = mem !! k) -> disjoint_segments s t ->
  holds_segment mem' data s.
Proof.
  intros Hs Hv Hk Hd i Hi. rewrite Hk; [by apply Hs|]. apply Hd. unfold in_segment. lia.
Qed.
End loading.

(** An object file: complete, with segments that lie apart from each other in
    memory and an address space that fits. *)
Record is_program (data : list byte) (hd : NoffHeader) : Prop := {
  pr_length : sizeofNoff <= Z.of_nat (length data);
  pr_header : hd = noff_of (take (Z.to_nat sizeofNoff) data);
  pr_magic : noffMagic hd = NOFFMAGIC;
  pr_code : segment_fits (code hd) data;
  pr_init : segment_fits (initData hd) data;
  pr_ro : segment_fits (readonlyData hd) data;
  pr_uninit : 0 <= size (uninitData hd);
  pr_apart1 : disjoint_segments (code hd) (initData hd);
  pr_apart2 : disjoint_segments (code hd) (readonlyData hd);
  pr_apart3 : disjoint_segments (initData hd) (readonlyData hd);
  pr_size : size (code hd) + size (readonlyData hd) + size (initData hd) +
    size (uninitData hd) + UserStackSize <= MemorySize
}.

(** The memory of a loaded program. *)
Record program_image (mem data : list byte) (hd : NoffHeader) : Prop := {
  im_length : Z.of_nat (length mem) = MemorySize;
  im_code : holds_segment mem data (code hd);
  im_init : holds_segment mem data (initData hd);
  im_ro : holds_segment mem data (readonlyData hd);
  im_zero : forall k : nat, Z.of_nat k < MemorySize ->
    ~ in_segment (code hd) k -> ~ in_segment (initData hd) k -> ~ in_segment (readonlyData hd) k ->
    mem !! k = Some NUL
}.

Definition program_pages (hd : NoffHeader) : Z := divRoundUp (space_size hd) PageSize.

Lemma program_pages_range data hd : is_program data hd -> 8 <= program_pages hd <= NumPhysPages.
Proof.
  intros Hp. pose proof (pr_size _ _ Hp). destruct (pr_code _ _ Hp) as [? _], (pr_init _ _ Hp) as [? _],
    (pr_ro _ _ Hp) as [? _]. pose proof (pr_uninit _ _ Hp).
  unfold program_pages, space_size, MemorySize, NumPhysPages, PageSize, UserStackSize in *.
  rewrite u32_id by (unfold is_u32; lia).
  match goal with |- context [divRoundUp ?n 128] => pose proof (divRoundUp_spec n 128 ltac:(lia) ltac:(lia)) end.
  lia.
Qed.

Section loader.
Context {H : Type} `{RegularFile H}.

Lemma Load_spec g_char h h1 sp m fileName nm fd data hd :
  holds_str fileName nm -> os_open h nm true false = (h1, fd) -> 0 <= fd ->
  at_file h1 fd data 0 -> (forall h' d p, at_file h' fd d p -> 0 <= (os_close h' fd).2) ->
  is_program data hd -> mainMemory m = zero_memory ->
  exists h' mem, Load g_char h sp m fileName =
      Ret (h', mkSpace (pageTable sp) (program_pages hd), set_mainMemory m mem, true) /\
    program_image mem data hd.
Proof.
  intros Hname Hopen Hfd Hat Hclose Hp Hmem. pose proof (program_pages_range _ _ Hp) as Hpg.
  pose proof Hp as [Hlen Hhd Hmagic Hcode Hinit Hro Hun Hd1 Hd2 Hd3 Hsize].
  unfold Load, Open. rewrite (c_str_holds _ _ Hname), rbind_Ret. unfold OpenForReadWrite.
  rewrite Hopen. simpl. rewrite (proj2 (Z.eqb_neq _ _)) by lia.
  set (f := StubFile.new_OpenFile fd). rewrite rbind_Ret.
  assert (Hat0 : at_file h1 (StubFile.file f) data 0) by exact Hat.
  destruct (ReadAt_file h1 f data 0 0 sizeofNoff Hat0) as (h2 & p2 & -> & Hat2);
    [lia|unfold sizeofNoff; lia|lia|]. rewrite rbind_Ret, drop_0.
  assert (Hl52 : length (take (Z.to_nat sizeofNoff) data) = 52%nat)
    by (rewrite length_take; unfold sizeofNoff in *; lia).
  rewrite zsplice_in by (rewrite ?length_uninit, ?Hl52; done). rewrite rbind_Ret.
  rewrite drop_ge, app_nil_r by (rewrite ?length_uninit, ?Hl52; done). rewrite take_0, app_nil_l, <- Hhd. cbv zeta.
  assert (Hm0 : int_at (take (Z.to_nat sizeofNoff) data) 0 = NOFFMAGIC) by (rewrite <- Hmagic, Hhd; done).
  rewrite Hm0, Z.eqb_refl. cbn [negb andb]. rewrite Hmagic, Z.eqb_refl. simpl ASSERT. rewrite rbind_Ret.
  fold (program_pages hd). rewrite (proj2 (Z.leb_le _ _)) by lia. simpl ASSERT. rewrite rbind_Ret.
  assert (Hz : Z.of_nat (length zero_memory) = MemorySize)
    by (unfold zero_memory; rewrite length_replicate; done).
  rewrite Hmem.
  destruct (load_segment_spec h2 f data p2 zero_memory (code hd) Hat2 Hz Hcode)
    as (h3 & mem1 & p3 & -> & Hat3 & Hl1 & Hs1 & Ho1). rewrite rbind_Ret.
  destruct (load_segment_spec h3 f data p3 mem1 (initData hd) Hat3 ltac:(lia) Hinit)
    as (h4 & mem2 & p4 & -> & Hat4 & Hl2 & Hs2 & Ho2). rewrite rbind_Ret.
  destruct (load_segment_spec h4 f data p4 mem2 (readonlyData hd) Hat4 ltac:(lia) Hro)
    as (h5 & mem3 & p5 & -> & Hat5 & Hl3 & Hs3 & Ho3). rewrite rbind_Ret.
  unfold StubFile.delete_OpenFile, Host.Close. pose proof (Hclose _ _ _ Hat5) as Hc. simpl StubFile.file in *.
  destruct (os_close h5 fd) as [h6 r]. simpl in Hc. rewrite Z.geb_leb, (proj2 (Z.leb_le _ _)) by done.
  simpl. eexists _, _. split; [done|]. split; [lia| | |done|].
  - eapply holds_segment_keep; [|apply Hcode|exact Ho3|done].
    eapply holds_segment_keep; [exact Hs1|apply Hcode|exact Ho2|done].
  - eapply holds_segment_keep; [exact Hs2|apply Hinit|exact Ho3|done].
  - intros k Hk ? ? ?. rewrite Ho3, Ho2, Ho1 by done. unfold zero_memory. apply lookup_replicate_2. lia.
Qed.
End loader.

(** ** The mapping of a started program *)

Lemma identity_lookup n : (n < 128)%nat -> identity_table !! n = Some (identity_entry n).
Proof. intros Hn. unfold identity_table. rewrite list_lookup_fmap, lookup_seq_lt by done. done. Qed.

(** Virtual addresses of the program are the physical ones, all others fault. *)
Lemma identity_access m pages va sz writing :
  tlb m = None -> Machine.pageTable m = Some identity_table -> pageTableSize m = pages ->
  1 <= pages <= NumPhysPages -> access_size sz -> va mod sz = 0 -> 0 <= va < 2 ^ 31 ->
  mmu_access m va sz writing =
    if decide (va < pages * PageSize)
    then inr (InPageTable (va / PageSize), identity_entry (Z.to_nat (va / PageSize)), va)
    else inl AddressErrorException.
Proof.
  intros Ht Hp Hs Hpg Hsz Hal Hva. unfold NumPhysPages, PageSize in *.
  pose proof (Z.div_mod va 128 ltac:(lia)). pose proof (Z.mod_pos_bound va 128 ltac:(lia)).
  assert (Hdiv : 0 <= va / 128) by (apply Z.div_pos; lia).
  unfold mmu_access. rewrite decide_False by lia. unfold mmu_lookup, vpn_of, PageSize.
  rewrite Ht, Hp, Hs, u32_id by (unfold is_u32; lia). simpl.
  destruct (decide (va < pages * 128)).
  - rewrite decide_True by lia. rewrite identity_lookup by lia. simpl.
    assert (Hf : frame_of (identity_entry (Z.to_nat (va / 128))) = va / 128).
    { unfold frame_of, identity_entry. simpl. rewrite Z2Nat.id by lia. apply u32_id. unfold is_u32. lia. }
    rewrite Hf. unfold NumPhysPages, PageSize. rewrite decide_False by lia. do 2 f_equal. lia.
  - by rewrite decide_False by lia.
Qed.

Lemma start_registers_wf pages m : 8 <= pages <= NumPhysPages -> registers m = start_registers pages ->
  wf_regs m.
Proof.
  intros Hp Hr. unfold NumPhysPages in Hp. split; rewrite Hr; unfold start_registers, PageSize.
  - by rewrite !length_insert.
  - do 2 (apply Forall_insert; [|unfold is_s32; lia]). apply Forall_replicate. unfold is_s32. lia.
  - done.
  - exists 0. done.
Qed.

(** Everything but the accesses: the constructor, [Load] and [Execute]. *)
Lemma program_started {H} `{RegularFile H} g_entry g_pages g_char h h1 m fileName nm fd data hd :
  holds_str fileName nm -> os_open h nm true false = (h1, fd) -> 0 <= fd ->
  at_file h1 fd data 0 -> (forall h' d p, at_file h' fd d p -> 0 <= (os_close h' fd).2) ->
  is_program data hd ->
  length (registers m) = 40%nat -> Z.of_nat (length (mainMemory m)) = MemorySize -> tlb m = None ->
  exists sp0 m0 h' sp m1 m2,
    new_AddrSpace g_entry g_pages m = Ret (sp0, m0) /\
    Load g_char h sp0 m0 fileName = Ret (h', sp, m1, true) /\
    Execute sp m1 = Ret m2 /\
    program_image (mainMemory m2) data hd /\ wf_mmu m2 /\ registers m2 = start_registers (program_pages hd) /\
    tlb m2 = None /\ Machine.pageTable m2 = Some identity_table /\ pageTableSize m2 = program_pages hd.
Proof.
  intros Hname Hopen Hfd Hat Hclose Hp Hregs Hmem Htlb.
  pose proof (program_pages_range _ _ Hp) as Hpg.
  destruct (Load_spec g_char h h1 (mkSpace identity_table g_pages) (set_mainMemory m zero_memory)
    fileName nm fd data hd Hname Hopen Hfd Hat Hclose Hp eq_refl) as (h' & mem & HL & Him).
  eexists _, _, _, _, _, _. split; [by apply new_AddrSpace_spec|]. split; [exact HL|]. split.
  { unfold Execute. rewrite InitRegisters_spec; [reflexivity|done|simpl; lia]. }
  simpl. split; [done|]. split; [|done].
  split; simpl; [apply Him|]. rewrite Htlb. unfold NumPhysPages in *. simpl. lia.
Qed.

(** ** Claims *)

(** C25: loading and starting a program.  For an object file whose segments fit,
    the constructor, [Load] and [Execute] up to [Run] succeed, whatever fresh memory
    held: memory holds the code, the data and zeros everywhere else, the machine is
    well formed, the program counter is at 0 and the stack pointer 16 bytes below
    the end of the address space; every aligned access below that end goes to the
    physical address equal to the virtual one, and every one beyond it is an
    address error. *)
Theorem load_and_start {H} `{RegularFile H} g_entry g_pages g_char h h1 m fileName nm fd data hd :
  holds_str fileName nm -> os_open h nm true false = (h1, fd) -> 0 <= fd ->
  at_file h1 fd data 0 -> (forall h' d p, at_file h' fd d p -> 0 <= (os_close h' fd).2) ->
  is_program data hd ->
  length (registers m) = 40%nat -> Z.of_nat (length (mainMemory m)) = MemorySize -> tlb m = None ->
  exists sp0 m0 h' sp m1 m2,
    new_AddrSpace g_entry g_pages m = Ret (sp0, m0) /\
    Load g_char h sp0 m0 fileName = Ret (h', sp, m1, true) /\
    Execute sp m1 = Ret m2 /\
    program_image (mainMemory m2) data hd /\ wf_mmu m2 /\ wf_regs m2 /\
    registers m2 !! Z.to_nat PCReg = Some 0 /\ registers m2 !! Z.to_nat NextPCReg = Some 4 /\
    registers m2 !! Z.to_nat StackReg = Some (program_pages hd * PageSize - 16) /\
    forall va sz writing, access_size sz -> va mod sz = 0 -> 0 <= va < 2 ^ 31 ->
      mmu_access m2 va sz writing =
        if decide (va < program_pages hd * PageSize)
        then inr (InPageTable (va / PageSize), identity_entry (Z.to_nat (va / PageSize)), va)
        else inl AddressErrorException.
Proof.
  intros Hname Hopen Hfd Hat Hclose Hp Hregs Hmem Htlb.
  destruct (program_started g_entry g_pages g_char h h1 m fileName nm fd data hd
    Hname Hopen Hfd Hat Hclose Hp Hregs Hmem Htlb)
    as (sp0 & m0 & h' & sp & m1 & m2 & E1 & E2 & E3 & Him & Hwf & Hr & Ht & Hpt & Hsz).
  pose proof (program_pages_range _ _ Hp) as Hpg.
  exists sp0, m0, h', sp, m1, m2. split; [exact E1|]. split; [exact E2|]. split; [exact E3|].
  split; [exact Him|]. split; [exact Hwf|]. split; [exact (start_registers_wf _ m2 Hpg Hr)|].
  rewrite Hr. do 3 (split; [reflexivity|]).
  assert (Hpg1 : 1 <= program_pages hd <= NumPhysPages) by (clear -Hpg; lia).
  intros va sz writing Hs Hal Hva. exact (identity_access m2 _ va sz writing Ht Hpt Hsz Hpg1 Hs Hal Hva).
Qed.

(** C39: the kernel's translation is the machine's.  For a page table of valid
    entries with frame numbers that are not negative, [AddrSpace::Translate] gives
    the same exception or physical address as the hardware does for a byte access,
    and sets the same use and dirty bits. *)
Theorem translate_agrees sp m vaddr writing :
  is_u32 vaddr -> tlb m = None -> numPages sp <= Z.of_nat (length (pageTable sp)) ->
  Forall (fun e => valid e = true /\ 0 <= physicalPage e < 2 ^ 31) (pageTable sp) ->
  exists sp' r, Translate sp vaddr writing = Ret (sp', r) /\
    Machine.Translate (RestoreState sp m) (s32 vaddr) 1 writing = Ret (RestoreState sp' m, r).
Proof.
  intros Hva Ht Hn Hpt. unfold Translate, Machine.Translate, find_entry.
  change (misaligned (s32 vaddr) 1) with false. cbn [is_null tlb Machine.pageTable RestoreState].
  rewrite Ht. simpl. rewrite u32_s32, (u32_id vaddr) by done. rewrite Z.geb_leb.
  assert (Hd : 0 <= vaddr / PageSize) by (apply Z.div_pos; [apply Hva|unfold PageSize; lia]).
  destruct (Z.leb_spec (numPages sp) (vaddr / PageSize)); [by exists sp, (inl AddressErrorException)|].
  unfold load_entry. simpl.
  destruct (zget_spec (pageTable sp) (vaddr / PageSize)) as (e & He & Hl); [lia|]. rewrite He. simpl.
  rewrite Forall_lookup in Hpt. destruct (Hpt _ _ Hl) as [-> Hph]. simpl. rewrite He. simpl.
  rewrite (andb_comm writing). destruct (readOnly e && writing); [by exists sp, (inl ReadOnlyException)|].
  rewrite (u32_id (physicalPage e)) by (unfold is_u32; lia). rewrite Z.geb_leb.
  destruct (Z.leb_spec NumPhysPages (physicalPage e)); [by exists sp, (inl BusErrorException)|].
  unfold store_entry. simpl.
  assert (Hset : zset (pageTable sp) (vaddr / PageSize) (mark_used e writing) =
    Ret (<[Z.to_nat (vaddr / PageSize) := mark_used e writing]> (pageTable sp))) by (apply zset_in; lia).
  rewrite Hset. simpl. unfold PageSize, NumPhysPages, MemorySize, NumPhysPages, PageSize in *.
  pose proof (Z.mod_pos_bound vaddr 128 ltac:(lia)).
  rewrite u32_id by (unfold is_u32; lia). rewrite s32_id by (unfold is_s32; lia).
  rewrite (proj2 (Z.ltb_lt _ _)) by lia. rewrite Z.geb_leb, !(proj2 (Z.leb_le _ _)) by lia. simpl.
  eexists _, _. split; [done|]. unfold RestoreState, set_pageTable. simpl. by rewrite ?Ht.
Qed.

(** An invalid page is translated by the kernel but not by the machine. *)
Theorem translate_ignores_valid sp m vaddr e :
  is_u32 vaddr -> tlb m = None -> vaddr / PageSize < numPages sp ->
  pageTable sp !! Z.to_nat (vaddr / PageSize) = Some e -> valid e = false ->
  0 <= physicalPage e < NumPhysPages ->
  (exists sp' pa, Translate sp vaddr false = Ret (sp', inr pa)) /\
  Machine.Translate (RestoreState sp m) (s32 vaddr) 1 false = Ret (RestoreState sp m, inl PageFaultException).
Proof.
  intros Hva Ht Hn Hl He Hph. unfold NumPhysPages, PageSize in *.
  assert (Hd : 0 <= vaddr / 128) by (apply Z.div_pos; [apply Hva|lia]).
  apply lookup_lt_Some in Hl as Hlt. unfold Translate, Machine.Translate, find_entry, load_entry.
  change (misaligned (s32 vaddr) 1) with false. simpl. rewrite Ht. unfold PageSize. simpl.
  rewrite u32_s32, (u32_id vaddr) by done. rewrite !Z.geb_leb, (proj2 (Z.leb_gt _ _)) by lia.
  rewrite (zget_lookup _ _ e) by done. simpl. rewrite He. simpl. split; [|done].
  unfold NumPhysPages, MemorySize, NumPhysPages, PageSize. rewrite Z.geb_leb, (proj2 (Z.leb_gt _ _)) by lia.
  rewrite zset_in by lia. simpl. pose proof (Z.mod_pos_bound vaddr 128 ltac:(lia)).
  rewrite u32_id by (unfold is_u32; lia). rewrite (proj2 (Z.ltb_lt _ _)) by lia. simpl. eauto.
Qed.

(** ** A concrete program *)

(** A host on which every name opens file 3. *)
Record ProgHost : Type := mkProgHost { files : ToyHost }.

#[export] Instance ProgHost_os : HostOS ProgHost := {
  os_open h name rw creat := (h, 3);
  os_read h fd n := let (t, r) := os_read (files h) fd n in (mkProgHost t, r);
  os_write h fd bs := let (t, r) := os_write (files h) fd bs in (mkProgHost t, r);
  os_lseek h fd off whence := let (t, r) := os_lseek (files h) fd off whence in (mkProgHost t, r);
  os_close h fd := let (t, r) := os_close (files h) fd in (mkProgHost t, r);
  os_select h fd := let (t, r) := os_select (files h) fd in (mkProgHost t, r);
  os_unlink h name := (h, -1)
}.

#[export] Program Instance ProgHost_regular : RegularFile ProgHost := {
  file_state h fd := file_state (files h) fd
}.
Next Obligation.
  intros h fd data pos off Hat Hoff. destruct (lseek_law (files h) fd data pos off Hat Hoff) as (h' & E & ?).
  exists (mkProgHost h'). simpl in *. by rewrite E.
Qed.
Next Obligation.
  intros h fd data pos Hat. destruct (lseek_end_law (files h) fd data pos Hat) as (h' & E & ?).
  exists (mkProgHost h'). simpl in *. by rewrite E.
Qed.
Next Obligation.
  intros h fd data pos Hat Hp. destruct (lseek_cur_law (files h) fd data pos Hat Hp) as (h' & E & ?).
  exists (mkProgHost h'). simpl in *. by rewrite E.
Qed.
Next Obligation.
  intros h fd data pos n Hat Hp Hn. destruct (read_law (files h) fd data pos n Hat Hp Hn) as (h' & E & ?).
  exists (mkProgHost h'). simpl in *. by rewrite E.
Qed.
Next Obligation.
  intros h fd data pos bs Hat Hp. destruct (write_law (files h) fd data pos bs Hat Hp) as (h' & E & ?).
  exists (mkProgHost h'). simpl in *. by rewrite E.
Qed.

(** One instruction at 0, one word of data at 4, twelve bytes of zeroed data. *)
Definition tiny_program : list byte :=
  concat (le_split 4 <$> [NOFFMAGIC; 0; 52; 4; 4; 56; 4; 0; 0; 0; 8; 0; 12]) ++
  le_split 4 0x0000000c ++ le_split 4 7.

Definition tiny_header : NoffHeader :=
  mkNoff NOFFMAGIC (mkSegment 0 52 4) (mkSegment 4 56 4) (mkSegment 0 0 0) (mkSegment 8 0 12).

Lemma tiny_is_program : is_program tiny_program tiny_header.
Proof.
  split; try (unfold disjoint_segments, in_segment; simpl; lia);
    try (vm_compute; reflexivity); try (unfold segment_fits, MemorySize, NumPhysPages, PageSize; simpl; lia).
  all: vm_compute; congruence.
Qed.

Definition tiny_host : ProgHost := mkProgHost {[ 3 := (tiny_program, 0) ]}.

Lemma load_and_start_witness :
  exists sp0 m0 h' sp m1 m2,
    new_AddrSpace (fun _ => sample_entry 9 9 true) 0 (set_mainMemory sample_machine zero_memory) = Ret (sp0, m0) /\
    Load (fun _ => NUL) tiny_host sp0 m0 word_name = Ret (h', sp, m1, true) /\
    Execute sp m1 = Ret m2 /\ mainMemory m2 !! 4%nat = tiny_program !! 56%nat /\ wf_mmu m2.
Proof.
  destruct (load_and_start (fun _ => sample_entry 9 9 true) 0 (fun _ => NUL) tiny_host tiny_host
    (set_mainMemory sample_machine zero_memory) word_name word_chars 3 tiny_program tiny_header
    word_name_holds) as (sp0 & m0 & h' & sp & m1 & m2 & E1 & E2 & E3 & Him & Hwf & _).
  - reflexivity.
  - lia.
  - reflexivity.
  - intros h' d p Hat. unfold at_file in Hat. simpl in Hat. simpl. rewrite Hat. simpl. lia.
  - exact tiny_is_program.
  - reflexivity.
  - unfold set_mainMemory, zero_memory. cbn [mainMemory]. rewrite length_replicate. reflexivity.
  - reflexivity.
  - exists sp0, m0, h', sp, m1, m2. split; [exact E1|]. split; [exact E2|]. split; [exact E3|].
    split; [|exact Hwf]. exact (im_init _ _ _ Him 0%nat ltac:(simpl; lia)).
Defined.

Lemma translate_agrees_witness :
  exists sp' r, Translate (mkSpace identity_table 9) 300 true = Ret (sp', r) /\
    Machine.Translate (RestoreState (mkSpace identity_table 9) sample_machine) 300 1 true =
      Ret (RestoreState sp' sample_machine, r).
Proof.
  apply (translate_agrees (mkSpace identity_table 9) sample_machine 300 true).
  - unfold is_u32. lia.
  - reflexivity.
  - simpl. lia.
  - simpl pageTable. unfold identity_table. apply Forall_fmap, Forall_forall. intros i Hi.
    apply elem_of_seq in Hi. simpl. split; [reflexivity|lia].
Defined.
