(* ===== verification/Syscalls.v ===== *)
(** * The kernel side of the system calls

    Model of userprog/ksyscall.h: the functions that exception.cc calls after it
    has fetched the arguments.  The console calls work on any [Terminal]; the
    file calls on the console and the stub file system of the kernel. *)

From S2P Require Import Prelude CString Host Console FileSysStub.

Definition stdin : Z := 0.
Definition stdout : Z := 1.
Definition maxNumLen : Z := 11.
(** [sizeof(_numberBuffer)] *)
Definition numberBufferSize : Z := maxNumLen + 2.
Definition INT32_MIN : Z := - 2 ^ 31.

(** Character constants. *)
Definition ch_newline : Z := 10.
Definition ch_minus : Z := 45.
Definition ch_0 : Z := 48.
Definition ch_9 : Z := 57.

(** The string literals, with their terminators. *)
Definition lit_0 : list byte := [byte.of_Z ch_0; NUL].
Definition digits_2147483648 : list Z := [50; 49; 52; 55; 52; 56; 51; 54; 52; 56].
Definition lit_min : list byte := (byte.of_Z <$> (ch_minus :: digits_2147483648)) ++ [NUL].

Definition SysAdd (op1 op2 : Z) : Z := s32 (op1 + op2).

(** [rand() + 1]; [r] is what [rand] returned. *)
Definition SysRandomNum (r : Z) : Z := s32 (r + 1).

Section console.
Context {T : Type} `{Terminal T}.
Implicit Types (t : T).

(** The buffer afterwards; it must have room for the terminator. *)
Definition SysReadString t (buffer : list byte) (len : Z) : result (T * list byte) :=
  let* (t, buffer) := forZ 0 len (fun i st =>
      let '(t, buffer) := st in
      let* (t, ch) := getChar t in
      let* buffer := zset buffer i (byte.of_Z ch) in
      Ret (t, buffer)) (t, buffer) in
  let* buffer := zset buffer len NUL in
  Ret (t, buffer).

(** The loop [while (i < limit && buffer[i] != 0)], [n] being [limit - i]. *)
Fixpoint print_loop (n : nat) (i : Z) t (buffer : list byte) : result T :=
  match n with
  | O => Ret t
  | S n =>
      let* b := zget buffer i in
      if bool_decide (b = NUL) then Ret t else
      let* t := putChar t (schar b) in
      print_loop n (i + 1) t buffer
  end.

Definition SysPrintString t (buffer : list byte) (limit : Z) : result T :=
  print_loop (Z.to_nat limit) 0 t buffer.

(** The loop of [checkNumString] over the digits of [integer], the string being
    at offset [o] of the array [a]. *)
Fixpoint check_digits (fuel : nat) (integer : Z) (a : list byte) (o len : Z) : result bool :=
  match fuel with
  | O => NoFuel
  | S fuel =>
      if integer >? 0 then
        let digit := Z.rem integer 10 in
        let* c := zget a (o + (len - 1)) in
        if negb (schar c - ch_0 =? digit) then Ret false
        else check_digits fuel (Z.quot integer 10) a o (len - 1)
      else Ret (len =? 0)
  end.

(** Eleven passes: an [int] has at most ten digits. *)
Definition checkNumString (integer : Z) (s : list byte) : result bool :=
  if integer =? 0 then strcmp_eq s lit_0 else
  let* len := strlen s in
  let* first := zget s 0 in
  if (integer <? 0) && negb (schar first =? ch_minus) then Ret false else
  if integer <? 0 then check_digits 11 (s32 (- integer)) s 1 (len - 1)
  else check_digits 11 integer s 0 len.

(** The keyboard loop of [SysReadNum]; it leaves the buffer after 13 characters,
    so 14 passes are enough. *)
Fixpoint read_line (fuel : nat) t (buffer : list byte) (n : Z) : result (T * list byte) :=
  match fuel with
  | O => NoFuel
  | S fuel =>
      let* (t, c) := getChar t in
      if negb (c =? ch_newline) then
        let* buffer := zset buffer n (byte.of_Z c) in
        read_line fuel t buffer (n + 1)
      else Ret (t, buffer)
  end.

(** [while (index < len)], [n] being [len - index]; [None] is the return of 0 at a
    character that is no digit. *)
Fixpoint parse_loop (n : nat) (index num : Z) (buffer : list byte) : result (option Z) :=
  match n with
  | O => Ret (Some num)
  | S n =>
      let* b := zget buffer index in
      let temp := schar b in
      if (temp <? ch_0) || (temp >? ch_9) then Ret None
      else parse_loop n (index + 1) (s32 (s32 (num * 10) + (temp - ch_0))) buffer
  end.

(** What [SysReadNum] makes of the buffer. *)
Definition convert (buffer : list byte) : result Z :=
  let* is_min := strcmp_eq buffer lit_min in
  if is_min : bool then Ret INT32_MIN else
  let* len := strlen buffer in
  if len >=? maxNumLen then Ret 0 else
  let* first := zget buffer 0 in
  let nega := schar first =? ch_minus in
  let index := if nega then 1 else 0 in
  let* parsed := parse_loop (Z.to_nat (len - index)) index 0 buffer in
  match parsed with
  | None => Ret 0
  | Some num =>
      let num := if nega then s32 (- num) else num in
      let* good := checkNumString num buffer in
      Ret (if good : bool then num else 0)
  end.

(** The state, [_numberBuffer] and the result. *)
Definition SysReadNum t : result (T * list byte * Z) :=
  let buffer := replicate (Z.to_nat numberBufferSize) NUL in
  let* (t, buffer) := read_line 14 t buffer 0 in
  let* v := convert buffer in
  Ret (t, buffer, v).

(** [while (num) { _numberBuffer[n++] = num % 10; num /= 10; }] *)
Fixpoint digit_loop (fuel : nat) (num n : Z) (buffer : list byte) : result (list byte * Z) :=
  match fuel with
  | O => NoFuel
  | S fuel =>
      if negb (num =? 0) then
        let* buffer := zset buffer n (byte.of_Z (Z.rem num 10)) in
        digit_loop fuel (Z.quot num 10) (n + 1) buffer
      else Ret (buffer, n)
  end.

(** [for (int i = n - 1; i >= 0; --i) PutChar(_numberBuffer[i] + '0')], for [n]
    characters. *)
Fixpoint put_digits (n : nat) t (buffer : list byte) : result T :=
  match n with
  | O => Ret t
  | S n =>
      let* b := zget buffer (Z.of_nat n) in
      let* t := putChar t (schar b + ch_0) in
      put_digits n t buffer
  end.

Definition SysPrintNum t (buffer : list byte) (num : Z) : result (T * list byte) :=
  if num =? 0 then let* t := putChar t ch_0 in Ret (t, buffer) else
  if num =? INT32_MIN then
    let* t := putChar t ch_minus in
    let* t := forZ 0 10 (fun i t => let* c := zget digits_2147483648 i in putChar t c) t in
    Ret (t, buffer)
  else
    let* (t, num) :=
      if num <? 0 then let* t := putChar t ch_minus in Ret (t, s32 (- num)) else Ret (t, num) in
    let* (buffer, n) := digit_loop 11 num 0 buffer in
    let* t := put_digits (Z.to_nat n) t buffer in
    Ret (t, buffer).

Definition SysReadChar t : result (T * Z) := getChar t.
Definition SysPrintChar t (character : Z) : result T := putChar t character.
End console.

(** ** The kernel: the console with the host, the file tables, the buffer *)

Section kernel.
Context {H : Type} `{CharDevices H}.
Variables (rhs_first : bool) (g_char : nat -> byte) (g_fd : Z).

Record Kernel : Type := mkKernel {
  con : Console H;
  fileSystem : FileSystem;
  numberBuffer : list byte
}.

Definition set_con (k : Kernel) (c : Console H) : Kernel :=
  mkKernel c (fileSystem k) (numberBuffer k).
(** The kernel after a call of the file system. *)
Definition set_files (k : Kernel) (h : H) (fs : FileSystem) : Kernel :=
  mkKernel (set_host (con k) h) fs (numberBuffer k).

Definition SysCreate (k : Kernel) (nm : list byte) : result (Kernel * Z) :=
  let* (h, fs, r) := Create (host (con k)) (fileSystem k) nm in
  Ret (set_files k h fs, r).

Definition SysOpen (k : Kernel) (fileName : list byte) (type : Z) : result (Kernel * Z) :=
  if negb (type =? 0) && negb (type =? 1) then Ret (k, -1) else
  let* (h, fs, fid) := OpenMode rhs_first g_char g_fd (host (con k)) (fileSystem k) fileName type in
  let k := set_files k h fs in
  if fid =? -1 then Ret (k, -1) else Ret (k, fid).

Definition SysClose (k : Kernel) (fid : Z) : result (Kernel * Z) :=
  let* (h, fs, r) := Close close_fuel (host (con k)) (fileSystem k) fid in
  Ret (set_files k h fs, r).

Definition SysWrite (k : Kernel) (buffer : list byte) (size fid : Z) : result (Kernel * Z) :=
  if fid =? stdin then Ret (k, -1)
  else if fid =? stdout then
    let* c := SysPrintString (con k) buffer size in
    Ret (set_con k c, 1)
  else
    let* (h, fs, r) := Write (host (con k)) (fileSystem k) buffer size fid in
    Ret (set_files k h fs, r).

(** The result and the buffer, which the file system fills from its start. *)
Definition SysRead (k : Kernel) (buffer : list byte) (size fid : Z)
    : result (Kernel * Z * list byte) :=
  if fid =? stdin then
    let* (c, buffer) := SysReadString (con k) buffer size in
    Ret (set_con k c, 1, buffer)
  else if fid =? stdout then Ret (k, -1, buffer)
  else
    let* (h, fs, (r, bs)) := Read (host (con k)) (fileSystem k) size fid in
    let* buffer := zsplice buffer 0 bs in
    Ret (set_files k h fs, r, buffer).

Definition SysSeek (k : Kernel) (pos fid : Z) : result (Kernel * Z) :=
  let* (h, fs, r) := Seek (host (con k)) (fileSystem k) pos fid in
  Ret (set_files k h fs, r).

(** [Remove(fileName) ? 0 : -1] *)
Definition SysRemove (k : Kernel) (fileName : list byte) : result (Kernel * Z) :=
  let* (h, r) := Remove (host (con k)) (fileSystem k) fileName in
  Ret (set_files k h (fileSystem k), if negb (r =? 0) then 0 else -1).
End kernel.
Arguments Kernel : clear implicits.

(** ** Decimal numbers *)

(** The digits of a positive number below [10 ^ fuel], most significant first. *)
Fixpoint dec (fuel : nat) (n : Z) : list Z :=
  match fuel with
  | O => []
  | S fuel => if n <=? 0 then [] else dec fuel (n / 10) ++ [n mod 10]
  end.

Definition dec_chars (n : Z) : list Z := (fun d => d + ch_0) <$> dec 10 n.

(** The text of an [int]. *)
Definition decimal (n : Z) : list Z :=
  if n =? 0 then [ch_0] else if n <? 0 then ch_minus :: dec_chars (- n) else dec_chars n.

Lemma dec_pos f n : 0 < n -> dec (S f) n = dec f (n / 10) ++ [n mod 10].
Proof. intros. simpl. rewrite (proj2 (Z.leb_gt n 0)) by lia. done. Qed.

Lemma dec_zero f n : n <= 0 -> dec f n = [].
Proof. intros. destruct f; simpl; [done|]. rewrite (proj2 (Z.leb_le n 0)) by lia. done. Qed.

Lemma dec_digits f n : Forall (fun d => 0 <= d <= 9) (dec f n).
Proof.
  revert n. induction f as [|f IH]; intros n; simpl; [done|]. case_if; [done|].
  apply Forall_app. split; [apply IH|]. constructor; [|done].
  pose proof (Z.mod_pos_bound n 10). lia.
Qed.

Lemma dec_length f n k : n < 10 ^ Z.of_nat k -> (length (dec f n) <= k)%nat.
Proof.
  revert n k. induction f as [|f IH]; intros n k Hn; simpl; [lia|].
  case_if; [simpl; lia|]. to_prop. destruct k as [|k]; [simpl in Hn; lia|].
  rewrite length_app. simpl.
  assert (n / 10 < 10 ^ Z.of_nat k).
  { apply Z.div_lt_upper_bound; [lia|]. rewrite <- Z.pow_succ_r by lia.
    replace (Z.succ (Z.of_nat k)) with (Z.of_nat (S k)) by lia. done. }
  specialize (IH (n / 10) k ltac:(done)). lia.
Qed.

Lemma div10_pow f n : 0 <= n < 10 ^ Z.of_nat (S f) -> 0 <= n / 10 < 10 ^ Z.of_nat f.
Proof.
  intros Hn. rewrite Nat2Z.inj_succ, Z.pow_succ_r in Hn by lia.
  split; [apply Z.div_pos; lia|apply Z.div_lt_upper_bound; lia].
Qed.

Lemma quot_rem_10 n : 0 <= n -> Z.quot n 10 = n / 10 /\ Z.rem n 10 = n mod 10.
Proof. intros. split; [apply Z.quot_div_nonneg; lia|apply Z.rem_mod_nonneg; lia]. Qed.

(** ** Lemmas: printing a number *)

Section printing.
Context {T : Type} `{Terminal T}.
Implicit Types (t : T).

Lemma digit_loop_spec f : forall num n buf, 0 <= num < 10 ^ Z.of_nat f -> 0 <= n ->
  n + Z.of_nat (length (dec f num)) <= Z.of_nat (length buf) ->
  exists buf', digit_loop (S f) num n buf = Ret (buf', n + Z.of_nat (length (dec f num))) /\
    length buf' = length buf /\ take (Z.to_nat n) buf' = take (Z.to_nat n) buf /\
    take (length (dec f num)) (drop (Z.to_nat n) buf') = byte.of_Z <$> reverse (dec f num).
Proof.
  induction f as [|f IH]; intros num n buf Hnum Hn Hroom.
  { assert (num = 0) as -> by (simpl in Hnum; lia). exists buf. simpl. rewrite Z.add_0_r. done. }
  destruct (decide (num = 0)) as [->|Hne].
  { exists buf. rewrite dec_zero by done. simpl. rewrite Z.add_0_r. done. }
  rewrite dec_pos in Hroom |- * by lia. rewrite length_app in Hroom |- *. simpl length in Hroom |- *.
  destruct (quot_rem_10 num) as [Hq Hr]; [lia|].
  change (digit_loop (S (S f)) num n buf) with
    (if negb (num =? 0) then
       let* b := zset buf n (byte.of_Z (Z.rem num 10)) in digit_loop (S f) (Z.quot num 10) (n + 1) b
     else Ret (buf, n)).
  rewrite (proj2 (Z.eqb_neq num 0)), Hq, Hr by done. cbn [negb]. rewrite zset_in, rbind_Ret by lia.
  destruct (IH (num / 10) (n + 1) (<[Z.to_nat n := byte.of_Z (num mod 10)]> buf))
    as (buf' & -> & Hl & Ht & Hd); [by apply div10_pow|lia|rewrite length_insert; lia|].
  rewrite length_insert in Hl. replace (Z.to_nat (n + 1)) with (S (Z.to_nat n)) in * by lia.
  assert (Hx : buf' !! Z.to_nat n = Some (byte.of_Z (num mod 10))).
  { rewrite <- (lookup_take_lt buf' (S (Z.to_nat n))), Ht, lookup_take_lt by lia.
    apply list_lookup_insert_eq. lia. }
  exists buf'. split; [do 2 f_equal; lia|]. split; [done|]. split.
  - apply (f_equal (take (Z.to_nat n))) in Ht. rewrite !take_take, !Nat.min_l in Ht by lia.
    rewrite Ht. by rewrite take_insert_ge by lia.
  - rewrite reverse_snoc, fmap_cons, <- Hd. rewrite Nat.add_1_r.
    rewrite (drop_S _ _ _ Hx). done.
Qed.

Lemma put_digits_spec l : forall t buf, t_wf t -> Forall (fun d => 0 <= d <= 9) l ->
  take (length l) buf = byte.of_Z <$> reverse l ->
  exists t', put_digits (length l) t buf = Ret t' /\ t_wf t' /\ t_in t' = t_in t /\
    t_out t' = t_out t ++ (byte.of_Z <$> ((fun d => d + ch_0) <$> l)).
Proof.
  induction l as [|d l IH]; intros t buf Hwf Hd Hbuf; simpl.
  { exists t. by rewrite app_nil_r. }
  apply Forall_cons in Hd as [Hd0 Hd]. rewrite reverse_cons, fmap_app in Hbuf. simpl in Hbuf.
  assert (Hx : buf !! length l = Some (byte.of_Z d)).
  { rewrite <- (lookup_take_lt buf (S (length l))), Hbuf by lia.
    rewrite lookup_app_r by (rewrite length_fmap, length_reverse; lia).
    by rewrite length_fmap, length_reverse, Nat.sub_diag. }
  rewrite (zget_lookup _ _ (byte.of_Z d)), rbind_Ret by (lia || by rewrite Nat2Z.id).
  rewrite schar_small by lia.
  destruct (putChar_spec t (d + ch_0) Hwf) as (t1 & -> & Hwf1 & Hin1 & Ho1). rewrite rbind_Ret.
  destruct (IH t1 buf Hwf1 Hd) as (t2 & -> & Hwf2 & Hin2 & Ho2).
  { apply (f_equal (take (length l))) in Hbuf. rewrite take_take, Nat.min_l in Hbuf by lia.
    rewrite Hbuf. apply take_app_length'. by rewrite length_fmap, length_reverse. }
  exists t2. split; [done|]. split; [done|]. rewrite Hin2, Ho2, Ho1, <- app_assoc. done.
Qed.

Lemma SysPrintNum_spec t buf num : t_wf t -> is_s32 num ->
  Z.of_nat (length buf) = numberBufferSize ->
  exists t' buf', SysPrintNum t buf num = Ret (t', buf') /\ t_wf t' /\ t_in t' = t_in t /\
    t_out t' = t_out t ++ (byte.of_Z <$> decimal num) /\ length buf' = length buf.
Proof.
  intros Hwf Hn Hbuf. unfold SysPrintNum, decimal, is_s32 in *.
  destruct (Z.eqb_spec num 0) as [->|Hne0].
  { destruct (putChar_spec t ch_0 Hwf) as (t1 & -> & ? & ? & ?). by exists t1, buf. }
  assert (Hpos : forall t v, t_wf t -> 0 < v < 2 ^ 31 -> exists t' buf',
    (let* (buffer, n) := digit_loop 11 v 0 buf in
     let* t := put_digits (Z.to_nat n) t buffer in Ret (t, buffer)) = Ret (t', buf') /\
    t_wf t' /\ t_in t' = t_in t /\ t_out t' = t_out t ++ (byte.of_Z <$> dec_chars v) /\
    length buf' = length buf).
  { intros t0 v Hwf0 Hv.
    pose proof (dec_length 10 v 10 ltac:(simpl; lia)) as Hlen. unfold numberBufferSize, maxNumLen in Hbuf.
    destruct (digit_loop_spec 10 v 0 buf) as (buf' & -> & Hl & _ & Hd); [simpl; lia|lia|lia|].
    rewrite rbind_Ret. rewrite Z.add_0_l, Nat2Z.id. change (Z.to_nat 0) with 0%nat in Hd. rewrite drop_0 in Hd.
    destruct (put_digits_spec (dec 10 v) t0 buf' Hwf0 (dec_digits 10 v) Hd) as (t' & -> & ? & ? & ?).
    rewrite rbind_Ret. by exists t', buf'. }
  destruct (Z.eqb_spec num INT32_MIN) as [->|Hnem].
  - clear Hpos.
    assert (E : forall t, forZ 0 10 (fun i t => let* c := zget digits_2147483648 i in putChar t c) t =
      putChars digits_2147483648 t).
    { intros t0. unfold forZ. simpl. by repeat (destruct (putChar _ _); simpl; try done). }
    destruct (putChar_spec t ch_minus Hwf) as (t1 & -> & Hwf1 & Hin1 & Ho1). rewrite rbind_Ret, E.
    destruct (putChars_spec digits_2147483648 t1 Hwf1) as (t2 & -> & Hwf2 & Hin2 & Ho2). rewrite rbind_Ret.
    exists t2, buf. do 2 (split; [done|]). split; [congruence|]. split; [|done].
    rewrite Ho2, Ho1, <- app_assoc. by vm_compute.
  - unfold INT32_MIN in Hnem. destruct (Z.ltb_spec num 0).
    + destruct (putChar_spec t ch_minus Hwf) as (t1 & -> & Hwf1 & Hin1 & Ho1). rewrite !rbind_Ret.
      rewrite s32_id by (unfold is_s32; lia).
      destruct (Hpos t1 (- num) Hwf1 ltac:(lia)) as (t' & buf' & -> & ? & Hin & Ho & ?).
      exists t', buf'. do 2 (split; [done|]). split; [congruence|]. split; [|done].
      rewrite Ho, Ho1, <- app_assoc. done.
    + rewrite rbind_Ret. apply (Hpos t num Hwf). lia.
Qed.
End printing.

(** ** Lemmas: converting a line *)

(** The characters of [s] lie in [a] from [o] on. *)
Definition at_offset (a s : list byte) (o : Z) : Prop :=
  0 <= o /\ exists rest, drop (Z.to_nat o) a = s ++ rest.

Lemma at_offset_lookup a s o i c : at_offset a s o -> s !! i = Some c ->
  zget a (o + Z.of_nat i) = Ret c.
Proof.
  intros [Ho [rest Hr]] Hc. apply zget_lookup; [lia|].
  replace (Z.to_nat (o + Z.of_nat i)) with (Z.to_nat o + i)%nat by lia.
  rewrite <- lookup_drop, Hr. by apply lookup_app_l_Some.
Qed.

Lemma at_offset_app a s s' o : at_offset a (s ++ s') o -> at_offset a s o.
Proof. intros [Ho [rest Hr]]. split; [done|]. exists (s' ++ rest). by rewrite Hr, <- app_assoc. Qed.

Lemma at_offset_tail a c s o : at_offset a (c :: s) o -> at_offset a s (o + 1).
Proof.
  intros [Ho [rest Hr]]. split; [lia|]. exists rest.
  replace (Z.to_nat (o + 1)) with (Z.to_nat o + 1)%nat by lia. rewrite <- drop_drop, Hr. done.
Qed.

Lemma holds_at_offset a s : holds_str a s -> at_offset a s 0.
Proof. intros [_ [rest ->]]. split; [lia|]. exists (NUL :: rest). by rewrite drop_0. Qed.

(** The comparison of a string with the digits of a number. *)
Lemma check_digits_spec f : forall v a s o, 0 <= v < 10 ^ Z.of_nat f -> at_offset a s o ->
  (length (dec f v) <= length s)%nat ->
  check_digits (S f) v a o (Z.of_nat (length s)) =
  Ret (bool_decide (schar <$> s = (fun d => d + ch_0) <$> dec f v)).
Proof.
  assert (Hend : forall a s o f', check_digits (S f') 0 a o (Z.of_nat (length s)) =
    Ret (bool_decide (schar <$> s = (fun d => d + ch_0) <$> dec f' 0))).
  { intros a s o f'. simpl. f_equal. symmetry.
    destruct s; [apply bool_decide_eq_true_2|apply bool_decide_eq_false_2]; by rewrite dec_zero. }
  induction f as [|f IH]; intros v a s o Hv Hs Hlen.
  { assert (v = 0) as -> by (simpl in Hv; lia). apply Hend. }
  destruct (decide (v = 0)) as [->|Hne]; [apply Hend|].
  rewrite dec_pos in Hlen |- * by lia. rewrite length_app in Hlen. simpl in Hlen.
  destruct s as [|c s _] using rev_ind; [simpl in Hlen; lia|].
  rewrite length_app in Hlen |- *. simpl length in Hlen |- *.
  destruct (quot_rem_10 v) as [Hq Hr]; [lia|].
  change (check_digits (S (S f)) v a o ?n) with
    (if v >? 0 then
       let digit := Z.rem v 10 in
       let* c := zget a (o + (n - 1)) in
       if negb (schar c - ch_0 =? digit) then Ret false
       else check_digits (S f) (Z.quot v 10) a o (n - 1)
     else Ret (n =? 0)).
  rewrite Z.gtb_ltb, (proj2 (Z.ltb_lt 0 v)) by lia. cbv zeta. rewrite Hq, Hr.
  replace (Z.of_nat (length s + 1) - 1) with (Z.of_nat (length s)) by lia.
  rewrite (at_offset_lookup a (s ++ [c]) o (length s) c), rbind_Ret;
    [|done|by rewrite lookup_app_r, Nat.sub_diag by lia].
  rewrite !fmap_app. cbn [fmap list_fmap]. destruct (Z.eqb_spec (schar c - ch_0) (v mod 10)) as [E|E]; cbn [negb].
  - rewrite (IH (v / 10) a s o); [|by apply div10_pow|by eapply at_offset_app|lia].
    f_equal. apply bool_decide_ext. split; intros Heq.
    + rewrite Heq. do 2 f_equal. lia.
    + by apply app_inj_2 in Heq as [? _].
  - f_equal. symmetry. apply bool_decide_eq_false_2. intros Heq.
    apply app_inj_2 in Heq as [_ [= Heq]]; [lia|done].
Qed.

(** The digits of a line, as [int] arithmetic accumulates them. *)
Fixpoint parse (num : Z) (cs : list Z) : option Z :=
  match cs with
  | [] => Some num
  | c :: cs =>
      if (c <? ch_0) || (c >? ch_9) then None else parse (s32 (s32 (num * 10) + (c - ch_0))) cs
  end.

Lemma parse_loop_spec s : forall a index num, at_offset a s index ->
  parse_loop (length s) index num a = Ret (parse num (schar <$> s)).
Proof.
  induction s as [|c s IH]; intros a index num Hs; [done|]. simpl.
  pose proof (at_offset_lookup a (c :: s) index 0 c Hs eq_refl) as Hz. rewrite Z.add_0_r in Hz.
  rewrite Hz, rbind_Ret. case_if; [done|]. apply IH. by eapply at_offset_tail.
Qed.

Lemma parse_app num cs cs' : parse num (cs ++ cs') = parse num cs ≫= fun v => parse v cs'.
Proof.
  revert num. induction cs as [|c cs IH]; intros num; [done|]. simpl. case_if; [done|]. apply IH.
Qed.

Lemma parse_digit num d : 0 <= d <= 9 -> 0 <= num -> num * 10 + d < 2 ^ 31 ->
  parse num [d + ch_0] = Some (num * 10 + d).
Proof.
  intros Hd Hn Hm. unfold parse, ch_0, ch_9. rewrite (proj2 (Z.ltb_ge _ _)), Z.gtb_ltb, (proj2 (Z.ltb_ge _ _)) by lia.
  simpl. f_equal. rewrite (s32_id (num * 10)) by (unfold is_s32; lia).
  rewrite s32_id by (unfold is_s32; lia). lia.
Qed.

(** Reading back the digits of a number. *)
Lemma parse_dec f : forall n, 0 <= n < 10 ^ Z.of_nat f -> n < 2 ^ 31 ->
  parse 0 ((fun d => d + ch_0) <$> dec f n) = Some n.
Proof.
  induction f as [|f IH]; intros n Hn Hm; [simpl in Hn; simpl; f_equal; lia|].
  destruct (decide (n = 0)) as [->|Hne]; [by rewrite dec_zero|].
  rewrite dec_pos, fmap_app, parse_app by lia.
  pose proof (div10_pow f n Hn) as Hd. pose proof (Z.div_mod n 10 ltac:(lia)).
  pose proof (Z.mod_pos_bound n 10 ltac:(lia)).
  rewrite IH by lia. change (parse (n / 10) [n mod 10 + ch_0] = Some n).
  rewrite parse_digit by lia. f_equal. lia.
Qed.

Lemma parse_bound cs : forall num v k, 0 <= num < 10 ^ Z.of_nat k ->
  (k + length cs <= 9)%nat -> parse num cs = Some v -> 0 <= v < 10 ^ Z.of_nat (k + length cs).
Proof.
  induction cs as [|c cs IH]; intros num v k Hn Hl; simpl.
  { intros [= <-]. by rewrite Nat.add_0_r. }
  simpl in Hl. case_if; [done|]. to_prop. unfold ch_0, ch_9 in *.
  assert (Hp : 10 ^ Z.of_nat (S k) = 10 * 10 ^ Z.of_nat k) by (rewrite Nat2Z.inj_succ, Z.pow_succ_r; lia).
  assert (10 ^ Z.of_nat (S k) <= 10 ^ 9) by (apply Z.pow_le_mono_r; lia).
  change (10 ^ 9) with 1000000000 in *.
  rewrite (s32_id (num * 10)) by (unfold is_s32; lia). rewrite s32_id by (unfold is_s32; lia).
  replace (k + S (length cs))%nat with (S k + length cs)%nat by lia. apply IH; lia.
Qed.

Lemma parse_s32 cs : forall num v, is_s32 num -> parse num cs = Some v -> is_s32 v.
Proof.
  induction cs as [|c cs IH]; intros num v Hn; simpl; [by intros [= <-]|].
  case_if; [done|]. apply IH, s32_range.
Qed.

#[export] Instance schar_inj : Inj (=) (=) schar.
Proof. intros b b' E. by rewrite <- (of_schar b), <- (of_schar b'), E. Qed.

Lemma dec_inj f : forall n m, 0 <= n < 10 ^ Z.of_nat f -> 0 <= m < 10 ^ Z.of_nat f ->
  dec f n = dec f m -> n = m.
Proof.
  induction f as [|f IH]; intros n m Hn Hm; [simpl in *; lia|]. simpl.
  destruct (Z.leb_spec n 0), (Z.leb_spec m 0); intros E; try lia;
    try (by destruct (dec f (n / 10))); try (by destruct (dec f (m / 10))).
  apply app_inj_2 in E as [E [= Er]]; [|done].
  apply IH in E; [|by apply div10_pow|by apply div10_pow].
  pose proof (Z.div_mod n 10 ltac:(lia)). pose proof (Z.div_mod m 10 ltac:(lia)). lia.
Qed.

Lemma dec_chars_digits n : Forall (fun c => ch_0 <= c <= ch_9) (dec_chars n).
Proof.
  unfold dec_chars. apply Forall_fmap. eapply Forall_impl; [apply dec_digits|].
  intros d Hd. simpl in Hd. unfold compose, ch_0, ch_9. lia.
Qed.

(** Reading back the text of an [int] without its sign. *)
Lemma decimal_parse n cs : is_s32 n -> n <> INT32_MIN -> cs = decimal n ->
  (n < 0 /\ head cs = Some ch_minus /\ parse 0 (tail cs) = Some (- n)) \/
  (0 <= n /\ head cs <> Some ch_minus /\ parse 0 cs = Some n).
Proof.
  unfold is_s32, INT32_MIN. intros Hn Hm ->. unfold decimal.
  destruct (Z.eqb_spec n 0) as [->|Hne]; [by right|]. destruct (Z.ltb_spec n 0).
  - left. split; [done|]. split; [done|]. apply parse_dec; simpl; lia.
  - right. split; [lia|]. split; [|apply parse_dec; simpl; lia].
    pose proof (dec_chars_digits n) as Hd. destruct (dec_chars n) as [|c l]; [done|].
    apply Forall_cons in Hd as [Hc _]. unfold ch_0, ch_minus in *. intros [= ->]. lia.
Qed.

Lemma decimal_min n : is_s32 n -> decimal n = decimal INT32_MIN -> n = INT32_MIN.
Proof.
  intros Hn E. destruct (decide (n = INT32_MIN)) as [|Hne]; [done|].
  destruct (decimal_parse n (decimal n) Hn Hne eq_refl) as [(? & _ & _)|(? & Hh & _)];
    [|by rewrite E in Hh].
  unfold decimal in E. rewrite (proj2 (Z.eqb_neq n 0)), (proj2 (Z.ltb_lt n 0)) in E by lia.
  change (INT32_MIN =? 0) with false in E. change (INT32_MIN <? 0) with true in E. injection E as E.
  unfold dec_chars in E. apply list_fmap_eq_inj in E; [|intros x y ?; simpl in *; lia].
  apply dec_inj in E; unfold is_s32, INT32_MIN in *; simpl; lia.
Qed.

Lemma decimal_inj n m : is_s32 n -> is_s32 m -> decimal n = decimal m -> n = m.
Proof.
  intros Hn Hm E. destruct (decide (n = INT32_MIN)) as [->|Hne]; [by rewrite (decimal_min m)|].
  destruct (decide (m = INT32_MIN)) as [->|Hme]; [by rewrite (decimal_min n)|].
  destruct (decimal_parse n (decimal n) Hn Hne eq_refl) as [(? & H1 & H2)|(? & H1 & H2)],
    (decimal_parse m (decimal n) Hm Hme E) as [(? & H3 & H4)|(? & H3 & H4)]; try done.
  - rewrite H2 in H4. injection H4. lia.
  - congruence.
Qed.

Lemma checkNumString_zero a s : holds_str a s ->
  checkNumString 0 a = Ret (bool_decide (schar <$> s = decimal 0)).
Proof.
  intros Hs. unfold checkNumString. rewrite Z.eqb_refl.
  rewrite (strcmp_eq_holds a lit_0 s [byte.of_Z ch_0]); [|done|].
  - f_equal. apply bool_decide_ext. change (decimal 0) with (schar <$> [byte.of_Z ch_0]).
    split; [by intros ->|]. apply list_fmap_eq_inj, _.
  - split; [apply (bool_decide_unpack _); by vm_compute|by exists []].
Qed.

Lemma holds_first a s : holds_str a s -> exists b, zget a 0 = Ret b /\ b = default NUL (head s).
Proof. intros [_ [rest ->]]. destruct s; simpl; eexists; (split; [apply zget_lookup; done|done]). Qed.

Lemma checkNumString_pos a s v : holds_str a s -> 0 < v < 2 ^ 31 ->
  (length (dec 10 v) <= length s)%nat ->
  checkNumString v a = Ret (bool_decide (schar <$> s = decimal v)).
Proof.
  intros Hs Hv Hl. unfold checkNumString, decimal.
  rewrite (proj2 (Z.eqb_neq v 0)), (proj2 (Z.ltb_ge v 0)) by lia.
  destruct (holds_first a s Hs) as (b & -> & _). rewrite (strlen_holds a s Hs), !rbind_Ret. cbn [andb].
  apply check_digits_spec; [simpl; lia|by apply holds_at_offset|done].
Qed.

Lemma checkNumString_neg a s v : holds_str a s -> - 2 ^ 31 < v < 0 ->
  (length (dec 10 (- v)) <= length (tail s))%nat ->
  checkNumString v a = Ret (bool_decide (schar <$> s = decimal v)).
Proof.
  intros Hs Hv Hl. unfold checkNumString, decimal.
  rewrite (proj2 (Z.eqb_neq v 0)), (proj2 (Z.ltb_lt v 0)) by lia.
  destruct (holds_first a s Hs) as (b & -> & Hb). rewrite (strlen_holds a s Hs), !rbind_Ret. cbn [andb].
  pose proof (dec_pos 9 (- v) ltac:(lia)) as Hd.
  destruct s as [|c s]; [rewrite Hd, length_app in Hl; simpl in Hl; lia|].
  simpl in Hb. subst b. cbn [fmap list_fmap]. cbn [tail] in Hl.
  destruct (Z.eqb_spec (schar c) ch_minus) as [Ec|Ec]; cbn [negb].
  - rewrite s32_id by (unfold is_s32; lia).
    replace (Z.of_nat (length (c :: s)) - 1) with (Z.of_nat (length s)) by (simpl; lia).
    rewrite (check_digits_spec 10 (- v) a s 1); [|simpl; lia| |done].
    + f_equal. apply bool_decide_ext. rewrite Ec. unfold dec_chars. split; [by intros ->|by intros [= ->]].
    + change 1 with (0 + 1). eapply at_offset_tail, holds_at_offset, Hs.
  - f_equal. symmetry. apply bool_decide_eq_false_2. intros [= ? _]. done.
Qed.

Lemma checkNumString_unsigned a s v : holds_str a s -> v < 0 ->
  head (schar <$> s) <> Some ch_minus -> checkNumString v a = Ret false.
Proof.
  intros Hs Hv Hh. unfold checkNumString.
  rewrite (proj2 (Z.eqb_neq v 0)), (proj2 (Z.ltb_lt v 0)) by lia.
  destruct (holds_first a s Hs) as (b & -> & ->). rewrite (strlen_holds a s Hs), !rbind_Ret. cbn [andb].
  destruct s as [|c s]; [reflexivity|]. cbn [head default from_option Datatypes.id] in *.
  cbn [fmap list_fmap head] in Hh.
  destruct (Z.eqb_spec (schar c) ch_minus) as [E|E]; [|reflexivity]. by rewrite E in Hh.
Qed.

(** A line of at most ten characters: its value if it is the text of an [int],
    otherwise 0. *)
Definition line_result (a s : list byte) : Prop :=
  (convert a = Ret 0 /\ forall n, is_s32 n -> schar <$> s <> decimal n) \/
  (exists n, is_s32 n /\ schar <$> s = decimal n /\ convert a = Ret n).

Lemma line_result_checked a s v : is_s32 v ->
  (forall n, is_s32 n -> schar <$> s = decimal n -> n = v) ->
  convert a = Ret (if bool_decide (schar <$> s = decimal v) then v else 0) -> line_result a s.
Proof.
  intros Hv Hu Hc. unfold line_result. rewrite Hc.
  case_bool_decide as E; [by right; exists v|]. left. split; [done|].
  intros n Hn En. apply E. by rewrite <- (Hu n Hn En).
Qed.

Lemma decimal_short n : is_s32 n -> (length (decimal n) <= 10)%nat -> n <> INT32_MIN.
Proof. intros _ Hl ->. vm_compute in Hl. lia. Qed.

(** Such a line has a minus sign or not. *)
Definition signed (s : list byte) : Prop := head (schar <$> s) = Some ch_minus.

(** The digits after the sign. *)
Definition body (s : list byte) : list byte := if decide (signed s) then tail s else s.

Lemma convert_eq a s : holds_str a s -> (length s <= 10)%nat ->
  convert a =
  match parse 0 (schar <$> body s) with
  | None => Ret 0
  | Some num =>
      let num := if decide (signed s) then s32 (- num) else num in
      let* good := checkNumString num a in Ret (if good : bool then num else 0)
  end.
Proof.
  intros Hs Hl. unfold convert, body, signed.
  rewrite (strcmp_eq_holds a lit_min s (byte.of_Z <$> (ch_minus :: digits_2147483648))).
  2: done. 2: { split; [apply (bool_decide_unpack _); by vm_compute|by exists []]. }
  rewrite bool_decide_eq_false_2 by (intros ->; vm_compute in Hl; lia).
  rewrite rbind_Ret, (strlen_holds a s Hs), rbind_Ret. unfold maxNumLen.
  rewrite Z.geb_leb, (proj2 (Z.leb_gt _ _)) by lia.
  destruct (holds_first a s Hs) as (b & -> & ->). rewrite rbind_Ret.
  pose proof (holds_at_offset a s Hs) as Hat. cbv zeta.
  destruct s as [|c s].
  { by destruct (decide (head (schar <$> []) = Some ch_minus)). }
  cbn [head default from_option Datatypes.id fmap list_fmap].
  destruct (Z.eqb_spec (schar c) ch_minus) as [E|E].
  - destruct (decide (Some (schar c) = Some ch_minus)) as [D|D]; [|congruence]. cbn [tail].
    replace (Z.to_nat (Z.of_nat (length (c :: s)) - 1)) with (length s) by (simpl; lia).
    rewrite (parse_loop_spec s a 1); [by rewrite rbind_Ret|]. by apply (at_offset_tail a c s 0).
  - destruct (decide (Some (schar c) = Some ch_minus)) as [D|D]; [congruence|].
    replace (Z.to_nat (Z.of_nat (length (c :: s)) - 0)) with (length (c :: s)) by (simpl; lia).
    by rewrite (parse_loop_spec (c :: s) a 0), rbind_Ret.
Qed.

(** The only number a short line can be the text of. *)
Lemma short_unique s n : (length s <= 10)%nat -> is_s32 n -> schar <$> s = decimal n ->
  exists v, parse 0 (schar <$> body s) = Some v /\ 0 <= v /\ n = if decide (signed s) then - v else v.
Proof.
  intros Hl Hn E. assert (Hm : n <> INT32_MIN).
  { apply decimal_short; [done|]. by rewrite <- E, length_fmap. }
  unfold body, signed. destruct (decimal_parse n _ Hn Hm E) as [(? & Hh & Hp)|(? & Hh & Hp)].
  - destruct (decide (head (schar <$> s) = Some ch_minus)); [|done].
    exists (- n). destruct s; [done|]. split; [done|lia].
  - destruct (decide (head (schar <$> s) = Some ch_minus)); [done|]. by exists n.
Qed.

Lemma convert_signed a s v : holds_str a s -> (length s <= 10)%nat -> signed s ->
  parse 0 (schar <$> tail s) = Some v -> 0 <= v < 2 ^ 31 /\
  checkNumString (- v) a = Ret (bool_decide (schar <$> s = decimal (- v))).
Proof.
  intros Hs Hl Hneg Hp. destruct s as [|c s]; [done|]. cbn [tail] in Hp. simpl in Hl.
  pose proof (parse_bound (schar <$> s) 0 v 0 ltac:(simpl; lia) ltac:(rewrite length_fmap; lia) Hp) as Hv.
  rewrite Nat.add_0_l, length_fmap in Hv.
  assert (Hv9 : v < 10 ^ 9) by (eapply Z.lt_le_trans; [apply Hv|apply Z.pow_le_mono_r; lia]).
  change (10 ^ 9) with 1000000000 in Hv9. split; [lia|].
  destruct (decide (v = 0)) as [->|Hne]; [by apply checkNumString_zero|].
  apply checkNumString_neg; [done|lia|]. rewrite Z.opp_involutive. apply dec_length, Hv.
Qed.

Lemma convert_unsigned a s v : holds_str a s -> (length s <= 10)%nat -> ~ signed s ->
  parse 0 (schar <$> s) = Some v -> is_s32 v /\
  checkNumString v a = Ret (if decide (v < 0) then false else bool_decide (schar <$> s = decimal v)).
Proof.
  intros Hs Hl Hneg Hp.
  pose proof (parse_s32 _ 0 v ltac:(unfold is_s32; lia) Hp) as Hv. split; [done|]. unfold is_s32 in Hv.
  case_decide; [by apply (checkNumString_unsigned a s)|].
  destruct (decide (v = 0)) as [->|Hne]; [by apply checkNumString_zero|].
  apply checkNumString_pos; [done|lia|]. destruct (decide (length s <= 9)%nat) as [H9|H9].
  - pose proof (parse_bound (schar <$> s) 0 v 0 ltac:(simpl; lia) ltac:(rewrite length_fmap; lia) Hp) as Hb.
    rewrite Nat.add_0_l, length_fmap in Hb. apply dec_length, Hb.
  - transitivity 10%nat; [|lia]. apply dec_length. simpl. lia.
Qed.

Lemma convert_short a s : holds_str a s -> (length s <= 10)%nat -> line_result a s.
Proof.
  intros Hs Hl. pose proof (convert_eq a s Hs Hl) as Hconv.
  destruct (parse 0 (schar <$> body s)) as [v|] eqn:Hp.
  2: { left. split; [done|]. intros n Hn E. destruct (short_unique s n Hl Hn E) as (? & ? & _). congruence. }
  cbv zeta in Hconv. pose proof (fun n => short_unique s n Hl) as Hu. rewrite Hp in Hu.
  unfold body in Hp. destruct (decide (signed s)) as [Hneg|Hneg].
  - destruct (convert_signed a s v Hs Hl Hneg Hp) as [Hv Hc].
    rewrite s32_id, Hc, rbind_Ret in Hconv by (unfold is_s32; lia).
    apply (line_result_checked a s (- v)); [unfold is_s32; lia| |done].
    intros n Hn E. by destruct (Hu n Hn E) as (? & [= <-] & _ & ?).
  - destruct (convert_unsigned a s v Hs Hl Hneg Hp) as [Hv Hc]. rewrite Hc, rbind_Ret in Hconv.
    case_decide.
    + left. split; [done|]. intros n Hn E. destruct (Hu n Hn E) as (? & [= <-] & ? & _). lia.
    + apply (line_result_checked a s v); [done| |done].
      intros n Hn E. by destruct (Hu n Hn E) as (? & [= <-] & _ & ?).
Qed.

Lemma dec_length_ge f : forall n k, 10 ^ Z.of_nat k <= n < 10 ^ Z.of_nat f ->
  (k < length (dec f n))%nat.
Proof.
  induction f as [|f IH]; intros n k Hn.
  { pose proof (Z.pow_pos_nonneg 10 (Z.of_nat k)). simpl in Hn. lia. }
  pose proof (Z.pow_pos_nonneg 10 (Z.of_nat k) ltac:(lia) ltac:(lia)).
  rewrite dec_pos, length_app by lia. simpl. destruct k as [|k]; [lia|].
  assert (10 ^ Z.of_nat k <= n / 10).
  { apply Z.div_le_lower_bound; [lia|]. rewrite <- Z.pow_succ_r by lia.
    replace (Z.succ (Z.of_nat k)) with (Z.of_nat (S k)) by lia. lia. }
  pose proof (div10_pow f n ltac:(lia)). specialize (IH (n / 10) k ltac:(lia)). lia.
Qed.

(** The texts of eleven characters. *)
Lemma decimal_length n : is_s32 n ->
  (length (decimal n) <= 11)%nat /\ ((length (decimal n) <= 10)%nat <-> -1000000000 < n).
Proof.
  intros Hn. unfold is_s32 in Hn. unfold decimal.
  destruct (Z.eqb_spec n 0) as [->|Hne]; [simpl; lia|].
  destruct (Z.ltb_spec n 0); simpl length; unfold dec_chars; rewrite length_fmap.
  - pose proof (dec_length 10 (- n) 10 ltac:(simpl; lia)). split; [lia|]. split; intros Hx.
    + destruct (Z.le_gt_cases n (-1000000000)); [|lia].
      pose proof (dec_length_ge 10 (- n) 9 ltac:(simpl; lia)). lia.
    + pose proof (dec_length 10 (- n) 9 ltac:(simpl; lia)). lia.
  - pose proof (dec_length 10 n 10 ltac:(simpl; lia)). lia.
Qed.

(** ** Lemmas: reading lines and strings *)

Section reading.
Context {T : Type} `{Terminal T}.
Implicit Types (t : T).

Definition newline : byte := byte.of_Z ch_newline.

(** A line as it can be typed. *)
Record is_line (l : list byte) : Prop := {
  il_typable : typable l;
  il_newline : newline ∉ l;
  il_nul : NUL ∉ l
}.

Lemma read_line_spec l : forall fuel t buf n r, typable l -> newline ∉ l -> t_wf t ->
  t_in t = l ++ newline :: r -> 0 <= n -> n + Z.of_nat (length l) <= Z.of_nat (length buf) ->
  (length l < fuel)%nat ->
  exists t', read_line fuel t buf n =
      Ret (t', take (Z.to_nat n) buf ++ l ++ drop (Z.to_nat n + length l) buf) /\
    t_wf t' /\ t_in t' = r /\ t_out t' = t_out t.
Proof.
  induction l as [|b l IH]; intros fuel t buf n r Hty Hnl Hwf Hin Hn Hroom Hf;
    (destruct fuel as [|fuel]; [simpl in Hf; lia|]); simpl.
  - destruct (getChar_spec t newline r Hwf Hin) as (t' & -> & ? & ? & ?); [done|]. simpl.
    exists t'. rewrite Nat.add_0_r, take_drop. done.
  - apply Forall_cons in Hty as [Hb Hty]. apply not_elem_of_cons in Hnl as [Hbn Hnl].
    destruct (getChar_spec t b (l ++ newline :: r) Hwf Hin Hb) as (t1 & -> & Hwf1 & Hin1 & Ho1).
    rewrite rbind_Ret. rewrite (proj2 (Z.eqb_neq (schar b) ch_newline)).
    2: { intros E. apply Hbn. unfold newline. by rewrite <- E, of_schar. }
    cbn [negb]. simpl in Hroom, Hf. rewrite zset_in, rbind_Ret, of_schar by lia.
    destruct (IH fuel t1 (<[Z.to_nat n := b]> buf) (n + 1) r Hty Hnl Hwf1 Hin1) as (t' & -> & ? & ? & Ho);
      [lia|rewrite length_insert; lia|lia|].
    exists t'. split; [|by rewrite Ho]. do 2 f_equal.
    replace (Z.to_nat (n + 1)) with (S (Z.to_nat n)) by lia.
    rewrite (take_S_r _ _ b) by (apply list_lookup_insert_eq; lia).
    rewrite take_insert_ge, drop_insert_lt, <- app_assoc by lia. simpl. do 3 f_equal.
    f_equal. lia.
Qed.

(** More characters than the buffer holds. *)
Lemma read_line_overrun l : forall fuel t buf n r, typable l -> newline ∉ l -> t_wf t ->
  t_in t = l ++ r -> 0 <= n <= Z.of_nat (length buf) -> Z.of_nat (length buf) < n + Z.of_nat (length l) ->
  Z.of_nat (length buf) < n + Z.of_nat fuel -> read_line fuel t buf n = Fault.
Proof.
  induction l as [|b l IH]; intros fuel t buf n r Hty Hnl Hwf Hin Hn Hlong Hf; [simpl in Hlong; lia|].
  destruct fuel as [|fuel]; [lia|]. simpl.
  apply Forall_cons in Hty as [Hb Hty]. apply not_elem_of_cons in Hnl as [Hbn Hnl].
  destruct (getChar_spec t b (l ++ r) Hwf Hin Hb) as (t1 & -> & Hwf1 & Hin1 & _).
  rewrite rbind_Ret. rewrite (proj2 (Z.eqb_neq (schar b) ch_newline)).
  2: { intros E. apply Hbn. unfold newline. by rewrite <- E, of_schar. }
  cbn [negb]. simpl in Hlong. destruct (decide (n = Z.of_nat (length buf))) as [->|Hne].
  { by rewrite zset_out by lia. }
  rewrite zset_in, rbind_Ret by lia. eapply IH; try done; rewrite length_insert; lia.
Qed.

Lemma SysReadNum_line t l r : t_wf t -> is_line l -> t_in t = l ++ newline :: r ->
  if decide (length l <= 12)%nat then
    exists t' a, SysReadNum t = (let* v := convert a in Ret (t', a, v)) /\ holds_str a l /\
      t_wf t' /\ t_in t' = r /\ t_out t' = t_out t
  else SysReadNum t = Fault.
Proof.
  intros Hwf [Hty Hnl Hnul] Hin. unfold SysReadNum.
  change (Z.to_nat numberBufferSize) with 13%nat. set (buf := replicate 13 NUL).
  assert (Hlen : length buf = 13%nat) by done.
  destruct (decide (length l <= 13)%nat) as [H13|H13].
  2: { rewrite decide_False by lia.
       rewrite (read_line_overrun l 14 t buf 0 (newline :: r)); try done; lia. }
  destruct (read_line_spec l 14 t buf 0 r Hty Hnl Hwf Hin) as (t' & -> & ? & ? & ?); [lia|lia|lia|].
  change (Z.to_nat 0) with 0%nat. rewrite take_0, app_nil_l, Nat.add_0_l, rbind_Ret.
  unfold buf. rewrite drop_replicate. case_decide as H12.
  - exists t', (l ++ replicate (13 - length l) NUL). split; [done|]. split; [|done]. split; [done|].
    exists (replicate (12 - length l) NUL). f_equal. by replace (13 - length l)%nat with (S (12 - length l)) by lia.
  - replace (13 - length l)%nat with 0%nat by lia. simpl replicate. rewrite app_nil_r.
    assert (Hst : strlen l = Fault).
    { unfold strlen. clear -Hnul. induction l as [|x l IH]; [done|]. simpl.
      rewrite bool_decide_eq_false_2 by set_solver. specialize (IH ltac:(set_solver)).
      by destruct (c_str l). }
    assert (Hcmp : strcmp_eq l lit_min = Ret false).
    { assert (Hgen : forall (a s : list byte), NUL ∉ a -> (length s < length a)%nat -> NUL ∉ s ->
        strcmp_eq a (s ++ [NUL]) = Ret false).
      { induction a as [|x a IH]; intros [|y s] Ha Hl Hs; simpl in *; try lia.
        - by rewrite bool_decide_eq_false_2 by set_solver.
        - destruct (decide (x = y)) as [->|]; [|by rewrite bool_decide_eq_false_2].
          rewrite (bool_decide_eq_true_2 (y = y)), bool_decide_eq_false_2 by set_solver.
          apply IH; [set_solver|lia|set_solver]. }
      apply Hgen; [done|simpl; lia|apply (bool_decide_unpack _); by vm_compute]. }
    unfold convert. by rewrite Hcmp, rbind_Ret, Hst.
Qed.

(** The loop of [SysReadString]. *)
Definition read_step (i : Z) (st : T * list byte) : result (T * list byte) :=
  let '(t, buffer) := st in
  let* (t, ch) := getChar t in
  let* buffer := zset buffer i (byte.of_Z ch) in
  Ret (t, buffer).

Lemma read_loop_spec t l r buf : t_wf t -> typable l -> t_in t = l ++ r ->
  (length l <= length buf)%nat ->
  exists t', forZ 0 (Z.of_nat (length l)) read_step (t, buf) = Ret (t', l ++ drop (length l) buf) /\
    t_wf t' /\ t_in t' = r /\ t_out t' = t_out t.
Proof.
  intros Hwf Hty Hin Hbuf.
  destruct (forZ_inv (fun i (st : T * list byte) => t_wf st.1 /\ t_out st.1 = t_out t /\
      t_in st.1 = drop (Z.to_nat i) l ++ r /\
      st.2 = take (Z.to_nat i) l ++ drop (Z.to_nat i) buf)
    0 (Z.of_nat (length l)) read_step (t, buf)) as ([t' buf'] & -> & Hwf' & Ho & Hin' & Hb); [lia|done| |].
  - intros i [t1 b1] Hi (Hwf1 & Ho1 & Hin1 & Hb1). simpl in *. subst b1.
    destruct (lookup_lt_is_Some_2 l (Z.to_nat i)) as [c Hc]; [lia|].
    rewrite (drop_S l c) in Hin1 by done.
    destruct (getChar_spec t1 c (drop (S (Z.to_nat i)) l ++ r) Hwf1 Hin1) as (t2 & -> & ? & ? & ?).
    { unfold typable in Hty. rewrite Forall_lookup in Hty. by eapply Hty. }
    rewrite rbind_Ret, of_schar.
    assert (Hl : length (take (Z.to_nat i) l) = Z.to_nat i) by (rewrite length_take; lia).
    rewrite zset_in by (rewrite length_app, length_drop; lia). rewrite rbind_Ret.
    eexists. split; [done|]. simpl. replace (Z.to_nat (i + 1)) with (S (Z.to_nat i)) by lia.
    split; [done|]. split; [congruence|]. split; [done|].
    destruct (drop (Z.to_nat i) buf) as [|x d] eqn:Hd;
      [apply (f_equal length) in Hd; rewrite length_drop in Hd; simpl in Hd; lia|].
    rewrite insert_app_r_alt, Hl, Nat.sub_diag by lia. simpl.
    rewrite (take_S_r l _ c), <- app_assoc by done. simpl. do 2 f_equal.
    replace (S (Z.to_nat i)) with (Z.to_nat i + 1)%nat by lia. by rewrite <- drop_drop, Hd.
  - simpl in *. rewrite Nat2Z.id in *. rewrite drop_all in Hin'. simpl in Hin'.
    rewrite take_ge in Hb by lia. subst buf'. by exists t'.
Qed.

Lemma SysReadString_spec t l r buf : t_wf t -> typable l -> t_in t = l ++ r ->
  (length l < length buf)%nat ->
  exists t', SysReadString t buf (Z.of_nat (length l)) =
      Ret (t', l ++ NUL :: drop (S (length l)) buf) /\ t_wf t' /\ t_in t' = r /\ t_out t' = t_out t.
Proof.
  intros Hwf Hty Hin Hbuf. unfold SysReadString. fold read_step.
  destruct (read_loop_spec t l r buf Hwf Hty Hin) as (t' & -> & ? & ? & ?); [lia|]. rewrite rbind_Ret.
  rewrite zset_in by (rewrite length_app, length_drop; lia). rewrite rbind_Ret, Nat2Z.id.
  exists t'. split; [|done]. do 2 f_equal.
  destruct (drop (length l) buf) as [|x d] eqn:Hd;
    [apply (f_equal length) in Hd; rewrite length_drop in Hd; simpl in Hd; lia|].
  rewrite insert_app_r_alt, Nat.sub_diag by lia. simpl. do 2 f_equal.
  replace (S (length l)) with (length l + 1)%nat by lia. by rewrite <- drop_drop, Hd.
Qed.

(** No room for the terminator. *)
Lemma SysReadString_full t l r buf : t_wf t -> typable l -> t_in t = l ++ r ->
  length buf = length l -> SysReadString t buf (Z.of_nat (length l)) = Fault.
Proof.
  intros Hwf Hty Hin Hbuf. unfold SysReadString. fold read_step.
  destruct (read_loop_spec t l r buf Hwf Hty Hin) as (t' & -> & _); [lia|]. rewrite rbind_Ret.
  rewrite drop_ge, app_nil_r by lia. by rewrite zset_out by lia.
Qed.

Lemma print_loop_spec s : forall n t a o, t_wf t -> at_offset a (s ++ [NUL]) o -> NUL ∉ s ->
  exists t', print_loop n o t a = Ret t' /\ t_wf t' /\ t_in t' = t_in t /\
    t_out t' = t_out t ++ take n s.
Proof.
  induction s as [|b s IH]; intros [|n] t a o Hwf Hat Hnul; simpl;
    try (exists t; by rewrite app_nil_r).
  - pose proof (at_offset_lookup a [NUL] o 0 NUL Hat eq_refl) as Hz. rewrite Z.add_0_r in Hz.
    rewrite Hz, rbind_Ret. exists t. by rewrite app_nil_r.
  - pose proof (at_offset_lookup a (b :: s ++ [NUL]) o 0 b Hat eq_refl) as Hz. rewrite Z.add_0_r in Hz.
    rewrite Hz, rbind_Ret, bool_decide_eq_false_2 by set_solver.
    destruct (putChar_spec t (schar b) Hwf) as (t1 & -> & Hwf1 & Hin1 & Ho1). rewrite rbind_Ret.
    destruct (IH n t1 a (o + 1) Hwf1) as (t' & -> & ? & ? & Ho);
      [by eapply at_offset_tail|set_solver|].
    exists t'. split; [done|]. split; [done|]. split; [congruence|].
    rewrite Ho, Ho1, of_schar, <- app_assoc. done.
Qed.

Lemma SysPrintString_spec t a s limit : t_wf t -> holds_str a s ->
  exists t', SysPrintString t a limit = Ret t' /\ t_wf t' /\ t_in t' = t_in t /\
    t_out t' = t_out t ++ take (Z.to_nat limit) s.
Proof.
  intros Hwf [Hnul [rest ->]]. apply print_loop_spec; [done| |done].
  split; [lia|]. exists rest. by rewrite drop_0, <- app_assoc.
Qed.
End reading.

(** [SysReadNum] on a line. *)
Lemma SysReadNum_spec {T} `{Terminal T} (t : T) l r :
  t_wf t -> is_line l -> t_in t = l ++ newline :: r ->
  if decide (length l <= 12)%nat then
    exists t' buf v, SysReadNum t = Ret (t', buf, v) /\ t_wf t' /\ t_in t' = r /\ t_out t' = t_out t /\
      ((is_s32 v /\ schar <$> l = decimal v /\ ((length l <= 10)%nat \/ v = INT32_MIN)) \/
       (v = 0 /\ forall n, is_s32 n -> schar <$> l = decimal n ->
          (10 < length l)%nat /\ n <> INT32_MIN))
  else SysReadNum t = Fault.
Proof.
  intros Hwf Hl Hin. pose proof (SysReadNum_line t l r Hwf Hl Hin) as HR.
  case_decide as H12; [|done]. destruct HR as (t' & a & -> & Ha & ? & ? & ?).
  exists t', a. destruct (decide (length l <= 10)%nat) as [H10|H10].
  { destruct (convert_short a l Ha H10) as [[-> Hno]|(n & Hn & E & ->)]; rewrite rbind_Ret.
    - exists 0. do 4 (split; [done|]). right. split; [done|]. intros n Hn E. by destruct (Hno n Hn).
    - exists n. do 4 (split; [done|]). left. auto. }
  unfold convert.
  rewrite (strcmp_eq_holds a lit_min l (byte.of_Z <$> (ch_minus :: digits_2147483648))); [|done|].
  2: { split; [apply (bool_decide_unpack _); by vm_compute|by exists []]. }
  case_bool_decide as E; rewrite !rbind_Ret.
  - exists INT32_MIN. do 4 (split; [done|]). left. split; [unfold is_s32, INT32_MIN; lia|].
    split; [|by right]. rewrite E. by vm_compute.
  - rewrite (strlen_holds a l Ha), rbind_Ret. unfold maxNumLen. rewrite Z.geb_leb, (proj2 (Z.leb_le _ _)) by lia.
    exists 0. do 4 (split; [done|]). right. split; [done|]. intros n Hn En. split; [lia|]. intros ->.
    apply E. apply (list_fmap_eq_inj schar); [apply _|]. rewrite En. by vm_compute.
Qed.

(** ** Claims *)

(** C36: [SysReadNum] on every line.  A line of up to twelve characters followed by
    a newline is consumed, and the result is the [int] of which the line is the
    text, if there is one and the text has at most ten characters or is that of
    the least [int]; otherwise the result is 0.  A line of thirteen characters or
    more leaves [_numberBuffer]. *)
Theorem SysReadNum_exact {T} `{Terminal T} (t : T) l r :
  t_wf t -> is_line l -> t_in t = l ++ newline :: r ->
  if decide (length l <= 12)%nat then
    exists t' buf v, SysReadNum t = Ret (t', buf, v) /\ t_wf t' /\ t_in t' = r /\ t_out t' = t_out t /\
      ((is_s32 v /\ schar <$> l = decimal v /\ ((length l <= 10)%nat \/ v = INT32_MIN)) \/
       (v = 0 /\ forall n, is_s32 n -> schar <$> l = decimal n ->
          (10 < length l)%nat /\ n <> INT32_MIN))
  else SysReadNum t = Fault.
Proof. apply SysReadNum_spec. Qed.

(** Numbers survive printing and reading, except the long negative ones.  What
    [SysPrintNum] displays for an [int] is its decimal text; if that text and a
    newline are typed, [SysReadNum] returns the same number, but for the numbers
    from -2147483647 to -1000000000, whose text has eleven characters, it returns
    0. *)
Theorem print_then_read {T} `{Terminal T} (t u : T) buf n r :
  t_wf t -> t_wf u -> is_s32 n -> Z.of_nat (length buf) = numberBufferSize ->
  t_in u = (byte.of_Z <$> decimal n) ++ newline :: r ->
  (exists t' buf', SysPrintNum t buf n = Ret (t', buf') /\
     t_out t' = t_out t ++ (byte.of_Z <$> decimal n)) /\
  exists u' buf', SysReadNum u =
    Ret (u', buf', if (INT32_MIN <? n) && (n <=? -1000000000) then 0 else n) /\ t_in u' = r.
Proof.
  intros Hwf Hwfu Hn Hbuf Hin. split.
  { destruct (SysPrintNum_spec t buf n Hwf Hn Hbuf) as (t' & buf' & ? & _ & _ & ? & _). by exists t', buf'. }
  assert (Hchars : Forall (fun c => ch_minus <= c <= ch_9) (decimal n)).
  { unfold decimal, ch_minus, ch_9, ch_0. case_if; [by repeat constructor|].
    case_if; [apply Forall_cons; split; [lia|]|];
      (eapply Forall_impl; [apply dec_chars_digits|]; intros c; unfold ch_0, ch_9; simpl; lia). }
  rewrite Forall_forall in Hchars. unfold ch_minus, ch_9 in Hchars.
  assert (Hback : schar <$> (byte.of_Z <$> decimal n) = decimal n).
  { rewrite <- list_fmap_compose. rewrite <- (list_fmap_id (decimal n)) at 2.
    apply list_fmap_ext. intros i c Hc. apply schar_small.
    pose proof (Hchars c ltac:(by eapply list_elem_of_lookup_2)). unfold Datatypes.id. lia. }
  assert (Hnot : forall x, ~ 45 <= x <= 57 -> -128 <= x < 128 -> byte.of_Z x ∉ byte.of_Z <$> decimal n).
  { intros x Hx Hx' (c & Hc & Hin')%list_elem_of_fmap. specialize (Hchars c Hin').
    apply (f_equal schar) in Hc. rewrite !schar_small in Hc by lia. lia. }
  assert (Hline : is_line (byte.of_Z <$> decimal n)).
  { split; [|apply Hnot; unfold ch_newline; lia|apply Hnot; lia].
    apply Forall_fmap, Forall_forall. intros c Hc. specialize (Hchars c Hc). simpl.
    rewrite schar_small by lia. unfold EOF. lia. }
  destruct (decimal_length n Hn) as [H11 H10].
  pose proof (SysReadNum_spec u _ r Hwfu Hline Hin) as HR. rewrite length_fmap, Hback in HR.
  rewrite decide_True in HR by lia. destruct HR as (u' & buf' & v & HR & _ & Hr & _ & Hv).
  exists u', buf'. split; [|done]. rewrite HR. do 2 f_equal.
  destruct (Z.ltb_spec INT32_MIN n), (Z.leb_spec n (-1000000000)); cbn [andb];
    destruct Hv as [(Hv32 & Ev & Hlen)|(-> & Hno)]; try done;
    try (apply decimal_inj in Ev; [|done|done]; subst v); try lia;
    destruct (Hno n Hn eq_refl); unfold is_s32, INT32_MIN in *; lia.
Qed.

(** Strings survive reading and printing.  [SysReadString] reads the asked
    number of characters into a buffer with room for them and a terminator, and
    [SysPrintString] then displays them, up to the limit; into a buffer with no
    room for the terminator it writes past the end. *)
Theorem string_echo {T} `{Terminal T} (t : T) l r buf limit :
  t_wf t -> typable l -> NUL ∉ l -> t_in t = l ++ r ->
  (length l < length buf)%nat ->
  (exists t1 buf1 t2, SysReadString t buf (Z.of_nat (length l)) = Ret (t1, buf1) /\
     holds_str buf1 l /\ length buf1 = length buf /\ t_in t1 = r /\
     SysPrintString t1 buf1 limit = Ret t2 /\ t_in t2 = r /\
     t_out t2 = t_out t ++ take (Z.to_nat limit) l) /\
  SysReadString t (take (length l) buf) (Z.of_nat (length l)) = Fault.
Proof.
  intros Hwf Hty Hnul Hin Hbuf. split.
  - destruct (SysReadString_spec t l r buf Hwf Hty Hin) as (t1 & HR & Hwf1 & Hin1 & Ho1); [lia|].
    assert (Hs : holds_str (l ++ NUL :: drop (S (length l)) buf) l) by (split; [done|eauto]).
    destruct (SysPrintString_spec t1 _ l limit Hwf1 Hs) as (t2 & HP & _ & Hin2 & Ho2).
    eexists t1, _, t2. do 2 (split; [done|]).
    split; [rewrite length_app; simpl; rewrite length_drop; lia|].
    split; [done|]. split; [done|]. split; [congruence|by rewrite Ho2, Ho1].
  - apply (SysReadString_full t l r); try done. rewrite length_take. lia.
Qed.

(** [SysRemove] reports success whatever happens: [Remove] returns -1 or 1, and
    both count as true. *)
Theorem SysRemove_always_zero {H} `{CharDevices H} (k k' : Kernel H) fileName r :
  SysRemove k fileName = Ret (k', r) -> r = 0.
Proof.
  unfold SysRemove. destruct (Remove _ _ _) as [[h r0]| | | |] eqn:E; simpl; try done.
  assert (r0 = -1 \/ r0 = 1) as [-> | ->]; [|by intros [= _ <-]|by intros [= _ <-]].
  revert E. unfold Remove. destruct (strlen _) as [len| | | |]; simpl; try done.
  destruct (len =? 0); [intros [= _ <-]; by left|].
  destruct (checkFileModeRead _ _) as [[]| | | |]; simpl; try done; [intros [= _ <-]; by left|].
  destruct (checkFileModeReadWrite _ _) as [[]| | | |]; simpl; try done; [intros [= _ <-]; by left|].
  destruct (c_str _) as [nm| | | |]; simpl; try done.
  destruct (Unlink _ nm) as [h' []]; intros [= _ <-]; [by right|by left].
Qed.

(** ** Concrete terminals *)

Definition typed (cs : list Z) : list byte := byte.of_Z <$> cs.

Lemma toy_wf l : t_wf (toy_console l).
Proof. exact (timed_console_quiet l []). Qed.

Lemma toy_in l : before_eof l = l -> t_in (toy_console l) = l.
Proof. done. Qed.

(** The line 42 and a newline. *)
Lemma SysReadNum_exact_witness :
  exists t' buf, SysReadNum (toy_console (typed [52; 50; 10])) = Ret (t', buf, 42).
Proof.
  assert (Hl : is_line (typed [52; 50])).
  { split; [repeat constructor; vm_compute; congruence|..];
      (apply (bool_decide_unpack _); vm_compute; exact I). }
  pose proof (SysReadNum_exact (toy_console (typed [52; 50; 10])) (typed [52; 50]) []
    (toy_wf _) Hl (toy_in _ eq_refl)) as HR.
  destruct (decide (Nat.le (length (typed [52; 50])) 12)) as [_|Hno]; [|exfalso; apply Hno; simpl; lia].
  destruct HR as (t' & buf & v & HR & _ & _ & _ & Hv). exists t', buf.
  assert (v = 42) as <-; [|exact HR].
  destruct Hv as [(Hs & E & _)|(_ & Hno)].
  - symmetry. apply decimal_inj; [unfold is_s32; lia|exact Hs|]. rewrite <- E. reflexivity.
  - destruct (Hno 42) as [Hx _]; [unfold is_s32; lia|reflexivity|]. simpl in Hx. lia.
Defined.

(** The number -1000000000 comes back as 0. *)
Lemma print_then_read_witness :
  exists u' buf', SysReadNum (toy_console (typed (decimal (-1000000000)) ++ [newline])) =
    Ret (u', buf', 0).
Proof.
  destruct (print_then_read (toy_console []) (toy_console (typed (decimal (-1000000000)) ++ [newline]))
    (replicate 13 NUL) (-1000000000) [] (toy_wf _) (toy_wf _)) as [_ (u' & buf' & HR & _)].
  - unfold is_s32. lia.
  - reflexivity.
  - exact (toy_in _ eq_refl).
  - exists u', buf'. exact HR.
Defined.

Lemma string_echo_witness :
  exists t1 buf1 t2, SysReadString (toy_console (typed [104; 105])) (replicate 3 NUL) 2 = Ret (t1, buf1) /\
    SysPrintString t1 buf1 2048 = Ret t2 /\ t_out t2 = t_out (toy_console (typed [104; 105])) ++ typed [104; 105].
Proof.
  destruct (string_echo (toy_console (typed [104; 105])) (typed [104; 105]) [] (replicate 3 NUL) 2048
    (toy_wf _)) as [(t1 & buf1 & t2 & HR & _ & _ & _ & HP & _ & Ho) _].
  - repeat constructor; vm_compute; congruence.
  - apply (bool_decide_unpack _). vm_compute. exact I.
  - exact (toy_in _ eq_refl).
  - simpl. lia.
  - exists t1, buf1, t2. split; [exact HR|]. split; [exact HP|exact Ho].
Defined.
