(* ===== verification/Exception.v ===== *)
(** * The exception handler

    Model of userprog/exception.cc: the entry point into the kernel from user
    programs, the copying of strings between user and kernel memory, and one
    handler per system call.  The handler calls [ReadMem] and [WriteMem], which
    raise exceptions of their own and so call it again; [ExceptionHandler] has
    fuel for that recursion.  Text that goes to the host's standard output with
    [printf] and [cerr], and the debug messages, are left out. *)

From S2P Require Import Prelude CString Machine Confined Host Console FileSysStub Syscalls.

(** ** System call codes: userprog/syscall.h *)

Definition SC_Halt : Z := 0.
Definition SC_Create : Z := 4.
Definition SC_Remove : Z := 5.
Definition SC_Open : Z := 6.
Definition SC_Read : Z := 7.
Definition SC_Write : Z := 8.
Definition SC_Seek : Z := 9.
Definition SC_Close : Z := 10.
Definition SC_ThreadJoin : Z := 15.
Definition SC_Add : Z := 42.
Definition SC_RandomNum : Z := 43.
Definition SC_ReadString : Z := 44.
Definition SC_PrintString : Z := 45.
Definition SC_ReadNum : Z := 46.
Definition SC_PrintNum : Z := 47.
Definition SC_ReadChar : Z := 48.
Definition SC_PrintChar : Z := 49.

(** [MAX_STRING] of the handlers *)
Definition MAX_STRING : Z := 2048.

Section exception.
Context {H : Type} `{CharDevices H}.
Abbreviation W := (World (Kernel H)).
Implicit Types (w : W).

(** What an uninitialised [int], fresh memory and [rand] give. *)
Variables (rhs_first : bool) (g_char : nat -> byte) (g_int : Z) (rand : Z).

Definition set_kern w (k : Kernel H) : W := mkWorld (machine w) (status w) k.

(** [kernel->machine->ReadRegister] and [WriteRegister] *)
Definition rreg w (n : Z) : result Z := ReadRegister (machine w) n.
Definition wreg w (n v : Z) : result W :=
  let* m := WriteRegister (machine w) n v in Ret (set_machine w m).

(** [new char[n]]: a negative size throws, which nobody catches. *)
Definition new_chars (n : Z) : result (list byte) :=
  if n <? 0 then AssertFail else Ret (uninit g_char (Z.to_nat n)).

Section handlers.
(** The handler that exceptions inside the kernel's own accesses go to. *)
Variable handler : ExceptionType -> W -> result W.

(** The loop of [user2System], [n] being [limit - i]: the result of [ReadMem] is
    not looked at, [oneChar] keeps its value when there is none. *)
Fixpoint u2s_loop (n : nat) (i : Z) w (virtAddr oneChar : Z) (buffer : list byte)
    : result (W * list byte) :=
  match n with
  | O => Ret (w, buffer)
  | S n =>
      let* (w, v) := ReadMem handler w (s32 (virtAddr + i)) 1 in
      let oneChar := default oneChar v in
      let* buffer := zset buffer i (byte.of_Z oneChar) in
      if oneChar =? 0 then Ret (w, buffer) else u2s_loop n (i + 1) w virtAddr oneChar buffer
  end.

Definition user2System w (virtAddr limit : Z) : result (W * list byte) :=
  let limit := if limit =? -1 then limit + 1 else limit in
  let* buffer := new_chars (s32 (limit + 1)) in
  let buffer := replicate (length buffer) NUL in
  u2s_loop (Z.to_nat limit) 0 w virtAddr g_int buffer.

(** The [do ... while] loop of [system2User], [n] being [limit - i]. *)
Fixpoint s2u_loop (n : nat) (i : Z) w (virtAddr : Z) (buffer : list byte) : result (W * Z) :=
  match n with
  | O => Ret (w, i)
  | S n =>
      let* b := zget buffer i in
      let oneChar := schar b in
      let* (w, _) := WriteMem handler w (s32 (virtAddr + i)) 1 oneChar in
      if oneChar =? 0 then Ret (w, i + 1) else s2u_loop n (i + 1) w virtAddr buffer
  end.

Definition system2User w (buffer : list byte) (virtAddr limit : Z) : result (W * Z) :=
  if limit <? 0 then Ret (w, -1) else
  if limit =? 0 then Ret (w, limit) else
  s2u_loop (Z.to_nat limit) 0 w virtAddr buffer.

Definition increasePC w : result W :=
  let* get_arg := rreg w PCReg in
  let* w := wreg w PrevPCReg get_arg in
  let* get_arg := rreg w NextPCReg in
  let* w := wreg w PCReg get_arg in
  wreg w NextPCReg (s32 (get_arg + 4)).

(** [SysHalt]: [Interrupt::Halt] does not return. *)
Definition solve_SC_Halt w : result W := Halted.

Definition solve_SC_ThreadJoin w : result W := increasePC w.

Definition solve_SC_Add w : result W :=
  let* op1 := rreg w (1 + 3) in
  let* op2 := rreg w (2 + 3) in
  let* w := wreg w 2 (SysAdd op1 op2) in
  increasePC w.

Definition solve_SC_RandomNum w : result W :=
  let* w := wreg w 2 (SysRandomNum rand) in
  increasePC w.

(** [malloc(length + 1)] with a negative size, converted to [size_t], fails. *)
Definition solve_SC_ReadString w : result W :=
  let* virtAddr := rreg w (1 + 3) in
  let* len := rreg w (2 + 3) in
  let size := s32 (len + 1) in
  if size <? 0 then Ret w else
  let buffer := uninit g_char (Z.to_nat size) in
  let* (c, buffer) := SysReadString (con (kern w)) buffer len in
  let w := set_kern w (set_con (kern w) c) in
  let* (w, _) := system2User w buffer virtAddr size in
  increasePC w.

Definition solve_SC_PrintString w : result W :=
  let* virtAddr := rreg w (1 + 3) in
  let* (w, buffer) := user2System w virtAddr MAX_STRING in
  let* c := SysPrintString (con (kern w)) buffer MAX_STRING in
  increasePC (set_kern w (set_con (kern w) c)).

Definition solve_SC_ReadNum w : result W :=
  let* (c, buf, v) := SysReadNum (con (kern w)) in
  let w := set_kern w (mkKernel c (fileSystem (kern w)) buf) in
  let* w := wreg w 2 v in
  increasePC w.

Definition solve_SC_PrintNum w : result W :=
  let* character := rreg w 4 in
  let* (c, buf) := SysPrintNum (con (kern w)) (numberBuffer (kern w)) character in
  increasePC (set_kern w (mkKernel c (fileSystem (kern w)) buf)).

Definition solve_SC_ReadChar w : result W :=
  let* (c, v) := SysReadChar (con (kern w)) in
  let* w := wreg (set_kern w (set_con (kern w) c)) 2 v in
  increasePC w.

(** [(char)] of the register *)
Definition solve_SC_PrintChar w : result W :=
  let* v := rreg w 4 in
  let* c := SysPrintChar (con (kern w)) (schar (byte.of_Z v)) in
  increasePC (set_kern w (set_con (kern w) c)).

Definition solve_SC_Create w : result W :=
  let* virtAddr := rreg w 4 in
  let* (w, fileName) := user2System w virtAddr MAX_STRING in
  let* (k, r) := SysCreate (kern w) fileName in
  let* w := wreg (set_kern w k) 2 r in
  increasePC w.

Definition solve_SC_Open w : result W :=
  let* virtAddr := rreg w 4 in
  let* (w, fileName) := user2System w virtAddr MAX_STRING in
  let* type := rreg w 5 in
  let* (k, r) := SysOpen rhs_first g_char g_int (kern w) fileName type in
  let* w := wreg (set_kern w k) 2 r in
  increasePC w.

Definition solve_SC_Close w : result W :=
  let* fileID := rreg w 4 in
  let* (k, r) := SysClose (kern w) fileID in
  let* w := wreg (set_kern w k) 2 r in
  increasePC w.

Definition solve_SC_Write w : result W :=
  let* virtAddress := rreg w 4 in
  let* charCount := rreg w 5 in
  let* fid := rreg w 6 in
  let* (w, buffer) := user2System w virtAddress charCount in
  let* (k, r) := SysWrite (kern w) buffer charCount fid in
  let* w := wreg (set_kern w k) 2 r in
  increasePC w.

Definition solve_SC_Read w : result W :=
  let* virtAddress := rreg w 4 in
  let* charCount := rreg w 5 in
  let* fid := rreg w 6 in
  let* buffer := new_chars charCount in
  let* (k, r, buffer) := SysRead (kern w) buffer charCount fid in
  let* (w, _) := system2User (set_kern w k) buffer virtAddress charCount in
  let* w := wreg w 2 r in
  increasePC w.

Definition solve_SC_Seek w : result W :=
  let* pos := rreg w 4 in
  let* fid := rreg w 5 in
  let* (k, r) := SysSeek (kern w) pos fid in
  let* w := wreg (set_kern w k) 2 r in
  increasePC w.

Definition solve_SC_Remove w : result W :=
  let* virtAddress := rreg w 4 in
  let* (w, fileName) := user2System w virtAddress MAX_STRING in
  let* (k, r) := SysRemove (kern w) fileName in
  let* w := wreg (set_kern w k) 2 r in
  increasePC w.

(** The [switch (type)] of [SyscallException]. *)
Definition syscall w (type : Z) : result W :=
  if type =? SC_Halt then solve_SC_Halt w
  else if type =? SC_ThreadJoin then solve_SC_ThreadJoin w
  else if type =? SC_Add then solve_SC_Add w
  else if type =? SC_RandomNum then solve_SC_RandomNum w
  else if type =? SC_ReadString then solve_SC_ReadString w
  else if type =? SC_PrintString then solve_SC_PrintString w
  else if type =? SC_ReadNum then solve_SC_ReadNum w
  else if type =? SC_PrintNum then solve_SC_PrintNum w
  else if type =? SC_ReadChar then solve_SC_ReadChar w
  else if type =? SC_PrintChar then solve_SC_PrintChar w
  else if type =? SC_Open then solve_SC_Open w
  else if type =? SC_Write then solve_SC_Write w
  else if type =? SC_Read then solve_SC_Read w
  else if type =? SC_Seek then solve_SC_Seek w
  else if type =? SC_Remove then solve_SC_Remove w
  else if type =? SC_Create then solve_SC_Create w
  else if type =? SC_Close then solve_SC_Close w
  else AssertFail.
End handlers.

(** [ExceptionHandler]: a case that breaks out of the [switch] reaches the
    [ASSERTNOTREACHED] at the end. *)
Fixpoint ExceptionHandler (fuel : nat) (which : ExceptionType) w : result W :=
  match fuel with
  | O => NoFuel
  | S fuel =>
      let* type := rreg w 2 in
      match which with
      | NoException => AssertFail
      | SyscallException => syscall (ExceptionHandler fuel) w type
      | _ => Halted
      end
  end.
End exception.

(** ** Exceptions inside the kernel

    The kernel's own accesses to user memory can raise exceptions, but never a
    system call, and for any other exception the handler does not return. *)

Section nesting.
Context {H : Type} `{CharDevices H}.
Abbreviation W := (World (Kernel H)).
Implicit Types (w : W) (h : ExceptionType -> W -> result W).

Definition agree h1 h2 : Prop :=
  forall exn w, exn <> SyscallException -> h1 exn w = h2 exn w.

Definition stops h : Prop :=
  forall exn w w', exn <> SyscallException -> h exn w <> Ret w'.

Lemma Translate_exn m va size writing m' exn :
  Translate m va size writing = Ret (m', inl exn) -> exn <> SyscallException.
Proof.
  unfold Translate. intros HT. case_if_in HT; [by injection HT as _ <-|].
  do 2 inv_bind HT. inv_bind HT. case_match; simplify_eq/=.
  - revert E2. unfold find_entry. clear. intros E.
    destruct (tlb m'); [|case_if_in E; [by simplify_eq|]]; inv_bind E; case_match; by simplify_eq.
  - inv_bind HT. repeat (case_if_in HT; [by simplify_eq|]). by do 2 inv_bind HT.
Qed.

Lemma RaiseException_agree h1 h2 w exn va : agree h1 h2 -> exn <> SyscallException ->
  RaiseException h1 w exn va = RaiseException h2 w exn va.
Proof.
  intros Ha Hne. unfold RaiseException. destruct (zset _ _ _); simpl; [|done..].
  destruct (DelayedLoad _ _ _); simpl; [|done..]. by rewrite Ha.
Qed.

Lemma ReadMem_agree h1 h2 w va size : agree h1 h2 -> ReadMem h1 w va size = ReadMem h2 w va size.
Proof.
  intros Ha. unfold ReadMem. destruct (Translate _ _ _ _) as [[m [exn|pa]]| | | |] eqn:E; try done.
  rewrite !rbind_Ret. by rewrite (RaiseException_agree h1 h2) by (eauto using Translate_exn).
Qed.

Lemma WriteMem_agree h1 h2 w va size v : agree h1 h2 ->
  WriteMem h1 w va size v = WriteMem h2 w va size v.
Proof.
  intros Ha. unfold WriteMem. destruct (Translate _ _ _ _) as [[m [exn|pa]]| | | |] eqn:E; try done.
  rewrite !rbind_Ret. by rewrite (RaiseException_agree h1 h2) by (eauto using Translate_exn).
Qed.

Lemma u2s_loop_agree h1 h2 va n : agree h1 h2 -> forall i w c buffer,
  u2s_loop h1 n i w va c buffer = u2s_loop h2 n i w va c buffer.
Proof.
  intros Ha. induction n as [|n IH]; intros i w c buffer; simpl; [done|].
  rewrite (ReadMem_agree h1 h2) by done. destruct (ReadMem _ _ _ _) as [[w' v]| | | |]; simpl; try done.
  destruct (zset _ _ _); simpl; [|done..]. by case_if.
Qed.

Lemma s2u_loop_agree h1 h2 va n buffer : agree h1 h2 -> forall i w,
  s2u_loop h1 n i w va buffer = s2u_loop h2 n i w va buffer.
Proof.
  intros Ha. induction n as [|n IH]; intros i w; simpl; [done|].
  destruct (zget _ _); simpl; [|done..].
  rewrite (WriteMem_agree h1 h2) by done. destruct (WriteMem _ _ _ _ _) as [[w' v]| | | |]; simpl; try done.
  by case_if.
Qed.

Lemma user2System_agree g_char g_int h1 h2 w va limit : agree h1 h2 ->
  user2System g_char g_int h1 w va limit = user2System g_char g_int h2 w va limit.
Proof.
  intros Ha. unfold user2System. destruct (new_chars _ _); simpl; [|done..].
  by apply u2s_loop_agree.
Qed.

Lemma system2User_agree h1 h2 w buffer va limit : agree h1 h2 ->
  system2User h1 w buffer va limit = system2User h2 w buffer va limit.
Proof. intros Ha. unfold system2User. repeat case_if; try done. by apply s2u_loop_agree. Qed.

Lemma rbind_cong {A B} (c c' : result A) (k k' : A -> result B) :
  c = c' -> (forall a, k a = k' a) -> rbind c k = rbind c' k'.
Proof. intros ->. destruct c'; simpl; auto. Qed.

Section calls.
Variables (rhs_first : bool) (g_char : nat -> byte) (g_int : Z) (rand : Z).

(** One step of a handler, its continuation, or a copy from or to user memory. *)
Ltac agree_step Ha :=
  match goal with
  | |- ?x = ?y => constr_eq x y; reflexivity
  | |- rbind (user2System _ _ _ _ _ _) _ = rbind (user2System _ _ _ _ _ _) _ =>
      apply rbind_cong; [by apply user2System_agree|intros [? ?]]
  | |- rbind (system2User _ _ _ _ _) _ = rbind (system2User _ _ _ _ _) _ =>
      apply rbind_cong; [by apply system2User_agree|intros [? ?]]
  | |- rbind ?c _ = rbind ?c' _ => constr_eq c c'; apply rbind_cong; [reflexivity|intros ?]
  | |- context [match ?p with (_, _) => _ end] => destruct p
  | |- (if ?b then _ else _) = _ => destruct b
  end.

Lemma syscall_agree h1 h2 w type : agree h1 h2 ->
  syscall rhs_first g_char g_int rand h1 w type = syscall rhs_first g_char g_int rand h2 w type.
Proof.
  intros Ha. unfold syscall.
  repeat match goal with
  | |- ?x = ?y => constr_eq x y; reflexivity
  | |- (if ?b then ?x else _) = (if ?b then ?y else _) => destruct b
  end.
  - unfold solve_SC_ReadString. repeat agree_step Ha.
  - unfold solve_SC_PrintString. repeat agree_step Ha.
  - unfold solve_SC_Open. repeat agree_step Ha.
  - unfold solve_SC_Write. repeat agree_step Ha.
  - unfold solve_SC_Read. repeat agree_step Ha.
  - unfold solve_SC_Remove. repeat agree_step Ha.
  - unfold solve_SC_Create. repeat agree_step Ha.
Qed.

Abbreviation handler := (ExceptionHandler rhs_first g_char g_int rand).

Lemma handler_other n exn w : exn <> SyscallException ->
  handler (S n) exn w = let* _ := rreg w 2 in if decide (exn = NoException) then AssertFail else Halted.
Proof. intros. simpl. destruct (rreg w 2); [|done..]. by destruct exn. Qed.

Lemma handler_syscall n w : handler (S n) SyscallException w =
  let* type := rreg w 2 in syscall rhs_first g_char g_int rand (handler n) w type.
Proof. reflexivity. Qed.

Lemma handler_agree n n' : agree (handler (S n)) (handler (S n')).
Proof. intros exn w Hne. by rewrite !handler_other. Qed.

Lemma handler_stops n : stops (handler n).
Proof.
  intros exn w w' Hne. destruct n; [done|]. rewrite handler_other by done.
  destruct (rreg w 2); simpl; [|done..]. by case_decide.
Qed.
End calls.
End nesting.

(** ** What a returning handler leaves alone *)

Section frames.
Context {H : Type} `{CharDevices H}.
Abbreviation W := (World (Kernel H)).
Implicit Types (w : W) (h : ExceptionType -> W -> result W).

(** Status, registers and page mapping of the user program. *)
Record same_user w w' : Prop := {
  su_status : status w' = status w;
  su_map : same_mapping (set_mainMemory (machine w) (mainMemory (machine w'))) (machine w');
  su_conf : wf_mmu (machine w) -> confined (machine w) (machine w')
}.

Lemma su_wf w w' : same_user w w' -> wf_mmu (machine w) -> wf_mmu (machine w').
Proof. intros Hs Hw. apply (su_conf _ _ Hs Hw). Qed.

#[global] Instance same_user_refl : Reflexive same_user.
Proof. intros w. split; [done| |apply confined_refl]. by destruct w as [[]]. Qed.

#[global] Instance same_user_trans : Transitive same_user.
Proof.
  intros w1 w2 w3 [? Hm1 Hc1] [? Hm2 Hc2]. split; [congruence| |].
  - etrans; [|exact Hm2]. destruct Hm1 as [? ? ? ? ?]. by split.
  - intros Hw. pose proof (Hc1 Hw) as Hc. eapply confined_trans; [exact Hc|apply Hc2, Hc].
Qed.

Lemma same_user_kern w k : same_user w (set_kern w k).
Proof. split; [done| |apply confined_refl]. by destruct w as [[]]. Qed.

Lemma same_user_regs w w' : same_user w w' -> registers (machine w') = registers (machine w).
Proof. intros [_ [? _ _ _ _] _]. done. Qed.

Lemma same_mapping_own m m' : same_mapping m m' ->
  same_mapping (set_mainMemory m (mainMemory m')) m'.
Proof. intros [? ? ? ? ?]. by split. Qed.

Lemma RaiseException_stops h w w' exn va : stops h -> exn <> SyscallException ->
  RaiseException h w exn va <> Ret w'.
Proof.
  intros Hs Hne. unfold RaiseException. destruct (zset _ _ _); simpl; [|done..].
  destruct (DelayedLoad _ _ _); simpl; [|done..].
  destruct (h exn _) eqn:E; simpl; try done. by apply Hs in E.
Qed.

Lemma ReadMem_frame h w va w' v : stops h -> wf_mmu (machine w) ->
  ReadMem h w va 1 = Ret (w', v) -> same_user w w'.
Proof.
  intros Hs Hwf HR. destruct (ReadMem_spec h w va 1 Hwf) as (m' & Hwf' & Hsm & Hm); [by left|].
  destruct (mmu_access _ _ _ _) as [exn|[[p e] pa]] eqn:Ha.
  - apply mmu_access_exn in Ha. rewrite Hm in HR.
    destruct (RaiseException _ _ _ _) eqn:E; [|done..]. by apply RaiseException_stops in E.
  - destruct Hm as (_ & _ & v' & _ & _ & Hm). rewrite Hm in HR. injection HR as <- _.
    split; [done|by apply same_mapping_own|by intros _; apply same_mapping_confined].
Qed.

Lemma WriteMem_frame h w va v w' b : stops h -> wf_mmu (machine w) ->
  WriteMem h w va 1 v = Ret (w', b) -> same_user w w'.
Proof.
  intros Hs Hwf HR. pose proof (WriteMem_spec h w va 1 v Hwf ltac:(by left)) as Hm.
  destruct (mmu_access _ _ _ _) as [exn|[[p e] pa]] eqn:Ha.
  - apply mmu_access_exn in Ha. rewrite Hm in HR.
    destruct (RaiseException _ _ _ _) eqn:E; [|done..]. by apply RaiseException_stops in E.
  - destruct Hm as (m' & mem' & Hwf' & Hsm & Hm & _). rewrite Hm in HR. injection HR as <- _.
    split; [done| |]; [simpl; destruct Hsm as [? ? ? ? ?]; by split|].
    intros _. by apply (WriteMem_confined h w va 1 v); [|left|].
Qed.

Lemma u2s_loop_frame h va n : stops h -> forall i w c buffer w' b, wf_mmu (machine w) ->
  u2s_loop h n i w va c buffer = Ret (w', b) -> same_user w w'.
Proof.
  intros Hs. induction n as [|n IH]; intros i w c buffer w' b Hwf HL; simpl in HL.
  { by injection HL as <- _. }
  inv_bind HL. destruct a as [w1 v]. apply ReadMem_frame in E as Hsu; [|done..].
  inv_bind HL. case_if_in HL; [by injection HL as <- _|].
  etrans; [exact Hsu|]. eapply IH; [|done]. by apply (su_wf _ _ Hsu).
Qed.

Lemma s2u_loop_frame h va n buffer : stops h -> forall i w w' b, wf_mmu (machine w) ->
  s2u_loop h n i w va buffer = Ret (w', b) -> same_user w w'.
Proof.
  intros Hs. induction n as [|n IH]; intros i w w' b Hwf HL; simpl in HL.
  { by injection HL as <- _. }
  do 2 inv_bind HL. destruct a0 as [w1 v]. apply WriteMem_frame in E0 as Hsu; [|done..].
  case_if_in HL; [by injection HL as <- _|].
  etrans; [exact Hsu|]. eapply IH; [|done]. by apply (su_wf _ _ Hsu).
Qed.

Lemma user2System_frame g_char g_int h w va limit w' b : stops h -> wf_mmu (machine w) ->
  user2System g_char g_int h w va limit = Ret (w', b) -> same_user w w'.
Proof. unfold user2System. intros ? ? HU. inv_bind HU. by eapply u2s_loop_frame. Qed.

Lemma system2User_frame h w buffer va limit w' n : stops h -> wf_mmu (machine w) ->
  system2User h w buffer va limit = Ret (w', n) -> same_user w w'.
Proof.
  unfold system2User. intros ? ? HU. repeat (case_if_in HU; [by injection HU as <- _|]).
  by eapply s2u_loop_frame.
Qed.

(** The registers after a system call: the result in register 2, the program
    counters advanced over the instruction. *)
Record returned w w' : Prop := {
  ret_status : status w' = status w;
  ret_conf : confined (machine w) (machine w');
  ret_map : forall va size writing exn,
    mmu_access (machine w) va size writing = inl exn <-> mmu_access (machine w') va size writing = inl exn;
  ret_prev : registers (machine w') !! Z.to_nat PrevPCReg = registers (machine w) !! Z.to_nat PCReg;
  ret_pc : registers (machine w') !! Z.to_nat PCReg = registers (machine w) !! Z.to_nat NextPCReg;
  ret_next : registers (machine w') !! Z.to_nat NextPCReg =
    (fun pc => s32 (pc + 4)) <$> registers (machine w) !! Z.to_nat NextPCReg;
  ret_other : forall r : nat, Z.of_nat r ∉ [2; PCReg; NextPCReg; PrevPCReg] ->
    registers (machine w') !! r = registers (machine w) !! r
}.

Lemma rreg_Ret w n v : rreg w n = Ret v -> registers (machine w) !! Z.to_nat n = Some v.
Proof. unfold rreg, ReadRegister. intros HR. inv_bind HR. by apply zget_Ret in HR as [_ ?]. Qed.

Lemma wreg_Ret w n v w' : wreg w n v = Ret w' ->
  w' = set_machine w (set_registers (machine w) (<[Z.to_nat n := v]> (registers (machine w)))).
Proof.
  unfold wreg, WriteRegister. intros HW. inv_bind HW. injection HW as <-. f_equal.
  inv_bind E. inv_bind E. injection E as <-. by apply zset_Ret in E1 as [_ ->].
Qed.

(** [increasePC] on the registers. *)
Definition advanced (r : list Z) : list Z :=
  <[35%nat := s32 (default 0 (r !! 35%nat) + 4)]>
    (<[34%nat := default 0 (r !! 35%nat)]> (<[36%nat := default 0 (r !! 34%nat)]> r)).

Lemma increasePC_Ret w w' : increasePC w = Ret w' ->
  w' = set_machine w (set_registers (machine w) (advanced (registers (machine w)))).
Proof.
  unfold increasePC, advanced. intros HI.
  inv_bind HI. apply rreg_Ret in E. inv_bind HI. apply wreg_Ret in E0 as ->.
  inv_bind HI. apply rreg_Ret in E0. simpl in E0. rewrite list_lookup_insert_ne in E0 by done.
  inv_bind HI. apply wreg_Ret in E1 as ->. apply wreg_Ret in HI as ->. simpl in *.
  change (Z.to_nat PCReg) with 34%nat in *. change (Z.to_nat NextPCReg) with 35%nat in *.
  by rewrite E, E0.
Qed.

Lemma increasePC_spec w : length (registers (machine w)) = 40%nat ->
  increasePC w = Ret (set_machine w (set_registers (machine w) (advanced (registers (machine w))))).
Proof.
  intros Hlen. assert (exists w', increasePC w = Ret w') as [w' Hw].
  2: { rewrite Hw. f_equal. by apply increasePC_Ret. }
  unfold increasePC, rreg, wreg, ReadRegister, WriteRegister. simpl.
  destruct (zget_spec (registers (machine w)) PCReg) as (v & -> & _); [unfold PCReg; lia|].
  rewrite rbind_Ret, zset_in by (unfold PrevPCReg; lia). simpl.
  destruct (zget_spec (<[Z.to_nat PrevPCReg:=v]> (registers (machine w))) NextPCReg) as (v' & -> & _);
    [rewrite length_insert; unfold NextPCReg; lia|]. simpl.
  rewrite zset_in by (rewrite length_insert; unfold PCReg; lia). simpl.
  rewrite zset_in by (rewrite !length_insert; unfold NextPCReg; lia). simpl. by eexists.
Qed.

Lemma advanced_returned w w1 v : wf_mmu (machine w) -> length (registers (machine w)) = 40%nat ->
  same_user w w1 ->
  (v = registers (machine w1) \/ exists x, v = <[2%nat := x]> (registers (machine w1))) ->
  returned w (set_machine w1 (set_registers (machine w1) (advanced v))).
Proof.
  intros Hwf Hlen [Hst Hm Hcf] Hv. rewrite (sm_regs _ _ Hm) in Hv. simpl in Hv.
  assert (Hv' : length v = 40%nat /\ forall r, r <> 2%nat -> v !! r = registers (machine w) !! r).
  { destruct Hv as [->|[x ->]]; [done|]. rewrite length_insert. split; [done|].
    intros r Hr. by rewrite list_lookup_insert_ne. }
  destruct Hv' as [Hvl Hvr].
  destruct (lookup_lt_is_Some_2 (registers (machine w)) 34) as [pc Hpc]; [lia|].
  destruct (lookup_lt_is_Some_2 (registers (machine w)) 35) as [npc Hnpc]; [lia|].
  unfold advanced. split; simpl; change (Z.to_nat PCReg) with 34%nat;
    change (Z.to_nat NextPCReg) with 35%nat; change (Z.to_nat PrevPCReg) with 36%nat;
    rewrite ?(Hvr 34%nat), ?(Hvr 35%nat), ?Hpc, ?Hnpc by done.
  - done.
  - by apply confined_registers, Hcf.
  - intros va size wr exn. pose proof (mmu_access_same _ _ va size wr Hm) as HA.
    rewrite mmu_access_mem in HA. change (mmu_access (set_registers ?m _)) with (mmu_access m).
    destruct (mmu_access (machine w) _ _ _) as [?|[[??]?]], (mmu_access (machine w1) _ _ _) as [?|[[??]?]];
      naive_solver.
  - do 2 (rewrite list_lookup_insert_ne by done). rewrite list_lookup_insert_eq by lia. done.
  - rewrite list_lookup_insert_ne by done. rewrite list_lookup_insert_eq; [done|rewrite length_insert; lia].
  - rewrite list_lookup_insert_eq; [done|rewrite !length_insert; lia].
  - intros r Hr. rewrite !not_elem_of_cons in Hr. unfold PCReg, NextPCReg, PrevPCReg in Hr.
    do 3 (rewrite list_lookup_insert_ne by lia). apply Hvr. lia.
Qed.

Lemma finish w w1 w' : wf_mmu (machine w) -> length (registers (machine w)) = 40%nat ->
  same_user w w1 -> increasePC w1 = Ret w' -> returned w w'.
Proof. intros ? ? ? ->%increasePC_Ret. apply advanced_returned; auto. Qed.

Lemma finish_result w w1 v w' : wf_mmu (machine w) -> length (registers (machine w)) = 40%nat ->
  same_user w w1 -> (let* w2 := wreg w1 2 v in increasePC w2) = Ret w' -> returned w w'.
Proof.
  intros ? ? ? HR. inv_bind HR. apply wreg_Ret in E as ->. apply increasePC_Ret in HR as ->.
  simpl. apply (advanced_returned w w1); eauto.
Qed.

Section calls.
Variables (rhs_first : bool) (g_char : nat -> byte) (g_int : Z) (rand : Z).

(** Peel the first step of a handler that returned, noting what the copies
    from and to user memory leave alone. *)
Ltac peel HS :=
  let x := fresh "x" in let E := fresh "E" in
  apply rbind_eq_Ret in HS as (x & E & HS); try destruct x as [x ?];
  first [apply user2System_frame in E; [|done|by auto]
        |apply system2User_frame in E; [|done|by auto]|idtac].

(** The end of a handler. *)
Ltac finish_call HS :=
  left;
  first [eapply finish; [done|done| |exact HS]|eapply finish_result; [done|done| |exact HS]];
  eauto using same_user_kern, same_user_trans, same_user_refl.

Lemma syscall_returned h w type w' : stops h -> wf_mmu (machine w) ->
  length (registers (machine w)) = 40%nat ->
  syscall rhs_first g_char g_int rand h w type = Ret w' ->
  returned w w' \/
  (type = SC_ReadString /\ w' = w /\
   exists len, registers (machine w) !! 5%nat = Some len /\ s32 (len + 1) < 0).
Proof.
  intros Hst Hwf Hlen. unfold syscall.
  repeat (case_if; [intros HS|]); last done.
  - done.
  - finish_call HS.
  - do 2 peel HS. finish_call HS.
  - finish_call HS.
  - do 2 peel HS. cbv zeta in HS. case_if_in HS.
    { right. injection HS as <-. to_prop. split; [done|]. split; [done|].
      exists x0. split; [by apply (rreg_Ret w 5)|done]. }
    do 2 peel HS. finish_call HS.
  - do 3 peel HS. finish_call HS.
  - peel HS. destruct x. finish_call HS.
  - do 2 peel HS. finish_call HS.
  - peel HS. finish_call HS.
  - do 2 peel HS. finish_call HS.
  - do 4 peel HS. finish_call HS.
  - do 5 peel HS. finish_call HS.
  - do 4 peel HS. peel HS. destruct x3. peel HS. finish_call HS.
  - do 3 peel HS. finish_call HS.
  - do 3 peel HS. finish_call HS.
  - do 3 peel HS. finish_call HS.
  - do 2 peel HS. finish_call HS.
Qed.
End calls.
End frames.

(** ** Strings in user memory *)

(** The physical address at which the user program may write a byte. *)
Definition phys (m : Machine) (va : Z) : option Z :=
  match mmu_access m va 1 true with inr (_, _, pa) => Some pa | inl _ => None end.

(** The user program reads [b] at [va]. *)
Definition reads (m : Machine) (va : Z) (b : byte) : Prop :=
  exists p e pa, mmu_access m va 1 false = inr (p, e, pa) /\ mainMemory m !! Z.to_nat pa = Some b.

(** The user program reads the characters [l] from [va] on. *)
Definition user_chars (m : Machine) (va : Z) (l : list byte) : Prop :=
  forall (i : nat) b, l !! i = Some b -> reads m (s32 (va + Z.of_nat i)) b.

(** The [n] bytes from [va] on are writable, at distinct places. *)
Record writable (m : Machine) (va : Z) (n : nat) : Prop := {
  wr_phys : forall i : nat, (i < n)%nat -> is_Some (phys m (s32 (va + Z.of_nat i)));
  wr_inj : forall i j : nat, (i < n)%nat -> (j < n)%nat ->
    phys m (s32 (va + Z.of_nat i)) = phys m (s32 (va + Z.of_nat j)) -> i = j
}.

Lemma reads_same m m' va b : same_mapping m m' -> reads m va b -> reads m' va b.
Proof.
  intros Hsm (p & e & pa & Ha & Hb). pose proof (mmu_access_same _ _ va 1 false Hsm) as HA.
  rewrite Ha in HA. destruct (mmu_access m' _ _ _) as [|[[p' e'] pa']] eqn:Ha'; [done|].
  destruct HA as (_ & _ & <-). exists p', e', pa. by rewrite (sm_mem _ _ Hsm).
Qed.

Lemma phys_same m m' va : same_mapping (set_mainMemory m (mainMemory m')) m' -> phys m' va = phys m va.
Proof.
  intros Hsm. pose proof (mmu_access_same _ _ va 1 true Hsm) as HA. rewrite mmu_access_mem in HA.
  unfold phys. destruct (mmu_access m _ _ _) as [|[[??]?]], (mmu_access m' _ _ _) as [|[[??]?]];
    naive_solver.
Qed.

Lemma phys_range m va pa : phys m va = Some pa -> 0 <= pa.
Proof.
  unfold phys, mmu_access. case_decide; [done|]. destruct (mmu_lookup _ _) as [|[p e]]; [done|].
  case_if; [done|]. case_decide; [done|]. intros [= <-].
  pose proof (u32_range (physicalPage e)). unfold frame_of, is_u32, PageSize in *.
  pose proof (Z.mod_pos_bound va 128 ltac:(lia)). lia.
Qed.

Lemma phys_reads m va pa b : phys m va = Some pa -> mainMemory m !! Z.to_nat pa = Some b -> reads m va b.
Proof.
  unfold phys. destruct (mmu_access _ _ _ _) as [|[[p e] pa']] eqn:Ha; [done|].
  intros [= <-] Hb. apply mmu_access_read in Ha. by exists p, e, pa'.
Qed.

Lemma user_chars_tail m va c l : user_chars m va (c :: l) -> user_chars m (va + 1) l.
Proof.
  intros Hu i b Hb. replace (va + 1 + Z.of_nat i) with (va + Z.of_nat (S i)) by lia. by apply Hu.
Qed.

Lemma writable_tail m va n : writable m va (S n) -> writable m (va + 1) n.
Proof.
  intros [Hp Hi]. split.
  - intros i Hin. replace (va + 1 + Z.of_nat i) with (va + Z.of_nat (S i)) by lia. apply Hp. lia.
  - intros i j Hin Hjn. replace (va + 1 + Z.of_nat i) with (va + Z.of_nat (S i)) by lia.
    replace (va + 1 + Z.of_nat j) with (va + Z.of_nat (S j)) by lia. intros E.
    apply Hi in E; lia.
Qed.

Lemma schar_zero b : (schar b =? 0) = bool_decide (b = NUL).
Proof.
  case_bool_decide as Hb; [by subst|]. apply Z.eqb_neq. intros Hz. apply Hb.
  by rewrite <- (of_schar b), Hz.
Qed.

Section strings.
Context {H : Type} `{CharDevices H}.
Abbreviation K := (Kernel H).
Implicit Types (w : World K) (h : ExceptionType -> World K -> result (World K)).

Lemma ReadMem_reads h w va b : wf_mmu (machine w) -> reads (machine w) va b ->
  exists m', ReadMem h w va 1 = Ret (set_machine w m', Some (schar b)) /\
    wf_mmu m' /\ same_mapping (machine w) m'.
Proof.
  intros Hwf (p & e & pa & Ha & Hb).
  destruct (ReadMem_spec h w va 1 Hwf) as (m' & Hwf' & Hsm & HR); [by left|].
  rewrite Ha in HR. destruct HR as (? & _ & v & _ & Hv & HR). exists m'. split; [|done].
  rewrite HR. do 3 f_equal. unfold load_bytes in Hv. simpl in Hv.
  rewrite (zget_lookup _ _ b) in Hv by done. by injection Hv.
Qed.

Lemma WriteMem_phys h w va pa b : wf_mmu (machine w) -> phys (machine w) va = Some pa ->
  exists m', WriteMem h w va 1 (schar b) = Ret (set_machine w m', true) /\ wf_mmu m' /\
    same_mapping (set_mainMemory (machine w) (mainMemory m')) m' /\
    mainMemory m' = <[Z.to_nat pa := b]> (mainMemory (machine w)) /\
    (Z.to_nat pa < length (mainMemory (machine w)))%nat.
Proof.
  intros Hwf Hp. pose proof (phys_range _ _ _ Hp). unfold phys in Hp.
  pose proof (WriteMem_spec h w va 1 (schar b) Hwf ltac:(by left)) as HW.
  destruct (mmu_access _ _ _ _) as [|[[p e] pa']]; [done|]. injection Hp as ->.
  destruct HW as (m' & mem' & Hwf' & Hsm & HW & Hst & ? & ? & _ & _).
  exists (set_mainMemory m' mem'). split; [done|]. split; [done|]. split.
  { destruct Hsm as [? ? ? ? ?]. by split. }
  pose proof (wf_mem _ Hwf) as Hl. simpl. split; [|lia].
  unfold store_bytes in Hst. simpl in Hst. rewrite zset_in in Hst by lia. injection Hst as <-.
  f_equal. change 255 with (Z.ones 8). rewrite Z.land_ones by lia.
  rewrite <- (of_schar b) at 2. apply byte.unsigned_inj. rewrite !byte.unsigned_of_Z.
  unfold byte.wrap. by rewrite Z.mod_mod.
Qed.

(** [user2System] copies the string. *)
Lemma u2s_loop_spec h va s : forall n o w c pre rest, wf_mmu (machine w) ->
  user_chars (machine w) (va + o) (s ++ [NUL]) -> NUL ∉ s ->
  o = Z.of_nat (length pre) -> (length s < n)%nat -> (length s < length rest)%nat ->
  exists m', u2s_loop h n o w va c (pre ++ rest) =
      Ret (set_machine w m', pre ++ s ++ NUL :: drop (S (length s)) rest) /\
    wf_mmu m' /\ same_mapping (machine w) m'.
Proof.
  assert (Hstep : forall n o w c pre x rest b m1, o = Z.of_nat (length pre) ->
    ReadMem h w (s32 (va + o)) 1 = Ret (set_machine w m1, Some (schar b)) ->
    u2s_loop h (S n) o w va c (pre ++ x :: rest) =
      if bool_decide (b = NUL) then Ret (set_machine w m1, pre ++ b :: rest)
      else u2s_loop h n (o + 1) (set_machine w m1) va (schar b) ((pre ++ [b]) ++ rest)).
  { intros n o w c pre x rest b m1 -> HR. simpl. rewrite HR, rbind_Ret. simpl default.
    rewrite of_schar, zset_in by (rewrite length_app; simpl; lia). rewrite rbind_Ret, Nat2Z.id.
    rewrite insert_app_r_alt, Nat.sub_diag by lia. simpl.
    rewrite <- app_assoc, schar_zero. by case_bool_decide. }
  induction s as [|b s IH]; intros [|n] o w c pre [|x rest] Hwf Hu Hnul Ho Hn Hr;
    simpl in Hn, Hr; try lia; pose proof (Hu 0%nat _ eq_refl) as Hz0; rewrite Z.add_0_r in Hz0.
  - destruct (ReadMem_reads h w _ NUL Hwf Hz0) as (m1 & HR & Hwf1 & Hsm1).
    exists m1. split; [|done]. by rewrite (Hstep n o w c pre x rest NUL m1).
  - destruct (ReadMem_reads h w _ b Hwf Hz0) as (m1 & HR & Hwf1 & Hsm1).
    rewrite (Hstep n o w c pre x rest b m1), bool_decide_eq_false_2 by set_solver.
    destruct (IH n (o + 1) (set_machine w m1) (schar b) (pre ++ [b]) rest) as (m' & -> & ? & Hsm).
    + done.
    + rewrite Z.add_assoc. apply (user_chars_tail _ _ b). intros i c' Hc.
      by apply (reads_same (machine w)), Hu.
    + set_solver.
    + rewrite length_app. simpl. lia.
    + lia.
    + lia.
    + exists m'. rewrite <- app_assoc. split; [done|]. split; [done|]. by etrans.
Qed.

Lemma user2System_spec g_char g_int h w va limit s : wf_mmu (machine w) ->
  user_chars (machine w) va (s ++ [NUL]) -> NUL ∉ s -> Z.of_nat (length s) < limit < 2 ^ 30 ->
  exists m' buffer, user2System g_char g_int h w va limit = Ret (set_machine w m', buffer) /\
    holds_str buffer s /\ wf_mmu m' /\ same_mapping (machine w) m'.
Proof.
  intros Hwf Hu Hnul Hl. unfold user2System, new_chars. rewrite (proj2 (Z.eqb_neq _ _)) by lia.
  rewrite s32_id by (unfold is_s32; lia). rewrite (proj2 (Z.ltb_ge _ _)) by lia.
  rewrite rbind_Ret, length_uninit.
  destruct (u2s_loop_spec h va s (Z.to_nat limit) 0 w g_int [] (replicate (Z.to_nat (limit + 1)) NUL))
    as (m' & HU & ? & ?); try done.
  - by rewrite Z.add_0_r.
  - lia.
  - rewrite length_replicate. lia.
  - exists m', (s ++ NUL :: drop (S (length s)) (replicate (Z.to_nat (limit + 1)) NUL)).
    split; [exact HU|]. split; [|done]. split; [done|eauto].
Qed.

(** [system2User] copies the string and its terminator, and nothing else. *)
Lemma s2u_loop_spec h va buffer s : forall n o w, wf_mmu (machine w) ->
  at_offset buffer (s ++ [NUL]) o -> NUL ∉ s -> (length s < n)%nat ->
  writable (machine w) (va + o) (S (length s)) ->
  exists m', s2u_loop h n o w va buffer = Ret (set_machine w m', o + Z.of_nat (length s) + 1) /\
    wf_mmu m' /\ same_mapping (set_mainMemory (machine w) (mainMemory m')) m' /\
    user_chars m' (va + o) (s ++ [NUL]) /\
    forall k : nat, (forall i : nat, (i <= length s)%nat ->
        phys (machine w) (s32 (va + o + Z.of_nat i)) <> Some (Z.of_nat k)) ->
      mainMemory m' !! k = mainMemory (machine w) !! k.
Proof.
  assert (Hstep : forall n o w b bs, wf_mmu (machine w) -> at_offset buffer (b :: bs) o ->
    is_Some (phys (machine w) (s32 (va + o))) ->
    exists m1 pa, phys (machine w) (s32 (va + o)) = Some pa /\
      s2u_loop h (S n) o w va buffer =
        (if bool_decide (b = NUL) then Ret (set_machine w m1, o + 1)
         else s2u_loop h n (o + 1) (set_machine w m1) va buffer) /\
      wf_mmu m1 /\ same_mapping (set_mainMemory (machine w) (mainMemory m1)) m1 /\
      mainMemory m1 !! Z.to_nat pa = Some b /\
      forall k : nat, Some (Z.of_nat k) <> Some pa -> mainMemory m1 !! k = mainMemory (machine w) !! k).
  { intros n o w b bs Hwf Hat [pa Hpa].
    destruct (WriteMem_phys h w _ pa b Hwf Hpa) as (m1 & HW & ? & ? & Hmem & ?).
    pose proof (at_offset_lookup _ _ _ 0 b Hat eq_refl) as Hb. rewrite Z.add_0_r in Hb.
    pose proof (phys_range _ _ _ Hpa). exists m1, pa. split; [done|]. split.
    { simpl. rewrite Hb, rbind_Ret, HW, rbind_Ret, schar_zero. by case_bool_decide. }
    split; [done|]. split; [done|]. rewrite Hmem. split; [by apply list_lookup_insert_eq|].
    intros k Hk. apply list_lookup_insert_ne. intros <-. apply Hk. f_equal. lia. }
  induction s as [|b s IH]; intros [|n] o w Hwf Hat Hnul Hn Hwr; simpl in Hn; try lia;
    pose proof (wr_phys _ _ _ Hwr 0 ltac:(lia)) as Hz0; simpl in Hz0; rewrite Z.add_0_r in Hz0;
    destruct (Hstep n o w _ _ Hwf Hat Hz0) as (m1 & pa & Hpa & Hloop & Hwf1 & Hsm1 & Hb & Hout).
  - exists m1. rewrite Hloop. simpl. split; [do 2 f_equal; lia|]. do 2 (split; [done|]). split.
    + intros [|[|i]] b' Hb'; simplify_eq/=. rewrite Z.add_0_r. apply (phys_reads _ _ pa); [|done].
      by rewrite (phys_same (machine w)).
    + intros k Hk. apply Hout. specialize (Hk 0%nat ltac:(lia)). simpl in Hk. rewrite Z.add_0_r in Hk. congruence.
  - rewrite Hloop, bool_decide_eq_false_2 by set_solver.
    assert (Hph : forall a, phys m1 a = phys (machine w) a) by (intros; by apply phys_same).
    destruct (IH n (o + 1) (set_machine w m1)) as (m' & -> & Hwf' & Hsm' & Hu & Hout').
    + done.
    + by eapply at_offset_tail.
    + set_solver.
    + lia.
    + rewrite Z.add_assoc. apply writable_tail. simpl. destruct Hwr as [Hwp Hwi].
      split; [intros i Hi; rewrite Hph; by apply Hwp|intros i j Hi Hj; rewrite !Hph; by apply Hwi].
    + exists m'. simpl length. split; [do 3 f_equal; lia|]. split; [done|].
      assert (Hsm : same_mapping (set_mainMemory (machine w) (mainMemory m')) m').
      { etrans; [|exact Hsm']. simpl. destruct Hsm1 as [? ? ? ? ?]. by split. }
      split; [done|]. simpl in Hout'. split.
      * intros [|i] b' Hb'; simplify_eq/=.
        -- apply (phys_reads _ _ pa); [by rewrite (phys_same (machine w)), Z.add_0_r|].
           pose proof (phys_range _ _ _ Hpa).
           rewrite Hout'; [done|]. intros i Hi. rewrite Hph, Z2Nat.id by done. rewrite <- Hpa.
           replace (va + (o + 1) + Z.of_nat i) with (va + o + Z.of_nat (S i)) by lia.
           intros E. replace (va + o) with (va + o + Z.of_nat 0) in E at 2 by lia.
           apply (wr_inj _ _ _ Hwr) in E; simpl; lia.
        -- replace (va + o + Z.of_nat (S i)) with (va + (o + 1) + Z.of_nat i) by lia. by apply Hu.
      * intros k Hk. rewrite Hout'; [apply Hout|].
        -- specialize (Hk 0%nat ltac:(lia)). simpl in Hk. rewrite Z.add_0_r in Hk. congruence.
        -- intros i Hi. rewrite Hph. replace (va + (o + 1) + Z.of_nat i) with (va + o + Z.of_nat (S i)) by lia.
           apply Hk. simpl. lia.
Qed.
End strings.

Section system_calls.
Context {H : Type} `{CharDevices H}.
Implicit Types (w : World (Kernel H)).
Variables (rhs_first : bool) (g_char : nat -> byte) (g_int : Z) (rand : Z).
Abbreviation handler := (ExceptionHandler rhs_first g_char g_int rand).

(** The arguments of a system call, in the registers. *)
Record asks w (regs : list (nat * Z)) : Prop := {
  asks_len : length (registers (machine w)) = 40%nat;
  asks_regs : Forall (fun rv => registers (machine w) !! rv.1 = Some rv.2) regs
}.

Lemma rreg_spec w n v : length (registers (machine w)) = 40%nat -> 0 <= n ->
  registers (machine w) !! Z.to_nat n = Some v -> rreg w n = Ret v.
Proof.
  intros Hlen Hn Hv. apply lookup_lt_Some in Hv as Hlt. unfold rreg, ReadRegister.
  unfold NumTotalRegs. rewrite Z.geb_leb, (proj2 (Z.leb_le _ _)), (proj2 (Z.ltb_lt _ _)) by lia. simpl.
  by apply zget_lookup.
Qed.

Lemma PrintString_call n w va s : wf_mmu (machine w) ->
  asks w [(2%nat, SC_PrintString); (4%nat, va)] ->
  user_chars (machine w) va (s ++ [NUL]) -> NUL ∉ s -> Z.of_nat (length s) < MAX_STRING ->
  t_wf (con (kern w)) ->
  exists w', handler (S n) SyscallException w = Ret w' /\ returned w w' /\
    mainMemory (machine w') = mainMemory (machine w) /\
    t_wf (con (kern w')) /\ t_in (con (kern w')) = t_in (con (kern w)) /\
    t_out (con (kern w')) = t_out (con (kern w)) ++ s.
Proof.
  intros Hwf [Hlen Hr] Hu Hnul Hl Ht. rewrite !Forall_cons in Hr. destruct Hr as (Hr2 & Hr4 & _).
  simpl in Hr2, Hr4. simpl. rewrite (rreg_spec w 2 SC_PrintString) by done. rewrite rbind_Ret.
  change (syscall _ _ _ _ _ _ SC_PrintString) with (solve_SC_PrintString g_char g_int (handler n) w).
  unfold solve_SC_PrintString. rewrite (rreg_spec w (1 + 3) va) by done. rewrite rbind_Ret.
  destruct (user2System_spec g_char g_int (handler n) w va MAX_STRING s) as (m' & buf & -> & Hb & Hwf' & Hsm);
    [done|done|done|unfold MAX_STRING in *; lia|]. rewrite rbind_Ret. simpl kern.
  destruct (SysPrintString_spec (con (kern w)) buf s MAX_STRING Ht Hb) as (c & -> & Hc & Hin & Hout).
  rewrite rbind_Ret. rewrite increasePC_spec by (simpl; by rewrite (sm_regs _ _ Hsm)).
  eexists. split; [reflexivity|]. split.
  - apply (finish w (set_kern (set_machine w m') (set_con (kern w) c))); [done|done| |].
    + split; [done|by apply same_mapping_own|by intros _; apply same_mapping_confined].
    + apply increasePC_spec. simpl. by rewrite (sm_regs _ _ Hsm).
  - cbn [machine kern set_machine set_kern set_registers mainMemory con set_con].
    rewrite (sm_mem _ _ Hsm). do 3 (split; [done|]).
    rewrite take_ge in Hout; [exact Hout|unfold MAX_STRING in *; lia].
Qed.

Lemma ReadString_call n w va l r : wf_mmu (machine w) ->
  asks w [(2%nat, SC_ReadString); (4%nat, va); (5%nat, Z.of_nat (length l))] ->
  writable (machine w) va (S (length l)) -> typable l -> NUL ∉ l -> Z.of_nat (length l) < 2 ^ 30 ->
  t_wf (con (kern w)) -> t_in (con (kern w)) = l ++ r ->
  exists w', handler (S n) SyscallException w = Ret w' /\ returned w w' /\
    same_mapping (set_registers (set_mainMemory (machine w) (mainMemory (machine w')))
      (registers (machine w'))) (machine w') /\
    user_chars (machine w') va (l ++ [NUL]) /\
    (forall k : nat, (forall i : nat, (i <= length l)%nat ->
        phys (machine w) (s32 (va + Z.of_nat i)) <> Some (Z.of_nat k)) ->
      mainMemory (machine w') !! k = mainMemory (machine w) !! k) /\
    t_wf (con (kern w')) /\ t_in (con (kern w')) = r /\
    t_out (con (kern w')) = t_out (con (kern w)).
Proof.
  intros Hwf [Hlen Hr] Hwr Hty Hnul Hl Ht Hin.
  rewrite !Forall_cons in Hr. destruct Hr as (Hr2 & Hr4 & Hr5 & _).
  simpl in Hr2, Hr4, Hr5. simpl. rewrite (rreg_spec w 2 SC_ReadString) by done. rewrite rbind_Ret.
  change (syscall _ _ _ _ _ _ SC_ReadString) with (solve_SC_ReadString g_char (handler n) w).
  unfold solve_SC_ReadString. rewrite (rreg_spec w (1 + 3) va) by done. rewrite rbind_Ret.
  rewrite (rreg_spec w (2 + 3) (Z.of_nat (length l))) by done. rewrite rbind_Ret.
  rewrite s32_id by (unfold is_s32; lia). rewrite (proj2 (Z.ltb_ge _ _)) by lia.
  destruct (SysReadString_spec (con (kern w)) l r (uninit g_char (Z.to_nat (Z.of_nat (length l) + 1))))
    as (c & -> & Hc & Hin' & Hout); [done|done|done|rewrite length_uninit; lia|].
  rewrite rbind_Ret. unfold system2User.
  rewrite (proj2 (Z.ltb_ge _ _)), (proj2 (Z.eqb_neq _ _)) by lia.
  match goal with |- context [s2u_loop _ _ _ ?w1 _ ?b] =>
    destruct (s2u_loop_spec (handler n) va b l (Z.to_nat (Z.of_nat (length l) + 1)) 0 w1)
      as (m' & Hloop & Hwf' & Hsm & Hu & Hmem) end.
  - done.
  - split; [lia|]. eexists. rewrite drop_0, <- app_assoc. reflexivity.
  - done.
  - lia.
  - by rewrite Z.add_0_r.
  - rewrite Hloop, rbind_Ret. rewrite increasePC_spec by (simpl; by rewrite (sm_regs _ _ Hsm)).
    rewrite Z.add_0_r in Hu. rewrite Z.add_0_r in Hmem.
    eexists. split; [reflexivity|].
    cbn [machine kern set_machine set_kern set_registers mainMemory con set_con status]. split.
    + apply (finish w (mkWorld m' (status w) (set_con (kern w) c))); [done|done| |].
      { etrans; [apply (same_user_kern w (set_con (kern w) c))|]. eapply s2u_loop_frame; [apply handler_stops| |exact Hloop]. done. }
      rewrite increasePC_spec; [done|]. simpl. by rewrite (sm_regs _ _ Hsm).
    + split; [destruct Hsm as [? ? ? ? ?]; by split|]. done.
Qed.

(** Reading from the keyboard as from a file. *)
Lemma Read_stdin_call n w va l r : 
  asks w [(2%nat, SC_Read); (4%nat, va); (5%nat, Z.of_nat (length l)); (6%nat, stdin)] ->
  typable l -> t_wf (con (kern w)) -> t_in (con (kern w)) = l ++ r ->
  handler (S n) SyscallException w = Fault.
Proof.
  intros [Hlen Hr] Hty Ht Hin. rewrite !Forall_cons in Hr. destruct Hr as (Hr2 & Hr4 & Hr5 & Hr6 & _).
  simpl in Hr2, Hr4, Hr5, Hr6. simpl. rewrite (rreg_spec w 2 SC_Read) by done. rewrite rbind_Ret.
  change (syscall _ _ _ _ _ _ SC_Read) with (solve_SC_Read g_char (handler n) w).
  unfold solve_SC_Read, new_chars. rewrite (rreg_spec w 4 va) by done. rewrite rbind_Ret.
  rewrite (rreg_spec w 5 (Z.of_nat (length l))) by done. rewrite rbind_Ret.
  rewrite (rreg_spec w 6 stdin) by done. rewrite rbind_Ret.
  rewrite (proj2 (Z.ltb_ge _ _)) by lia. rewrite rbind_Ret. unfold SysRead. simpl.
  rewrite (SysReadString_full (con (kern w)) l r); [done|done|done|done|]. rewrite length_uninit. lia.
Qed.
End system_calls.

(** The handler, when it returns, has left the program in its frames. *)
Lemma handler_confined {H} `{CharDevices H} rhs_first g_char g_int rand fuel which (w w' : World (Kernel H)) :
  wf_mmu (machine w) -> length (registers (machine w)) = 40%nat ->
  ExceptionHandler rhs_first g_char g_int rand fuel which w = Ret w' ->
  confined (machine w) (machine w') /\ length (registers (machine w')) = 40%nat.
Proof.
  intros Hwf Hlen HE. destruct (decide (which = SyscallException)) as [->|Hne]; [|by apply handler_stops in HE].
  destruct fuel as [|fuel]; [done|]. simpl in HE. apply rbind_eq_Ret in HE as (type & _ & HE).
  apply syscall_returned in HE as [HR|(_ & -> & _)]; auto using handler_stops, confined_refl.
  split; [apply (ret_conf _ _ HR)|].
  pose proof (ret_other _ _ HR 39 ltac:(set_solver)) as H39. pose proof (ret_other _ _ HR 40 ltac:(set_solver)) as H40.
  destruct (lookup_lt_is_Some_2 (registers (machine w)) 39) as [x Hx]; [lia|]. rewrite Hx in H39.
  apply lookup_lt_Some in H39. rewrite (lookup_ge_None_2 (registers (machine w))) in H40 by lia. apply lookup_ge_None_1 in H40. lia.
Qed.

(** ** Claims *)

(** C23: the handler returns to the user program only from a system call, with
    nothing of the program's registers, mode and mapping changed but the result in
    register 2 and the program counters, which have moved on to the next
    instruction, and nothing in memory outside the frames that the program may write;
    the one exception is [ReadString] with a length whose buffer
    cannot be allocated, which changes nothing and so repeats for ever. *)
Theorem handler_returns {H} `{CharDevices H} rhs_first g_char g_int rand fuel which (w w' : World (Kernel H)) :
  wf_mmu (machine w) -> length (registers (machine w)) = 40%nat ->
  ExceptionHandler rhs_first g_char g_int rand fuel which w = Ret w' ->
  which = SyscallException /\
  (returned w w' \/
   (registers (machine w) !! 2%nat = Some SC_ReadString /\ w' = w /\
    exists len, registers (machine w) !! 5%nat = Some len /\ s32 (len + 1) < 0)).
Proof.
  intros Hwf Hlen HE. destruct (decide (which = SyscallException)) as [->|Hne].
  2: { by apply handler_stops in HE. }
  split; [done|]. destruct fuel as [|fuel]; [done|]. simpl in HE.
  apply rbind_eq_Ret in HE as (type & Hty & HE). apply rreg_Ret in Hty.
  apply syscall_returned in HE as [HR|(-> & HR)]; auto using handler_stops.
Qed.

(** Exceptions nest at most once.  The handler's own accesses to user memory
    can raise exceptions, but never a system call, and those end the process, so
    fuel 2 gives the result of any larger fuel; and no exception but a system call
    is ever handled: the machine halts, or the kernel aborts for [NoException]. *)
Theorem nested_exceptions {H} `{CharDevices H} rhs_first g_char g_int rand n which (w : World (Kernel H)) :
  ExceptionHandler rhs_first g_char g_int rand (2 + n) which w =
    ExceptionHandler rhs_first g_char g_int rand 2 which w /\
  (which <> SyscallException -> length (registers (machine w)) = 40%nat ->
   ExceptionHandler rhs_first g_char g_int rand 1 which w =
     if decide (which = NoException) then AssertFail else Halted).
Proof.
  split.
  - destruct (decide (which = SyscallException)) as [->|Hne]; [|by apply (handler_agree _ _ _ _ (S n) 1)].
    change (2 + n)%nat with (S (S n)). rewrite (handler_syscall _ _ _ _ (S n)), (handler_syscall _ _ _ _ 1).
    apply rbind_cong; [done|]. intros type. apply syscall_agree, handler_agree.
  - intros Hne Hlen. rewrite handler_other by done.
    destruct (lookup_lt_is_Some_2 (registers (machine w)) 2) as [v Hv]; [lia|].
    by rewrite (rreg_spec w 2 v).
Qed.

(** C24: a string makes the trip from the keyboard through user memory to the
    display.  [ReadString] of [length l] characters into writable memory returns
    with the user program reading [l] and a terminator there and every other byte
    of memory unchanged; from then on a [PrintString] of that address, from any
    state with that memory, displays exactly [l]. *)
Theorem read_then_print {H} `{CharDevices H} rhs_first g_char g_int rand n (w : World (Kernel H)) va l r :
  wf_mmu (machine w) ->
  asks w [(2%nat, SC_ReadString); (4%nat, va); (5%nat, Z.of_nat (length l))] ->
  writable (machine w) va (S (length l)) -> typable l -> NUL ∉ l ->
  Z.of_nat (length l) < MAX_STRING ->
  t_wf (con (kern w)) -> t_in (con (kern w)) = l ++ r ->
  exists w1, ExceptionHandler rhs_first g_char g_int rand (S n) SyscallException w = Ret w1 /\
    returned w w1 /\ t_in (con (kern w1)) = r /\
    (forall k : nat, (forall i : nat, (i <= length l)%nat ->
        phys (machine w) (s32 (va + Z.of_nat i)) <> Some (Z.of_nat k)) ->
      mainMemory (machine w1) !! k = mainMemory (machine w) !! k) /\
    forall w2, machine w2 = set_registers (machine w1) (registers (machine w2)) ->
      asks w2 [(2%nat, SC_PrintString); (4%nat, va)] -> kern w2 = kern w1 ->
      exists w3, ExceptionHandler rhs_first g_char g_int rand (S n) SyscallException w2 = Ret w3 /\
        returned w2 w3 /\ t_out (con (kern w3)) = t_out (con (kern w)) ++ l.
Proof.
  intros Hwf Has Hwr Hty Hnul Hl Ht Hin.
  destruct (ReadString_call rhs_first g_char g_int rand n w va l r)
    as (w1 & HR & Hret & Hsm & Hu & Hmem & Hc1 & Hin1 & Ho1); try done; [unfold MAX_STRING in Hl; lia|].
  exists w1. do 4 (split; [done|]). intros w2 Hm2 Has2 Hk2.
  assert (Hwf2 : wf_mmu (machine w2)) by (rewrite Hm2; by destruct (cf_wf _ _ (ret_conf _ _ Hret))).
  destruct (PrintString_call rhs_first g_char g_int rand n w2 va l)
    as (w3 & HP & Hret3 & _ & _ & _ & Ho3); try done.
  - rewrite Hm2. exact Hu.
  - rewrite Hk2. exact Hc1.
  - exists w3. do 2 (split; [done|]). rewrite Ho3, Hk2. f_equal. exact Ho1.
Qed.

(** [Read] from the keyboard never returns.  Its buffer has room for the
    characters but not for the terminator that [SysReadString] adds, so once the
    characters have been typed the kernel writes past the end of the buffer. *)
Theorem stdin_read_overruns {H} `{CharDevices H} rhs_first g_char g_int rand n (w : World (Kernel H)) va l r :
  asks w [(2%nat, SC_Read); (4%nat, va); (5%nat, Z.of_nat (length l)); (6%nat, stdin)] ->
  typable l -> t_wf (con (kern w)) -> t_in (con (kern w)) = l ++ r ->
  ExceptionHandler rhs_first g_char g_int rand (S n) SyscallException w = Fault.
Proof. apply Read_stdin_call. Qed.

(** ** Concrete system calls *)

(** The sample machine of [Machine] with the given registers, and a console at
    which [l] is typed. *)
Definition call_world (regs : list (nat * Z)) (l : list byte) : World (Kernel ToyHost) :=
  mkWorld (set_registers sample_machine (foldr (fun rv r => <[rv.1 := rv.2]> r) (replicate 40 0) regs))
    SystemMode (mkKernel (toy_console l) blank_fs (replicate 13 NUL)).

Lemma call_world_wf regs l : wf_mmu (machine (call_world regs l)).
Proof. destruct sample_machine_wf as [Hm Ht]. split; [exact Hm|exact Ht]. Qed.

Definition zeros : nat -> byte := fun _ => NUL.

Lemma handler_returns_witness :
  exists w', ExceptionHandler true zeros 0 0 2 SyscallException
      (call_world [(2%nat, SC_Add); (4%nat, 40); (5%nat, 2)] []) = Ret w' /\
    returned (call_world [(2%nat, SC_Add); (4%nat, 40); (5%nat, 2)] []) w'.
Proof.
  eexists. split; [reflexivity|].
  destruct (handler_returns true zeros 0 0 2 SyscallException
    (call_world [(2%nat, SC_Add); (4%nat, 40); (5%nat, 2)] []) _ (call_world_wf _ _) eq_refl eq_refl)
    as [_ [HR|[HR _]]]; [exact HR|]. simpl in HR. injection HR as HR. discriminate HR.
Defined.

Lemma nested_exceptions_witness :
  ExceptionHandler true zeros 0 0 1 PageFaultException (call_world [] []) = Halted.
Proof.
  rewrite (proj2 (nested_exceptions true zeros 0 0 0 PageFaultException (call_world [] []))
    ltac:(discriminate) eq_refl). reflexivity.
Defined.

Lemma call_world_writable regs l : writable (machine (call_world regs l)) 8 3.
Proof.
  split.
  - intros [|[|[|i]]] Hi; [eexists; vm_compute; reflexivity..|lia].
  - intros [|[|[|i]]] [|[|[|j]]] Hi Hj E; try lia; vm_compute in E; discriminate E.
Qed.

Lemma read_then_print_witness :
  let w := call_world [(2%nat, SC_ReadString); (4%nat, 8); (5%nat, 2)] (typed [104; 105]) in
  exists w1, ExceptionHandler true zeros 0 0 2 SyscallException w = Ret w1 /\
    t_in (con (kern w1)) = [].
Proof.
  intros w.
  destruct (read_then_print true zeros 0 0 1 w 8 (typed [104; 105]) [] (call_world_wf _ _))
    as (w1 & HR & _ & Hin & _).
  - split; [reflexivity|]. repeat constructor.
  - apply call_world_writable.
  - repeat constructor; vm_compute; congruence.
  - apply (bool_decide_unpack _). vm_compute. exact I.
  - unfold MAX_STRING. simpl. lia.
  - exact (toy_wf _).
  - exact (toy_in _ eq_refl).
  - exists w1. split; [exact HR|exact Hin].
Defined.

Lemma stdin_read_overruns_witness :
  ExceptionHandler true zeros 0 0 2 SyscallException
    (call_world [(2%nat, SC_Read); (4%nat, 8); (5%nat, 2); (6%nat, 0)] (typed [104; 105])) = Fault.
Proof.
  apply (stdin_read_overruns true zeros 0 0 1 (call_world _ _) 8 (typed [104; 105]) []).
  - split; [reflexivity|]. repeat constructor.
  - repeat constructor; vm_compute; congruence.
  - exact (toy_wf _).
  - exact (toy_in _ eq_refl).
Defined.
