(* ===== verification/Threads.v ===== *)
(** * Threads, the scheduler and synchronisation

    Model of threads/thread.cc, threads/scheduler.cc and threads/synch.cc as an
    abstract machine.  A thread's stack of kernel frames is data: the list of what
    it has still to execute, first the next step.  An instruction is a call of a
    kernel function or the rest of one after a point where another thread may run;
    executing it does what the C++ code does up to the next such point and pushes
    what remains.  SWITCH leaves the stack of the old thread in its thread object
    and continues with that of the new one.

    Interrupts come from the environment: for each time interrupts are enabled, and
    for each time the machine idles, it says which semaphores device handlers
    signal, and whether the timer asks for a context switch; how interrupts are
    ordered in time is the matter of [Interrupt].  The function a thread is forked
    with is the sequence of kernel calls that it makes; branches and loops of client
    code need no instructions, since every run of a thread makes one such sequence.  User registers and address
    spaces of threads, names and stack sizes are left out.  Objects are never
    reused: deallocation is a no-op, except that a destroyed thread disappears.
    The value of a semaphore is a number without bound. *)

From S2P Require Import Prelude NList Interrupt.

Inductive ThreadStatus : Type := JUST_CREATED | RUNNING | READY | BLOCKED.

(** Threads, semaphores, locks and conditions are known by their addresses. *)
Inductive instr : Type :=
  | ISetLevel (now : IntStatus)           (* interrupt->SetLevel *)
  | IYield                                (* currentThread->Yield *)
  | IRunEnd                               (* Scheduler::Run after SWITCH *)
  | ISleep (finishing : bool)             (* currentThread->Sleep *)
  | ISleepLoop (finishing : bool)         (* the loop of Sleep *)
  | IBegin                                (* Thread::Begin, from ThreadRoot *)
  | IFinish                               (* Thread::Finish, from ThreadRoot *)
  | IFork (func : nat)                    (* new Thread, then Fork *)
  | IP (s : nat)                          (* Semaphore::P *)
  | IPLoop (s : nat)                      (* the loop of P and the decrement *)
  | IV (s : nat)                          (* Semaphore::V *)
  | IAcquire (l : nat)                    (* Lock::Acquire *)
  | ISetHolder (l : nat)                  (* its end: lockHolder = currentThread *)
  | IRelease (l : nat)                    (* Lock::Release *)
  | IWait (c l : nat)                     (* Condition::Wait *)
  | ISignal (c l : nat)                   (* Condition::Signal *)
  | IBroadcast (c l : nat)                (* Condition::Broadcast *)
  | ISynchAppend (sl : nat) (item : Z)    (* SynchList::Append *)
  | IListAppend (sl : nat) (item : Z)     (* its list->Append *)
  | ISynchRemoveFront (sl : nat)          (* SynchList::RemoveFront *)
  | IListLoop (sl : nat)                  (* its loop and list->RemoveFront *)
  | ISynchApply (sl : nat)                (* SynchList::Apply *)
  | IHalt.                                (* interrupt->Halt *)

Record Thread : Type := mkThread {
  status : ThreadStatus;
  code : list instr
}.

Record Semaphore : Type := mkSem {
  value : Z;
  queue : list nat
}.

Record Lock : Type := mkLock {
  semaphore : nat;
  lockHolder : option nat
}.

(** A [SynchList]: [items] is its list, [returned] what its [RemoveFront] has returned so
    far, the latest last. *)
Record SynchList : Type := mkSynchList {
  items : list Z;
  returned : list Z;
  lock : nat;
  listEmpty : nat
}.

(** What happens when interrupts are enabled: the semaphores that handlers signal,
    and whether the timer asks for a context switch. *)
Record tick : Type := mkTick {
  handlers : list nat;
  slice : bool
}.

Record Kernel : Type := mkKernel {
  level : IntStatus;
  currentThread : nat;
  readyList : list nat;
  toBeDestroyed : option nat;
  threads : gmap nat Thread;
  sems : gmap nat Semaphore;
  locks : gmap nat Lock;
  conds : gmap nat (list nat);
  lists : gmap nat SynchList;
  nextSem : nat;
  nextThread : nat;
  ticks : list tick;
  idles : list (list nat)
}.

(** A pointer to an object that is not there. *)
Definition deref {A} (m : gmap nat A) (p : nat) : result A :=
  match m !! p with Some x => Ret x | None => Fault end.

Section setters.
Implicit Types (k : Kernel).
Definition set_level k (x : IntStatus) : Kernel :=
  mkKernel x (currentThread k) (readyList k) (toBeDestroyed k) (threads k) (sems k)
    (locks k) (conds k) (lists k) (nextSem k) (nextThread k) (ticks k) (idles k).
Definition set_current k (x : nat) : Kernel :=
  mkKernel (level k) x (readyList k) (toBeDestroyed k) (threads k) (sems k)
    (locks k) (conds k) (lists k) (nextSem k) (nextThread k) (ticks k) (idles k).
Definition set_ready k (x : list nat) : Kernel :=
  mkKernel (level k) (currentThread k) x (toBeDestroyed k) (threads k) (sems k)
    (locks k) (conds k) (lists k) (nextSem k) (nextThread k) (ticks k) (idles k).
Definition set_destroyed k (x : option nat) : Kernel :=
  mkKernel (level k) (currentThread k) (readyList k) x (threads k) (sems k)
    (locks k) (conds k) (lists k) (nextSem k) (nextThread k) (ticks k) (idles k).
Definition set_threads k (x : gmap nat Thread) : Kernel :=
  mkKernel (level k) (currentThread k) (readyList k) (toBeDestroyed k) x (sems k)
    (locks k) (conds k) (lists k) (nextSem k) (nextThread k) (ticks k) (idles k).
Definition set_sems k (x : gmap nat Semaphore) : Kernel :=
  mkKernel (level k) (currentThread k) (readyList k) (toBeDestroyed k) (threads k) x
    (locks k) (conds k) (lists k) (nextSem k) (nextThread k) (ticks k) (idles k).
Definition set_locks k (x : gmap nat Lock) : Kernel :=
  mkKernel (level k) (currentThread k) (readyList k) (toBeDestroyed k) (threads k) (sems k)
    x (conds k) (lists k) (nextSem k) (nextThread k) (ticks k) (idles k).
Definition set_conds k (x : gmap nat (list nat)) : Kernel :=
  mkKernel (level k) (currentThread k) (readyList k) (toBeDestroyed k) (threads k) (sems k)
    (locks k) x (lists k) (nextSem k) (nextThread k) (ticks k) (idles k).
Definition set_lists k (x : gmap nat SynchList) : Kernel :=
  mkKernel (level k) (currentThread k) (readyList k) (toBeDestroyed k) (threads k) (sems k)
    (locks k) (conds k) x (nextSem k) (nextThread k) (ticks k) (idles k).
Definition set_nextSem k (x : nat) : Kernel :=
  mkKernel (level k) (currentThread k) (readyList k) (toBeDestroyed k) (threads k) (sems k)
    (locks k) (conds k) (lists k) x (nextThread k) (ticks k) (idles k).
Definition set_nextThread k (x : nat) : Kernel :=
  mkKernel (level k) (currentThread k) (readyList k) (toBeDestroyed k) (threads k) (sems k)
    (locks k) (conds k) (lists k) (nextSem k) x (ticks k) (idles k).
Definition set_ticks k (x : list tick) : Kernel :=
  mkKernel (level k) (currentThread k) (readyList k) (toBeDestroyed k) (threads k) (sems k)
    (locks k) (conds k) (lists k) (nextSem k) (nextThread k) x (idles k).
Definition set_idles k (x : list (list nat)) : Kernel :=
  mkKernel (level k) (currentThread k) (readyList k) (toBeDestroyed k) (threads k) (sems k)
    (locks k) (conds k) (lists k) (nextSem k) (nextThread k) (ticks k) x.
End setters.

Definition is_off (l : IntStatus) : bool := bool_decide (l = IntOff).

(** [thread->setStatus] *)
Definition setStatus (k : Kernel) (t : nat) (st : ThreadStatus) : result Kernel :=
  let* th := deref (threads k) t in
  Ret (set_threads k (<[t := mkThread st (code th)]> (threads k))).

(** What the current thread has still to do after these instructions. *)
Definition push (k : Kernel) (c : list instr) : result Kernel :=
  let t := currentThread k in
  let* th := deref (threads k) t in
  Ret (set_threads k (<[t := mkThread (status th) (c ++ code th)]> (threads k))).

(** ** The scheduler: threads/scheduler.cc *)

Definition ReadyToRun (k : Kernel) (t : nat) : result Kernel :=
  assert* is_off (level k) in
  let* k := setStatus k t READY in
  let* r := Seq.Append (readyList k) t in
  Ret (set_ready k r).

Definition FindNextToRun (k : Kernel) : result (Kernel * option nat) :=
  assert* is_off (level k) in
  if Seq.IsEmpty (readyList k) then Ret (k, None)
  else
    let* (t, r) := Seq.RemoveFront (readyList k) in
    Ret (set_ready k r, Some t).

(** [delete toBeDestroyed]: a thread does not delete itself. *)
Definition CheckToBeDestroyed (k : Kernel) : result Kernel :=
  match toBeDestroyed k with
  | Some d =>
      assert* negb (bool_decide (d = currentThread k)) in
      Ret (set_destroyed (set_threads k (delete d (threads k))) None)
  | None => Ret k
  end.

(** Up to SWITCH, which goes on with the code of the next thread. *)
Definition Run (k : Kernel) (nextThread : nat) (finishing : bool) : result Kernel :=
  let oldThread := currentThread k in
  assert* is_off (level k) in
  let* k :=
    if finishing then
      assert* bool_decide (toBeDestroyed k = None) in
      Ret (set_destroyed k (Some oldThread))
    else Ret k in
  let* k := push k [IRunEnd] in
  let k := set_current k nextThread in
  setStatus k nextThread RUNNING.

Definition RunEnd (k : Kernel) : result Kernel :=
  assert* is_off (level k) in
  CheckToBeDestroyed k.

(** ** Interrupts *)

(** The part of [Semaphore::V] between disabling and restoring interrupts. *)
Definition V_body (k : Kernel) (s : nat) : result Kernel :=
  let* sm := deref (sems k) s in
  let* (k, q) :=
    if negb (Seq.IsEmpty (queue sm)) then
      let* (t, q) := Seq.RemoveFront (queue sm) in
      let* k := ReadyToRun k t in
      Ret (k, q)
    else Ret (k, queue sm) in
  Ret (set_sems k (<[s := mkSem (value sm + 1) q]> (sems k))).

(** Device handlers run with interrupts off, where [V] is its body. *)
Fixpoint run_handlers (k : Kernel) (l : list nat) : result Kernel :=
  match l with
  | [] => Ret k
  | s :: l => let* k := V_body k s in run_handlers k l
  end.

(** [Interrupt::OneTick], after interrupts were enabled. *)
Definition OneTick (k : Kernel) : result Kernel :=
  match ticks k with
  | [] => Ret k
  | tk :: rest =>
      let k := set_level (set_ticks k rest) IntOff in
      let* k := run_handlers k (handlers tk) in
      let k := set_level k IntOn in
      if slice tk then push k [IYield] else Ret k
  end.

(** Thread code runs outside handlers, so the assertion of [SetLevel] holds. *)
Definition SetLevel (k : Kernel) (now : IntStatus) : result Kernel :=
  let old := level k in
  let k := set_level k now in
  if bool_decide (now = IntOn) && bool_decide (old = IntOff) then OneTick k else Ret k.

(** [Interrupt::Idle]: without pending interrupts the machine halts. *)
Definition Idle (k : Kernel) : result Kernel :=
  match idles k with
  | [] => Halted
  | l :: rest => run_handlers (set_idles k rest) l
  end.

(** ** Threads: threads/thread.cc *)

(** ThreadRoot calls Begin, the function, and Finish. *)
Definition StackAllocate (func : list instr) : list instr := IBegin :: func ++ [IFinish].

(** The functions that threads are forked with: what each calls in the kernel. *)
Section program.
Context (prog : nat -> list instr).

(** [new Thread] and [Fork]. *)
Definition Fork (k : Kernel) (func : nat) : result Kernel :=
  let t := nextThread k in
  let k := set_nextThread k (S t) in
  let k := set_threads k (<[t := mkThread JUST_CREATED (StackAllocate (prog func))]> (threads k)) in
  let oldLevel := level k in
  let* k := SetLevel k IntOff in
  let* k := ReadyToRun k t in
  push k [ISetLevel oldLevel].

(** [Enable] is [SetLevel(IntOn)]. *)
Definition Begin (k : Kernel) : result Kernel :=
  let* k := CheckToBeDestroyed k in
  SetLevel k IntOn.

Definition Finish (k : Kernel) : result Kernel :=
  let* k := SetLevel k IntOff in
  push k [ISleep true].

Definition Yield (k : Kernel) : result Kernel :=
  let oldLevel := level k in
  let* k := SetLevel k IntOff in
  let* (k, nextThread) := FindNextToRun k in
  let* k := push k [ISetLevel oldLevel] in
  match nextThread with
  | Some n =>
      let* k := ReadyToRun k (currentThread k) in
      Run k n false
  | None => Ret k
  end.

Definition Sleep (k : Kernel) (finishing : bool) : result Kernel :=
  assert* is_off (level k) in
  let* k := setStatus k (currentThread k) BLOCKED in
  push k [ISleepLoop finishing].

(** [while ((nextThread = FindNextToRun()) == NULL) Idle();], then [Run]. *)
Definition SleepLoop (k : Kernel) (finishing : bool) : result Kernel :=
  let* (k, nextThread) := FindNextToRun k in
  match nextThread with
  | Some n => Run k n finishing
  | None =>
      let* k := push k [ISleepLoop finishing] in
      Idle k
  end.

(** ** Synchronisation: threads/synch.cc *)

Definition P (k : Kernel) (s : nat) : result Kernel :=
  let oldLevel := level k in
  let* k := SetLevel k IntOff in
  push k [IPLoop s; ISetLevel oldLevel].

(** The test of the [while] loop: sleep and test again, or take the semaphore. *)
Definition PLoop (k : Kernel) (s : nat) : result Kernel :=
  let* sm := deref (sems k) s in
  if value sm =? 0 then
    let* q := Seq.Append (queue sm) (currentThread k) in
    let k := set_sems k (<[s := mkSem (value sm) q]> (sems k)) in
    push k [ISleep false; IPLoop s]
  else Ret (set_sems k (<[s := mkSem (value sm - 1) (queue sm)]> (sems k))).

Definition V (k : Kernel) (s : nat) : result Kernel :=
  let oldLevel := level k in
  let* k := SetLevel k IntOff in
  let* k := V_body k s in
  push k [ISetLevel oldLevel].

Definition IsHeldByCurrentThread (k : Kernel) (lk : Lock) : bool :=
  bool_decide (lockHolder lk = Some (currentThread k)).

Definition Acquire (k : Kernel) (l : nat) : result Kernel :=
  let* lk := deref (locks k) l in
  push k [IP (semaphore lk); ISetHolder l].

Definition SetHolder (k : Kernel) (l : nat) : result Kernel :=
  let* lk := deref (locks k) l in
  Ret (set_locks k (<[l := mkLock (semaphore lk) (Some (currentThread k))]> (locks k))).

Definition Release (k : Kernel) (l : nat) : result Kernel :=
  let* lk := deref (locks k) l in
  assert* IsHeldByCurrentThread k lk in
  let k := set_locks k (<[l := mkLock (semaphore lk) None]> (locks k)) in
  push k [IV (semaphore lk)].

Definition Wait (k : Kernel) (c l : nat) : result Kernel :=
  let* lk := deref (locks k) l in
  assert* IsHeldByCurrentThread k lk in
  let waiter := nextSem k in
  let k := set_nextSem (set_sems k (<[waiter := mkSem 0 []]> (sems k))) (S waiter) in
  let* wq := deref (conds k) c in
  let* wq := Seq.Append wq waiter in
  let k := set_conds k (<[c := wq]> (conds k)) in
  push k [IRelease l; IP waiter; IAcquire l].

Definition Signal (k : Kernel) (c l : nat) : result Kernel :=
  let* lk := deref (locks k) l in
  assert* IsHeldByCurrentThread k lk in
  let* wq := deref (conds k) c in
  if negb (Seq.IsEmpty wq) then
    let* (waiter, wq) := Seq.RemoveFront wq in
    let k := set_conds k (<[c := wq]> (conds k)) in
    push k [IV waiter]
  else Ret k.

Definition Broadcast (k : Kernel) (c l : nat) : result Kernel :=
  let* wq := deref (conds k) c in
  if negb (Seq.IsEmpty wq) then push k [ISignal c l; IBroadcast c l] else Ret k.

(** ** Synchronised lists: threads/synchlist.cc *)

Definition SynchList_Append (k : Kernel) (sl : nat) (item : Z) : result Kernel :=
  let* l := deref (lists k) sl in
  push k [IAcquire (lock l); IListAppend sl item; ISignal (listEmpty l) (lock l); IRelease (lock l)].

Definition ListAppend (k : Kernel) (sl : nat) (item : Z) : result Kernel :=
  let* l := deref (lists k) sl in
  let* its := Seq.Append (items l) item in
  Ret (set_lists k (<[sl := mkSynchList its (returned l) (lock l) (listEmpty l)]> (lists k))).

Definition SynchList_RemoveFront (k : Kernel) (sl : nat) : result Kernel :=
  let* l := deref (lists k) sl in
  push k [IAcquire (lock l); IListLoop sl; IRelease (lock l)].

(** [while (list->IsEmpty()) listEmpty->Wait(lock);], then [list->RemoveFront()]. *)
Definition ListLoop (k : Kernel) (sl : nat) : result Kernel :=
  let* l := deref (lists k) sl in
  if Seq.IsEmpty (items l) then
    let* k := push k [IListLoop sl] in
    Wait k (listEmpty l) (lock l)
  else
    let* (item, its) := Seq.RemoveFront (items l) in
    Ret (set_lists k (<[sl := mkSynchList its (returned l ++ [item]) (lock l) (listEmpty l)]> (lists k))).

(** The function that is applied only looks at the items. *)
Definition SynchList_Apply (k : Kernel) (sl : nat) : result Kernel :=
  let* l := deref (lists k) sl in
  push k [IAcquire (lock l); IRelease (lock l)].

(** ** Execution *)

Definition exec (i : instr) (k : Kernel) : result Kernel :=
  match i with
  | ISetLevel now => SetLevel k now
  | IYield => Yield k
  | IRunEnd => RunEnd k
  | ISleep f => Sleep k f
  | ISleepLoop f => SleepLoop k f
  | IBegin => Begin k
  | IFinish => Finish k
  | IFork f => Fork k f
  | IP s => P k s
  | IPLoop s => PLoop k s
  | IV s => V k s
  | IAcquire l => Acquire k l
  | ISetHolder l => SetHolder k l
  | IRelease l => Release k l
  | IWait c l => Wait k c l
  | ISignal c l => Signal k c l
  | IBroadcast c l => Broadcast k c l
  | ISynchAppend sl item => SynchList_Append k sl item
  | IListAppend sl item => ListAppend k sl item
  | ISynchRemoveFront sl => SynchList_RemoveFront k sl
  | IListLoop sl => ListLoop k sl
  | ISynchApply sl => SynchList_Apply k sl
  | IHalt => Halted
  end.

(** The current thread executes its next instruction. *)
Definition step (k : Kernel) : result Kernel :=
  let* th := deref (threads k) (currentThread k) in
  match code th with
  | [] => Fault
  | i :: c => exec i (set_threads k (<[currentThread k := mkThread (status th) c]> (threads k)))
  end.

Inductive reachable (k0 : Kernel) : Kernel -> Prop :=
  | reach_refl : reachable k0 k0
  | reach_step k k' : reachable k0 k -> step k = Ret k' -> reachable k0 k'.

(** [Kernel::Initialize], with the semaphores, locks, conditions and lists that the kernel
    objects have made: the thread that runs [main] is the first thread object, and
    interrupts are enabled last.  [main] ends with [Halt]. *)
Definition Initialize (main : list instr) (S : gmap nat Semaphore) (L : gmap nat Lock)
    (C : gmap nat (list nat)) (SL : gmap nat SynchList) (ns : nat) (tks : list tick) (ids : list (list nat)) : Kernel :=
  mkKernel IntOff 0%nat [] None
    {[ 0%nat := mkThread RUNNING (ISetLevel IntOn :: main ++ [IHalt]) ]} S L C SL ns 1%nat tks ids.

(** Several steps, for examples. *)
Fixpoint run (n : nat) (k : Kernel) : result Kernel :=
  match n with
  | O => Ret k
  | S n => let* k := step k in run n k
  end.

(** What [run] arrives at is reachable. *)
Lemma run_reachable n : forall k0 k k', reachable k0 k -> run n k = Ret k' -> reachable k0 k'.
Proof.
  induction n as [|n IH]; intros k0 k k' Hr; simpl; [by intros [= <-]|].
  intros (k1 & H1 & H2)%rbind_eq_Ret. apply (IH k0 k1 k'); [by eapply reach_step|done].
Qed.

End program.
