(* ===== verification/Sched.v ===== *)
(** * What the scheduler keeps true

    The invariant of threads/scheduler.cc and threads/synch.cc over the machine of
    [Threads]: where every thread is (running, on the ready list, in the queue of one
    semaphore, or waiting to be destroyed), what each has still to do there, at which
    interrupt level it goes on, and that no wakeup is lost.  Every step keeps it, and
    it is what the assertions of the kernel rely on. *)

From S2P Require Import Prelude NList Interrupt Threads.

(** ** Kernel frames *)

(** Code that a thread may reach outside the kernel's own waiting points: it runs
    from level [l] and ends with [Finish] or [Halt]. *)
Fixpoint plain (l : IntStatus) (c : list instr) : bool :=
  match c with
  | [] => false
  | ISetLevel n :: c => plain n c
  | IFinish :: c => Seq.IsEmpty c
  | IHalt :: _ => true
  | (IPLoop _ | IRunEnd | ISleep _ | ISleepLoop _ | IBegin) :: _ => false
  | _ :: c => plain l c
  end.

(** What is left when [Run] returns: the loop of [P], or the rest of [Yield]. *)
Definition resumed (c : list instr) : bool :=
  match c with
  | IPLoop _ :: c => plain IntOff c
  | _ => plain IntOff c
  end.

(** The stacks of kernel frames a thread can have at level [l]. *)
Definition typed (l : IntStatus) (c : list instr) : bool :=
  match c with
  | IPLoop _ :: c => is_off l && plain IntOff c
  | (IRunEnd | ISleep false | ISleepLoop false) :: c => is_off l && resumed c
  | (ISleep true | ISleepLoop true) :: c => is_off l && Seq.IsEmpty c
  | IBegin :: c => is_off l && plain IntOn c
  | _ => plain l c
  end.

(** The thread is about to leave [SWITCH]. *)
Definition resuming (c : list instr) : bool :=
  match c with (IRunEnd | IBegin) :: _ => true | _ => false end.

(** It has queued itself and is in [Sleep]. *)
Definition asleep (c : list instr) : bool :=
  match c with (ISleep false | ISleepLoop false) :: _ => true | _ => false end.

(** It goes on with the loop of [P] on [s] when it runs again, *)
Definition waits (s : nat) (c : list instr) : bool :=
  match c with
  | (IRunEnd | ISleep false | ISleepLoop false) :: IPLoop s' :: _ => bool_decide (s = s')
  | _ => false
  end.

(** or is there already. *)
Definition trying (s : nat) (c : list instr) : bool :=
  match c with
  | IPLoop s' :: _ => bool_decide (s = s')
  | _ => waits s c
  end.

(** Where a thread is kept: on the ready list or in the queues of semaphores. *)
Definition place (R : list nat) (S : gmap nat Semaphore) (t : nat) : Z :=
  occurs t R + total (fun _ sm => occurs t (queue sm)) S.

(** The number of threads in [P] on [s] that are not in its queue [q]. *)
Definition awake (cod : gmap nat (list instr)) (s : nat) (q : list nat) : Z :=
  total (fun t c => Z.b2z (trying s c) - occurs t q) cod.

(** A thread that has to be kept somewhere: [run] is the thread on the processor. *)
Definition offcpu (run : option nat) (cod : gmap nat (list instr)) (dead : option nat) (t : nat) : bool :=
  match cod !! t with
  | Some c => negb (bool_decide (dead = Some t)) && (negb (bool_decide (run = Some t)) || asleep c)
  | None => false
  end.

Record Inv (run : option (nat * IntStatus)) (cod : gmap nat (list instr)) (R : list nat)
    (dead : option nat) (S : gmap nat Semaphore) (nt ns : nat) (C : gmap nat (list nat)) : Prop := mkInv {
  inv_cur t l : run = Some (t, l) -> exists c, cod !! t = Some c /\ typed l c = true;
  inv_parked t c : fst <$> run <> Some t -> cod !! t = Some c -> dead <> Some t ->
    resuming c = true /\ typed IntOff c = true;
  inv_dead d : dead = Some d -> fst <$> run <> Some d /\ cod !! d = Some [IRunEnd] /\
    (forall t l, run = Some (t, l) -> exists c, cod !! t = Some c /\ resuming c = true);
  inv_place t : place R S t = Z.b2z (offcpu (fst <$> run) cod dead t);
  inv_queue s sm t : S !! s = Some sm -> t ∈ queue sm ->
    exists c, cod !! t = Some c /\ waits s c = true;
  inv_value s sm : S !! s = Some sm -> 0 <= value sm;
  inv_wake s sm : S !! s = Some sm -> queue sm <> [] -> value sm <= awake cod s (queue sm);
  inv_threads t : is_Some (cod !! t) -> (t < nt)%nat;
  inv_sems s : is_Some (S !! s) -> (s < ns)%nat;
  inv_conds cd wq w : C !! cd = Some wq -> w ∈ wq -> (w < ns)%nat
}.

Arguments inv_cur {run cod R dead S nt ns C}.
Arguments inv_parked {run cod R dead S nt ns C}.
Arguments inv_dead {run cod R dead S nt ns C}.
Arguments inv_place {run cod R dead S nt ns C}.
Arguments inv_queue {run cod R dead S nt ns C}.
Arguments inv_value {run cod R dead S nt ns C}.
Arguments inv_wake {run cod R dead S nt ns C}.
Arguments inv_threads {run cod R dead S nt ns C}.
Arguments inv_sems {run cod R dead S nt ns C}.
Arguments inv_conds {run cod R dead S nt ns C}.

(** The state between two instructions. *)
Definition Good (k : Kernel) : Prop :=
  Inv (Some (currentThread k, level k)) (code <$> threads k) (readyList k) (toBeDestroyed k)
    (sems k) (nextThread k) (nextSem k) (conds k).

(** ** Facts about frames *)

Lemma plain_typed l c : plain l c = true -> typed l c = true.
Proof. destruct c as [|[]]; done. Qed.

Lemma plain_asleep l c : plain l c = true -> asleep c = false.
Proof. destruct c as [|[]]; done. Qed.

Lemma plain_resuming l c : plain l c = true -> resuming c = false.
Proof. destruct c as [|[]]; done. Qed.

Lemma plain_trying l c s : plain l c = true -> trying s c = false.
Proof. destruct c as [|[]]; done. Qed.

Lemma plain_waits l c s : plain l c = true -> waits s c = false.
Proof. destruct c as [|[]]; done. Qed.

Lemma resumed_typed c : resumed c = true -> typed IntOff c = true.
Proof. destruct c as [|[]]; done. Qed.

Lemma resumed_asleep c : resumed c = true -> asleep c = false.
Proof. destruct c as [|[]]; done. Qed.

Lemma waits_trying s c : waits s c = true -> trying s c = true.
Proof. destruct c as [|[]]; done. Qed.

Lemma resuming_asleep c : resuming c = true -> asleep c = false.
Proof. by destruct c as [|[]]. Qed.

(** A thread is in [P] on one semaphore. *)
Lemma trying_waits s s' c : trying s c = true -> waits s' c = true -> s = s'.
Proof.
  intros H H'. destruct c as [|[] [|[]]]; simpl in *; try done; repeat case_match; try done;
    by rewrite bool_decide_eq_true in H, H'; subst.
Qed.

Create HintDb frames.
#[export] Hint Resolve plain_typed plain_asleep plain_resuming plain_trying plain_waits
  resumed_typed resumed_asleep waits_trying resuming_asleep : frames.

(** ** What the invariant says of single threads *)

Section facts.
Context {run : option (nat * IntStatus)} {cod : gmap nat (list instr)} {R : list nat}
  {dead : option nat} {S : gmap nat Semaphore} {nt ns : nat} {C : gmap nat (list nat)}.
Context (I : Inv run cod R dead S nt ns C).

Lemma place_le t : place R S t <= 1.
Proof. rewrite (inv_place I). by destruct (offcpu _ _ _ _). Qed.

Lemma queues_nonneg (T : gmap nat Semaphore) t : 0 <= total (fun _ sm => occurs t (queue sm)) T.
Proof. apply total_nonneg. intros. apply occurs_nonneg. Qed.

Lemma queue_le s sm t : S !! s = Some sm -> occurs t (queue sm) <= 1 - occurs t R.
Proof.
  intros Hs. pose proof (place_le t) as H. unfold place in H.
  assert (occurs t (queue sm) <= total (fun _ sm => occurs t (queue sm)) S); [|lia].
  apply (total_ge (fun _ sm => occurs t (queue sm)) S s sm); auto. intros. apply occurs_nonneg.
Qed.

(** A thread that is kept nowhere. *)
Lemma place_0 t : offcpu (fst <$> run) cod dead t = false ->
  occurs t R = 0 /\ (forall s sm, S !! s = Some sm -> occurs t (queue sm) = 0) /\
  total (fun _ sm => occurs t (queue sm)) S = 0.
Proof.
  intros Ho. pose proof (inv_place I t) as H. rewrite Ho in H. unfold place in H. simpl in H.
  pose proof (occurs_nonneg t R). pose proof (queues_nonneg S t). repeat split; try lia.
  intros s sm Hs. pose proof (occurs_nonneg t (queue sm)).
  assert (occurs t (queue sm) <= total (fun _ sm => occurs t (queue sm)) S); [|lia].
  apply (total_ge (fun _ sm => occurs t (queue sm)) S s sm); auto. intros. apply occurs_nonneg.
Qed.

Lemma ready_offcpu t : t ∈ R -> offcpu (fst <$> run) cod dead t = true.
Proof.
  rewrite occurs_elem. intros H. destruct (offcpu _ _ _ _) eqn:Ho; [done|].
  apply place_0 in Ho. lia.
Qed.

Lemma queue_offcpu s sm t : S !! s = Some sm -> t ∈ queue sm -> offcpu (fst <$> run) cod dead t = true.
Proof.
  rewrite occurs_elem. intros Hs H. destruct (offcpu _ _ _ _) eqn:Ho; [done|].
  apply place_0 in Ho as (_ & Ho & _). rewrite (Ho s sm) in H by done. lia.
Qed.

Lemma awake_term s sm t c : S !! s = Some sm -> cod !! t = Some c ->
  0 <= Z.b2z (trying s c) - occurs t (queue sm).
Proof.
  intros Hs Ht. destruct (decide (t ∈ queue sm)) as [Hq|Hq].
  - destruct (inv_queue I s sm t Hs Hq) as (c' & Hc & Hw). simplify_eq.
    rewrite (waits_trying _ _ Hw). pose proof (queue_le s sm t Hs). pose proof (occurs_nonneg t R). simpl. lia.
  - rewrite occurs_elem in Hq. destruct (trying s c); simpl; lia.
Qed.

Lemma awake_ge s sm t c : S !! s = Some sm -> cod !! t = Some c ->
  Z.b2z (trying s c) - occurs t (queue sm) <= awake cod s (queue sm).
Proof.
  intros Hs Ht. apply (total_ge (fun t c => Z.b2z (trying s c) - occurs t (queue sm)) cod t c); auto.
  intros u d Hu. by apply awake_term.
Qed.

End facts.

Lemma offcpu_running t cod dead c : cod !! t = Some c -> asleep c = false ->
  offcpu (Some t) cod dead t = false.
Proof.
  intros Hc Ha. unfold offcpu. rewrite Hc, Ha. simpl. rewrite (bool_decide_true (Some t = Some t)) by done.
  by rewrite andb_false_r.
Qed.

(** Another entry of [cod] does not matter. *)
Lemma offcpu_insert_ne run cod dead t u c : u <> t ->
  offcpu run (<[t := c]> cod) dead u = offcpu run cod dead u.
Proof. intros. unfold offcpu. by rewrite lookup_insert_ne. Qed.

(** Only [t] changes its code, and it leaves the queue of [s] as often as it is there. *)
Lemma awake_insert cod s q t c c' : cod !! t = Some c ->
  awake (<[t := c']> cod) s q = awake cod s q - Z.b2z (trying s c) + Z.b2z (trying s c').
Proof. intros. unfold awake. rewrite (total_insert _ _ _ c) by done. lia. Qed.

(** [t] alone is in the queue more or less often. *)
Lemma awake_queue cod s q q' t c : cod !! t = Some c ->
  (forall u, u <> t -> occurs u q' = occurs u q) ->
  awake cod s q' = awake cod s q + occurs t q - occurs t q'.
Proof.
  intros Hc H. unfold awake. rewrite <- (insert_id cod t c) at 1 by done.
  rewrite (total_change (fun t c => Z.b2z (trying s c) - occurs t q) _ _ _ c) by (auto; intros; rewrite H; auto).
  lia.
Qed.

(** A semaphore changes its queue. *)
Lemma place_sems R S s sm v q t : S !! s = Some sm ->
  place R (<[s := mkSem v q]> S) t = place R S t - occurs t (queue sm) + occurs t q.
Proof. intros. unfold place. rewrite (total_insert _ _ _ sm) by done. simpl. lia. Qed.

(** ** What single actions do to the invariant *)

Section actions.
Context {cod : gmap nat (list instr)} {R : list nat} {S : gmap nat Semaphore} {nt ns : nat} {C : gmap nat (list nat)}.

(** The running thread goes on to other frames. *)
Lemma inv_frame t l l' c c' : Inv (Some (t, l)) cod R None S nt ns C -> cod !! t = Some c ->
  typed l' c' = true -> asleep c' = asleep c ->
  (forall s, asleep c = true -> waits s c = true -> waits s c' = true) ->
  (forall s, trying s c = true -> trying s c' = true) ->
  Inv (Some (t, l')) (<[t := c']> cod) R None S nt ns C.
Proof.
  intros I Hc Ht Ha Hw Htr. split.
  - intros ? ? [= <- <-]. exists c'. by rewrite lookup_insert_eq.
  - intros u d Hu. rewrite lookup_insert_ne by (simpl in Hu; congruence). by apply (inv_parked I).
  - done.
  - intros u. rewrite (inv_place I). f_equal. unfold offcpu.
    destruct (decide (u = t)) as [->|]; [by rewrite lookup_insert_eq, Hc, Ha|by rewrite lookup_insert_ne].
  - intros s sm u Hs Hu. pose proof (queue_offcpu I s sm u Hs Hu) as Ho.
    destruct (inv_queue I s sm u Hs Hu) as (d & Hd & Hwd).
    destruct (decide (u = t)) as [->|]; [|exists d; by rewrite lookup_insert_ne].
    simplify_eq. exists c'. rewrite lookup_insert_eq. split; [done|]. apply Hw; [|done].
    destruct (asleep c) eqn:Hs'; [done|]. simpl in Ho. by rewrite (offcpu_running _ _ _ c) in Ho.
  - apply (inv_value I).
  - intros s sm Hs Hq. pose proof (inv_wake I s sm Hs Hq).
    rewrite (awake_insert _ _ _ _ c) by done. specialize (Htr s).
    destruct (trying s c), (trying s c'); simpl in *; lia.
  - intros u Hu. apply (inv_threads I). destruct (decide (u = t)) as [->|]; [by eexists|].
    by rewrite lookup_insert_ne in Hu.
  - apply (inv_sems I).
  - apply (inv_conds I).
Qed.

(** A semaphore changes, and threads move from its queue to the ready list. *)
Lemma inv_sem run dead s sm sm' R' : Inv run cod R dead S nt ns C -> S !! s = Some sm ->
  (forall t, occurs t R' + occurs t (queue sm') = occurs t R + occurs t (queue sm)) ->
  (forall t, t ∈ queue sm' -> t ∈ queue sm) -> 0 <= value sm' ->
  (queue sm' <> [] -> value sm' <= awake cod s (queue sm')) ->
  Inv run cod R' dead (<[s := sm']> S) nt ns C.
Proof.
  intros I Hs Hp Hq Hv Hw. split.
  - apply (inv_cur I).
  - apply (inv_parked I).
  - apply (inv_dead I).
  - intros t. specialize (Hp t). rewrite <- (inv_place I). unfold place.
    rewrite (total_insert _ _ _ sm) by done. lia.
  - intros s' sm1 t [[-> <-]|[? Hs']]%lookup_insert_Some Ht.
    + apply (inv_queue I _ sm); auto.
    + by apply (inv_queue I _ sm1).
  - intros s' sm1 [[-> <-]|[? Hs']]%lookup_insert_Some; [done|by apply (inv_value I _ _ Hs')].
  - intros s' sm1 [[-> <-]|[? Hs']]%lookup_insert_Some; [done|by apply (inv_wake I)].
  - apply (inv_threads I).
  - intros s' [->|[? Hs']]%lookup_insert_is_Some; apply (inv_sems I); [by eexists|done].
  - apply (inv_conds I).
Qed.

(** [V] without and with a waiting thread. *)
Lemma inv_V_empty run dead s v : Inv run cod R dead S nt ns C -> S !! s = Some (mkSem v []) ->
  Inv run cod R dead (<[s := mkSem (v + 1) []]> S) nt ns C.
Proof.
  intros I Hs. pose proof (inv_value I _ _ Hs). simpl in *.
  apply (inv_sem _ _ _ _ _ _ I Hs); simpl; auto with lia. done.
Qed.

Lemma inv_V_wake run dead s v x q : Inv run cod R dead S nt ns C -> S !! s = Some (mkSem v (x :: q)) ->
  Inv run cod (R ++ [x]) dead (<[s := mkSem (v + 1) q]> S) nt ns C.
Proof.
  intros I Hs. assert (Hx : exists c, cod !! x = Some c /\ waits s c = true).
  { apply (inv_queue I _ _ x Hs). simpl. set_solver. }
  destruct Hx as (c & Hc & Hw). pose proof (inv_value I _ _ Hs). simpl in *.
  apply (inv_sem _ _ _ _ _ _ I Hs); simpl; [|set_solver|lia|].
  - intros t. rewrite occurs_app, !occurs_cons, occurs_nil. lia.
  - intros _. pose proof (inv_wake I _ _ Hs) as Hk. simpl in *. ospecialize (Hk _); [done|].
    rewrite (awake_queue _ _ (x :: q) _ x c) by (auto; intros; by rewrite occurs_cons, decide_False).
    rewrite occurs_cons, decide_True by done. lia.
Qed.

(** The running thread enters the queue of a semaphore, or passes it. *)
Lemma inv_P t s c sm sm' c' : Inv (Some (t, IntOff)) cod R None S nt ns C ->
  cod !! t = Some (IPLoop s :: c) -> S !! s = Some sm -> typed IntOff c' = true ->
  queue sm' = queue sm ++ (if asleep c' then [t] else []) ->
  (asleep c' = true -> waits s c' = true) -> (forall s', s' <> s -> trying s' c' = false) ->
  0 <= value sm' -> value sm' = (if asleep c' then 0 else value sm - 1) ->
  Inv (Some (t, IntOff)) (<[t := c']> cod) R None (<[s := sm']> S) nt ns C.
Proof.
  intros I Hc Hs Ht Hq Hw Htr Hv Hv'.
  destruct (place_0 I t (offcpu_running _ _ _ _ Hc eq_refl)) as (HR & HQ & HT).
  assert (Hnq : forall s sm, S !! s = Some sm -> t ∉ queue sm).
  { intros s1 sm1 H1. rewrite occurs_elem, (HQ s1 sm1 H1). lia. }
  assert (Ho : forall u, occurs u (queue sm') =
    occurs u (queue sm) + (if decide (u = t) then Z.b2z (asleep c') else 0)).
  { intros u. rewrite Hq, occurs_app. destruct (asleep c'); rewrite ?occurs_cons, ?occurs_nil; case_decide; simpl; lia. }
  assert (Hplace : forall u, place R (<[s := sm']> S) u =
    Z.b2z (offcpu (Some t) (<[t := c']> cod) None u)).
  { intros u. destruct sm' as [v' q']. simpl in *. rewrite (place_sems _ _ _ sm), (inv_place I), Ho by done. simpl.
    case_decide as Hu; [subst u|rewrite (offcpu_insert_ne _ _ _ _ u) by done; lia].
    rewrite (offcpu_running _ _ _ _ Hc) by done. unfold offcpu. rewrite lookup_insert_eq.
    rewrite (bool_decide_true (Some t = Some t)) by done. simpl. lia. }
  assert (Hqu : forall s' sm1 u, <[s := sm']> S !! s' = Some sm1 -> u ∈ queue sm1 ->
    exists d, <[t := c']> cod !! u = Some d /\ waits s' d = true).
  { intros s' sm1 u Hs' Hu. destruct (decide (u = t)) as [->|Hut].
    - exists c'. rewrite lookup_insert_eq. apply lookup_insert_Some in Hs' as [[-> <-]|[? Hs']].
      + split; [done|]. apply Hw. destruct (asleep c'); [done|]. rewrite Hq, app_nil_r in Hu. by destruct (Hnq s' sm).
      + by destruct (Hnq s' sm1).
    - rewrite lookup_insert_ne by done. apply lookup_insert_Some in Hs' as [[-> <-]|[? Hs']].
      + apply (inv_queue I _ sm); [done|]. rewrite Hq in Hu. destruct (asleep c'); set_solver.
      + by apply (inv_queue I _ sm1). }
  split; try done.
  - intros ? ? [= <- <-]. exists c'. by rewrite lookup_insert_eq.
  - intros u d Hu. rewrite lookup_insert_ne by (simpl in Hu; congruence). by apply (inv_parked I).
  - intros s' sm1 [[-> <-]|[? Hs']]%lookup_insert_Some; [done|by apply (inv_value I _ _ Hs')].
  - intros s' sm1 [[<- <-]|[? Hs']]%lookup_insert_Some Hne.
    + rewrite (awake_insert _ _ _ _ _ _ Hc).
      rewrite (awake_queue _ _ (queue sm) _ t _ Hc) by (intros u Hu; rewrite Ho, decide_False by done; lia).
      rewrite Ho, decide_True, (HQ _ _ Hs) by done.
      pose proof (awake_ge I _ _ _ _ Hs Hc) as Hg. rewrite (HQ _ _ Hs) in Hg. simpl in Hg |- *.
      rewrite (bool_decide_true (s = s)) in * by done. simpl in Hg |- *. rewrite Hv'.
      destruct (asleep c') eqn:Ha; simpl.
      * rewrite (waits_trying s c') by auto. simpl. lia.
      * rewrite Hq, app_nil_r in Hne. pose proof (inv_wake I _ _ Hs Hne).
        destruct (trying s c'); simpl; lia.
    + rewrite (awake_insert _ _ _ _ _ _ Hc), Htr by done. simpl. rewrite (bool_decide_false (s' = s)) by done.
      pose proof (inv_wake I _ _ Hs' Hne). simpl. lia.
  - intros u [->|[? Hu]]%lookup_insert_is_Some; apply (inv_threads I); [by eexists|done].
  - intros s' [->|[? Hs']]%lookup_insert_is_Some; apply (inv_sems I); [by eexists|done].
  - apply (inv_conds I).
Qed.

(** The running thread leaves the processor: to the ready list unless it sleeps, or
    for good. *)
Lemma inv_park t l c c' (fin : bool) : Inv (Some (t, l)) cod R None S nt ns C -> cod !! t = Some c ->
  (if fin then c' = [] /\ asleep c = false else resumed c' = true) ->
  (forall s, asleep c = true -> waits s c = true -> waits s (IRunEnd :: c') = true) ->
  (forall s, trying s c = true -> trying s (IRunEnd :: c') = true) ->
  Inv None (<[t := IRunEnd :: c']> cod) (R ++ if fin || asleep c then [] else [t])
    (if fin then Some t else None) S nt ns C.
Proof.
  intros I Hc Hf Hw Htr. split.
  - done.
  - intros u d _ [[<- <-]|[Hu Hd]]%lookup_insert_Some Hfin.
    + destruct fin; [done|]. by split; [|apply Hf].
    + apply (inv_parked I u); [simpl; congruence|done|done].
  - intros d Hd. destruct fin; simplify_eq. destruct Hf as [-> _]. by rewrite lookup_insert_eq.
  - intros u. unfold place. rewrite occurs_app. pose proof (inv_place I u) as Hp. unfold place in Hp.
    revert Hp. unfold offcpu. destruct (decide (u = t)) as [->|Hu].
    + rewrite lookup_insert_eq, Hc. simpl. rewrite (bool_decide_true (Some t = Some t)) by done.
      destruct fin; simpl; [rewrite bool_decide_true by done; destruct Hf as [_ ->]; rewrite occurs_nil; simpl; lia|].
      destruct (asleep c); rewrite ?occurs_cons, ?decide_True, occurs_nil by done; simpl; lia.
    + rewrite lookup_insert_ne by done. simpl. rewrite (bool_decide_false (Some t = Some u)) by congruence.
      rewrite (bool_decide_false ((if fin then Some t else None) = Some u)) by (destruct fin; congruence).
      destruct (fin || asleep c); rewrite ?occurs_cons, ?decide_False, occurs_nil by done;
        destruct (cod !! u); simpl; lia.
  - intros s sm u Hs Hu. destruct (inv_queue I s sm u Hs Hu) as (d & Hd & Hwd).
    destruct (decide (u = t)) as [->|]; [|exists d; by rewrite lookup_insert_ne].
    simplify_eq. eexists. rewrite lookup_insert_eq. split; [done|]. apply Hw; [|done].
    pose proof (queue_offcpu I s sm t Hs Hu) as Ho. destruct (asleep c) eqn:Ha; [done|].
    simpl in Ho. by rewrite (offcpu_running _ _ _ c) in Ho.
  - apply (inv_value I).
  - intros s sm Hs Hq. pose proof (inv_wake I s sm Hs Hq). rewrite (awake_insert _ _ _ _ c) by done.
    specialize (Htr s). destruct (trying s c); [rewrite Htr by done; lia|].
    destruct (trying s (IRunEnd :: c')); simpl; lia.
  - intros u [->|[? Hu]]%lookup_insert_is_Some; apply (inv_threads I); [by eexists|done].
  - apply (inv_sems I).
  - apply (inv_conds I).
Qed.

(** The first ready thread gets the processor. *)
Lemma inv_dispatch n dead : Inv None cod (n :: R) dead S nt ns C ->
  Inv (Some (n, IntOff)) cod R dead S nt ns C.
Proof.
  intros I. pose proof (ready_offcpu I n ltac:(set_solver)) as Hn. unfold offcpu in Hn.
  destruct (cod !! n) as [c|] eqn:Hc; [|done]. apply andb_prop in Hn as [Hd _].
  apply negb_true_iff, bool_decide_eq_false in Hd.
  destruct (inv_parked I n c) as [Hr Ht]; [done..|]. split.
  - intros ? ? [= <- <-]. eauto.
  - intros u d Hu. by apply (inv_parked I).
  - intros d Hdd. destruct (inv_dead I d Hdd) as (_ & ? & _). split; [simpl; congruence|]. split; [done|].
    intros ? ? [= <- <-]. eauto.
  - intros u. pose proof (inv_place I u) as Hp. unfold place in *. rewrite occurs_cons in Hp.
    revert Hp. unfold offcpu. simpl. case_decide as Hu.
    + subst u. rewrite Hc, (bool_decide_true (Some n = Some n)), (resuming_asleep c) by done. simpl.
      rewrite (bool_decide_false (dead = Some n)) by done. simpl. lia.
    + destruct (cod !! u) as [d|]; simpl; [|lia]. rewrite (bool_decide_false (Some n = Some u)) by congruence. done.
  - apply (inv_queue I).
  - apply (inv_value I).
  - apply (inv_wake I).
  - apply (inv_threads I).
  - apply (inv_sems I).
  - apply (inv_conds I).
Qed.

(** A finished thread is deleted. *)
Lemma inv_destroy run d : Inv run cod R (Some d) S nt ns C ->
  Inv run (delete d cod) R None S nt ns C /\ fst <$> run <> Some d.
Proof.
  intros I. destruct (inv_dead I d eq_refl) as (Hr & Hd & _).
  assert (Ho : offcpu (fst <$> run) cod (Some d) d = false).
  { unfold offcpu. by rewrite Hd, bool_decide_true. }
  destruct (place_0 I d Ho) as (HR & HQ & HT). split; [|done]. split.
  - intros t l ->. destruct (inv_cur I t l eq_refl) as (c & Hc & Ht). exists c.
    rewrite lookup_delete_ne; [done|simpl in Hr; congruence].
  - intros t c Ht [? Hc]%lookup_delete_Some _. apply (inv_parked I t c); congruence.
  - done.
  - intros t. rewrite (inv_place I). f_equal. unfold offcpu. destruct (decide (t = d)) as [->|].
    + by rewrite Hd, lookup_delete_eq, bool_decide_true.
    + rewrite lookup_delete_ne by done. destruct (cod !! t); [|done].
      by rewrite (bool_decide_false (Some d = Some t)) by congruence.
  - intros s sm t Hs Ht. destruct (inv_queue I s sm t Hs Ht) as (c & Hc & Hw). exists c.
    rewrite lookup_delete_ne; [done|]. intros ->. rewrite occurs_elem, (HQ s sm) in Ht by done. lia.
  - apply (inv_value I).
  - intros s sm Hs Hq. pose proof (inv_wake I s sm Hs Hq). unfold awake in *.
    rewrite (total_delete _ _ _ [IRunEnd]), (HQ s sm) by done. simpl. lia.
  - intros t [c [? Hc]%lookup_delete_Some]. apply (inv_threads I). eauto.
  - apply (inv_sems I).
  - apply (inv_conds I).
Qed.

(** A new thread is ready. *)
Lemma inv_new run dead c : Inv run cod R dead S nt ns C ->
  resuming c = true -> typed IntOff c = true -> (forall s, trying s c = false) ->
  Inv run (<[nt := c]> cod) (R ++ [nt]) dead S (Datatypes.S nt) ns C.
Proof.
  intros I Hr Ht Htr. assert (Hn : cod !! nt = None).
  { destruct (cod !! nt) eqn:Hn; [|done]. pose proof (inv_threads I nt) as H. rewrite Hn in H.
    ospecialize (H _); [by eexists|lia]. }
  assert (Hnr : forall t l, run = Some (t, l) -> t <> nt).
  { intros t l Hrun ->. destruct (inv_cur I _ _ Hrun) as (? & ? & _). congruence. }
  assert (Hrun : fst <$> run <> Some nt).
  { destruct run as [[t l]|]; [|done]. intros [= ->]. by destruct (Hnr nt l). }
  assert (Hdn : dead <> Some nt).
  { intros Hd. destruct (inv_dead I _ Hd) as (_ & ? & _). congruence. }
  assert (Ho : offcpu (fst <$> run) cod dead nt = false) by (unfold offcpu; by rewrite Hn).
  destruct (place_0 I nt Ho) as (HR & HQ & HT).
  assert (Hkeep : forall t d, cod !! t = Some d -> <[nt := c]> cod !! t = Some d).
  { intros t d Hd. rewrite lookup_insert_ne; congruence. }
  split.
  - intros t l Hr'. destruct (inv_cur I _ _ Hr') as (d & Hd & ?). eauto.
  - intros t d Ht' [[<- <-]|[? Hd]]%lookup_insert_Some Hdd; [done|]. by apply (inv_parked I t).
  - intros d Hd. destruct (inv_dead I d Hd) as (? & ? & Hx). repeat split; auto.
    intros t l Hr'. destruct (Hx t l Hr') as (e & ? & ?). eauto.
  - intros t. pose proof (inv_place I t) as Hp. unfold place in *. rewrite occurs_app, occurs_cons, occurs_nil.
    case_decide as Htn; [subst t|rewrite offcpu_insert_ne by done; lia].
    rewrite HR, HT. unfold offcpu. rewrite lookup_insert_eq, !bool_decide_false by done. done.
  - intros s sm t Hs Hq. destruct (inv_queue I s sm t Hs Hq) as (d & ? & ?). eauto.
  - apply (inv_value I).
  - intros s sm Hs Hq. pose proof (inv_wake I s sm Hs Hq). unfold awake in *.
    rewrite total_insert_new, Htr, (HQ s sm) by done. simpl. lia.
  - intros t [->|[? Hu]]%lookup_insert_is_Some; [lia|]. pose proof (inv_threads I t Hu). lia.
  - apply (inv_sems I).
  - apply (inv_conds I).
Qed.

(** A new semaphore. *)
Lemma inv_newsem run dead C' : Inv run cod R dead S nt ns C ->
  (forall cd wq w, C' !! cd = Some wq -> w ∈ wq -> (w < Datatypes.S ns)%nat) ->
  Inv run cod R dead (<[ns := mkSem 0 []]> S) nt (Datatypes.S ns) C'.
Proof.
  intros I HC. assert (Hn : S !! ns = None).
  { destruct (S !! ns) eqn:Hn; [|done]. pose proof (inv_sems I ns) as H. rewrite Hn in H.
    ospecialize (H _); [by eexists|lia]. }
  split.
  - apply (inv_cur I).
  - apply (inv_parked I).
  - apply (inv_dead I).
  - intros t. rewrite <- (inv_place I). unfold place. rewrite total_insert_new by done. simpl. rewrite occurs_nil. lia.
  - intros s sm t [[<- <-]|[? Hs]]%lookup_insert_Some Ht; [simpl in Ht; set_solver|by apply (inv_queue I s sm)].
  - intros s sm [[<- <-]|[? Hs]]%lookup_insert_Some; [done|by apply (inv_value I _ _ Hs)].
  - intros s sm [[<- <-]|[? Hs]]%lookup_insert_Some Hq; [done|by apply (inv_wake I)].
  - apply (inv_threads I).
  - intros s [->|[? Hs]]%lookup_insert_is_Some; [lia|]. pose proof (inv_sems I s Hs). lia.
  - done.
Qed.

(** Other waiters on conditions. *)
Lemma inv_waiters run dead C' : Inv run cod R dead S nt ns C ->
  (forall cd wq w, C' !! cd = Some wq -> w ∈ wq -> (w < ns)%nat) -> Inv run cod R dead S nt ns C'.
Proof. intros [] ?. by split. Qed.

End actions.

(** ** Operations *)

(** The outcomes of an operation: it ends as [Q] says, it fails an assertion or follows a
    pointer to no object only when [F], and halts the machine only when [G]. *)
Definition post {A} (F G : Prop) (Q : A -> Prop) (r : result A) : Prop :=
  match r with
  | Ret a => Q a
  | AssertFail | Fault => F
  | Halted => G
  | NoFuel => False
  end.

Lemma post_bind {A B} F G (Q : B -> Prop) (c : result A) (f : A -> result B) :
  post F G (fun a => post F G Q (f a)) c -> post F G Q (rbind c f).
Proof. by destruct c. Qed.

Lemma post_mono {A} (F F' G G' : Prop) (Q Q' : A -> Prop) r :
  (F -> F') -> (G -> G') -> (forall a, Q a -> Q' a) -> post F G Q r -> post F' G' Q' r.
Proof. destruct r; simpl; auto. Qed.

Lemma post_weaken {A} F G (Q Q' : A -> Prop) r : (forall a, Q a -> Q' a) -> post F G Q r -> post F G Q' r.
Proof. by apply post_mono. Qed.

Lemma post_deref {A} F G (Q : A -> Prop) (m : gmap nat A) p :
  (forall x, m !! p = Some x -> Q x) -> (m !! p = None -> F) -> post F G Q (deref m p).
Proof. unfold deref. destruct (m !! p); simpl; auto. Qed.

(** The same for an object that is known to exist. *)
Lemma post_deref_ok {A B} F G (Q : A -> Prop) (m : gmap nat A) (g : A -> B) p y :
  (g <$> m) !! p = Some y -> (forall x, m !! p = Some x -> Q x) -> post F G Q (deref m p).
Proof. rewrite lookup_fmap. unfold deref. destruct (m !! p); simpl; auto. done. Qed.

Lemma post_assert F G (Q : unit -> Prop) b : (b = true -> Q tt) -> (b = false -> F) -> post F G Q (ASSERT b).
Proof. destruct b; simpl; auto. Qed.

Abbreviation codes k := (code <$> threads k).

Definition GoodAt (run : option (nat * IntStatus)) (k : Kernel) : Prop :=
  Inv run (codes k) (readyList k) (toBeDestroyed k) (sems k) (nextThread k) (nextSem k) (conds k).

Section basic.
Context {F G : Prop}.

Lemma setStatus_post (Q : Kernel -> Prop) k t st c : codes k !! t = Some c ->
  (forall m, code <$> m = codes k -> Q (set_threads k m)) -> post F G Q (setStatus k t st).
Proof.
  intros Hc H. eapply post_bind, post_deref_ok; [apply Hc|]. intros th Hth. apply H.
  rewrite fmap_insert. simpl. rewrite insert_id; [done|]. rewrite lookup_fmap, Hth in *. done.
Qed.

Lemma push_post (Q : Kernel -> Prop) k p c : codes k !! currentThread k = Some c ->
  (forall m, code <$> m = <[currentThread k := p ++ c]> (codes k) -> Q (set_threads k m)) ->
  post F G Q (push k p).
Proof.
  intros Hc H. eapply post_bind, post_deref_ok; [apply Hc|]. intros th Hth. apply H.
  rewrite fmap_insert. simpl. rewrite lookup_fmap, Hth in Hc. simpl in Hc. congruence.
Qed.

Lemma ReadyToRun_post (Q : Kernel -> Prop) k t c : level k = IntOff -> codes k !! t = Some c -> t ∉ readyList k ->
  (forall m, code <$> m = codes k -> Q (set_ready (set_threads k m) (readyList k ++ [t]))) ->
  post F G Q (ReadyToRun k t).
Proof.
  intros Hl Hc Ht H. unfold ReadyToRun, is_off. rewrite Hl, bool_decide_true by done. simpl.
  apply post_bind. eapply setStatus_post; [done|]. intros m Hm. simpl.
  unfold Seq.Append, Seq.IsInList. rewrite bool_decide_false by done. simpl. auto.
Qed.

Lemma FindNextToRun_post (Q' : Kernel * option nat -> Prop) k : level k = IntOff ->
  (readyList k = [] -> Q' (k, None)) ->
  (forall n r, readyList k = n :: r -> Q' (set_ready k r, Some n)) ->
  post F G Q' (FindNextToRun k).
Proof.
  intros Hl He Hn. unfold FindNextToRun, is_off. rewrite Hl, bool_decide_true by done. simpl.
  destruct (readyList k) as [|n r]; simpl; auto.
Qed.

End basic.

(** What handlers do not touch. *)
Definition quiet (k k' : Kernel) : Prop :=
  level k' = level k /\ currentThread k' = currentThread k /\ toBeDestroyed k' = toBeDestroyed k /\
  codes k' = codes k /\ (forall s, sems k' !! s = None -> sems k !! s = None).

Lemma V_body_post F G run k s : GoodAt run k -> level k = IntOff -> (sems k !! s = None -> F) ->
  post F G (fun k' => GoodAt run k' /\ quiet k k') (V_body k s).
Proof.
  intros I Hl HF. apply post_bind, post_deref; [|done]. intros [v q] Hs. simpl.
  assert (Hd : forall v' q' s', <[s := mkSem v' q']> (sems k) !! s' = None -> sems k !! s' = None).
  { by intros v' q' s' [? _]%lookup_insert_None. }
  destruct q as [|x q].
  - simpl. split; [|unfold quiet; simpl; split_and!; eauto]. by apply inv_V_empty.
  - simpl. rewrite rbind_assoc. apply post_bind.
    destruct (inv_queue I s _ x Hs ltac:(simpl; set_solver)) as (c & Hc & _).
    eapply ReadyToRun_post; [done..| |].
    + intros Hr. apply occurs_elem in Hr. pose proof (queue_le I s _ x Hs) as Hq. simpl in Hq.
      rewrite occurs_cons, decide_True in Hq by done. pose proof (occurs_nonneg x q). lia.
    + intros m Hm. simpl. split; [|unfold quiet; simpl; split_and!; eauto]. unfold GoodAt. simpl. rewrite Hm.
      by apply inv_V_wake.
Qed.

Lemma run_handlers_post F G run hs : forall k, GoodAt run k -> level k = IntOff ->
  (forall s, s ∈ hs -> sems k !! s = None -> F) ->
  post F G (fun k' => GoodAt run k' /\ quiet k k') (run_handlers k hs).
Proof.
  induction hs as [|s hs IH]; intros k I Hl HF; simpl.
  - split; [done|by repeat split].
  - apply post_bind. eapply post_weaken; [|apply (V_body_post F G run); [done..|apply HF; set_solver]].
    intros k1 (I1 & Hl1 & Hc & Hd & Hm & Hs).
    eapply post_weaken; [|apply IH; [done|congruence|]].
    + intros k2 (I2 & ? & ? & ? & ? & ?). split; [done|]. unfold quiet. split_and!; eauto; congruence.
    + intros s' Hs' Hn. apply (HF s'); [set_solver|auto].
Qed.

(** A state in which the running thread is outside the kernel's waiting points, and goes
    on with [c] at level [l]. *)
Record Plain (l : IntStatus) (c : list instr) (k : Kernel) : Prop := mkPlain {
  pl_inv : GoodAt (Some (currentThread k, l)) k;
  pl_code : codes k !! currentThread k = Some c;
  pl_plain : plain l c = true
}.
Arguments pl_inv {l c k}.
Arguments pl_code {l c k}.
Arguments pl_plain {l c k}.

(** Only a thread that leaves [SWITCH] finds one to destroy. *)
Lemma not_resuming_dead k l c : GoodAt (Some (currentThread k, l)) k ->
  codes k !! currentThread k = Some c -> resuming c = false -> toBeDestroyed k = None.
Proof.
  intros I Hc Hr. destruct (toBeDestroyed k) as [d|] eqn:Hd; [|done].
  unfold GoodAt in I. rewrite Hd in I.
  destruct (inv_dead I d eq_refl) as (_ & _ & Hx). destruct (Hx _ _ eq_refl) as (c' & ? & ?). congruence.
Qed.

Lemma Plain_dead l c k : Plain l c k -> toBeDestroyed k = None.
Proof. intros [I Hc Hp]. eapply not_resuming_dead; eauto with frames. Qed.

(** [inv_frame] for the whole state. *)
Lemma GoodAt_frame k l l' c c' m : GoodAt (Some (currentThread k, l)) k ->
  codes k !! currentThread k = Some c -> resuming c = false ->
  code <$> m = <[currentThread k := c']> (codes k) ->
  typed l' c' = true -> asleep c' = asleep c ->
  (forall s, asleep c = true -> waits s c = true -> waits s c' = true) ->
  (forall s, trying s c = true -> trying s c' = true) ->
  GoodAt (Some (currentThread k, l')) (set_threads k m).
Proof.
  intros I Hc Hr Hm Ht Ha Hw Htr. pose proof (not_resuming_dead k l c I Hc Hr) as Hd.
  unfold GoodAt in *. simpl. rewrite Hd, Hm in *. by eapply inv_frame.
Qed.

Lemma Plain_frame k l l' c c' m : Plain l c k -> code <$> m = <[currentThread k := c']> (codes k) ->
  typed l' c' = true -> asleep c' = false -> GoodAt (Some (currentThread k, l')) (set_threads k m).
Proof.
  intros [I Hc Hp] Hm Ht Ha.
  eapply GoodAt_frame; eauto with frames.
  - by rewrite (plain_asleep _ _ Hp).
  - intros s. by rewrite (plain_asleep _ _ Hp).
  - intros s. by rewrite (plain_trying _ _ _ Hp).
Qed.

Lemma Plain_level k l l' c : Plain l c k -> Plain l c (set_level k l').
Proof. intros [? ? ?]. by split. Qed.

Lemma Plain_push F G k l l' c p : Plain l c k -> typed l' (p ++ c) = true -> asleep (p ++ c) = false ->
  post F G (fun k' => GoodAt (Some (currentThread k', l')) k' /\ level k' = level k) (push k p).
Proof.
  intros HP Ht Ha. eapply push_post; [apply (pl_code HP)|]. intros m Hm. split; [|done].
  by eapply (Plain_frame k l).
Qed.

(** The next interrupts signal a semaphore that is not there. *)
Definition tick_dangling (k : Kernel) : Prop :=
  exists tk rest s, ticks k = tk :: rest /\ s ∈ handlers tk /\ sems k !! s = None.

Definition idle_dangling (k : Kernel) : Prop :=
  exists hs rest s, idles k = hs :: rest /\ s ∈ hs /\ sems k !! s = None.

(** Time passes when interrupts are enabled; the running thread may be asked to yield. *)
Lemma OneTick_post F G k c : Plain IntOn c k -> level k = IntOn -> (tick_dangling k -> F) ->
  post F G Good (OneTick k).
Proof.
  intros HP Hl HF. unfold OneTick. destruct (ticks k) as [|[hs b] rest] eqn:Htk; [simpl|].
  { unfold Good. rewrite Hl. apply HP. }
  apply post_bind. eapply post_weaken; [|apply (run_handlers_post F G (Some (currentThread k, IntOn)))];
    [|apply HP|done|simpl; intros s Hs Hn; apply HF; by exists (mkTick hs b), rest, s].
  intros k1 (I & Hl1 & Hc & Hd & Hm & _). simpl in *.
  assert (HP1 : Plain IntOn c (set_level k1 IntOn)).
  { split; simpl; [by rewrite Hc|rewrite Hc, Hm|]; apply HP. }
  destruct b; [|apply HP1].
  eapply post_weaken; [|apply (Plain_push F G _ IntOn IntOn c); [done|..]].
  - intros k2 [I2 Hl2]. unfold Good. by rewrite Hl2.
  - simpl. apply HP.
  - done.
Qed.

Lemma SetLevel_post F G k n c : Plain n c k -> (tick_dangling k -> F) -> post F G Good (SetLevel k n).
Proof.
  intros HP HF. unfold SetLevel. destruct (_ && _) eqn:Hb.
  - apply andb_prop in Hb as [Hn%bool_decide_eq_true _]. subst n. eapply OneTick_post; [by apply Plain_level|done|done].
  - simpl. apply HP.
Qed.

Lemma SetLevel_off k : SetLevel k IntOff = Ret (set_level k IntOff).
Proof. done. Qed.

(** The switch: the invariant with nobody on the processor is enough. *)
Lemma Run_post F G k n (fin : bool) c : level k = IntOff -> codes k !! currentThread k = Some c ->
  (fin = true -> toBeDestroyed k = None) ->
  Inv None (<[currentThread k := IRunEnd :: c]> (codes k)) (n :: readyList k)
    (if fin then Some (currentThread k) else toBeDestroyed k) (sems k) (nextThread k) (nextSem k) (conds k) ->
  post F G Good (Run k n fin).
Proof.
  intros Hl Hc Hd I. apply inv_dispatch in I. unfold Run, is_off.
  rewrite Hl, bool_decide_true by done. simpl. apply post_bind.
  set (k1 := if fin then set_destroyed k (Some (currentThread k)) else k).
  assert (Hk1 : (if fin then assert* bool_decide (toBeDestroyed k = None) in
      Ret (set_destroyed k (Some (currentThread k))) else Ret k) = Ret k1).
  { unfold k1. destruct fin; [|done]. rewrite Hd by done. done. }
  rewrite Hk1. simpl. apply post_bind.
  assert (He : currentThread k1 = currentThread k /\ codes k1 = codes k /\ level k1 = IntOff /\
    readyList k1 = readyList k /\ conds k1 = conds k /\ sems k1 = sems k /\ nextThread k1 = nextThread k /\ nextSem k1 = nextSem k /\
    toBeDestroyed k1 = (if fin then Some (currentThread k) else toBeDestroyed k)).
  { unfold k1. by destruct fin. }
  clearbody k1. destruct He as (E1 & E2 & E3 & E4 & E5 & E6 & E7 & E8 & E9).
  eapply push_post; [by rewrite E1, E2|]. intros m Hm.
  destruct (inv_cur I n IntOff eq_refl) as (cn & Hcn & _).
  eapply setStatus_post; [simpl; rewrite Hm, E1, E2; apply Hcn|]. intros m' Hm'.
  unfold Good. simpl in *. by rewrite Hm', Hm, E1, E2, E3, E4, E5, E6, E7, E8, E9.
Qed.

Lemma Yield_post F G k c : Plain (level k) c k -> post F G Good (Yield k).
Proof.
  intros HP. pose proof (Plain_dead _ _ _ HP) as Hd. unfold Yield. rewrite SetLevel_off, rbind_Ret.
  apply post_bind, FindNextToRun_post; [done| |].
  - intros _. apply post_bind.
    eapply post_weaken; [|apply (Plain_push F G _ (level k) IntOff c)];
      [|by apply Plain_level|simpl; apply HP|done].
    intros k' [I Hl]. simpl. unfold Good. by rewrite Hl.
  - intros n r Hr. simpl in Hr. apply post_bind. eapply push_post; [apply (pl_code HP)|]. intros m Hm.
    simpl in Hm |- *. apply post_bind.
    assert (Hcur : offcpu (fst <$> Some (currentThread k, level k)) (codes k) (toBeDestroyed k) (currentThread k) = false).
    { eapply offcpu_running; [apply (pl_code HP)|eauto using plain_asleep, pl_plain]. }
    destruct (place_0 (pl_inv HP) _ Hcur) as (HR & _ & _). rewrite Hr, occurs_cons in HR.
    eapply ReadyToRun_post; [done|simpl; rewrite Hm; apply lookup_insert_eq| |].
    { simpl. rewrite occurs_elem. case_decide; lia. }
    intros m' Hm'. simpl in Hm'. eapply Run_post; [done|simpl; rewrite Hm', Hm; apply lookup_insert_eq|done|].
    simpl. rewrite Hm', Hm, insert_insert_eq, Hd. 
    pose proof (pl_inv HP) as I. unfold GoodAt in I. rewrite Hd, Hr in I.
    pose proof (inv_park _ _ _ (ISetLevel (level k) :: c) false I (pl_code HP)) as Hpk.
    rewrite (plain_asleep _ _ (pl_plain HP)) in Hpk. apply Hpk.
    + simpl. apply HP.
    + done.
    + intros s. by rewrite (plain_trying _ _ _ (pl_plain HP)).
Qed.

Lemma P_post F G k c s : Plain (level k) c k -> post F G Good (P k s).
Proof.
  intros HP. unfold P. rewrite SetLevel_off, rbind_Ret.
  eapply post_weaken; [|apply (Plain_push F G _ (level k) IntOff c)];
    [|by apply Plain_level|simpl; apply HP|done].
  intros k' [I Hl]. unfold Good. by rewrite Hl.
Qed.

Lemma V_post F G k c s : Plain (level k) c k -> (sems k !! s = None -> F) -> post F G Good (V k s).
Proof.
  intros HP HF. unfold V. rewrite SetLevel_off, rbind_Ret. apply post_bind.
  eapply post_weaken; [|apply (V_body_post F G (Some (currentThread k, level k)))]; [|apply HP|done|done].
  intros k1 (I & Hl1 & Hc & Hd & Hm & _). simpl in *.
  assert (HP1 : Plain (level k) c k1).
  { split; [by rewrite Hc|rewrite Hc, Hm|]; apply HP. }
  eapply post_weaken; [|apply (Plain_push F G _ (level k) IntOff c)]; [|done|simpl; apply HP|done].
  intros k' [I' Hl]. unfold Good. by rewrite Hl, Hl1.
Qed.

(** The thread goes on to call other functions. *)
Lemma push_good F G k c p : Plain (level k) c k -> plain (level k) (p ++ c) = true -> post F G Good (push k p).
Proof.
  intros HP Hp. eapply post_weaken; [|apply (Plain_push F G k (level k) (level k) c p HP)]; eauto with frames.
  intros k' [I Hl]. unfold Good. by rewrite Hl.
Qed.

(** The caller holds lock [l]. *)
Definition holds (k : Kernel) (l : nat) : Prop :=
  exists lk, locks k !! l = Some lk /\ lockHolder lk = Some (currentThread k).

Lemma held_assert k l lk : locks k !! l = Some lk -> IsHeldByCurrentThread k lk = false -> ~ holds k l.
Proof.
  intros Hlk Hb (lk' & ? & ?). simplify_eq. unfold IsHeldByCurrentThread in Hb.
  by rewrite bool_decide_true in Hb.
Qed.

Lemma no_lock k l : locks k !! l = None -> ~ holds k l.
Proof. intros Hn (lk & ? & _). congruence. Qed.

Lemma Acquire_post F G k c l : Plain (level k) c k -> (locks k !! l = None -> F) -> post F G Good (Acquire k l).
Proof.
  intros HP HF. apply post_bind, post_deref; [|done]. intros lk _. eapply push_good; [done|]. simpl. apply HP.
Qed.

Lemma SetHolder_post F G k c l : Plain (level k) c k -> (locks k !! l = None -> F) -> post F G Good (SetHolder k l).
Proof. intros HP HF. apply post_bind, post_deref; [|done]. intros lk _. simpl. apply HP. Qed.

Lemma Release_post F G k c l : Plain (level k) c k -> (~ holds k l -> F) ->
  post F G Good (Release k l).
Proof.
  intros HP HF. apply post_bind, post_deref; [|by intros; apply HF, no_lock].
  intros lk Hlk. apply post_bind, post_assert; [|by intros; eapply HF, held_assert].
  intros _. apply (push_good _ _ _ c); [split; apply HP|]. simpl. apply HP.
Qed.

Lemma Wait_post F G k c cd l : Plain (level k) c k -> (~ holds k l -> F) -> (conds k !! cd = None -> F) ->
  post F G Good (Wait k cd l).
Proof.
  intros HP HF HC. apply post_bind, post_deref; [|by intros; apply HF, no_lock].
  intros lk Hlk. apply post_bind, post_assert; [|by intros; eapply HF, held_assert].
  intros _. apply post_bind, post_deref; [|done]. intros wq Hwq. simpl in Hwq. apply post_bind, post_bind, post_assert.
  - intros _. simpl. apply (push_good _ _ _ c); [split; [|apply HP|apply HP]|simpl; apply HP].
    apply (inv_newsem (C := conds k)); [apply HP|]. simpl. intros cd' wq' w [[<- <-]|[? Hcd]]%lookup_insert_Some Hw.
    + apply elem_of_app in Hw as [Hw|Hw]; [|set_solver by lia].
      pose proof (inv_conds (pl_inv HP) _ _ _ Hwq Hw). lia.
    + pose proof (inv_conds (pl_inv HP) _ _ _ Hcd Hw). lia.
  - unfold Seq.IsInList. intros Hn%negb_false_iff%bool_decide_eq_true.
    pose proof (inv_conds (pl_inv HP) _ _ _ Hwq Hn). lia.
Qed.

Lemma Signal_post F G k c cd l : Plain (level k) c k -> (~ holds k l -> F) -> (conds k !! cd = None -> F) ->
  post F G Good (Signal k cd l).
Proof.
  intros HP HF HC. apply post_bind, post_deref; [|by intros; apply HF, no_lock].
  intros lk Hlk. apply post_bind, post_assert; [|by intros; eapply HF, held_assert].
  intros _. apply post_bind, post_deref; [|done]. intros [|w wq] Hwq; simpl; [apply HP|].
  apply (push_good _ _ _ c); [split; [|apply HP..]|simpl; apply HP].
  eapply inv_waiters; [apply HP|]. simpl. intros cd' wq' w' [[<- <-]|[? Hcd]]%lookup_insert_Some Hw.
  - apply (inv_conds (pl_inv HP) _ _ w' Hwq). set_solver.
  - by apply (inv_conds (pl_inv HP) _ _ w' Hcd).
Qed.

Lemma Broadcast_post F G k c cd l : Plain (level k) c k -> (conds k !! cd = None -> F) ->
  post F G Good (Broadcast k cd l).
Proof.
  intros HP HF. apply post_bind, post_deref; [|done]. intros [|w wq] _; [simpl; apply HP|]. unfold Seq.IsEmpty. simpl.
  eapply push_good; [done|]. simpl. apply HP.
Qed.

Lemma SynchList_Append_post F G k c sl x : Plain (level k) c k -> (lists k !! sl = None -> F) ->
  post F G Good (SynchList_Append k sl x).
Proof.
  intros HP HF. apply post_bind, post_deref; [|done]. intros L _. eapply push_good; [done|]. simpl. apply HP.
Qed.

Lemma SynchList_RemoveFront_post F G k c sl : Plain (level k) c k -> (lists k !! sl = None -> F) ->
  post F G Good (SynchList_RemoveFront k sl).
Proof.
  intros HP HF. apply post_bind, post_deref; [|done]. intros L _. eapply push_good; [done|]. simpl. apply HP.
Qed.

Lemma SynchList_Apply_post F G k c sl : Plain (level k) c k -> (lists k !! sl = None -> F) ->
  post F G Good (SynchList_Apply k sl).
Proof.
  intros HP HF. apply post_bind, post_deref; [|done]. intros L _. eapply push_good; [done|]. simpl. apply HP.
Qed.

(** [list->Append] cannot be done: there is no list, or it has the item already. *)
Definition append_misuse (k : Kernel) (sl : nat) (x : Z) : Prop :=
  match lists k !! sl with Some L => x ∈ items L | None => True end.

(** The loop of [RemoveFront] is run without the lock, or there is no list. *)
Definition loop_misuse (k : Kernel) (sl : nat) : Prop :=
  match lists k !! sl with
  | Some L => items L = [] /\ (~ holds k (lock L) \/ conds k !! listEmpty L = None)
  | None => True
  end.

Lemma ListAppend_post F G k c sl x : Plain (level k) c k -> (append_misuse k sl x -> F) ->
  post F G Good (ListAppend k sl x).
Proof.
  intros HP HF. unfold append_misuse in HF.
  apply post_bind, post_deref; [|intros Hn; apply HF; by rewrite Hn]. intros L HL. rewrite HL in HF.
  apply post_bind, post_bind, post_assert; [intros _; simpl; apply HP|].
  unfold Seq.IsInList. intros Hn%negb_false_iff%bool_decide_eq_true. by apply HF.
Qed.

Lemma ListLoop_post F G k c sl : Plain (level k) c k -> (loop_misuse k sl -> F) ->
  post F G Good (ListLoop k sl).
Proof.
  intros HP HF. unfold loop_misuse in HF.
  apply post_bind, post_deref; [|intros Hn; apply HF; by rewrite Hn]. intros L HL. rewrite HL in HF.
  destruct (items L) as [|y its] eqn:Hi; simpl; [|apply HP].
  apply post_bind. eapply push_post; [apply (pl_code HP)|]. intros m Hm.
  assert (HP' : Plain (level k) (IListLoop sl :: c) (set_threads k m)).
  { split; simpl; [|rewrite Hm; apply lookup_insert_eq|apply HP].
    eapply (Plain_frame k (level k) (level k) c); [|done|..]; try apply HP; eauto using pl_plain with frames. }
  apply (Wait_post F G _ (IListLoop sl :: c)); [done|auto..].
Qed.

(** The thread has just fetched [i], and [c] remains. *)
Record Popped (k0 : Kernel) (i : instr) (c : list instr) (k : Kernel) : Prop := mkPopped {
  pp_good : Good k0;
  pp_code : codes k0 !! currentThread k0 = Some (i :: c);
  pp_eq : exists m, k = set_threads k0 m /\ code <$> m = <[currentThread k0 := c]> (codes k0)
}.
Arguments pp_good {k0 i c k}.
Arguments pp_code {k0 i c k}.

Lemma Popped_typed k0 i c k : Popped k0 i c k -> typed (level k0) (i :: c) = true.
Proof.
  intros [I Hc _]. destruct (inv_cur I _ _ eq_refl) as (c' & Hc' & Ht). by simplify_eq.
Qed.

Lemma Popped_Plain k0 i c k l : Popped k0 i c k -> plain (level k0) (i :: c) = true ->
  plain l c = true -> Plain l c k /\ level k = level k0.
Proof.
  intros [I Hc (m & -> & Hm)] Hi Hp. split; [|done]. split; [|simpl; rewrite Hm; apply lookup_insert_eq|done].
  eapply (Plain_frame k0 (level k0)); [by split|done|..]; eauto with frames.
Qed.

Lemma Sleep_post F G k0 k f c : Popped k0 (ISleep f) c k -> post F G Good (Sleep k f).
Proof.
  intros HP. pose proof (Popped_typed _ _ _ _ HP) as Ht. destruct HP as [I Hc (m & -> & Hm)].
  assert (Ho : level k0 = IntOff). { destruct f; simpl in Ht; by apply andb_prop in Ht as [->%bool_decide_eq_true _]. }
  unfold Sleep, is_off. simpl. rewrite Ho, bool_decide_true by done. simpl. apply post_bind.
  eapply setStatus_post; [simpl; rewrite Hm; apply lookup_insert_eq|]. intros m1 Hm1. simpl in Hm1.
  eapply push_post; [simpl; rewrite Hm1, Hm; apply lookup_insert_eq|]. intros m2 Hm2. simpl in Hm2.
  rewrite Hm1, Hm, insert_insert_eq in Hm2. unfold Good. simpl.
  apply (GoodAt_frame k0 (level k0) _ (ISleep f :: c) (ISleepLoop f :: c) m2); try done; by destruct f.
Qed.

Lemma SleepLoop_post F G k0 k f c : Popped k0 (ISleepLoop f) c k -> (idle_dangling k0 -> F) ->
  (readyList k0 = [] -> idles k0 = [] -> G) ->
  post F G Good (SleepLoop k f).
Proof.
  intros HP HF HG. pose proof (Popped_typed _ _ _ _ HP) as Ht. destruct HP as [I Hc (m & -> & Hm)].
  assert (Ho : level k0 = IntOff). { destruct f; simpl in Ht; by apply andb_prop in Ht as [->%bool_decide_eq_true _]. }
  assert (Hd : toBeDestroyed k0 = None) by (by eapply not_resuming_dead).
  apply post_bind, FindNextToRun_post; [done| |].
  - simpl. intros Hr. apply post_bind. eapply push_post; [simpl; rewrite Hm; apply lookup_insert_eq|].
    simpl. intros m1 Hm1. rewrite Hm, insert_insert_eq, insert_id in Hm1 by done.
    unfold Idle. simpl. destruct (idles k0) as [|hs rest] eqn:Hi; [by apply HG|].
    eapply post_weaken; [|apply (run_handlers_post F G (Some (currentThread k0, IntOff)))].
    + intros k' (I' & Hl & Hc' & _). simpl in *. unfold Good. by rewrite Hl, Hc', Ho.
    + unfold GoodAt. simpl. rewrite Hm1, <- Ho. apply I.
    + done.
    + simpl. intros s Hs Hn. apply HF. by exists hs, rest, s.
  - simpl. intros n r Hr. eapply Run_post; [done|simpl; rewrite Hm; apply lookup_insert_eq|done|].
    simpl. rewrite Hm, insert_insert_eq. unfold Good in I. rewrite Hd, Hr in *.
    pose proof (inv_park _ _ _ c f I Hc) as Hpk. simpl in Ht. destruct f; simpl in Hpk; rewrite app_nil_r in Hpk.
    + apply Hpk; try done. apply andb_prop in Ht as [_ Ht]. by destruct c.
    + apply Hpk; try done. by apply andb_prop in Ht as [_ Ht].
Qed.

Lemma PLoop_post F G k0 k s c : Popped k0 (IPLoop s) c k -> (sems k0 !! s = None -> F) ->
  post F G Good (PLoop k s).
Proof.
  intros HP HF. pose proof (Popped_typed _ _ _ _ HP) as Ht. destruct HP as [I Hc (m & -> & Hm)].
  apply andb_prop in Ht as [Ho%bool_decide_eq_true Ht].
  assert (Hd : toBeDestroyed k0 = None) by (by eapply not_resuming_dead).
  unfold Good in I. rewrite Ho, Hd in I.
  apply post_bind, post_deref; [|done]. intros sm Hs. simpl in Hs. destruct (Z.eqb_spec (value sm) 0) as [Hv|Hv].
  - destruct (place_0 I (currentThread k0) (offcpu_running _ _ _ _ Hc eq_refl)) as (_ & HQ & _).
    apply post_bind, post_bind, post_assert.
    + intros _. simpl. eapply push_post; [simpl; rewrite Hm; apply lookup_insert_eq|]. simpl. intros m1 Hm1.
      rewrite Hm, insert_insert_eq in Hm1. unfold Good. simpl. rewrite Hm1, Ho, Hd.
      apply (inv_P _ _ _ _ _ _ I Hc Hs); simpl; try done.
      * by rewrite bool_decide_true.
      * intros s' Hs'. by rewrite bool_decide_false.
      * lia.
    + unfold Seq.IsInList. intros Hq%negb_false_iff%bool_decide_eq_true%occurs_elem.
      simpl in Hq. rewrite (HQ s sm) in Hq by done. lia.
  - simpl. unfold Good. simpl. rewrite Hm, Ho, Hd. pose proof (inv_value I s sm Hs).
    apply (inv_P _ _ _ _ _ _ I Hc Hs); simpl; rewrite ?(plain_asleep _ _ Ht); try done.
    + eauto with frames.
    + by rewrite app_nil_r.
    + eauto with frames.
    + lia.
Qed.

(** The thread left by [SWITCH] to be destroyed is not the one that runs. *)
Lemma CheckToBeDestroyed_post F G k0 k i c l (Q : Kernel -> Prop) : Popped k0 i c k ->
  typed l c = true -> asleep (i :: c) = false -> asleep c = false ->
  (forall s, trying s (i :: c) = true -> trying s c = true) ->
  (forall k', GoodAt (Some (currentThread k', l)) k' -> level k' = level k0 ->
     (tick_dangling k' -> tick_dangling k0) -> codes k' !! currentThread k' = Some c -> Q k') ->
  post F G Q (CheckToBeDestroyed k).
Proof.
  intros [I Hc (m & -> & Hm)] Ht Ha Ha' Htr HQ. unfold CheckToBeDestroyed. simpl. unfold Good in I.
  destruct (toBeDestroyed k0) as [d|] eqn:Hd.
  - apply inv_destroy in I as [I Hne]. simpl in Hne. rewrite bool_decide_false by congruence. simpl.
    assert (Hcd : code <$> delete d m = <[currentThread k0 := c]> (delete d (codes k0))).
    { rewrite fmap_delete, Hm, delete_insert_ne by congruence. done. }
    apply HQ; simpl; [|done|done|rewrite Hcd; apply lookup_insert_eq].
    unfold GoodAt. simpl. rewrite Hcd.
    eapply inv_frame; [done|rewrite lookup_delete_ne by congruence; done|..]; try done; congruence.
  - simpl. apply HQ; simpl; [|done|done|rewrite Hm; apply lookup_insert_eq].
    unfold GoodAt. simpl. rewrite Hm, Hd. eapply inv_frame; try done; congruence.
Qed.

Lemma RunEnd_post F G k0 k c : Popped k0 IRunEnd c k -> post F G Good (RunEnd k).
Proof.
  intros HP. pose proof (Popped_typed _ _ _ _ HP) as Ht. simpl in Ht.
  apply andb_prop in Ht as [Ho%bool_decide_eq_true Ht]. unfold RunEnd, is_off.
  assert (Hl : level k = IntOff). { destruct HP as [_ _ (m & -> & _)]. done. }
  rewrite Hl, bool_decide_true by done. simpl.
  eapply CheckToBeDestroyed_post; [done|by apply resumed_typed|done|by apply resumed_asleep| |].
  - intros s Hs. destruct c as [|[] ?]; done.
  - intros k' I Hl' _ _. unfold Good. by rewrite Hl', Ho.
Qed.

Lemma Begin_post F G k0 k c : Popped k0 IBegin c k -> (tick_dangling k0 -> F) -> post F G Good (Begin k).
Proof.
  intros HP HF. pose proof (Popped_typed _ _ _ _ HP) as Ht. simpl in Ht. apply andb_prop in Ht as [_ Ht].
  apply post_bind. eapply CheckToBeDestroyed_post; [done|by apply plain_typed|done|by eapply plain_asleep|done|].
  intros k' I _ Htk Hc. apply (SetLevel_post F G k' IntOn c); [by split|auto].
Qed.

Lemma Finish_post F G k0 k c : Popped k0 IFinish c k -> post F G Good (Finish k).
Proof.
  intros HP. pose proof (Popped_typed _ _ _ _ HP) as Ht. simpl in Ht. destruct c; [|done].
  destruct HP as [I Hc (m & -> & Hm)]. unfold Finish. rewrite SetLevel_off, rbind_Ret.
  eapply push_post; [simpl; rewrite Hm; apply lookup_insert_eq|]. simpl. intros m1 Hm1.
  rewrite Hm, insert_insert_eq in Hm1. unfold Good. simpl.
  apply (GoodAt_frame k0 (level k0) IntOff [IFinish] [ISleep true] m1); done.
Qed.

Section program.
Context (prog : nat -> list instr).
Hypothesis prog_plain : forall f, plain IntOn (prog f ++ [IFinish]) = true.

Lemma Fork_post F G k c f : Plain (level k) c k -> post F G Good (Fork prog k f).
Proof.
  intros HP. pose proof (pl_inv HP) as I. unfold Fork. rewrite SetLevel_off, rbind_Ret. apply post_bind.
  assert (Hnt : forall R0, offcpu R0 (codes k) (toBeDestroyed k) (nextThread k) = false).
  { intros R0. unfold offcpu. destruct (codes k !! nextThread k) eqn:Hn; [|done].
    pose proof (inv_threads I _ (mk_is_Some _ _ Hn)). lia. }
  assert (Hc : currentThread k <> nextThread k).
  { pose proof (inv_threads I _ (mk_is_Some _ _ (pl_code HP))). lia. }
  pose proof (inv_new _ _ (StackAllocate (prog f)) I eq_refl (prog_plain f) ltac:(done)) as I1.
  eapply ReadyToRun_post; [done|simpl; rewrite fmap_insert; apply lookup_insert_eq| |].
  { simpl. destruct (place_0 I (nextThread k) (Hnt _)) as (HR & _). rewrite occurs_elem. lia. }
  intros m Hm. simpl in Hm. rewrite fmap_insert in Hm. simpl in Hm.
  eapply post_weaken; [|apply (Plain_push F G _ (level k) IntOff c)]; simpl.
  - intros k' [I' Hl]. unfold Good. by rewrite Hl.
  - split; [unfold GoodAt; simpl; by rewrite Hm|simpl; rewrite Hm, lookup_insert_ne by done; apply HP|apply HP].
  - apply HP.
  - done.
Qed.

(** The client breaks a rule: the thread uses a lock that it does not hold, an object
    that is not there, or appends an item to a list that has it. *)
Definition misuse (k : Kernel) : Prop :=
  exists i c, codes k !! currentThread k = Some (i :: c) /\
    match i with
    | IRelease l => ~ holds k l
    | IWait cd l | ISignal cd l => ~ holds k l \/ conds k !! cd = None
    | IBroadcast cd _ => conds k !! cd = None
    | IAcquire l | ISetHolder l => locks k !! l = None
    | IPLoop s | IV s => sems k !! s = None
    | ISetLevel _ | IBegin => tick_dangling k
    | ISleepLoop _ => idle_dangling k
    | ISynchAppend sl _ | ISynchRemoveFront sl | ISynchApply sl => lists k !! sl = None
    | IListAppend sl x => append_misuse k sl x
    | IListLoop sl => loop_misuse k sl
    | _ => False
    end.

(** The machine is to stop. *)
Definition halting (k : Kernel) : Prop :=
  exists i c, codes k !! currentThread k = Some (i :: c) /\
    match i with
    | IHalt => True
    | ISleepLoop _ => readyList k = [] /\ idles k = []
    | _ => False
    end.

Lemma step_post k : Good k -> post (misuse k) (halting k) Good (step prog k).
Proof.
  intros I. destruct (inv_cur I _ _ eq_refl) as (c & Hc & Ht).
  eapply post_bind, post_deref_ok; [apply Hc|]. intros th Hth.
  assert (Hct : code th = c). { rewrite lookup_fmap, Hth in Hc. by simplify_eq/=. }
  rewrite Hct. destruct c as [|i c]; [done|].
  set (k' := set_threads k _).
  assert (HP : Popped k i c k').
  { split; [done|done|]. eexists. split; [done|]. by rewrite fmap_insert. }
  eapply (post_mono match i with
    | IRelease l => ~ holds k' l
    | IWait cd l | ISignal cd l => ~ holds k' l \/ conds k' !! cd = None
    | IBroadcast cd _ => conds k' !! cd = None
    | IAcquire l | ISetHolder l => locks k' !! l = None
    | IV s => sems k' !! s = None
    | IPLoop s => sems k !! s = None
    | ISetLevel _ => tick_dangling k'
    | IBegin => tick_dangling k
    | ISleepLoop _ => idle_dangling k
    | ISynchAppend sl _ | ISynchRemoveFront sl | ISynchApply sl => lists k' !! sl = None
    | IListAppend sl x => append_misuse k' sl x
    | IListLoop sl => loop_misuse k' sl
    | _ => False
    end _ match i with IHalt => True | ISleepLoop _ => readyList k = [] /\ idles k = [] | _ => False end
    _ Good);
    [intros Hm; exists i, c; split; [done|by destruct i]|intros Hh; by exists i, c|auto|].
  assert (Hpl : forall l, plain (level k) (i :: c) = true -> plain l c = true -> Plain l c k').
  { intros l H1 H2. by destruct (Popped_Plain k i c k' l HP H1 H2). }
  change (level k) with (level k') in Hpl, Ht. clearbody k'. clear Hct.
  destruct i; simpl in Ht; eauto using SetLevel_post, Yield_post, RunEnd_post, Sleep_post, SleepLoop_post,
    Begin_post, Finish_post, Fork_post, P_post, PLoop_post, V_post, Acquire_post, SetHolder_post, Broadcast_post,
    Release_post, Wait_post, Signal_post, SynchList_Append_post, ListAppend_post, SynchList_RemoveFront_post,
    ListLoop_post, SynchList_Apply_post.
  done.
Qed.

End program.

(** ** Reachable states *)

(** The objects that [Initialize] starts with: nobody waits for them. *)
Record fresh_objects (S : gmap nat Semaphore) (C : gmap nat (list nat)) (ns : nat) : Prop := mkFresh {
  fo_sem s sm : S !! s = Some sm -> queue sm = [] /\ 0 <= value sm /\ (s < ns)%nat;
  fo_cond cd wq : C !! cd = Some wq -> wq = []
}.

Lemma Initialize_good main S L C SL ns tks ids : plain IntOn (main ++ [IHalt]) = true ->
  fresh_objects S C ns -> Good (Initialize main S L C SL ns tks ids).
Proof.
  intros Hm [HS HC]. unfold Good. simpl. rewrite map_fmap_singleton. simpl. split.
  - intros ? ? [= <- <-]. eexists. by rewrite lookup_singleton_eq.
  - intros t c Ht [<- <-]%lookup_singleton_Some. done.
  - done.
  - intros t. unfold place. rewrite occurs_nil, total_zero.
    + unfold offcpu. destruct (decide (t = 0%nat)) as [->|].
      * by rewrite lookup_singleton_eq.
      * by rewrite lookup_singleton_ne.
    + intros i x Hx. destruct (HS i x Hx) as (-> & _). done.
  - intros s sm t Hs Ht. destruct (HS s sm Hs) as (Hq & _). rewrite Hq in Ht. set_solver.
  - intros s sm Hs. by destruct (HS s sm Hs) as (_ & ? & _).
  - intros s sm Hs Hq. by destruct (HS s sm Hs) as (? & _).
  - intros t [c [<- _]%lookup_singleton_Some]. lia.
  - intros s [sm Hs]. by destruct (HS s sm Hs) as (_ & _ & ?).
  - intros cd wq w Hcd Hw. rewrite (HC cd wq Hcd) in Hw. set_solver.
Qed.

Section reach.
Context (prog : nat -> list instr).
Hypothesis prog_plain : forall f, plain IntOn (prog f ++ [IFinish]) = true.

Lemma reachable_good k0 k : Good k0 -> reachable prog k0 k -> Good k.
Proof.
  intros I H. induction H as [|k k' H IH Hs]; [done|].
  pose proof (step_post prog prog_plain k IH) as Hp. by rewrite Hs in Hp.
Qed.

End reach.

(** A thread that is kept somewhere is on the ready list or in a queue. *)
Lemma offcpu_where run cod R dead S nt ns C t : Inv run cod R dead S nt ns C ->
  offcpu (fst <$> run) cod dead t = true ->
  (t ∈ R /\ (forall s sm, S !! s = Some sm -> t ∉ queue sm)) \/
  ((t ∉ R) /\ exists s sm, S !! s = Some sm /\ t ∈ queue sm /\
     forall s' sm', S !! s' = Some sm' -> t ∈ queue sm' -> s' = s).
Proof.
  intros I Ho. pose proof (inv_place I t) as Hp. rewrite Ho in Hp. unfold place in Hp. simpl in Hp.
  pose proof (occurs_nonneg t R). pose proof (queues_nonneg S t) as H0. rewrite occurs_elem.
  destruct (decide (0 < occurs t R)) as [HR|HR]; [left|right]; (split; [done|]).
  - intros s sm Hs. rewrite occurs_elem. pose proof (queue_le I s sm t Hs). lia.
  - destruct (total_pos (fun _ sm => occurs t (queue sm)) S) as (s & sm & Hs & Hq); [lia|].
    exists s, sm. rewrite occurs_elem. split; [done|]. split; [done|].
    intros s' sm' Hs' Hq'%occurs_elem. destruct (decide (s' = s)) as [|Hne]; [done|exfalso].
    pose proof (total_delete (fun _ sm => occurs t (queue sm)) S s sm Hs) as Hd. cbn beta in Hd, Hq.
    assert (occurs t (queue sm') <= total (fun _ sm => occurs t (queue sm)) (delete s S)); [|lia].
    apply (total_ge (fun _ sm => occurs t (queue sm)) _ s').
    + intros. apply occurs_nonneg.
    + by rewrite lookup_delete_ne.
Qed.

Section stuck.
Context (prog : nat -> list instr).
Hypothesis prog_plain : forall f, plain IntOn (prog f ++ [IFinish]) = true.

(** When nothing can run, every thread is in a queue, but for one that has finished. *)
Lemma halted_stuck k : Good k -> step prog k = Halted ->
  (exists c, codes k !! currentThread k = Some (IHalt :: c)) \/
  (readyList k = [] /\ idles k = [] /\
   forall t th, threads k !! t = Some th ->
     (t = currentThread k /\ code th = [ISleepLoop true]) \/
     exists s sm, sems k !! s = Some sm /\ t ∈ queue sm).
Proof.
  intros I H. pose proof (step_post prog prog_plain k I) as Hp.
  rewrite H in Hp. destruct Hp as (i & c & Hc & Hi).
  destruct i; try done; [right|left; eauto]. destruct Hi as [HR Hi]. split; [done|]. split; [done|].
  intros t th Ht. assert (Hct : codes k !! t = Some (code th)) by (by rewrite lookup_fmap, Ht).
  assert (Hd : toBeDestroyed k = None) by (by eapply not_resuming_dead).
  destruct (inv_cur I _ _ eq_refl) as (c' & Hc' & Hty). rewrite Hc in Hc'. injection Hc' as <-.
  destruct (offcpu (fst <$> Some (currentThread k, level k)) (codes k) (toBeDestroyed k) t) eqn:Ho.
  - right. destruct (offcpu_where _ _ _ _ _ _ _ _ t I Ho) as [[HR' _]|(_ & s & sm & ? & ? & _)]; [|eauto].
    rewrite HR in HR'. set_solver.
  - left. unfold offcpu in Ho. rewrite Hct, Hd in Ho. simpl in Ho.
    case_bool_decide as Hcur; [|done]. injection Hcur as <-. rewrite Hc in Hct. injection Hct as Hct.
    rewrite <- Hct in *. destruct finishing; [|done]. simpl in Hty. apply andb_prop in Hty as [_ Hty]. by destruct c.
Qed.

(** Then a semaphore with threads in its queue has the value 0. *)
Lemma stuck_value k s sm : Good k -> sems k !! s = Some sm -> queue sm <> [] ->
  (forall t th, threads k !! t = Some th ->
     (t = currentThread k /\ code th = [ISleepLoop true]) \/
     exists s sm, sems k !! s = Some sm /\ t ∈ queue sm) -> value sm = 0.
Proof.
  intros I Hs Hq Hst. pose proof (inv_wake I s sm Hs Hq). pose proof (inv_value I s sm Hs).
  assert (awake (codes k) s (queue sm) <= 0); [|lia].
  rewrite <- (total_zero (fun _ _ => 0) (codes k)) by done. apply total_mono. intros t c Hc.
  rewrite lookup_fmap in Hc. destruct (threads k !! t) as [th|] eqn:Ht; [|done]. injection Hc as <-.
  pose proof (occurs_nonneg t (queue sm)).
  destruct (Hst t th Ht) as [[_ ->]|(s' & sm' & Hs' & Hq')]; [simpl; lia|].
  destruct (trying s (code th)) eqn:Htr; simpl; [|lia].
  destruct (inv_queue I s' sm' t Hs' Hq') as (c & Hc & Hw). rewrite lookup_fmap, Ht in Hc. injection Hc as <-.
  rewrite (trying_waits s s' (code th) Htr Hw) in *. simplify_eq. apply occurs_elem in Hq'. lia.
Qed.

End stuck.

Section claims.
Context (prog : nat -> list instr) (main : list instr) (S0 : gmap nat Semaphore) (L0 : gmap nat Lock)
  (C0 : gmap nat (list nat)) (SL0 : gmap nat SynchList) (ns0 : nat) (tks : list tick) (ids : list (list nat)).
Hypothesis prog_plain : forall f, plain IntOn (prog f ++ [IFinish]) = true.
Hypothesis main_plain : plain IntOn (main ++ [IHalt]) = true.
Hypothesis objects : fresh_objects S0 C0 ns0.

Abbreviation boot := (Initialize main S0 L0 C0 SL0 ns0 tks ids).

Lemma boot_good k : reachable prog boot k -> Good k.
Proof. apply (reachable_good prog prog_plain). by apply Initialize_good. Qed.

(** C3: No assertion of the scheduler, of threads or of semaphores ever fails, whatever
    the threads do and whenever interrupts come.  A step from a reachable state fails only
    when the client breaks one of three rules: it uses a lock that it does not hold in
    [Release], [Wait] or [Signal]; it uses an object that does not exist; or it appends to
    a synchronised list an item that is in the list already. *)
Theorem kernel_assertions_hold k : reachable prog boot k ->
  step prog k = AssertFail \/ step prog k = Fault -> misuse k.
Proof.
  intros Hr%boot_good H. pose proof (step_post prog prog_plain k Hr) as Hp. by destruct H as [H|H]; rewrite H in Hp.
Qed.

(** C9: No thread is lost and none is scheduled twice: in a reachable state each thread
    is the running one, or waits to be destroyed, or is on the ready list once and in no
    queue, or is in the queue of exactly one semaphore, inside [P] on it, and not on the
    ready list. *)
Theorem thread_is_in_one_place k t th : reachable prog boot k -> threads k !! t = Some th ->
  NoDup (readyList k) /\
  (t = currentThread k \/ toBeDestroyed k = Some t \/
   (t ∈ readyList k /\ (forall s sm, sems k !! s = Some sm -> t ∉ queue sm)) \/
   ((t ∉ readyList k) /\ exists s sm, sems k !! s = Some sm /\ t ∈ queue sm /\ NoDup (queue sm) /\
      waits s (code th) = true /\ (forall s' sm', sems k !! s' = Some sm' -> t ∈ queue sm' -> s' = s))).
Proof.
  intros I%boot_good Ht. assert (Hc : codes k !! t = Some (code th)) by (by rewrite lookup_fmap, Ht).
  split.
  { apply occurs_NoDup. intros x. pose proof (place_le I x) as Hp. unfold place in Hp.
    pose proof (queues_nonneg (sems k) x). lia. }
  destruct (decide (t = currentThread k)) as [|Hn]; [by left|right].
  destruct (decide (toBeDestroyed k = Some t)) as [|Hd]; [by left|right].
  assert (Ho : offcpu (fst <$> Some (currentThread k, level k)) (codes k) (toBeDestroyed k) t = true).
  { unfold offcpu. rewrite Hc. simpl. rewrite !bool_decide_false by congruence. done. }
  destruct (offcpu_where _ _ _ _ _ _ _ _ t I Ho) as [?|(? & s & sm & Hs & Hq & Hu)]; [by left|right].
  split; [done|]. exists s, sm. destruct (inv_queue I s sm t Hs Hq) as (c & ? & ?). simplify_eq.
  split_and!; auto. apply occurs_NoDup. intros x. pose proof (queue_le I s sm x Hs).
  pose proof (occurs_nonneg x (readyList k)). lia.
Qed.

(** C4: No wakeup is lost: whenever a semaphore has a positive value and threads in its
    queue, some thread has been woken for it and has still to take it: it is running or
    on the ready list, goes on with the loop of [P] on this semaphore, and is not in the
    queue. *)
Theorem no_lost_wakeup k s sm : reachable prog boot k -> sems k !! s = Some sm ->
  0 < value sm -> queue sm <> [] ->
  exists t th, threads k !! t = Some th /\ trying s (code th) = true /\ (t ∉ queue sm) /\
    (t = currentThread k \/ t ∈ readyList k).
Proof.
  intros I%boot_good Hs Hv Hq. pose proof (inv_wake I s sm Hs Hq) as Hw.
  destruct (total_pos (fun t c => Z.b2z (trying s c) - occurs t (queue sm)) (codes k)) as (t & c & Hc & Ht).
  { unfold awake in Hw. lia. }
  pose proof (occurs_nonneg t (queue sm)) as H0. cbn beta in Ht.
  destruct (trying s c) eqn:Htr; simpl in Ht; [|lia].
  pose proof Hc as Hth. rewrite lookup_fmap in Hth. destruct (threads k !! t) as [th|] eqn:Hk; [|done].
  injection Hth as <-. exists t, th. split; [done|]. split; [done|].
  assert (Hnq : t ∉ queue sm) by (rewrite occurs_elem; lia). split; [done|].
  destruct (decide (t = currentThread k)) as [|Hn]; [by left|right].
  assert (Hd : toBeDestroyed k <> Some t).
  { intros Hd. destruct (inv_dead I t Hd) as (_ & Hd' & _). rewrite Hc in Hd'. injection Hd' as Hd'.
    by rewrite Hd' in Htr. }
  assert (Ho : offcpu (fst <$> Some (currentThread k, level k)) (codes k) (toBeDestroyed k) t = true).
  { unfold offcpu. rewrite Hc. simpl. rewrite !bool_decide_false by congruence. done. }
  destruct (offcpu_where _ _ _ _ _ _ _ _ t I Ho) as [[? _]|(_ & s' & sm' & Hs' & Hq' & _)]; [done|].
  destruct (inv_queue I s' sm' t Hs' Hq') as (c' & Hc' & Hw'). rewrite Hc in Hc'. injection Hc' as <-.
  rewrite (trying_waits s s' (code th) Htr Hw') in *. congruence.
Qed.

(** C31: The machine stops only on a call of [Halt], or when nothing can ever run again:
    no thread is ready, no interrupt is pending, and every thread is in the queue of a
    semaphore, but for one that has just finished. *)
Theorem halts_only_when_stuck k : reachable prog boot k -> step prog k = Halted ->
  (exists c, codes k !! currentThread k = Some (IHalt :: c)) \/
  (readyList k = [] /\ idles k = [] /\
   forall t th, threads k !! t = Some th ->
     (t = currentThread k /\ code th = [ISleepLoop true]) \/
     exists s sm, sems k !! s = Some sm /\ t ∈ queue sm).
Proof. intros I%boot_good. by apply halted_stuck. Qed.

End claims.

(** ** The order of scheduling *)

(** No switch; threads may have become ready. *)
Definition grows (k k' : Kernel) : Prop :=
  currentThread k' = currentThread k /\ exists new, readyList k' = readyList k ++ new.

#[export] Instance grows_preorder : PreOrder grows.
Proof.
  split.
  - intros k. split; [done|]. exists []. by rewrite app_nil_r.
  - intros k1 k2 k3 [? [n1 H1]] [? [n2 H2]]. split; [congruence|]. exists (n1 ++ n2).
    by rewrite H2, H1, app_assoc.
Qed.

(** One thread gets the processor. *)
Definition switches (k k' : Kernel) : Prop :=
  exists n r new, readyList k = n :: r /\ currentThread k' = n /\ readyList k' = r ++ new.

(** What holds when an operation returns. *)
Definition yields {A} (Q : A -> Prop) (r : result A) : Prop := forall a, r = Ret a -> Q a.

Lemma yields_Ret {A} (Q : A -> Prop) a : Q a -> yields Q (Ret a).
Proof. by intros ? ? [= <-]. Qed.

Lemma yields_bind {A B} (Q : A -> Prop) (Q' : B -> Prop) c f :
  yields Q c -> (forall a, Q a -> yields Q' (f a)) -> yields Q' (rbind c f).
Proof. intros Hc Hf b (a & Ha & Hb)%rbind_eq_Ret. by apply (Hf a); [apply Hc|]. Qed.

Lemma yields_any {A B} (Q : B -> Prop) (c : result A) f : (forall a, yields Q (f a)) -> yields Q (rbind c f).
Proof. intros Hf. apply (yields_bind (fun _ => True)); [done|auto]. Qed.

(** An operation that only makes threads ready, before another. *)
Lemma grows_bind k c f : yields (grows k) c -> (forall k1, yields (grows k1) (f k1)) -> yields (grows k) (rbind c f).
Proof.
  intros Hc Hf. apply (yields_bind _ _ _ _ Hc). intros k1 H1 k2 H2. etransitivity; [done|by apply Hf].
Qed.

Lemma grows_same k k' : currentThread k' = currentThread k -> readyList k' = readyList k -> grows k k'.
Proof. intros. split; [done|]. exists []. by rewrite app_nil_r. Qed.

Ltac same := intros; first [apply yields_Ret|idtac]; by apply grows_same.

Lemma push_grows k p : yields (grows k) (push k p).
Proof. apply yields_any. same. Qed.

Lemma setStatus_grows k t st : yields (grows k) (setStatus k t st).
Proof. apply yields_any. same. Qed.

Lemma ReadyToRun_grows k t : yields (grows k) (ReadyToRun k t).
Proof.
  apply yields_any. intros _. apply grows_bind; [apply setStatus_grows|]. intros k1.
  apply (yields_bind (fun r => r = readyList k1 ++ [t])).
  - intros r. unfold Seq.Append. destruct (Seq.IsInList _ _); simpl; congruence.
  - intros r ->. apply yields_Ret. split; [done|]. by exists [t].
Qed.

Lemma V_body_grows k s : yields (grows k) (V_body k s).
Proof.
  apply yields_any. intros sm.
  apply (yields_bind (fun '(k1, _) => grows k k1)).
  - destruct (negb _); [|by apply yields_Ret]. apply yields_any. intros [t q].
    apply (yields_bind (grows k)); [apply ReadyToRun_grows|]. intros k1 H. by apply yields_Ret.
  - intros [k1 q] H. apply yields_Ret. etransitivity; [done|]. by apply grows_same.
Qed.

Lemma run_handlers_grows hs : forall k, yields (grows k) (run_handlers k hs).
Proof.
  induction hs as [|s hs IH]; intros k; simpl; [by apply yields_Ret|].
  apply grows_bind; [apply V_body_grows|done].
Qed.

(** The same from a state with the same ready list. *)
Lemma grows_from k k0 r : currentThread k0 = currentThread k -> readyList k0 = readyList k ->
  yields (grows k0) r -> yields (grows k) r.
Proof. intros Hc Hr H k' Hk. etransitivity; [by apply grows_same|by apply H]. Qed.

Lemma OneTick_grows k : yields (grows k) (OneTick k).
Proof.
  unfold OneTick. destruct (ticks k) as [|[hs b] rest]; [by apply yields_Ret|].
  apply grows_bind; [eapply grows_from; [..|apply run_handlers_grows]; done|].
  intros k1. destruct b; [|same]. eapply grows_from; [..|apply push_grows]; done.
Qed.

Lemma SetLevel_grows k n : yields (grows k) (SetLevel k n).
Proof.
  unfold SetLevel. destruct (_ && _); [|same]. eapply grows_from; [..|apply OneTick_grows]; done.
Qed.

Lemma CheckToBeDestroyed_grows k : yields (grows k) (CheckToBeDestroyed k).
Proof. unfold CheckToBeDestroyed. destruct (toBeDestroyed k); [apply yields_any|]; same. Qed.

Lemma Run_switches k n fin : yields (fun k' => currentThread k' = n /\ readyList k' = readyList k) (Run k n fin).
Proof.
  apply yields_any. intros _. apply (yields_bind (fun k1 => readyList k1 = readyList k)).
  - destruct fin; [apply yields_any; intros _|]; by apply yields_Ret.
  - intros k1 H1. apply (yields_bind (fun k2 => readyList k2 = readyList k)).
    + apply yields_any. intros th. by apply yields_Ret.
    + intros k2 H2. apply yields_any. intros th. by apply yields_Ret.
Qed.

Lemma FindNextToRun_takes k :
  yields (fun '(k1, o) => currentThread k1 = currentThread k /\
    match o with Some n => readyList k = n :: readyList k1 | None => k1 = k /\ readyList k = [] end)
    (FindNextToRun k).
Proof.
  apply yields_any. intros _. destruct (readyList k) as [|n r] eqn:Hr; simpl; by apply yields_Ret.
Qed.

(** [Yield], and the loop of [Sleep]: the first ready thread, if there is one. *)
Lemma Yield_switches k : yields (fun k' => switches k k' \/ (readyList k = [] /\ grows k k')) (Yield k).
Proof.
  unfold Yield. rewrite SetLevel_off, rbind_Ret. apply (yields_bind _ _ _ _ (FindNextToRun_takes _)).
  intros [k1 o] [Hc Hr]. simpl in *. apply (yields_bind _ _ _ _ (push_grows k1 _)).
  intros k2 Hg. destruct o as [n|].
  - destruct Hg as [_ [n2 Hr2]]. apply (yields_bind _ _ _ _ (ReadyToRun_grows k2 _)). intros k3 [_ [n3 Hr3]].
    intros k' [Hn Hk]%Run_switches. left. exists n, (readyList k1), (n2 ++ n3).
    split; [done|]. split; [done|]. by rewrite Hk, Hr3, Hr2, app_assoc.
  - destruct Hr as [-> Hr]. apply yields_Ret. right. split; [done|]. etransitivity; [|done]. by apply grows_same.
Qed.

Lemma SleepLoop_switches k f : yields (fun k' => switches k k' \/ (readyList k = [] /\ grows k k')) (SleepLoop k f).
Proof.
  apply (yields_bind _ _ _ _ (FindNextToRun_takes _)). intros [k1 o] [Hc Hr]. destruct o as [n|].
  - intros k' [Hn Hk]%Run_switches. left. exists n, (readyList k1), []. by rewrite app_nil_r.
  - destruct Hr as [-> Hr]. intros k' Hk. right. split; [done|]. revert k' Hk.
    apply grows_bind; [apply push_grows|]. intros k1. unfold Idle. destruct (idles k1); [done|].
    eapply grows_from; [..|apply run_handlers_grows]; done.
Qed.

Lemma last_cons_default {A} (l : list A) : forall a d, List.last (a :: l) d = List.last l a.
Proof. induction l as [|b l IH]; intros a d; [done|]. by rewrite (IH b a), <- (IH b d). Qed.

Lemma last_app_default {A} (l l' : list A) : forall d, List.last (l ++ l') d = List.last l' (List.last l d).
Proof. induction l as [|a l IH]; intros d; [done|]. by rewrite <- app_comm_cons, !last_cons_default. Qed.

Create HintDb grows.
#[export] Hint Resolve push_grows setStatus_grows ReadyToRun_grows V_body_grows SetLevel_grows
  CheckToBeDestroyed_grows : grows.

(** The thread that a step from [k] to [k'] gives the processor to, if it gives it to one:
    [Yield] and [Sleep] call [Run] when a thread is ready, and then the thread that runs
    next is the current one of [k']. *)
Definition given (k k' : Kernel) : list nat :=
  match codes k !! currentThread k with
  | Some ((IYield | ISleepLoop _) :: _) => if Seq.IsEmpty (readyList k) then [] else [currentThread k']
  | _ => []
  end.

Section order.
Context (prog : nat -> list instr).

Ltac grows_tac := repeat first
  [ progress rewrite ?SetLevel_off, ?rbind_Ret
  | eapply grows_from; [..|apply push_grows]; done
  | by apply yields_Ret, grows_same
  | case_match
  | apply yields_any; intros ? ].

Lemma Fork_grows k f : yields (grows k) (Fork prog k f).
Proof.
  unfold Fork. rewrite SetLevel_off, rbind_Ret. eapply grows_from; [..|apply grows_bind; auto with grows]; done.
Qed.

Lemma V_grows k s : yields (grows k) (V k s).
Proof.
  unfold V. rewrite SetLevel_off, rbind_Ret. eapply grows_from; [..|apply grows_bind; auto with grows]; done.
Qed.

Lemma Wait_grows k cd l : yields (grows k) (Wait k cd l).
Proof. unfold Wait. grows_tac. Qed.

(** Every other instruction leaves the processor where it is. *)
Lemma exec_grows i k : match i with IYield | ISleepLoop _ => False | _ => True end ->
  yields (grows k) (exec prog i k).
Proof.
  destruct i; intros Hi; simpl; auto using SetLevel_grows, Fork_grows, V_grows; try done.
  - unfold RunEnd. apply yields_any. intros _. apply CheckToBeDestroyed_grows.
  - unfold Sleep. apply yields_any. intros _. apply grows_bind; auto with grows.
  - unfold Begin. apply grows_bind; auto with grows.
  - unfold Finish. grows_tac.
  - unfold P. grows_tac.
  - unfold PLoop. grows_tac.
  - unfold Acquire. grows_tac.
  - unfold SetHolder. grows_tac.
  - unfold Release. grows_tac.
  - apply Wait_grows.
  - unfold Signal. grows_tac.
  - unfold Broadcast. grows_tac.
  - unfold SynchList_Append. grows_tac.
  - unfold ListAppend. grows_tac.
  - unfold SynchList_RemoveFront. grows_tac.
  - unfold ListLoop. apply yields_any. intros L. destruct (Seq.IsEmpty _); [|grows_tac].
    apply grows_bind; auto using Wait_grows with grows.
  - unfold SynchList_Apply. grows_tac.
Qed.

(** A step runs the first ready thread, or leaves the processor to the current one. *)
Lemma step_order k k' : step prog k = Ret k' ->
  (exists new, given k k' ++ readyList k' = readyList k ++ new) /\
  currentThread k' = List.last (given k k') (currentThread k).
Proof.
  unfold step, given. intros (th & Hth & H)%rbind_eq_Ret. rewrite lookup_fmap.
  unfold deref in Hth. destruct (threads k !! currentThread k); simplify_eq. simpl.
  destruct (code th) as [|i c]; [done|]. set (k0 := set_threads k _) in H.
  assert (Hr : readyList k0 = readyList k) by done. assert (Hk0 : currentThread k0 = currentThread k) by done.
  rewrite <- Hr, <- Hk0. clearbody k0.
  assert (Hcase : (match i with IYield | ISleepLoop _ => True | _ => False end /\
      (switches k0 k' \/ (readyList k0 = [] /\ grows k0 k'))) \/
    (match i with IYield | ISleepLoop _ => False | _ => True end /\ grows k0 k')).
  { destruct i; try (right; split; [done|]; by apply (exec_grows _ k0) in H); left; (split; [done|]).
    - by apply Yield_switches.
    - by apply SleepLoop_switches in H. }
  destruct Hcase as [[Hi [(n & r & new & Hn & Hc & Hk)|[He [Hc [new Hk]]]]]|[Hi [Hc [new Hk]]]].
  - rewrite Hn, Hk, <- Hc. split; [exists new|]; by destruct i.
  - rewrite Hk, He, Hc. split; [exists new|]; by destruct i.
  - rewrite Hk, Hc. split; [exists new|]; by destruct i.
Qed.

(** A run, with the threads that were given the processor, in order. *)
Inductive schedule : list nat -> Kernel -> Kernel -> Prop :=
  | sched_nil k : schedule [] k k
  | sched_step d k k1 k2 : schedule d k k1 -> step prog k1 = Ret k2 -> schedule (d ++ given k1 k2) k k2.

(** C30: Scheduling is first come, first served: over any run, the threads that were
    really run by the context switches (the current thread after each), followed by those
    still ready, are those that were ready at the start, in order, followed by those that
    became ready later.  So the [n]-th thread of the ready list is the [n]-th to run.  And
    only a switch changes the current thread: it is the last one that was switched to. *)
Theorem schedule_fifo d k k' : schedule d k k' ->
  (exists new, d ++ readyList k' = readyList k ++ new) /\
  (forall n t, readyList k !! n = Some t -> (n < length d)%nat -> d !! n = Some t) /\
  currentThread k' = List.last d (currentThread k).
Proof.
  intros H. assert (Ho : (exists new, d ++ readyList k' = readyList k ++ new) /\
    currentThread k' = List.last d (currentThread k)).
  { induction H as [k|d k k1 k2 H [[new IH] IHc] Hs].
    - split; [exists []; by rewrite app_nil_r|done].
    - destruct (step_order k1 k2 Hs) as [[new' Hn] Hc]. split.
      + exists (new ++ new'). by rewrite <- app_assoc, Hn, app_assoc, IH, app_assoc.
      + rewrite Hc, IHc. by rewrite last_app_default. }
  destruct Ho as [[new Ho] Hc]. split; [by exists new|]. split; [|done]. intros n t Hn Hl.
  rewrite <- (lookup_app_l d (readyList k')), Ho by done. rewrite lookup_app_l by (by eapply lookup_lt_Some). done.
Qed.

End order.

(** ** A small system *)

(** Two threads with one lock and one semaphore that a device signals; the timer
    switches threads at the second tick. *)
Module Small.

Definition prog (f : nat) : list instr :=
  match f with
  | 0%nat => [IAcquire 0; IYield; IRelease 0; IP 1]
  | _ => []
  end.

Definition main : list instr := [IFork 0; IP 1; IAcquire 0; IYield; IRelease 0; IFork 1].
Definition sems0 : gmap nat Semaphore := {[ 0%nat := mkSem 1 []; 1%nat := mkSem 0 [] ]}.
Definition locks0 : gmap nat Lock := {[ 0%nat := mkLock 0 None ]}.
Definition conds0 : gmap nat (list nat) := {[ 0%nat := [] ]}.
Definition lists0 : gmap nat SynchList := {[ 0%nat := mkSynchList [] [] 0 0 ]}.
Definition ticks0 : list tick := [mkTick [] false; mkTick [] true].
Definition idles0 : list (list nat) := [[1%nat]].

Definition boot : Kernel := Initialize main sems0 locks0 conds0 lists0 2 ticks0 idles0.

(** The state after [n] steps. *)
Definition at_step (main : list instr) (n : nat) : Kernel :=
  let k0 := Initialize main sems0 locks0 conds0 lists0 2 ticks0 idles0 in
  match run prog n k0 with Ret k => k | _ => k0 end.

Lemma at_step_reachable main n :
  reachable prog (Initialize main sems0 locks0 conds0 lists0 2 ticks0 idles0) (at_step main n).
Proof.
  unfold at_step. destruct (run _ _ _) eqn:H; try constructor.
  eapply run_reachable; [constructor|done].
Qed.

Lemma prog_plain f : plain IntOn (prog f ++ [IFinish]) = true.
Proof. by destruct f. Qed.

Lemma objects : fresh_objects sems0 conds0 2.
Proof.
  split.
  - intros s sm. unfold sems0. intros [[<- <-]|[_ [<- <-]%lookup_singleton_Some]]%lookup_insert_Some; simpl; split_and!; done || lia.
  - intros cd wq. unfold conds0. by intros [<- <-]%lookup_singleton_Some.
Qed.

(** A client that releases a lock it does not hold. *)
Definition bad_main : list instr := [IRelease 0].

(** A client that waits for a second signal that never comes. *)
Definition stuck_main : list instr := [IP 1; IP 1].

End Small.

Lemma kernel_assertions_hold_witness :
  step Small.prog (Small.at_step Small.bad_main 1) = AssertFail /\ misuse (Small.at_step Small.bad_main 1).
Proof.
  split; [vm_compute; reflexivity|].
  apply (kernel_assertions_hold Small.prog Small.bad_main Small.sems0 Small.locks0 Small.conds0 Small.lists0 2
    Small.ticks0 Small.idles0); [apply Small.prog_plain|reflexivity|apply Small.objects|apply Small.at_step_reachable|].
  left. vm_compute. reflexivity.
Defined.

Lemma thread_is_in_one_place_witness : exists th, threads (Small.at_step Small.main 22) !! 0%nat = Some th /\
  exists s sm, sems (Small.at_step Small.main 22) !! s = Some sm /\ 0%nat ∈ queue sm.
Proof.
  eexists. split; [vm_compute; reflexivity|].
  edestruct (thread_is_in_one_place Small.prog Small.main Small.sems0 Small.locks0 Small.conds0 Small.lists0 2
    Small.ticks0 Small.idles0 Small.prog_plain eq_refl Small.objects (Small.at_step Small.main 22) 0%nat)
    as [_ [H|[H|[[H _]|(_ & s & sm & Hs & Hq & _)]]]].
  - apply Small.at_step_reachable.
  - vm_compute. reflexivity.
  - vm_compute in H. discriminate.
  - vm_compute in H. discriminate.
  - vm_compute in H. inversion H.
  - exists s, sm. split; assumption.
Defined.

Lemma no_lost_wakeup_witness : exists t th,
  threads (Small.at_step Small.main 26) !! t = Some th /\ trying 1 (code th) = true /\
  t ∈ readyList (Small.at_step Small.main 26).
Proof.
  edestruct (no_lost_wakeup Small.prog Small.main Small.sems0 Small.locks0 Small.conds0 Small.lists0 2
    Small.ticks0 Small.idles0 Small.prog_plain eq_refl Small.objects (Small.at_step Small.main 26) 1%nat (mkSem 1 [1%nat]))
    as (t & th & Ht & Htr & Hq & [Hc|Hr]).
  - apply Small.at_step_reachable.
  - vm_compute. reflexivity.
  - reflexivity.
  - discriminate.
  - exfalso. apply Hq. rewrite Hc. vm_compute. left.
  - exists t, th. split; [assumption|]. split; assumption.
Defined.

Lemma halts_only_when_stuck_witness :
  step Small.prog (Small.at_step Small.stuck_main 14) = Halted /\ readyList (Small.at_step Small.stuck_main 14) = [].
Proof.
  split; [vm_compute; reflexivity|].
  destruct (halts_only_when_stuck Small.prog Small.stuck_main Small.sems0 Small.locks0 Small.conds0 Small.lists0 2
    Small.ticks0 Small.idles0 Small.prog_plain eq_refl Small.objects (Small.at_step Small.stuck_main 14))
    as [[c H]|(H & _)].
  - apply Small.at_step_reachable.
  - vm_compute. reflexivity.
  - vm_compute in H. discriminate.
  - exact H.
Defined.

Lemma schedule_fifo_witness :
  currentThread (Small.at_step Small.main 10) = 1%nat /\ currentThread (Small.at_step Small.main 11) = 0%nat /\
  exists new, [0%nat] ++ readyList (Small.at_step Small.main 11) = readyList (Small.at_step Small.main 10) ++ new.
Proof.
  split; [vm_compute; reflexivity|]. split; [vm_compute; reflexivity|].
  assert (E : given (Small.at_step Small.main 10) (Small.at_step Small.main 11) = [0%nat]) by (vm_compute; reflexivity).
  destruct (schedule_fifo Small.prog ([] ++ given (Small.at_step Small.main 10) (Small.at_step Small.main 11))
    (Small.at_step Small.main 10) (Small.at_step Small.main 11)) as [H _]; [|rewrite <- E; exact H].
  apply sched_step with (k1 := Small.at_step Small.main 10); [constructor|vm_compute; reflexivity].
Defined.
