(* ===== verification/Locks.v ===== *)
(** * Mutual exclusion of locks

    [Lock] of threads/synch.cc over the machine of [Threads].  For one lock, the
    invariant is an equation: the value of its semaphore, whether it has a holder, and
    what the threads have still to do to either (a thread between [P] and the
    assignment of [lockHolder], or between the assignment of NULL and [V]) add up to
    one.  Every step keeps it, for every client that leaves the lock's semaphore to the
    lock. *)

From S2P Require Import Prelude NList Interrupt Threads Sched.

Section lock.
Context (l sl : nat).

(** What an instruction has still to add to the semaphore or the holder. *)
Definition weight_instr (i : instr) : Z :=
  match i with
  | ISetHolder l' => if decide (l' = l) then 1 else 0
  | IV s => if decide (s = sl) then 1 else 0
  | IP s | IPLoop s => if decide (s = sl) then -1 else 0
  | _ => 0
  end.

Fixpoint weight (c : list instr) : Z :=
  match c with [] => 0 | i :: c => weight_instr i + weight c end.

(** A thread gives back only what it has taken. *)
Fixpoint paid (c : list instr) : bool :=
  match c with [] => true | i :: c => (0 <=? weight_instr i + weight c) && paid c end.

(** Code that leaves the lock's semaphore and holder to the lock. *)
Definition respects (i : instr) : bool :=
  match i with
  | ISetHolder l' => negb (bool_decide (l' = l))
  | IV s | IP s | IPLoop s => negb (bool_decide (s = sl))
  | _ => true
  end.

Lemma weight_app c c' : weight (c ++ c') = weight c + weight c'.
Proof. induction c as [|i c IH]; simpl; lia. Qed.

Lemma respects_weight c : forallb respects c = true -> weight c = 0 /\ paid c = true.
Proof.
  induction c as [|i c IH]; [done|]. simpl. intros [Hi [Hw ->]%IH]%andb_prop. rewrite Hw.
  assert (weight_instr i = 0) as ->; [|done].
  destruct i; simpl in *; try done; case_decide; try done; subst; by rewrite bool_decide_true in Hi.
Qed.

Lemma paid_nonneg c : paid c = true -> 0 <= weight c.
Proof. destruct c; simpl; [done|]. intros [? _]%andb_prop. lia. Qed.

(** [d] is what the instruction in execution has still to add, [h] the holder. *)
Record LockInv (d : Z) (h : option nat) (k : Kernel) : Prop := mkLockInv {
  li_lock : locks k !! l = Some (mkLock sl h);
  li_others l' lk : l' <> l -> locks k !! l' = Some lk -> semaphore lk <> sl;
  li_sum : exists sm, sems k !! sl = Some sm /\ 0 <= value sm /\
    value sm + (match h with Some _ => 1 | None => 0 end) + total (fun _ => weight) (codes k) + d = 1;
  li_paid t c : codes k !! t = Some c -> paid c = true;
  li_conds cd wq w : conds k !! cd = Some wq -> w ∈ wq -> w <> sl;
  li_next : (sl < nextSem k)%nat;
  li_ticks tk : tk ∈ ticks k -> sl ∉ handlers tk;
  li_idles hs : hs ∈ idles k -> sl ∉ hs
}.
Arguments li_lock {d h k}.
Arguments li_others {d h k}.
Arguments li_sum {d h k}.
Arguments li_paid {d h k}.
Arguments li_conds {d h k}.
Arguments li_next {d h k}.
Arguments li_ticks {d h k}.
Arguments li_idles {d h k}.

(** A thread about to become the holder finds none, and the semaphore taken. *)
Lemma LockInv_setholder h k t c : LockInv 0 h k -> codes k !! t = Some (ISetHolder l :: c) ->
  h = None /\ forall sm, sems k !! sl = Some sm -> value sm = 0.
Proof.
  intros [? ? (sm & Hs & Hv & He) Hpd ? ? ? ?] Hct.
  assert (Hall : forall t c, codes k !! t = Some c -> 0 <= weight c).
  { intros u d Hu. by apply paid_nonneg, (Hpd u). }
  pose proof (total_ge (fun _ => weight) (codes k) t _ Hall Hct) as Hge. simpl in Hge.
  rewrite decide_True in Hge by done. pose proof (Hpd _ _ Hct) as Hp. simpl in Hp.
  apply andb_prop in Hp as [_ Hp%paid_nonneg]. destruct h; [lia|]. split; [done|]. intros sm' Hs'. simplify_eq. lia.
Qed.

(** The fields that the invariant does not mention. *)
Lemma LockInv_ext d h k k' : LockInv d h k -> locks k' = locks k -> sems k' = sems k -> codes k' = codes k ->
  conds k' = conds k -> nextSem k' = nextSem k -> (forall tk, tk ∈ ticks k' -> tk ∈ ticks k) ->
  (forall hs, hs ∈ idles k' -> hs ∈ idles k) -> LockInv d h k'.
Proof.
  intros [] E1 E2 E3 E4 E5 H1 H2. split; rewrite ?E1, ?E2, ?E3, ?E4, ?E5; eauto.
Qed.

Ltac ext := eapply LockInv_ext; try done.

Lemma setStatus_lock d h k t st : LockInv d h k -> yields (LockInv d h) (setStatus k t st).
Proof.
  intros I. unfold setStatus, deref. destruct (threads k !! t) as [th|] eqn:Hth; [|done].
  apply yields_Ret. ext. simpl. rewrite fmap_insert. simpl. apply insert_id. by rewrite lookup_fmap, Hth.
Qed.

(** The running thread takes on what [p] has to do. *)
Lemma push_lock d h k p : LockInv d h k ->
  (forall c, codes k !! currentThread k = Some c -> paid c = true -> paid (p ++ c) = true) ->
  yields (LockInv (d - weight p) h) (push k p).
Proof.
  intros I Hp. unfold push, deref. destruct (threads k !! currentThread k) as [th|] eqn:Hth; [|done].
  apply yields_Ret. assert (Hc : codes k !! currentThread k = Some (code th)) by (by rewrite lookup_fmap, Hth).
  destruct I as [? ? (sm & Hs & Hv & He) Hpd ? ? ? ?]. split; simpl; auto.
  - exists sm. rewrite fmap_insert. simpl. rewrite (total_insert _ _ _ (code th)), weight_app by done.
    split_and!; auto. lia.
  - intros t c. rewrite fmap_insert. simpl. intros [[<- <-]|[? Hc']]%lookup_insert_Some; eauto.
Qed.

(** Frames without weight. *)
Lemma push0_lock d h k p : LockInv d h k -> forallb respects p = true -> yields (LockInv d h) (push k p).
Proof.
  intros I Hp. destruct (respects_weight p Hp) as [Hw _]. replace d with (d - weight p) by lia.
  apply push_lock; [done|]. intros c _ Hc. clear Hw. induction p as [|i p IH]; [done|]. simpl in *.
  apply andb_prop in Hp as [Hi Hp]. rewrite IH by done. destruct (respects_weight p Hp) as [Hw _].
  destruct (respects_weight [i]) as [Hwi _]; [by simpl; rewrite Hi|]. simpl in Hwi.
  pose proof (paid_nonneg c Hc). rewrite weight_app, andb_true_r. apply Z.leb_le. lia.
Qed.

Lemma ReadyToRun_lock d h k t : LockInv d h k -> yields (LockInv d h) (ReadyToRun k t).
Proof.
  intros I. apply yields_any. intros _. apply (yields_bind _ _ _ _ (setStatus_lock d h k t READY I)).
  intros k1 I1. apply yields_any. intros r. apply yields_Ret. ext.
Qed.

(** A semaphore other than the lock's, and the lock's own. *)
Lemma sem_lock d h k s sm : LockInv d h k -> s <> sl -> LockInv d h (set_sems k (<[s := sm]> (sems k))).
Proof.
  intros [? ? (sm' & Hs & Hv & He) ? ? ? ? ?] Hn. split; simpl; auto.
  exists sm'. by rewrite lookup_insert_ne.
Qed.

Lemma sem_lock_self d h k v q sm x : LockInv d h k -> sems k !! sl = Some sm -> value sm + x = v -> 0 <= v ->
  LockInv (d - x) h (set_sems k (<[sl := mkSem v q]> (sems k))).
Proof.
  intros [? ? (sm' & Hs & Hv & He) ? ? ? ? ?] Hs' Hx Hn. split; simpl; auto.
  exists (mkSem v q). rewrite lookup_insert_eq. simplify_eq. split_and!; auto. simpl. lia.
Qed.

Lemma V_body_lock d h k s : LockInv d h k ->
  yields (LockInv (d - (if decide (s = sl) then 1 else 0)) h) (V_body k s).
Proof.
  intros I. unfold V_body, deref. destruct (sems k !! s) as [sm|] eqn:Hs; [|done]. rewrite rbind_Ret.
  apply (yields_bind (fun '(k1, _) => LockInv d h k1 /\ sems k1 = sems k)).
  - destruct (negb _); [|by apply yields_Ret]. apply yields_any. intros [t q].
    intros [k1 q1] (k2 & H2 & [= <- <-])%rbind_eq_Ret. split; [by apply (ReadyToRun_lock d h k t I)|].
    revert H2. clear. intros (u & _ & H2)%rbind_eq_Ret. apply rbind_eq_Ret in H2 as (k3 & H3 & H2).
    apply rbind_eq_Ret in H3 as (th & _ & [= <-]). apply rbind_eq_Ret in H2 as (r & _ & [= <-]). done.
  - intros [k1 q1] [I1 Hk]. apply yields_Ret. destruct (decide (s = sl)) as [->|Hne].
    + destruct (li_sum I) as (sm' & Hs' & ? & _). simplify_eq.
      eapply sem_lock_self; [done|rewrite Hk; done|done|lia].
    + rewrite Z.sub_0_r. by apply sem_lock.
Qed.

Lemma run_handlers_lock d h hs : forall k, LockInv d h k -> (sl ∉ hs) -> yields (LockInv d h) (run_handlers k hs).
Proof.
  induction hs as [|s hs IH]; intros k I Hn; simpl; [by apply yields_Ret|].
  apply not_elem_of_cons in Hn as [Hs Hn].
  apply (yields_bind _ _ _ _ (V_body_lock d h k s I)). rewrite decide_False, Z.sub_0_r by done. intros k1 I1.
  by apply IH.
Qed.

Lemma OneTick_lock d h k : LockInv d h k -> yields (LockInv d h) (OneTick k).
Proof.
  intros I. unfold OneTick. destruct (ticks k) as [|[hs b] rest] eqn:Htk; [by apply yields_Ret|].
  eapply yields_bind; [apply (run_handlers_lock d h)|].
  - ext. simpl. rewrite Htk. set_solver.
  - apply (li_ticks I (mkTick hs b)). rewrite Htk. set_solver.
  - intros k1 I1. destruct b; [|apply yields_Ret; ext]. apply push0_lock; [ext|done].
Qed.

Lemma SetLevel_lock d h k n : LockInv d h k -> yields (LockInv d h) (SetLevel k n).
Proof.
  intros I. unfold SetLevel. destruct (_ && _); [apply OneTick_lock|apply yields_Ret]; ext.
Qed.

Lemma FindNextToRun_lock d h k : LockInv d h k ->
  yields (fun '(k1, _) => LockInv d h k1) (FindNextToRun k).
Proof.
  intros I. apply yields_any. intros _. destruct (Seq.IsEmpty _); [by apply yields_Ret|].
  apply yields_any. intros [t r]. apply yields_Ret. ext.
Qed.

Lemma Run_lock d h k n fin : LockInv d h k -> yields (LockInv d h) (Run k n fin).
Proof.
  intros I. apply yields_any. intros _. apply (yields_bind (LockInv d h)).
  - destruct fin; [apply yields_any; intros _|]; apply yields_Ret; ext.
  - intros k1 I1. eapply yields_bind; [by apply push0_lock|]. intros k2 I2. apply setStatus_lock. ext.
Qed.

(** A thread that was not there, without weight. *)
Lemma new_thread_lock d h k t st c : LockInv d h k -> codes k !! t = None -> weight c = 0 -> paid c = true ->
  LockInv d h (set_threads k (<[t := mkThread st c]> (threads k))).
Proof.
  intros [? ? (sm & Hs & Hv & He) Hpd ? ? ? ?] Hn Hw Hp. split; simpl; auto.
  - exists sm. rewrite fmap_insert. simpl. rewrite total_insert_new, Hw by done. split_and!; auto.
  - intros t' c'. rewrite fmap_insert. simpl. intros [[<- <-]|[? Hc']]%lookup_insert_Some; eauto.
Qed.

(** The code of a thread to be destroyed has no weight. *)
Lemma CheckToBeDestroyed_lock d h k : LockInv d h k ->
  (forall t, toBeDestroyed k = Some t -> codes k !! t = Some [IRunEnd]) ->
  yields (LockInv d h) (CheckToBeDestroyed k).
Proof.
  intros I Hd. unfold CheckToBeDestroyed. destruct (toBeDestroyed k) as [t|]; [|by apply yields_Ret].
  specialize (Hd t eq_refl). apply yields_any. intros _. apply yields_Ret.
  destruct I as [? ? (sm & Hs & Hv & He) Hpd ? ? ? ?]. split; simpl; auto.
  - exists sm. rewrite fmap_delete, (total_delete _ _ _ [IRunEnd]) by done. simpl. split_and!; auto. lia.
  - intros t' c. rewrite fmap_delete. intros [_ ?]%lookup_delete_Some. eauto.
Qed.

Lemma Yield_lock d h k : LockInv d h k -> yields (LockInv d h) (Yield k).
Proof.
  intros I. unfold Yield. rewrite SetLevel_off, rbind_Ret.
  eapply yields_bind; [apply (FindNextToRun_lock d h); ext|]. intros [k1 o] I1.
  eapply yields_bind; [by apply push0_lock|]. intros k2 I2. destruct o; [|by apply yields_Ret].
  eapply yields_bind; [by apply ReadyToRun_lock|]. intros k3 I3. by apply Run_lock.
Qed.

Lemma Sleep_lock d h k f : LockInv d h k -> yields (LockInv d h) (Sleep k f).
Proof.
  intros I. apply yields_any. intros _. eapply yields_bind; [by apply setStatus_lock|]. intros k1 I1.
  by apply push0_lock.
Qed.

Lemma SleepLoop_lock d h k f : LockInv d h k -> yields (LockInv d h) (SleepLoop k f).
Proof.
  intros I. eapply yields_bind; [by apply FindNextToRun_lock|]. intros [k1 [n|]] I1; [by apply Run_lock|].
  eapply yields_bind; [by apply push0_lock|]. intros k2 I2. unfold Idle.
  destruct (idles k2) as [|hs rest] eqn:Hi; [done|]. apply run_handlers_lock.
  - ext. simpl. rewrite Hi. set_solver.
  - apply (li_idles I2). rewrite Hi. set_solver.
Qed.

Lemma Begin_lock d h k : LockInv d h k ->
  (forall t, toBeDestroyed k = Some t -> codes k !! t = Some [IRunEnd]) -> yields (LockInv d h) (Begin k).
Proof.
  intros I Hd. eapply yields_bind; [by apply CheckToBeDestroyed_lock|]. intros k1 I1. by apply SetLevel_lock.
Qed.

Lemma Finish_lock d h k : LockInv d h k -> yields (LockInv d h) (Finish k).
Proof. intros I. unfold Finish. rewrite SetLevel_off, rbind_Ret. apply push0_lock; [ext|done]. Qed.

Lemma Fork_lock prog d h k f : forallb respects (prog f) = true -> codes k !! nextThread k = None ->
  LockInv d h k -> yields (LockInv d h) (Fork prog k f).
Proof.
  intros Hp Hn I. unfold Fork. rewrite SetLevel_off, rbind_Ret.
  destruct (respects_weight (StackAllocate (prog f))) as [Hw Hpd].
  { simpl. rewrite forallb_app, Hp. done. }
  eapply yields_bind; [apply (ReadyToRun_lock d h)|].
  - eapply LockInv_ext; [apply (new_thread_lock d h k (nextThread k) JUST_CREATED (StackAllocate (prog f)))|..]; done.
  - intros k1 I1. by apply push0_lock.
Qed.

(** The instructions with weight. [c] is the rest of the thread's code. *)
Section weighty.
Context (h : option nat) (k : Kernel) (c : list instr).
Hypothesis Hc : codes k !! currentThread k = Some c.

Lemma P_lock s : paid (IP s :: c) = true -> LockInv (weight_instr (IP s)) h k -> yields (LockInv 0 h) (P k s).
Proof.
  intros Hp I. unfold P. rewrite SetLevel_off, rbind_Ret.
  replace 0 with (weight_instr (IP s) - weight [IPLoop s; ISetLevel (level k)]) by (simpl; lia).
  apply push_lock; [ext|]. simpl. intros c' Hc' Hp'. simplify_eq. rewrite Hp'.
  pose proof (paid_nonneg _ Hp'). apply andb_prop in Hp as [Hp _]. rewrite !andb_true_iff, !Z.leb_le. simpl in Hp. lia.
Qed.

Lemma PLoop_lock s : paid (IPLoop s :: c) = true -> LockInv (weight_instr (IPLoop s)) h k ->
  yields (LockInv 0 h) (PLoop k s).
Proof.
  intros Hp I. unfold PLoop, deref. destruct (sems k !! s) as [sm|] eqn:Hs; [|done]. rewrite rbind_Ret.
  destruct (Z.eqb_spec (value sm) 0) as [Hv|Hv].
  - apply yields_any. intros q.
    replace 0 with (weight_instr (IPLoop s) - weight [ISleep false; IPLoop s]) by (simpl; lia).
    apply push_lock.
    + destruct (decide (s = sl)) as [->|]; [|by apply sem_lock].
      replace (weight_instr (IPLoop sl)) with (weight_instr (IPLoop sl) - 0) by lia.
      eapply sem_lock_self; [done|done|lia|lia].
    + simpl. intros c' Hc' Hp'. simplify_eq. simpl in Hp. rewrite Hp'.
      apply andb_prop in Hp as [Hp _]. rewrite !andb_true_iff, !Z.leb_le. lia.
  - apply yields_Ret. simpl in I. destruct (decide (s = sl)) as [->|]; [|by apply sem_lock].
    destruct (li_sum I) as (sm' & Hs' & ? & _). simplify_eq.
    change 0 with (-1 - -1). eapply sem_lock_self; [done|done|lia|lia].
Qed.

Lemma V_lock s : LockInv (weight_instr (IV s)) h k -> yields (LockInv 0 h) (V k s).
Proof.
  intros I. unfold V. rewrite SetLevel_off, rbind_Ret.
  eapply yields_bind; [apply (V_body_lock (weight_instr (IV s)) h); ext|]. simpl. rewrite Z.sub_diag.
  intros k1 I1. by apply push0_lock.
Qed.

Lemma Acquire_lock l' : LockInv 0 h k -> yields (LockInv 0 h) (Acquire k l').
Proof.
  intros I. unfold Acquire, deref. destruct (locks k !! l') as [lk|] eqn:Hl; [|done]. rewrite rbind_Ret.
  destruct (decide (l' = l)) as [->|Hn].
  - rewrite (li_lock I) in Hl. injection Hl as <-. simpl.
    replace 0 with (0 - weight [IP sl; ISetHolder l]) by (simpl; rewrite !decide_True by done; done).
    apply push_lock; [done|]. simpl. intros c' _ Hp. rewrite !decide_True, Hp by done.
    pose proof (paid_nonneg _ Hp). rewrite !andb_true_iff, !Z.leb_le. lia.
  - pose proof (li_others I l' lk Hn Hl). apply push0_lock; [done|]. simpl.
    by rewrite !bool_decide_false by done.
Qed.

(** The holder changes only when there was none. *)
Lemma SetHolder_lock l' : LockInv (weight_instr (ISetHolder l')) h k ->
  yields (fun k' => exists h', LockInv 0 h' k' /\
    (h' = h \/ (l' = l /\ h = None /\ h' = Some (currentThread k)))) (SetHolder k l').
Proof.
  intros I. unfold SetHolder, deref. destruct (locks k !! l') as [lk|] eqn:Hl; [|done]. rewrite rbind_Ret.
  apply yields_Ret. simpl in I. destruct (decide (l' = l)) as [->|Hn].
  - destruct I as [Hlk Ho (sm & Hs & Hv & He) Hpd ? ? ? ?]. simplify_eq. simpl.
    assert (0 <= total (fun _ => weight) (codes k)).
    { apply total_nonneg. intros t c' Ht. by apply paid_nonneg, (Hpd t). }
    destruct h; [lia|]. exists (Some (currentThread k)). split; [|by right]. split; simpl; auto.
    + by rewrite lookup_insert_eq.
    + intros l1 lk1 Hn1 Hl1. rewrite lookup_insert_ne in Hl1 by done. eauto.
    + exists sm. split_and!; auto. lia.
  - exists h. split; [|by left]. destruct I as [Hlk Ho ? ? ? ? ? ?]. split; simpl; auto.
    + by rewrite lookup_insert_ne.
    + intros l1 lk1 Hn1 [[<- <-]|[? ?]]%lookup_insert_Some; simpl; eauto.
Qed.

(** Only the holder gives the lock up. *)
Lemma Release_lock l' : LockInv 0 h k ->
  yields (fun k' => exists h', LockInv 0 h' k' /\
    (h' = h \/ (l' = l /\ h = Some (currentThread k) /\ h' = None))) (Release k l').
Proof.
  intros I. unfold Release, deref. destruct (locks k !! l') as [lk|] eqn:Hl; [|done]. rewrite rbind_Ret.
  unfold IsHeldByCurrentThread. case_bool_decide as Hh; [|done]. simpl.
  destruct (decide (l' = l)) as [->|Hn].
  - rewrite (li_lock I) in Hl. injection Hl as <-. simpl in *. subst h.
    assert (I1 : LockInv 1 None (set_locks k (<[l := mkLock sl None]> (locks k)))).
    { destruct I as [Hlk Ho (sm & Hs & Hv & He) ? ? ? ? ?]. split; simpl; auto.
      - by rewrite lookup_insert_eq.
      - intros l1 lk1 Hn1 [[<- <-]|[? ?]]%lookup_insert_Some; simpl; [done|eauto].
      - exists sm. split_and!; auto. lia. }
    assert (Hy : yields (LockInv (1 - weight [IV sl]) None)
      (push (set_locks k (<[l := mkLock sl None]> (locks k))) [IV sl])).
    { apply push_lock; [done|]. simpl. intros c' _ Hp. rewrite decide_True, Hp by done.
      pose proof (paid_nonneg _ Hp). rewrite andb_true_iff, Z.leb_le. lia. }
    intros k' Hk'. exists None. split; [|by right]. specialize (Hy k' Hk'). simpl in Hy.
    by rewrite decide_True in Hy.
  - pose proof (li_others I l' lk Hn Hl) as Hs. intros k' Hk'. exists h. split; [|by left].
    refine (push0_lock 0 h _ [IV (semaphore lk)] _ _ k' Hk'); [|simpl; by rewrite bool_decide_false].
    destruct I as [Hlk Ho ? ? ? ? ? ?]. split; simpl; auto.
    + by rewrite lookup_insert_ne.
    + intros l1 lk1 Hn1 [[<- <-]|[? ?]]%lookup_insert_Some; simpl; eauto.
Qed.

Lemma Wait_lock cd l' : LockInv 0 h k -> yields (LockInv 0 h) (Wait k cd l').
Proof.
  intros I. apply yields_any. intros lk. apply yields_any. intros _. cbn zeta.
  assert (Hns : nextSem k <> sl) by (pose proof (li_next I); lia).
  unfold deref. simpl. destruct (conds k !! cd) as [wq|] eqn:Hwq; [|done]. rewrite rbind_Ret.
  apply (yields_bind (fun wq' => wq' = wq ++ [nextSem k])).
  { intros wq'. unfold Seq.Append. destruct (Seq.IsInList _ _); simpl; congruence. }
  intros wq' ->. apply push0_lock; [|simpl; by rewrite bool_decide_false].
  pose proof (sem_lock 0 h k (nextSem k) (mkSem 0 []) I Hns) as [? ? ? ? Hcd ? ? ?]. split; simpl in *; auto.
  intros cd' wq' w [[<- <-]|[? ?]]%lookup_insert_Some Hw; [|eauto].
  apply elem_of_app in Hw as [Hw|Hw]; [eauto|]. apply list_elem_of_singleton in Hw. congruence.
Qed.

Lemma Signal_lock cd l' : LockInv 0 h k -> yields (LockInv 0 h) (Signal k cd l').
Proof.
  intros I. apply yields_any. intros lk. apply yields_any. intros _.
  unfold deref. destruct (conds k !! cd) as [wq|] eqn:Hwq; [|done]. rewrite rbind_Ret.
  destruct wq as [|w wq]; simpl; [by apply yields_Ret|].
  apply push0_lock; [|simpl; rewrite bool_decide_false; [done|apply (li_conds I cd _ w Hwq); set_solver]].
  pose proof (li_conds I) as Hcd. destruct I. split; simpl in *; auto.
  intros cd' wq' w' [[<- <-]|[? ?]]%lookup_insert_Some Hw; [|eauto]. apply (Hcd cd _ w' Hwq). set_solver.
Qed.

Lemma Broadcast_lock cd l' : LockInv 0 h k -> yields (LockInv 0 h) (Broadcast k cd l').
Proof.
  intros I. apply yields_any. intros wq. destruct (negb _); [by apply push0_lock|by apply yields_Ret].
Qed.

Lemma SynchList_Append_lock L x : LockInv 0 h k -> yields (LockInv 0 h) (SynchList_Append k L x).
Proof. intros I. apply yields_any. intros ?. by apply push0_lock. Qed.

Lemma ListAppend_lock L x : LockInv 0 h k -> yields (LockInv 0 h) (ListAppend k L x).
Proof. intros I. apply yields_any. intros ?. apply yields_any. intros ?. apply yields_Ret. ext. Qed.

Lemma SynchList_RemoveFront_lock L : LockInv 0 h k -> yields (LockInv 0 h) (SynchList_RemoveFront k L).
Proof. intros I. apply yields_any. intros ?. by apply push0_lock. Qed.

Lemma SynchList_Apply_lock L : LockInv 0 h k -> yields (LockInv 0 h) (SynchList_Apply k L).
Proof. intros I. apply yields_any. intros ?. by apply push0_lock. Qed.

End weighty.

Lemma ListLoop_lock h k L : LockInv 0 h k -> yields (LockInv 0 h) (ListLoop k L).
Proof.
  intros I. apply yields_any. intros ?. destruct (Seq.IsEmpty _).
  - eapply yields_bind; [by apply push0_lock|]. intros k1 I1. by apply Wait_lock.
  - apply yields_any. intros [? ?]. apply yields_Ret. ext.
Qed.

(** ** Steps *)

Section program.
Context (prog : nat -> list instr).
Hypothesis prog_plain : forall f, plain IntOn (prog f ++ [IFinish]) = true.
Hypothesis prog_respects : forall f, forallb respects (prog f) = true.

(** How the holder of the lock changes in a step. *)
Definition passes (k : Kernel) (h h' : option nat) : Prop :=
  h' = h \/
  (h = None /\ h' = Some (currentThread k) /\ exists c, codes k !! currentThread k = Some (ISetHolder l :: c)) \/
  (h = Some (currentThread k) /\ h' = None /\ exists c, codes k !! currentThread k = Some (IRelease l :: c)).

Lemma popped_lock d h k th i c : LockInv d h k -> threads k !! currentThread k = Some th -> code th = i :: c ->
  LockInv (d + weight_instr i) h (set_threads k (<[currentThread k := mkThread (status th) c]> (threads k))) /\
  paid (i :: c) = true.
Proof.
  intros [? ? (sm & Hs & Hv & He) Hpd ? ? ? ?] Hth Hc.
  assert (Hct : codes k !! currentThread k = Some (i :: c)) by (by rewrite lookup_fmap, Hth, <- Hc).
  split; [|by apply (Hpd _ _ Hct)]. split; simpl; auto.
  - exists sm. rewrite fmap_insert. simpl. rewrite (total_insert _ _ _ (i :: c)) by done. simpl.
    split_and!; auto. lia.
  - intros t c'. rewrite fmap_insert. simpl. intros [[<- <-]|[? Hc']]%lookup_insert_Some; [|eauto].
    pose proof (Hpd _ _ Hct) as Hp. simpl in Hp. by apply andb_prop in Hp as [_ ?].
Qed.

Lemma step_lock k k' h : Good k -> LockInv 0 h k -> step prog k = Ret k' ->
  exists h', LockInv 0 h' k' /\ passes k h h'.
Proof.
  intros G I. unfold step. intros (th & Hth & H)%rbind_eq_Ret. unfold deref in Hth.
  destruct (threads k !! currentThread k) as [th'|] eqn:Hk; simplify_eq.
  destruct (code th) as [|i c] eqn:Hcd; [done|].
  destruct (popped_lock 0 h k th i c I Hk Hcd) as [I0 Hp].
  assert (Hct : codes k !! currentThread k = Some (i :: c)) by (by rewrite lookup_fmap, Hk, <- Hcd).
  set (k0 := set_threads k _) in *.
  assert (Hc0 : codes k0 !! currentThread k0 = Some c).
  { simpl. rewrite fmap_insert. simpl. by rewrite lookup_insert_eq. }
  assert (Hd : forall t, toBeDestroyed k0 = Some t -> codes k0 !! t = Some [IRunEnd]).
  { intros t Ht. destruct (inv_dead G t Ht) as (Hn & Hd & _). simpl in *. rewrite fmap_insert, lookup_insert_ne; congruence. }
  assert (Hnt : codes k0 !! nextThread k0 = None).
  { simpl. rewrite fmap_insert. simpl. pose proof (inv_threads G (currentThread k) (mk_is_Some _ _ Hct)).
    rewrite lookup_insert_ne by lia. destruct (codes k !! nextThread k) eqn:Hx; [|done].
    pose proof (inv_threads G _ (mk_is_Some _ _ Hx)). lia. }
  assert (Hcur : currentThread k0 = currentThread k) by done.
  clearbody k0. rewrite Z.add_0_l in I0.
  assert (Hsame : LockInv 0 h k' -> exists h', LockInv 0 h' k' /\ passes k h h').
  { intros I'. exists h. split; [done|by left]. }
  destruct i; simpl in H, I0; try done.
  - apply Hsame. by apply (SetLevel_lock 0 h k0 now I0).
  - apply Hsame. by apply (Yield_lock 0 h k0 I0).
  - apply Hsame. apply rbind_eq_Ret in H as (_ & _ & H). by apply (CheckToBeDestroyed_lock 0 h k0 I0 Hd).
  - apply Hsame. by apply (Sleep_lock 0 h k0 finishing I0).
  - apply Hsame. by apply (SleepLoop_lock 0 h k0 finishing I0).
  - apply Hsame. by apply (Begin_lock 0 h k0 I0 Hd).
  - apply Hsame. by apply (Finish_lock 0 h k0 I0).
  - apply Hsame. by apply (Fork_lock prog 0 h k0 func (prog_respects func) Hnt I0).
  - apply Hsame. by apply (P_lock h k0 c Hc0 s Hp I0).
  - apply Hsame. by apply (PLoop_lock h k0 c Hc0 s Hp I0).
  - apply Hsame. by apply (V_lock h k0 s I0).
  - apply Hsame. by apply (Acquire_lock h k0 l0 I0).
  - destruct (SetHolder_lock h k0 l0 I0 k' H) as (h' & I' & Hh). exists h'. split; [done|].
    destruct Hh as [->|(-> & -> & ->)]; [by left|right; left]. rewrite Hcur. eauto.
  - destruct (Release_lock h k0 l0 I0 k' H) as (h' & I' & Hh). exists h'. split; [done|].
    destruct Hh as [->|(-> & -> & ->)]; [by left|right; right]. rewrite Hcur. eauto.
  - apply Hsame. by apply (Wait_lock h k0 c0 l0 I0).
  - apply Hsame. by apply (Signal_lock h k0 c Hc0 c0 l0 I0).
  - apply Hsame. by apply (Broadcast_lock h k0 c0 l0 I0).
  - apply Hsame. by apply (SynchList_Append_lock h k0 sl0 item I0).
  - apply Hsame. by apply (ListAppend_lock h k0 sl0 item I0).
  - apply Hsame. by apply (SynchList_RemoveFront_lock h k0 sl0 I0).
  - apply Hsame. by apply (ListLoop_lock h k0 sl0 I0).
  - apply Hsame. by apply (SynchList_Apply_lock h k0 sl0 I0).
Qed.

End program.

(** ** Reachable states *)

Section claims.
Context (prog : nat -> list instr) (main : list instr) (S0 : gmap nat Semaphore) (L0 : gmap nat Lock)
  (C0 : gmap nat (list nat)) (SL0 : gmap nat SynchList) (ns0 : nat) (tks : list tick) (ids : list (list nat)).
Hypothesis prog_plain : forall f, plain IntOn (prog f ++ [IFinish]) = true.
Hypothesis main_plain : plain IntOn (main ++ [IHalt]) = true.
Hypothesis objects : fresh_objects S0 C0 ns0.

(** The lock as [Lock::Lock] makes it; its semaphore belongs to nobody else. *)
Record fresh_lock : Prop := mkFreshLock {
  fl_lock : L0 !! l = Some (mkLock sl None);
  fl_sem : S0 !! sl = Some (mkSem 1 []);
  fl_others l' lk : l' <> l -> L0 !! l' = Some lk -> semaphore lk <> sl;
  fl_prog f : forallb respects (prog f) = true;
  fl_main : forallb respects main = true;
  fl_ticks tk : tk ∈ tks -> sl ∉ handlers tk;
  fl_idles hs : hs ∈ ids -> sl ∉ hs
}.

Abbreviation boot := (Initialize main S0 L0 C0 SL0 ns0 tks ids).

Lemma boot_lock : fresh_lock -> LockInv 0 None boot.
Proof.
  intros [Hl Hs Ho Hp Hm Ht Hi].
  destruct (respects_weight (ISetLevel IntOn :: main ++ [IHalt])) as [Hw Hpd].
  { simpl. by rewrite forallb_app, Hm. }
  split; simpl; auto.
  - exists (mkSem 1 []). split; [done|]. split; [done|]. rewrite map_fmap_singleton. simpl.
    unfold total. rewrite map_fold_singleton. simpl in *. lia.
  - intros t c. rewrite map_fmap_singleton. by intros [<- <-]%lookup_singleton_Some.
  - intros cd wq w Hc Hq. rewrite (fo_cond _ _ _ objects cd wq Hc) in Hq. set_solver.
  - by destruct (fo_sem _ _ _ objects sl _ Hs) as (_ & _ & ?).
Qed.

Lemma reachable_lock k : fresh_lock -> reachable prog boot k -> Good k /\ exists h, LockInv 0 h k.
Proof.
  intros HF H. split; [by apply (reachable_good prog prog_plain boot), H; apply Initialize_good|].
  induction H as [|k k' H [h IH] Hs]; [exists None; by apply boot_lock|].
  assert (G : Good k) by (apply (reachable_good prog prog_plain boot); [by apply Initialize_good|done]).
  destruct (step_lock prog (fl_prog HF) k k' h G IH Hs) as (h' & ? & _). eauto.
Qed.

(** C2: A lock gives mutual exclusion: once a thread holds it, the holder changes only in
    a step in which that thread itself runs [Release] on it; no other thread becomes the
    holder before.  The threads are any that leave the lock's semaphore to the lock, and
    interrupts and time slices come at any point. *)
Theorem lock_mutual_exclusion k k' t lk lk' : fresh_lock -> reachable prog boot k -> step prog k = Ret k' ->
  locks k !! l = Some lk -> lockHolder lk = Some t -> locks k' !! l = Some lk' ->
  lockHolder lk' = Some t \/
  (lockHolder lk' = None /\ t = currentThread k /\
   exists th c, threads k !! t = Some th /\ code th = IRelease l :: c).
Proof.
  intros HF Hr Hs Hl Ht Hl'. destruct (reachable_lock k HF Hr) as [G [h I]].
  destruct (step_lock prog (fl_prog HF) k k' h G I Hs) as (h' & I' & Hp).
  pose proof (li_lock I) as E. pose proof (li_lock I') as E'. simplify_eq. simpl in *. subst h.
  destruct Hp as [->|[(? & _)|([= ->] & -> & c & Hc)]]; [by left|done|right].
  rewrite lookup_fmap in Hc. destruct (threads k !! currentThread k) as [th|]; [|done].
  injection Hc as Hc. split; [done|]. split; [done|]. eauto.
Qed.

(** The semaphore of a lock is what the comment at [Lock::Acquire] says, busy or free:
    its value is 0 or 1; it is 0 while the lock has a holder; and a thread that is about
    to become the holder finds it busy and without another holder. *)
Theorem lock_semaphore_binary k lk sm : fresh_lock -> reachable prog boot k ->
  locks k !! l = Some lk -> sems k !! sl = Some sm ->
  (value sm = 0 \/ value sm = 1) /\
  (lockHolder lk <> None -> value sm = 0) /\
  (forall t th c, threads k !! t = Some th -> code th = ISetHolder l :: c ->
     value sm = 0 /\ lockHolder lk = None).
Proof.
  intros HF Hr Hl Hs. destruct (reachable_lock k HF Hr) as [_ [h I]].
  pose proof (LockInv_setholder h k) as Hset.
  pose proof I as [Hlk ? (sm' & Hs' & Hv & He) Hpd ? ? ? ?]. simplify_eq. simpl.
  assert (0 <= total (fun _ => weight) (codes k)).
  { apply total_nonneg. intros t c Ht. by apply paid_nonneg, (Hpd t). }
  split; [destruct h; lia|]. split; [destruct h; [lia|done]|].
  intros t th c Ht Hc. destruct (Hset t c I) as [-> H0]; [by rewrite lookup_fmap, Ht, <- Hc|]. auto.
Qed.

End claims.

End lock.

(** ** The small system *)

Lemma small_lock : fresh_lock 0 0 Small.prog Small.main Small.sems0 Small.locks0 Small.ticks0 Small.idles0.
Proof.
  split; try reflexivity.
  - intros l' lk Hn. unfold Small.locks0. intros [<- _]%lookup_singleton_Some. done.
  - by intros [|f].
  - unfold Small.ticks0. intros tk Htk. rewrite !elem_of_cons in Htk. destruct Htk as [->|[->|Htk]]; set_solver.
  - unfold Small.idles0. intros hs Hhs. rewrite elem_of_cons in Hhs. destruct Hhs as [->|Hhs]; set_solver.
Qed.

Lemma lock_mutual_exclusion_witness :
  exists lk, locks (Small.at_step Small.main 11) !! 0%nat = Some lk /\ lockHolder lk = Some 1%nat.
Proof.
  eexists. split; [vm_compute; reflexivity|].
  destruct (lock_mutual_exclusion 0 0 Small.prog Small.main Small.sems0 Small.locks0 Small.conds0 Small.lists0 2
    Small.ticks0 Small.idles0 Small.prog_plain eq_refl Small.objects (Small.at_step Small.main 10)
    (Small.at_step Small.main 11) 1 (mkLock 0 (Some 1%nat)) (mkLock 0 (Some 1%nat)) small_lock)
    as [H|(H & _)]; try (vm_compute; reflexivity); try exact H.
  apply Small.at_step_reachable.
Defined.

Lemma lock_semaphore_binary_witness : exists sm,
  sems (Small.at_step Small.main 10) !! 0%nat = Some sm /\ value sm = 0.
Proof.
  eexists. split; [vm_compute; reflexivity|].
  apply (lock_semaphore_binary 0 0 Small.prog Small.main Small.sems0 Small.locks0 Small.conds0 Small.lists0 2
    Small.ticks0 Small.idles0 Small.prog_plain eq_refl Small.objects (Small.at_step Small.main 10)
    (mkLock 0 (Some 1%nat)) (mkSem 0 []) small_lock); try (vm_compute; reflexivity); try discriminate.
  apply Small.at_step_reachable.
Defined.
