(* ===== verification/Effects.v ===== *)
(** * What a step changes

    The machine of [Threads] seen without scheduling: what each thread has still to do, the
    values of semaphores, holders, waiters and lists.  [move] says what each instruction does
    to that, and [step_move] that every step of the machine is such a move, followed by the
    signals of interrupt handlers.  Invariants of synchronisation objects are proved over
    [move]; where threads are kept is the matter of [Sched]. *)

From S2P Require Import Prelude NList Interrupt Threads Sched.

Record obs : Type := mkObs {
  o_codes : gmap nat (list instr);
  o_vals : gmap nat Z;
  o_locks : gmap nat Lock;
  o_conds : gmap nat (list nat);
  o_lists : gmap nat SynchList;
  o_next : nat
}.

Definition observe (k : Kernel) : obs :=
  mkObs (codes k) (value <$> sems k) (locks k) (conds k) (lists k) (nextSem k).

Definition on_codes (f : gmap nat (list instr) -> gmap nat (list instr)) (o : obs) : obs :=
  mkObs (f (o_codes o)) (o_vals o) (o_locks o) (o_conds o) (o_lists o) (o_next o).
Definition on_vals (f : gmap nat Z -> gmap nat Z) (o : obs) : obs :=
  mkObs (o_codes o) (f (o_vals o)) (o_locks o) (o_conds o) (o_lists o) (o_next o).
Definition o_lock (l : nat) (lk : Lock) (o : obs) : obs :=
  mkObs (o_codes o) (o_vals o) (<[l := lk]> (o_locks o)) (o_conds o) (o_lists o) (o_next o).
Definition o_cond (cd : nat) (wq : list nat) (o : obs) : obs :=
  mkObs (o_codes o) (o_vals o) (o_locks o) (<[cd := wq]> (o_conds o)) (o_lists o) (o_next o).
Definition o_list (sl : nat) (L : SynchList) (o : obs) : obs :=
  mkObs (o_codes o) (o_vals o) (o_locks o) (o_conds o) (<[sl := L]> (o_lists o)) (o_next o).

(** Thread [t] goes on with [p]. *)
Definition o_push (t : nat) (p : list instr) : obs -> obs := on_codes (alter (app p) t).

Lemma o_push_nil t o : o_push t [] o = o.
Proof. destruct o. unfold o_push, on_codes. simpl. by rewrite alter_id. Qed.

Lemma o_push_app t p q o : o_push t p (o_push t q o) = o_push t (p ++ q) o.
Proof.
  unfold o_push, on_codes. simpl. f_equal. rewrite alter_alter_eq. apply alter_ext.
  intros c _. simpl. by rewrite app_assoc.
Qed.

(** Handlers signal the semaphores [hs]. *)
Definition bump (hs : list nat) (m : gmap nat Z) : gmap nat Z :=
  foldl (fun m s => alter (Z.add 1) s m) m hs.

(** A new waiter in the queue of a condition. *)
Definition o_wait (t cd l : nat) (wq : list nat) (o : obs) : obs :=
  o_push t [IRelease l; IP (o_next o); IAcquire l]
    (mkObs (o_codes o) (<[o_next o := 0]> (o_vals o)) (o_locks o)
       (<[cd := wq ++ [o_next o]]> (o_conds o)) (o_lists o) (S (o_next o))).

(** What an instruction that only calls others goes on with. *)
Definition expands (o : obs) (i : instr) (p : list instr) : Prop :=
  match i with
  | ISetLevel _ => p = [] \/ p = [IYield]
  | IYield => exists l, p = [ISetLevel l] \/ p = [IRunEnd; ISetLevel l]
  | ISleep f => p = [ISleepLoop f]
  | ISleepLoop f => p = [IRunEnd] \/ p = [ISleepLoop f]
  | IFinish => p = [ISleep true]
  | IP s => exists l, p = [IPLoop s; ISetLevel l]
  | IPLoop s => o_vals o !! s = Some 0 /\ p = [ISleep false; IPLoop s]
  | IAcquire l => exists lk, o_locks o !! l = Some lk /\ p = [IP (semaphore lk); ISetHolder l]
  | ISignal cd _ => o_conds o !! cd = Some [] /\ p = []
  | IBroadcast cd l => p = [] \/ p = [ISignal cd l; IBroadcast cd l]
  | ISynchAppend sl x => exists L, o_lists o !! sl = Some L /\
      p = [IAcquire (lock L); IListAppend sl x; ISignal (listEmpty L) (lock L); IRelease (lock L)]
  | ISynchRemoveFront sl => exists L, o_lists o !! sl = Some L /\
      p = [IAcquire (lock L); IListLoop sl; IRelease (lock L)]
  | ISynchApply sl => exists L, o_lists o !! sl = Some L /\ p = [IAcquire (lock L); IRelease (lock L)]
  | _ => False
  end.

(** The thread to be destroyed. *)
Definition dead_thread (t : nat) (d : option nat) (o : obs) : Prop :=
  match d with Some u => u <> t /\ o_codes o !! u = Some [IRunEnd] | None => True end.
Definition o_destroy (d : option nat) : obs -> obs :=
  on_codes (fun m => match d with Some u => delete u m | None => m end).

(** ** Counting instructions *)

Fixpoint num (f : instr -> bool) (c : list instr) : Z :=
  match c with [] => 0 | i :: c => Z.b2z (f i) + num f c end.

Lemma num_app f c c' : num f (c ++ c') = num f c + num f c'.
Proof. induction c; simpl; lia. Qed.

Lemma num_nonneg f c : 0 <= num f c.
Proof. induction c as [|i c IH]; simpl; [lia|]. destruct (f i); simpl; lia. Qed.

Lemma num_pos f c : 0 < num f c <-> exists i, i ∈ c /\ f i = true.
Proof.
  induction c as [|i c IH]; simpl; [split; [lia|intros (i & Hi & _); set_solver]|].
  pose proof (num_nonneg f c). destruct (f i) eqn:Hi; simpl.
  - split; [|lia]. intros _. exists i. set_solver.
  - rewrite Z.add_0_l, IH. setoid_rewrite elem_of_cons. naive_solver congruence.
Qed.

(** How many such instructions all threads together have still to do. *)
Definition ahead (f : instr -> bool) (o : obs) : Z := total (fun _ => num f) (o_codes o).

Lemma ahead_nonneg f o : 0 <= ahead f o.
Proof. apply total_nonneg. intros. apply num_nonneg. Qed.

Lemma ahead_ge f o t c : o_codes o !! t = Some c -> num f c <= ahead f o.
Proof. intros H. apply (total_ge (fun _ => num f) _ t c); [|done]. intros. apply num_nonneg. Qed.

Lemma ahead_codes f o t c c' : o_codes o !! t = Some c ->
  ahead f (on_codes <[t := c']> o) = ahead f o - num f c + num f c'.
Proof. intros H. unfold ahead. simpl. by rewrite (total_insert _ _ _ c). Qed.

Lemma o_push_codes t p o c : o_codes o !! t = Some c -> o_push t p o = on_codes <[t := p ++ c]> o.
Proof.
  intros H. unfold o_push, on_codes. f_equal. apply map_eq. intros u.
  destruct (decide (u = t)) as [->|]; [by rewrite lookup_alter_eq, lookup_insert_eq, H|].
  by rewrite lookup_alter_ne, lookup_insert_ne.
Qed.

Lemma ahead_push f o t p c : o_codes o !! t = Some c -> ahead f (o_push t p o) = ahead f o + num f p.
Proof. intros H. rewrite (o_push_codes _ _ _ c), (ahead_codes _ _ _ c), num_app by done. lia. Qed.

Lemma ahead_destroy f o t d : dead_thread t d o -> f IRunEnd = false -> ahead f (o_destroy d o) = ahead f o.
Proof.
  intros Hd Hf. destruct d as [d|]; [|done]. destruct Hd as [_ Hd]. unfold ahead. simpl.
  rewrite (total_delete _ _ _ [IRunEnd]) by done. simpl. rewrite Hf. simpl. lia.
Qed.

Lemma ahead_new f o n c : o_codes o !! n = None -> ahead f (on_codes <[n := c]> o) = ahead f o + num f c.
Proof. intros H. unfold ahead. simpl. rewrite total_insert_new by done. lia. Qed.

Section program.
Context (prog : nat -> list instr).

(** Thread [t] executes the instruction, which it has fetched. *)
Inductive move (t : nat) : instr -> obs -> obs -> Prop :=
  | mv_expand i p o : expands o i p -> move t i o (o_push t p o)
  | mv_run d o : dead_thread t d o -> move t IRunEnd o (o_destroy d o)
  | mv_begin d p o : dead_thread t d o -> p = [] \/ p = [IYield] -> move t IBegin o (o_push t p (o_destroy d o))
  | mv_fork f n l o : o_codes o !! n = None -> n <> t ->
      move t (IFork f) o (o_push t [ISetLevel l] (on_codes <[n := StackAllocate (prog f)]> o))
  | mv_pass s v o : o_vals o !! s = Some v -> v <> 0 -> move t (IPLoop s) o (on_vals <[s := v - 1]> o)
  | mv_V s v l o : o_vals o !! s = Some v ->
      move t (IV s) o (o_push t [ISetLevel l] (on_vals <[s := v + 1]> o))
  | mv_hold l lk o : o_locks o !! l = Some lk ->
      move t (ISetHolder l) o (o_lock l (mkLock (semaphore lk) (Some t)) o)
  | mv_release l s o : o_locks o !! l = Some (mkLock s (Some t)) ->
      move t (IRelease l) o (o_push t [IV s] (o_lock l (mkLock s None) o))
  | mv_wait cd l wq o : o_conds o !! cd = Some wq -> move t (IWait cd l) o (o_wait t cd l wq o)
  | mv_signal cd l w wq o : o_conds o !! cd = Some (w :: wq) ->
      move t (ISignal cd l) o (o_push t [IV w] (o_cond cd wq o))
  | mv_append sl x L o : o_lists o !! sl = Some L ->
      move t (IListAppend sl x) o
        (o_list sl (mkSynchList (items L ++ [x]) (returned L) (lock L) (listEmpty L)) o)
  | mv_empty sl L wq o : o_lists o !! sl = Some L -> items L = [] -> o_conds o !! listEmpty L = Some wq ->
      move t (IListLoop sl) o (o_wait t (listEmpty L) (lock L) wq (o_push t [IListLoop sl] o))
  | mv_take sl L x its o : o_lists o !! sl = Some L -> items L = x :: its ->
      move t (IListLoop sl) o
        (o_list sl (mkSynchList its (returned L ++ [x]) (lock L) (listEmpty L)) o).

(** The devices signal only semaphores in [D]. *)
Section devices.
Context (D : nat -> Prop).

Definition devices (k : Kernel) : Prop :=
  (forall tk s, tk ∈ ticks k -> s ∈ handlers tk -> D s) /\ (forall hs s, hs ∈ idles k -> s ∈ hs -> D s).

(** [k] looks like [o], but for signals of devices. *)
Definition looks (o : obs) (k : Kernel) : Prop :=
  devices k /\ exists hs, Forall D hs /\ observe k = on_vals (bump hs) o.

(** The same, with thread [t] on the processor. *)
Definition shows (t : nat) (o : obs) (k : Kernel) : Prop := currentThread k = t /\ looks o k.

Lemma shows_ext t o k k' : shows t o k -> currentThread k' = currentThread k -> observe k' = observe k ->
  (forall tk, tk ∈ ticks k' -> tk ∈ ticks k) -> (forall hs, hs ∈ idles k' -> hs ∈ idles k) -> shows t o k'.
Proof.
  intros (Hc & [Ht Hi] & hs & Hhs & Ho) Ec Eo Et Ei. split; [congruence|]. split; [by split; eauto|].
  exists hs. by rewrite Eo.
Qed.

Ltac same_view := eapply shows_ext; try done.

Lemma push_observe k p k' : push k p = Ret k' -> observe k' = o_push (currentThread k) p (observe k) /\
  currentThread k' = currentThread k /\ ticks k' = ticks k /\ idles k' = idles k.
Proof.
  intros (th & Hth & [= <-])%rbind_eq_Ret. unfold deref in Hth.
  destruct (threads k !! currentThread k) as [th'|] eqn:Ht; [|done]. injection Hth as ->.
  split; [|done]. unfold observe, o_push, on_codes. simpl. f_equal.
  rewrite fmap_insert. apply map_eq. intros u. destruct (decide (u = currentThread k)) as [->|].
  - by rewrite lookup_insert_eq, lookup_alter_eq, lookup_fmap, Ht.
  - by rewrite lookup_insert_ne, lookup_alter_ne.
Qed.

Lemma setStatus_shows t o k u st : shows t o k -> yields (shows t o) (setStatus k u st).
Proof.
  intros H. unfold setStatus, deref. destruct (threads k !! u) as [th|] eqn:Hth; [|done].
  apply yields_Ret. same_view. unfold observe. simpl. f_equal. rewrite fmap_insert. apply insert_id.
  by rewrite lookup_fmap, Hth.
Qed.

Lemma push_shows t o k p : shows t o k -> yields (shows t (o_push t p o)) (push k p).
Proof.
  intros (Hc & Hd & hs & Hhs & Ho) k' (E & Ec & Et & Ei)%push_observe. rewrite Hc in *.
  split; [done|]. split; [by unfold devices; rewrite Et, Ei|]. exists hs. by rewrite E, Ho.
Qed.

Lemma ReadyToRun_shows t o k u : shows t o k -> yields (shows t o) (ReadyToRun k u).
Proof.
  intros H. apply yields_any. intros _. apply (yields_bind _ _ _ _ (setStatus_shows _ _ k u READY H)).
  intros k1 H1. apply yields_any. intros r. apply yields_Ret. same_view.
Qed.

(** [V] on a semaphore adds one to its value. *)
Lemma V_body_shows t o k s : shows t o k ->
  yields (fun k' => is_Some (sems k !! s) /\ currentThread k' = t /\ devices k' /\
    observe k' = on_vals (alter (Z.add 1) s) (observe k)) (V_body k s).
Proof.
  intros H. unfold V_body, deref. destruct (sems k !! s) as [sm|] eqn:Hs; [|done]. rewrite rbind_Ret.
  apply (yields_bind (fun '(k1, _) => currentThread k1 = t /\ devices k1 /\ observe k1 = observe k /\ sems k1 = sems k)).
  - destruct H as (Hc & Hd & _). destruct (negb _); [|by apply yields_Ret]. apply yields_any. intros [u q].
    intros [k1 q1] (k2 & H2 & [= <- <-])%rbind_eq_Ret. apply rbind_eq_Ret in H2 as (? & _ & H2).
    apply rbind_eq_Ret in H2 as (k3 & H3 & H2). apply rbind_eq_Ret in H2 as (r & _ & [= <-]).
    apply rbind_eq_Ret in H3 as (th & Hth & [= <-]). unfold deref in Hth.
    destruct (threads k !! u) as [th'|] eqn:Hu; simplify_eq. split; [done|]. split; [done|]. split; [|done].
    unfold observe. simpl. f_equal. rewrite fmap_insert. apply insert_id. by rewrite lookup_fmap, Hu.
  - intros [k1 q1] (Hc & Hd & Ho & Hk). apply yields_Ret. split; [by eexists|]. split; [done|]. split; [done|].
    rewrite <- Ho. unfold observe, on_vals. simpl. f_equal. rewrite Hk, fmap_insert. simpl.
    apply map_eq. intros u. destruct (decide (u = s)) as [->|].
    + rewrite lookup_insert_eq, lookup_alter_eq, lookup_fmap, Hs. simpl. f_equal. lia.
    + by rewrite lookup_insert_ne, lookup_alter_ne.
Qed.

Lemma handler_shows t o k s : D s -> shows t o k -> yields (shows t o) (V_body k s).
Proof.
  intros Hs H k' Hk. destruct (V_body_shows t o k s H k' Hk) as (_ & Hc & Hd & Ho).
  destruct H as (_ & _ & hs & Hhs & Ho'). split; [done|]. split; [done|]. exists (hs ++ [s]).
  split; [by apply Forall_app_2; [|apply Forall_singleton]|]. rewrite Ho, Ho'. unfold bump, on_vals. simpl.
  by rewrite foldl_app.
Qed.

Lemma run_handlers_shows t o hs : forall k, (forall s, s ∈ hs -> D s) -> shows t o k ->
  yields (shows t o) (run_handlers k hs).
Proof.
  induction hs as [|s hs IH]; intros k Hd H; simpl; [by apply yields_Ret|].
  eapply yields_bind; [apply (handler_shows t o); [set_solver|done]|]. intros k1 H1. apply IH; [set_solver|done].
Qed.

(** Enabling interrupts ends with a [Yield] or not. *)
Lemma OneTick_shows t o k : shows t o k ->
  yields (fun k' => exists p, (p = [] \/ p = [IYield]) /\ shows t (o_push t p o) k') (OneTick k).
Proof.
  intros H. unfold OneTick. destruct (ticks k) as [|[hs b] rest] eqn:Htk.
  { apply yields_Ret. exists []. rewrite o_push_nil. auto. }
  eapply yields_bind; [apply (run_handlers_shows t o)|].
  - intros s Hs. destruct H as (_ & [Hd _] & _). apply (Hd (mkTick hs b) s); [rewrite Htk; set_solver|done].
  - same_view. simpl. rewrite Htk. set_solver.
  - intros k1 H1. assert (H2 : shows t o (set_level k1 IntOn)) by same_view. destruct b.
    + intros k2 Hk2. exists [IYield]. split; [by right|]. by apply (push_shows t o _ _ H2).
    + apply yields_Ret. exists []. rewrite o_push_nil. split; [by left|done].
Qed.

Lemma SetLevel_shows t o k n : shows t o k ->
  yields (fun k' => exists p, (p = [] \/ p = [IYield]) /\ shows t (o_push t p o) k') (SetLevel k n).
Proof.
  intros H. unfold SetLevel. destruct (_ && _); [apply OneTick_shows; same_view|].
  apply yields_Ret. exists []. rewrite o_push_nil. split; [by left|]. same_view.
Qed.

Lemma FindNextToRun_shows t o k : shows t o k -> yields (fun '(k1, _) => shows t o k1) (FindNextToRun k).
Proof.
  intros H. apply yields_any. intros _. destruct (Seq.IsEmpty _); [by apply yields_Ret|].
  apply yields_any. intros [u r]. apply yields_Ret. same_view.
Qed.

(** The switch. *)
Lemma Run_looks t o k n fin : shows t o k -> yields (looks (o_push t [IRunEnd] o)) (Run k n fin).
Proof.
  intros H. apply yields_any. intros _. apply (yields_bind (shows t o)).
  - destruct fin; [apply yields_any; intros _|]; apply yields_Ret; same_view.
  - intros k1 H1. eapply yields_bind; [by apply push_shows|]. intros k2 (_ & H2) k3 H3.
    by destruct (setStatus_shows n _ (set_current k2 n) n RUNNING (conj eq_refl H2) k3 H3) as [_ ?].
Qed.

(** ** Instructions *)

(** [k'] comes of a move from [o]. *)
Definition moved (t : nat) (i : instr) (o : obs) (k' : Kernel) : Prop :=
  exists o', move t i o o' /\ looks o' k'.

Lemma moved_expand t i o p k' : expands o i p -> shows t (o_push t p o) k' -> moved t i o k'.
Proof. intros He [_ H]. exists (o_push t p o). split; [by constructor|done]. Qed.

Section instructions.
Context (t : nat) (k : Kernel).
Hypothesis Hcur : currentThread k = t.
Hypothesis Hdev : devices k.

Lemma shows_refl : shows t (observe k) k.
Proof. split; [done|]. split; [done|]. exists []. split; [done|]. by destruct k. Qed.

Ltac view := eapply shows_ext; [apply shows_refl|done..].

(** A function that goes on to call others. *)
Lemma push_moved i p k1 : expands (observe k) i p -> observe k1 = observe k ->
  currentThread k1 = currentThread k -> ticks k1 = ticks k -> idles k1 = idles k ->
  yields (moved t i (observe k)) (push k1 p).
Proof.
  intros He Ho Hc Ht Hi k' Hk. eapply moved_expand; [done|]. eapply push_shows; [|done].
  eapply shows_ext; [apply shows_refl|done|done|by rewrite Ht|by rewrite Hi].
Qed.

Lemma SetLevel_moved n : yields (moved t (ISetLevel n) (observe k)) (SetLevel k n).
Proof.
  intros k' (p & Hp & H)%(SetLevel_shows t (observe k) k n shows_refl). by eapply moved_expand.
Qed.

Lemma Yield_moved : yields (moved t IYield (observe k)) (Yield k).
Proof.
  unfold Yield. rewrite SetLevel_off, rbind_Ret.
  eapply yields_bind; [apply (FindNextToRun_shows t (observe k)); view|]. intros [k1 n] H1.
  eapply yields_bind; [by apply (push_shows t (observe k))|]. intros k2 H2. destruct n as [n|].
  - eapply yields_bind; [by apply (ReadyToRun_shows t)|]. intros k3 H3 k' Hk. eapply Run_looks in Hk; [|done].
    rewrite o_push_app in Hk. eexists. split; [apply mv_expand|done]. simpl. eauto.
  - apply yields_Ret. eapply moved_expand; [|done]. simpl. eauto.
Qed.

Lemma Sleep_moved f : yields (moved t (ISleep f) (observe k)) (Sleep k f).
Proof.
  unfold Sleep. apply yields_any. intros _. eapply yields_bind; [apply (setStatus_shows t (observe k)); view|].
  intros k1 H1 k' Hk. eapply moved_expand; [|by eapply push_shows]. done.
Qed.

Lemma SleepLoop_moved f : yields (moved t (ISleepLoop f) (observe k)) (SleepLoop k f).
Proof.
  unfold SleepLoop. eapply yields_bind; [apply (FindNextToRun_shows t (observe k)); view|]. intros [k1 n] H1.
  destruct n as [n|].
  - intros k' Hk. eapply Run_looks in Hk; [|done]. eexists. split; [apply mv_expand|done]. simpl. eauto.
  - eapply yields_bind; [by apply push_shows|]. intros k2 H2. unfold Idle.
    destruct (idles k2) as [|hs rest] eqn:Hi; [done|]. intros k' Hk.
    eapply moved_expand; [simpl; by right|]. eapply run_handlers_shows; [| |done].
    + destruct H2 as (_ & [_ Hd] & _). intros s. apply Hd. rewrite Hi. set_solver.
    + eapply shows_ext; [done..|]. simpl. rewrite Hi. set_solver.
Qed.

(** A thread to be destroyed has nothing left but the end of [Run]. *)
Hypothesis Hdead : forall d, toBeDestroyed k = Some d -> codes k !! d = Some [IRunEnd].

Lemma CheckToBeDestroyed_shows : yields (fun k' => exists d, dead_thread t d (observe k) /\
  shows t (o_destroy d (observe k)) k') (CheckToBeDestroyed k).
Proof.
  unfold CheckToBeDestroyed. destruct (toBeDestroyed k) as [d|] eqn:Hd.
  - intros k' ([] & Ha & [= <-])%rbind_eq_Ret. apply ASSERT_Ret, negb_true_iff, bool_decide_eq_false in Ha.
    exists (Some d). split; [split; [congruence|auto]|]. split; [done|]. split; [done|]. exists [].
    split; [done|]. unfold observe, on_vals. simpl. by rewrite fmap_delete.
  - apply yields_Ret. exists None. split; [done|]. unfold o_destroy, on_codes. simpl. apply shows_refl.
Qed.

Lemma RunEnd_moved : yields (moved t IRunEnd (observe k)) (RunEnd k).
Proof.
  apply yields_any. intros _ k' (d & Hd & _ & H)%CheckToBeDestroyed_shows. eexists. split; [by apply mv_run|done].
Qed.

Lemma Begin_moved : yields (moved t IBegin (observe k)) (Begin k).
Proof.
  eapply yields_bind; [apply CheckToBeDestroyed_shows|]. intros k1 (d & Hd & H1) k' Hk.
  apply (SetLevel_shows t _ _ _ H1) in Hk as (p & Hp & _ & H). eexists. split; [by apply mv_begin|done].
Qed.

Lemma Fork_moved f : codes k !! nextThread k = None -> nextThread k <> t ->
  yields (moved t (IFork f) (observe k)) (Fork prog k f).
Proof.
  intros Hn Ht. unfold Fork. rewrite SetLevel_off, rbind_Ret.
  eapply yields_bind; [apply (ReadyToRun_shows t (on_codes <[nextThread k := StackAllocate (prog f)]> (observe k)))|].
  - split; [done|]. split; [done|]. exists []. split; [done|]. unfold observe, on_codes. simpl. by rewrite fmap_insert.
  - intros k1 H1 k' Hk. eapply push_shows in Hk as [_ Hk]; [|done]. eexists. split; [|done].
    by apply (mv_fork t f (nextThread k)).
Qed.

Lemma PLoop_moved s : yields (moved t (IPLoop s) (observe k)) (PLoop k s).
Proof.
  unfold PLoop, deref. destruct (sems k !! s) as [sm|] eqn:Hs; [|done]. rewrite rbind_Ret.
  assert (Hv : o_vals (observe k) !! s = Some (value sm)) by (simpl; by rewrite lookup_fmap, Hs).
  destruct (Z.eqb_spec (value sm) 0) as [H0|H0].
  - apply yields_any. intros q. apply push_moved; try done.
    + split; [by rewrite Hv, H0|done].
    + unfold observe. simpl. f_equal. rewrite fmap_insert. by apply insert_id.
  - apply yields_Ret. eexists. split; [by apply mv_pass|]. split; [done|]. exists []. split; [done|].
    unfold observe. simpl. by rewrite fmap_insert.
Qed.

Lemma V_moved s : yields (moved t (IV s) (observe k)) (V k s).
Proof.
  unfold V. rewrite SetLevel_off, rbind_Ret.
  eapply yields_bind; [apply (V_body_shows t (observe k)); view|].
  intros k1 ([sm Hs] & Hc & Hd & Ho). simpl in Hs.
  assert (Hv : o_vals (observe k) !! s = Some (value sm)) by (simpl; by rewrite lookup_fmap, Hs).
  intros k' Hk. eapply (push_shows t (on_vals <[s := value sm + 1]> (observe k))) in Hk as [_ Hk].
  - eexists. split; [by apply mv_V|done].
  - split; [done|]. split; [done|]. exists []. split; [done|]. rewrite Ho. unfold on_vals. simpl. f_equal.
    apply map_eq. intros u. destruct (decide (u = s)) as [->|].
    + rewrite lookup_insert_eq, lookup_alter_eq. simpl in Hv. rewrite Hv. simpl. f_equal. lia.
    + by rewrite lookup_insert_ne, lookup_alter_ne.
Qed.

(** An object changes, and the thread goes on with [p]. *)
Lemma update_moved i p o' k1 : move t i (observe k) (o_push t p o') -> observe k1 = o' ->
  currentThread k1 = currentThread k -> ticks k1 = ticks k -> idles k1 = idles k ->
  yields (moved t i (observe k)) (push k1 p).
Proof.
  intros Hm Ho Hc Ht Hi k' Hk. apply (push_shows t o') in Hk as [_ Hk]; [by eexists|].
  split; [congruence|]. split; [split; rewrite ?Ht, ?Hi; apply Hdev|]. exists []. split; [done|]. rewrite Ho. by destruct o'.
Qed.

Lemma Acquire_moved l : yields (moved t (IAcquire l) (observe k)) (Acquire k l).
Proof.
  unfold Acquire, deref. destruct (locks k !! l) as [lk|] eqn:Hl; [|done]. apply push_moved; try done. simpl. eauto.
Qed.

Lemma SetHolder_moved l : yields (moved t (ISetHolder l) (observe k)) (SetHolder k l).
Proof.
  unfold SetHolder, deref. destruct (locks k !! l) as [lk|] eqn:Hl; [|done]. apply yields_Ret.
  eexists. split; [by apply mv_hold|]. split; [done|]. exists []. split; [done|]. rewrite Hcur. by destruct k.
Qed.

Lemma held_Ret l lk u : ASSERT (IsHeldByCurrentThread k lk) = Ret u -> locks k !! l = Some lk ->
  locks k !! l = Some (mkLock (semaphore lk) (Some t)).
Proof. intros H%ASSERT_Ret%bool_decide_eq_true ->. rewrite <- Hcur, <- H. by destruct lk. Qed.

Lemma Release_moved l : yields (moved t (IRelease l) (observe k)) (Release k l).
Proof.
  unfold Release, deref. destruct (locks k !! l) as [lk|] eqn:Hl; [|done]. rewrite rbind_Ret.
  intros k' (u & Ha & Hk)%rbind_eq_Ret. revert k' Hk.
  eapply update_moved; [|done..]. apply mv_release. by eapply held_Ret.
Qed.

Lemma Wait_moved cd l : yields (moved t (IWait cd l) (observe k)) (Wait k cd l).
Proof.
  unfold Wait. apply yields_any. intros lk. apply yields_any. intros _.
  unfold deref. simpl. destruct (conds k !! cd) as [wq|] eqn:Hc; [|done]. rewrite rbind_Ret.
  intros k' (wq' & Ha & Hk)%rbind_eq_Ret. apply rbind_eq_Ret in Ha as (_ & _ & [= <-]). revert k' Hk.
  eapply update_moved; [by apply mv_wait|try done..]. unfold observe. simpl. f_equal. by rewrite fmap_insert.
Qed.

Lemma Signal_moved cd l : yields (moved t (ISignal cd l) (observe k)) (Signal k cd l).
Proof.
  unfold Signal. apply yields_any. intros lk. apply yields_any. intros _.
  unfold deref. destruct (conds k !! cd) as [[|w wq]|] eqn:Hc; [| |done]; rewrite rbind_Ret; simpl.
  - apply yields_Ret. apply (moved_expand _ _ _ []); [done|]. rewrite o_push_nil. apply shows_refl.
  - eapply update_moved; [by apply mv_signal|done..].
Qed.

Lemma Broadcast_moved cd l : yields (moved t (IBroadcast cd l) (observe k)) (Broadcast k cd l).
Proof.
  unfold Broadcast. apply yields_any. intros wq. destruct (negb _).
  - apply push_moved; try done. simpl. by right.
  - apply yields_Ret. apply (moved_expand _ _ _ []); [by left|]. rewrite o_push_nil. apply shows_refl.
Qed.

Lemma SynchList_Append_moved sl x : yields (moved t (ISynchAppend sl x) (observe k)) (SynchList_Append k sl x).
Proof.
  unfold SynchList_Append, deref. destruct (lists k !! sl) as [L|] eqn:HL; [|done]. apply push_moved; try done. simpl. eauto.
Qed.

Lemma SynchList_RemoveFront_moved sl : yields (moved t (ISynchRemoveFront sl) (observe k)) (SynchList_RemoveFront k sl).
Proof.
  unfold SynchList_RemoveFront, deref. destruct (lists k !! sl) as [L|] eqn:HL; [|done]. apply push_moved; try done. simpl. eauto.
Qed.

Lemma SynchList_Apply_moved sl : yields (moved t (ISynchApply sl) (observe k)) (SynchList_Apply k sl).
Proof.
  unfold SynchList_Apply, deref. destruct (lists k !! sl) as [L|] eqn:HL; [|done]. apply push_moved; try done. simpl. eauto.
Qed.

Lemma ListAppend_moved sl x : yields (moved t (IListAppend sl x) (observe k)) (ListAppend k sl x).
Proof.
  unfold ListAppend, deref. destruct (lists k !! sl) as [L|] eqn:HL; [|done]. rewrite rbind_Ret.
  intros k' (its & Ha & [= <-])%rbind_eq_Ret. apply rbind_eq_Ret in Ha as (_ & _ & [= <-]).
  eexists. split; [by apply mv_append|]. split; [done|]. exists []. split; [done|]. by destruct k.
Qed.

End instructions.

(** The loop waits as [Wait] does. *)
Lemma ListLoop_moved t k sl : currentThread k = t -> devices k ->
  yields (moved t (IListLoop sl) (observe k)) (ListLoop k sl).
Proof.
  intros Hcur Hdev. unfold ListLoop, deref. destruct (lists k !! sl) as [L|] eqn:HL; [|done]. rewrite rbind_Ret.
  destruct (items L) as [|x its] eqn:Hi; simpl.
  - intros k' (k1 & H1 & Hk)%rbind_eq_Ret. apply push_observe in H1 as (Ho & Hc & Ht & Hid). rewrite Hcur in *.
    apply (Wait_moved t k1) in Hk as (o' & Hm & Hk); [|done|by unfold devices; rewrite Ht, Hid].
    inversion Hm; [done|subst; simplify_eq]. exists (o_wait (currentThread k) (listEmpty L) (lock L) wq (observe k1)).
    split; [|done]. rewrite Ho in *. by apply mv_empty.
  - apply yields_Ret. eexists. split; [by eapply mv_take|]. split; [done|]. exists []. split; [done|]. by destruct k.
Qed.

(** ** Steps *)

(** Every step is a move of the running thread. *)
Lemma step_move k k' : Good k -> devices k -> step prog k = Ret k' ->
  exists i c, codes k !! currentThread k = Some (i :: c) /\
    moved (currentThread k) i (on_codes <[currentThread k := c]> (observe k)) k'.
Proof.
  intros G Hd. unfold step. intros (th & Hth & H)%rbind_eq_Ret. unfold deref in Hth.
  destruct (threads k !! currentThread k) as [th'|] eqn:Hk; simplify_eq.
  destruct (code th) as [|i c] eqn:Hcd; [done|]. exists i, c.
  assert (Hct : codes k !! currentThread k = Some (i :: c)) by (by rewrite lookup_fmap, Hk, <- Hcd).
  split; [done|]. set (k0 := set_threads k _) in *.
  assert (Ho : observe k0 = on_codes <[currentThread k := c]> (observe k)).
  { unfold observe, on_codes. simpl. by rewrite fmap_insert. }
  rewrite <- Ho. assert (Hdd : forall d, toBeDestroyed k0 = Some d -> codes k0 !! d = Some [IRunEnd]).
  { intros d Hx. destruct (inv_dead G d Hx) as (Hn & Hx' & _). simpl in *. rewrite fmap_insert, lookup_insert_ne; congruence. }
  pose proof (inv_threads G (currentThread k) (mk_is_Some _ _ Hct)) as Hlt.
  assert (Hnt : codes k0 !! nextThread k0 = None).
  { simpl. rewrite fmap_insert. simpl. rewrite lookup_insert_ne by lia.
    destruct (codes k !! nextThread k) eqn:Hx; [|done]. pose proof (inv_threads G _ (mk_is_Some _ _ Hx)). lia. }
  assert (Hne : nextThread k0 <> currentThread k) by (simpl; lia).
  assert (Hcur : currentThread k0 = currentThread k) by done. assert (Hd0 : devices k0) by done. clearbody k0.
  revert H. destruct i; simpl; try done; intros H.
  - by apply (SetLevel_moved _ k0).
  - by apply (Yield_moved _ k0).
  - by apply (RunEnd_moved _ k0).
  - by apply (Sleep_moved _ k0).
  - by apply (SleepLoop_moved _ k0).
  - by apply (Begin_moved _ k0).
  - unfold Finish in H. rewrite SetLevel_off, rbind_Ret in H. by eapply (push_moved _ k0); [..|done].
  - by apply (Fork_moved _ k0).
  - unfold P in H. rewrite SetLevel_off, rbind_Ret in H. eapply (push_moved _ k0); [..|done]; [done|done|simpl; eauto|done..].
  - by apply (PLoop_moved _ k0).
  - by apply (V_moved _ k0).
  - by apply (Acquire_moved _ k0).
  - by apply (SetHolder_moved _ k0).
  - by apply (Release_moved _ k0).
  - by apply (Wait_moved _ k0).
  - by apply (Signal_moved _ k0).
  - by apply (Broadcast_moved _ k0).
  - by apply (SynchList_Append_moved _ k0).
  - by apply (ListAppend_moved _ k0).
  - by apply (SynchList_RemoveFront_moved _ k0).
  - by apply (ListLoop_moved _ k0).
  - by apply (SynchList_Apply_moved _ k0).
Qed.

End devices.
End program.
