(* ===== verification/Conds.v ===== *)
(** * Condition variables

    [Condition] of threads/synch.cc over the machine of [Threads].  [Wait] makes a
    semaphore for each call; from then on that waiter is in one queue of a condition, or a
    thread has still to signal it, or its value is one, until the thread that made it has
    passed it.  So a signal wakes one thread, once, and none is lost: [signal_steps] follows
    the steps of [Signal] and of the [V] it calls. *)

From S2P Require Import Prelude NList Interrupt Threads Sched Effects.

(** The thread has still to do [P] on [w], or [V]. *)
Definition awaits (w : nat) (i : instr) : bool :=
  match i with IP s | IPLoop s => bool_decide (s = w) | _ => false end.

Definition wakes (w : nat) (i : instr) : bool :=
  match i with IV s => bool_decide (s = w) | _ => false end.

(** In how many queues of conditions [w] is. *)
Definition queued (w : nat) (o : obs) : Z := total (fun _ wq => occurs w wq) (o_conds o).

Definition val (w : nat) (o : obs) : Z := default 0 (o_vals o !! w).

(** Semaphores from [n0] on are waiters: clients know only those before. *)
Section waiters.
Context (n0 : nat).

Definition client (i : instr) : bool :=
  match i with IP s | IPLoop s | IV s => bool_decide (s < n0)%nat | _ => true end.

(** No signal of a waiter is ahead. *)
Definition calm (i : instr) : bool :=
  match i with IV s => bool_decide (s < n0)%nat | _ => true end.

Lemma client_num w c : (n0 <= w)%nat -> forallb client c = true ->
  num (awaits w) c = 0 /\ num (wakes w) c = 0.
Proof.
  intros Hw. induction c as [|i c IH]; [done|]. simpl. intros [Hi Hc]%andb_prop.
  destruct (IH Hc) as [-> ->]. destruct i; simpl in *; try done;
    apply bool_decide_eq_true in Hi; rewrite bool_decide_false by lia; done.
Qed.

(** [h] is the instruction in execution, if any. *)
Record WaiterInv (h : list instr) (o : obs) : Prop := mkWaiterInv {
  wi_sum w : (n0 <= w)%nat -> ahead (awaits w) o + num (awaits w) h =
    queued w o + (ahead (wakes w) o + num (wakes w) h) + val w o;
  wi_one w : (n0 <= w)%nat -> ahead (awaits w) o + num (awaits w) h <= 1;
  wi_val w : (n0 <= w)%nat -> 0 <= val w o;
  wi_new w : (o_next o <= w)%nat -> ahead (awaits w) o + num (awaits w) h = 0;
  wi_old w : (w < n0)%nat -> queued w o = 0;
  wi_sems w : (n0 <= w < o_next o)%nat -> is_Some (o_vals o !! w);
  wi_locks l lk : o_locks o !! l = Some lk -> (semaphore lk < n0)%nat;
  wi_next : (n0 <= o_next o)%nat
}.
Arguments wi_sum {h o}.
Arguments wi_one {h o}.
Arguments wi_val {h o}.
Arguments wi_new {h o}.
Arguments wi_old {h o}.
Arguments wi_sems {h o}.
Arguments wi_locks {h o}.
Arguments wi_next {h o}.

Lemma queued_nonneg w o : 0 <= queued w o.
Proof. apply total_nonneg. intros. apply occurs_nonneg. Qed.

(** Frames change, and what is ahead of waiters does not. *)
Lemma wi_frames h h' o o' : WaiterInv h o ->
  (forall w, (n0 <= w)%nat -> ahead (awaits w) o' + num (awaits w) h' = ahead (awaits w) o + num (awaits w) h) ->
  (forall w, (n0 <= w)%nat -> ahead (wakes w) o' + num (wakes w) h' = ahead (wakes w) o + num (wakes w) h) ->
  (forall w, (n0 <= w)%nat -> val w o' = val w o) ->
  (forall w, is_Some (o_vals o !! w) -> is_Some (o_vals o' !! w)) -> o_conds o' = o_conds o -> o_next o' = o_next o ->
  (forall l lk, o_locks o' !! l = Some lk -> (semaphore lk < n0)%nat) -> WaiterInv h' o'.
Proof.
  intros I HA HN HV HD HC Hn HL. pose proof (wi_next I). split; unfold queued; rewrite ?HC, ?Hn; auto; intros w Hw.
  - rewrite HA, HN, HV by done. by apply (wi_sum I).
  - rewrite HA by done. by apply (wi_one I).
  - rewrite HV by done. by apply (wi_val I).
  - rewrite HA by lia. by apply (wi_new I).
  - by apply (wi_old I).
  - by apply HD, (wi_sems I).
Qed.

Lemma expands_num o i p w : expands o i p -> (n0 <= w)%nat ->
  (forall l lk, o_locks o !! l = Some lk -> (semaphore lk < n0)%nat) ->
  num (awaits w) p = num (awaits w) [i] /\ num (wakes w) p = num (wakes w) [i].
Proof.
  intros H Hw HL. destruct i; simpl in H; try done; destruct_and?; destruct_or?; subst; try done;
    try (destruct H as (? & H); destruct_and?; destruct_or?; subst; try done).
  simpl. match goal with H : o_locks o !! _ = Some _ |- _ => pose proof (HL _ _ H) end.
  by rewrite bool_decide_false by lia.
Qed.

(** ** Moves *)

Section moves.
Context (t : nat) (c : list instr).

Lemma wi_expand i p o : WaiterInv [i] o -> o_codes o !! t = Some c -> expands o i p -> WaiterInv [] (o_push t p o).
Proof.
  intros I Hc He. apply (wi_frames [i] [] o); try done; [..|apply (wi_locks I)]; intros w Hw;
    destruct (expands_num o i p w He Hw (wi_locks I)) as [HA HN]; rewrite (ahead_push _ _ _ _ c) by done; simpl in *; lia.
Qed.

(** Frames that neither wait nor signal. *)
Lemma wi_push p o : WaiterInv [] o -> o_codes o !! t = Some c -> forallb client p = true -> WaiterInv [] (o_push t p o).
Proof.
  intros I Hc Hp. apply (wi_frames [] [] o); try done; [..|apply (wi_locks I)]; intros w Hw;
    destruct (client_num w p Hw Hp) as [HA HN]; rewrite (ahead_push _ _ _ _ c) by done; simpl; lia.
Qed.

(** An instruction that is neither [P] nor [V] of a waiter. *)
Lemma wi_fetched i o : WaiterInv [i] o -> client i = true -> WaiterInv [] o.
Proof.
  intros I Hi. apply (wi_frames [i] [] o); try done; [..|apply (wi_locks I)]; intros w Hw;
    destruct (client_num w [i] Hw) as [HA HN]; simpl in *; rewrite ?Hi; try done; lia.
Qed.

Lemma wi_destroy d o : WaiterInv [] o -> dead_thread t d o -> WaiterInv [] (o_destroy d o).
Proof.
  intros I Hd. apply (wi_frames [] [] o); try done; [..|apply (wi_locks I)]; intros w Hw;
    by rewrite (ahead_destroy _ _ _ _ Hd).
Qed.

Lemma wi_thread n d o : WaiterInv [] o -> o_codes o !! n = None -> forallb client d = true ->
  WaiterInv [] (on_codes <[n := d]> o).
Proof.
  intros I Hn Hd. apply (wi_frames [] [] o); try done; [..|apply (wi_locks I)]; intros w Hw;
    destruct (client_num w d Hw Hd) as [HA HN]; rewrite ahead_new by done; simpl; lia.
Qed.

Lemma val_insert s v w o : val w (on_vals <[s := v]> o) = if decide (w = s) then v else val w o.
Proof.
  unfold val. simpl. case_decide; [subst; by rewrite lookup_insert_eq|by rewrite lookup_insert_ne].
Qed.

Lemma wi_pass s v o : WaiterInv [IPLoop s] o -> o_vals o !! s = Some v -> v <> 0 ->
  WaiterInv [] (on_vals <[s := v - 1]> o).
Proof.
  intros I Hv H0. assert (Hs : val s o = v) by (unfold val; by rewrite Hv).
  assert (HA : forall w, num (awaits w) [IPLoop s] = if decide (w = s) then 1 else 0).
  { intros w. simpl. case_decide; [by rewrite bool_decide_true|by rewrite bool_decide_false]. }
  split; try apply I; intros w Hw; rewrite ?val_insert;
    change (ahead ?f (on_vals ?g o)) with (ahead f o); change (queued w (on_vals _ o)) with (queued w o).
  - pose proof (wi_sum I w Hw) as H. rewrite HA in H. simpl in *. case_decide; subst; lia.
  - pose proof (wi_one I w Hw) as H. rewrite HA in H. simpl in *. case_decide; lia.
  - pose proof (wi_val I w Hw) as H. case_decide; subst; lia.
  - pose proof (wi_new I w Hw) as H. rewrite HA in H. pose proof (ahead_nonneg (awaits w) o). simpl. case_decide; lia.
  - apply lookup_insert_is_Some'. right. by apply (wi_sems I).
Qed.

Lemma wi_V s v o : WaiterInv [IV s] o -> o_vals o !! s = Some v -> WaiterInv [] (on_vals <[s := v + 1]> o).
Proof.
  intros I Hv. assert (Hs : val s o = v) by (unfold val; by rewrite Hv).
  assert (HN : forall w, num (wakes w) [IV s] = if decide (w = s) then 1 else 0).
  { intros w. simpl. case_decide; [by rewrite bool_decide_true|by rewrite bool_decide_false]. }
  split; try apply I; intros w Hw; rewrite ?val_insert;
    change (ahead ?f (on_vals ?g o)) with (ahead f o); change (queued w (on_vals _ o)) with (queued w o).
  - pose proof (wi_sum I w Hw) as H. rewrite HN in H. simpl in *. case_decide; subst; lia.
  - pose proof (wi_val I w Hw) as H. case_decide; subst; lia.
  - apply lookup_insert_is_Some'. right. by apply (wi_sems I).
Qed.

Lemma wi_lock l lk o : WaiterInv [] o -> (semaphore lk < n0)%nat -> WaiterInv [] (o_lock l lk o).
Proof.
  intros I Hl. apply (wi_frames [] [] o); try done. simpl.
  intros l' lk' [[<- <-]|[_ ?]]%lookup_insert_Some; [done|by apply (wi_locks I l')].
Qed.

Lemma queued_insert w cd wq wq' o : o_conds o !! cd = Some wq ->
  queued w (o_cond cd wq' o) = queued w o - occurs w wq + occurs w wq'.
Proof. intros H. unfold queued. simpl. by rewrite (total_insert _ _ _ wq). Qed.

(** [Signal] takes a waiter from the queue and has to signal it. *)
Lemma wi_signal cd x wq o : WaiterInv [] o -> o_codes o !! t = Some c -> o_conds o !! cd = Some (x :: wq) ->
  WaiterInv [] (o_push t [IV x] (o_cond cd wq o)).
Proof.
  intros I Hc Hq. assert (HN : forall w, num (wakes w) [IV x] = if decide (w = x) then 1 else 0).
  { intros w. simpl. case_decide; [by rewrite bool_decide_true|by rewrite bool_decide_false]. }
  split; try apply I; intros w Hw; rewrite ?(ahead_push _ _ _ _ c) by done;
    change (ahead ?f (o_cond cd wq o)) with (ahead f o).
  - pose proof (wi_sum I w Hw) as H. rewrite HN. change (queued w (o_push _ _ ?o')) with (queued w o').
    rewrite (queued_insert _ _ (x :: wq)), occurs_cons by done. simpl in *.
    change (val w (o_push _ _ _)) with (val w o). case_decide; lia.
  - pose proof (wi_one I w Hw) as H. simpl in *. lia.
  - pose proof (wi_new I w Hw) as H. simpl in *. lia.
  - pose proof (wi_old I w Hw) as H. change (queued w (o_push _ _ ?o')) with (queued w o').
    rewrite (queued_insert _ _ (x :: wq)) by done.
    assert (occurs w (x :: wq) <= queued w o).
    { apply (total_ge (fun _ wq => occurs w wq) _ cd); [intros; apply occurs_nonneg|done]. }
    rewrite occurs_cons in *. pose proof (occurs_nonneg w wq). case_decide; lia.
Qed.

(** [Wait] makes a waiter and puts it in the queue. *)
Lemma wi_wait cd l wq o : WaiterInv [] o -> o_codes o !! t = Some c -> o_conds o !! cd = Some wq ->
  WaiterInv [] (o_wait t cd l wq o).
Proof.
  intros I Hc Hq. pose proof (wi_next I) as Hn. unfold o_wait. set (x := o_next o) in *.
  assert (HA : forall w, num (awaits w) [IRelease l; IP x; IAcquire l] = if decide (w = x) then 1 else 0).
  { intros w. simpl. case_decide; [by rewrite bool_decide_true|by rewrite bool_decide_false]. }
  set (o1 := mkObs _ _ _ _ _ _). assert (Hc1 : o_codes o1 !! t = Some c) by done.
  assert (Hq1 : forall w, queued w o1 = queued w o + if decide (w = x) then 1 else 0).
  { intros w. change (queued w o1) with (queued w (o_cond cd (wq ++ [x]) o)).
    rewrite (queued_insert _ _ wq), occurs_app, occurs_cons, occurs_nil by done. lia. }
  assert (Hv1 : forall w, val w o1 = if decide (w = x) then 0 else val w o) by (intros; apply val_insert).
  assert (Hx : val x o = 0 /\ ahead (awaits x) o = 0).
  { pose proof (wi_new I x ltac:(lia)) as H0. pose proof (wi_sum I x Hn) as H1. pose proof (wi_val I x Hn).
    pose proof (queued_nonneg x o). pose proof (ahead_nonneg (wakes x) o). simpl in *. lia. }
  split; [intros w Hw..|apply I|]; rewrite ?(ahead_push _ _ _ _ c) by done;
    change (ahead ?f o1) with (ahead f o).
  - rewrite HA. change (queued w (o_push _ _ o1)) with (queued w o1). change (val w (o_push _ _ o1)) with (val w o1).
    rewrite Hq1, Hv1. pose proof (wi_sum I w Hw) as H. simpl in *. case_decide; subst; lia.
  - rewrite HA. pose proof (wi_one I w Hw) as H. simpl in *. case_decide; subst; lia.
  - change (val w (o_push _ _ o1)) with (val w o1). rewrite Hv1. pose proof (wi_val I w Hw). case_decide; lia.
  - change (o_next (o_push _ _ o1)) with (S x) in Hw. rewrite HA, decide_False by lia.
    pose proof (wi_new I w ltac:(lia)) as H. simpl in *. lia.
  - change (queued w (o_push _ _ o1)) with (queued w o1). rewrite Hq1, (wi_old I), decide_False by lia. done.
  - change (o_next (o_push _ _ o1)) with (S x) in Hw. apply lookup_insert_is_Some'.
    destruct (decide (w = x)); [by left|right]. apply (wi_sems I). lia.
  - change (o_next (o_push _ _ o1)) with (S x). lia.
Qed.

End moves.

Section program.
Context (prog : nat -> list instr).
Hypothesis prog_client : forall f, forallb client (prog f) = true.

(** Every move keeps the invariant. *)
Lemma move_waiters t c i o o' : WaiterInv [i] o -> o_codes o !! t = Some c -> move prog t i o o' -> WaiterInv [] o'.
Proof.
  intros I Hc H. inversion H; subst; try (apply wi_fetched in I; [|done]).
  - by apply (wi_expand t c i).
  - by apply (wi_destroy t).
  - eapply wi_push; [by apply (wi_destroy t)| |by destruct_or!; subst].
    simpl. destruct d as [d|]; [|done]. destruct H0. by rewrite lookup_delete_ne.
  - eapply wi_push; [apply wi_thread; [done..|]| |done].
    + simpl. rewrite forallb_app, prog_client. done.
    + simpl. by rewrite lookup_insert_ne.
  - by apply wi_pass.
  - eapply wi_push; [by apply wi_V|done|done].
  - apply wi_lock; [done|]. by apply (wi_locks I l lk).
  - pose proof (wi_locks I _ _ H0) as Hs. simpl in Hs.
    eapply wi_push; [by apply wi_lock|done|]. simpl. by rewrite bool_decide_true.
  - by eapply wi_wait.
  - by eapply wi_signal.
  - by apply (wi_frames [] [] o); [..|apply (wi_locks I)].
  - eapply wi_wait; [by eapply wi_push|simpl; by rewrite lookup_alter_eq, Hc|done].
  - by apply (wi_frames [] [] o); [..|apply (wi_locks I)].
Qed.

(** A signal of a waiter is never put off. *)
Definition Calm (o : obs) : Prop := forall u d, o_codes o !! u = Some d -> forallb calm (tail d) = true.

Lemma calm_push t c p o : Calm o -> o_codes o !! t = Some c -> forallb calm c = true ->
  forallb calm (tail p) = true -> Calm (o_push t p o).
Proof.
  intros H Hc Hcc Hp u d. rewrite (o_push_codes _ _ _ c) by done. simpl.
  intros [[<- <-]|[_ Hd]]%lookup_insert_Some; [|by eapply H]. destruct p as [|j p]; simpl in *.
  - destruct c; [done|]. by apply andb_prop in Hcc as [_ ?].
  - by rewrite forallb_app, Hp, Hcc.
Qed.

Lemma client_calm d : forallb client d = true -> forallb calm d = true.
Proof.
  induction d as [|i d IH]; [done|]. simpl. intros [Hi ->%IH]%andb_prop. rewrite andb_true_r. by destruct i.
Qed.

Lemma expands_calm o i p : expands o i p -> forallb calm p = true.
Proof.
  destruct i; simpl; intros H; try done; destruct_and?; destruct_or?; subst; try done;
    destruct H as (? & H); destruct_and?; destruct_or?; by subst.
Qed.

Lemma move_calm t c i o o' : Calm o -> o_codes o !! t = Some c -> forallb calm c = true ->
  move prog t i o o' -> Calm o'.
Proof.
  intros Ho Hc Hcc H. assert (Htail : forall p, forallb calm p = true -> forallb calm (tail p) = true).
  { intros [|j p]; [done|]. by intros [_ ?]%andb_prop. }
  assert (Hdd : forall d, dead_thread t d o -> Calm (o_destroy d o) /\ o_codes (o_destroy d o) !! t = Some c).
  { intros [d|]; [|done]. intros [Hn _]. split; [|simpl; by rewrite lookup_delete_ne].
    intros u e. simpl. intros [_ He]%lookup_delete_Some. by eapply Ho. }
  inversion H; subst; try (by eapply calm_push); try done.
  - eapply calm_push; try done. by eapply Htail, expands_calm.
  - by apply Hdd.
  - destruct (Hdd d H0) as [? ?]. eapply calm_push; try done. by destruct_or!; subst.
  - eapply calm_push; [|simpl; rewrite lookup_insert_ne; done|done|done]. intros u e. simpl.
    intros [[<- <-]|[_ He]]%lookup_insert_Some; [|by eapply Ho]. simpl.
    apply client_calm. by rewrite forallb_app, prog_client.
  - unfold o_wait. eapply (calm_push t (IListLoop sl :: c)); try done.
    + by eapply calm_push.
    + simpl. by rewrite lookup_alter_eq, Hc.
Qed.

(** What devices do. *)
Lemma bump_val hs w o : Forall (fun s => (s < n0)%nat) hs -> (n0 <= w)%nat -> val w (on_vals (bump hs) o) = val w o.
Proof.
  intros H Hw. unfold val, on_vals, bump. simpl. revert o. induction H as [|s hs Hs _ IH]; intros o; [done|]. simpl.
  specialize (IH (on_vals (alter (Z.add 1) s) o)). simpl in IH. rewrite IH.
  by rewrite lookup_alter_ne by lia.
Qed.

Lemma bump_is_Some hs w (m : gmap nat Z) : is_Some (m !! w) -> is_Some (bump hs m !! w).
Proof.
  unfold bump. revert m. induction hs as [|s hs IH]; intros m H; simpl; [done|].
  apply IH. by apply lookup_alter_is_Some.
Qed.

Lemma bump_waiters hs o : Forall (fun s => (s < n0)%nat) hs -> WaiterInv [] o -> WaiterInv [] (on_vals (bump hs) o).
Proof.
  intros H I. apply (wi_frames [] [] o); try done; [|intros; by apply bump_is_Some|apply (wi_locks I)].
  intros w Hw. by apply bump_val.
Qed.

Lemma popped_waiters t i c o : WaiterInv [] o -> o_codes o !! t = Some (i :: c) ->
  WaiterInv [i] (on_codes <[t := c]> o).
Proof.
  intros I Hc. apply (wi_frames [] [i] o); try done; [..|apply (wi_locks I)]; intros w Hw;
    rewrite (ahead_codes _ _ _ (i :: c)) by done; simpl; lia.
Qed.

Lemma step_waiters k k' : Good k -> devices (fun s => (s < n0)%nat) k -> step prog k = Ret k' ->
  WaiterInv [] (observe k) -> Calm (observe k) ->
  devices (fun s => (s < n0)%nat) k' /\ WaiterInv [] (observe k') /\ Calm (observe k').
Proof.
  intros G Hd Hs I Hca. destruct (step_move prog _ k k' G Hd Hs) as (i & c & Hc & o' & Hm & Hd' & hs & Hhs & ->).
  split; [done|]. assert (Hc1 : o_codes (on_codes <[currentThread k := c]> (observe k)) !! currentThread k = Some c).
  { simpl. apply lookup_insert_eq. }
  assert (Hcc : forallb calm c = true) by (apply (Hca _ _ Hc)).
  split.
  - apply bump_waiters; [done|]. eapply move_waiters; [|apply Hc1|done]. by apply popped_waiters.
  - assert (Ho' : Calm o'); [|exact Ho']. eapply move_calm; [|apply Hc1|done|done].
    intros u d. simpl. intros [[_ <-]|[_ Hu]]%lookup_insert_Some; [|by apply (Hca u)].
    destruct c; [done|]. by apply andb_prop in Hcc as [_ ?].
Qed.

End program.

End waiters.
Arguments wi_sum {n0 h o}.
Arguments wi_one {n0 h o}.
Arguments wi_val {n0 h o}.
Arguments wi_new {n0 h o}.
Arguments wi_old {n0 h o}.
Arguments wi_sems {n0 h o}.
Arguments wi_locks {n0 h o}.
Arguments wi_next {n0 h o}.

(** ** The steps of a signal *)

Section steps.
Context (prog : nat -> list instr).

Lemma push_frames k p : yields (fun k' => exists m, code <$> m = alter (app p) (currentThread k) (codes k) /\
  k' = set_threads k m) (push k p).
Proof.
  intros k' (th & Ht & [= <-])%rbind_eq_Ret. unfold deref in Ht.
  destruct (threads k !! currentThread k) as [th'|] eqn:E; simplify_eq. eexists. split; [|done].
  rewrite fmap_insert. simpl. apply map_eq. intros u. destruct (decide (u = currentThread k)) as [->|].
  - by rewrite lookup_insert_eq, lookup_alter_eq, lookup_fmap, E.
  - by rewrite lookup_insert_ne, lookup_alter_ne.
Qed.

Lemma ReadyToRun_appends k u : yields (fun k' => exists m, code <$> m = codes k /\
  k' = set_ready (set_threads k m) (readyList k ++ [u])) (ReadyToRun k u).
Proof.
  apply yields_any. intros _. intros k' (k1 & (th & Ht & [= <-])%rbind_eq_Ret & H)%rbind_eq_Ret. unfold deref in Ht.
  destruct (threads k !! u) as [th'|] eqn:E; simplify_eq. unfold Seq.Append in H. cbn in H.
  destruct (Seq.IsInList _ _); cbn in H; [done|]. injection H as <-. eexists. split; [|done].
  rewrite fmap_insert. apply insert_id. by rewrite lookup_fmap, E.
Qed.

(** [V] makes the first waiting thread ready, and adds one. *)
Lemma V_wakes k s sm : sems k !! s = Some sm ->
  yields (fun k' => exists m, code <$> m = alter (app [ISetLevel (level k)]) (currentThread k) (codes k) /\
    k' = set_sems (set_ready (set_threads (set_level k IntOff) m) (readyList k ++ take 1 (queue sm)))
      (<[s := mkSem (value sm + 1) (tail (queue sm))]> (sems k))) (V k s).
Proof.
  intros Hs. unfold V. rewrite SetLevel_off, rbind_Ret. apply (yields_bind (fun k1 => exists m, code <$> m = codes k /\
    k1 = set_sems (set_ready (set_threads (set_level k IntOff) m) (readyList k ++ take 1 (queue sm)))
      (<[s := mkSem (value sm + 1) (tail (queue sm))]> (sems k)))).
  - unfold V_body, deref. simpl sems. rewrite Hs. cbn. destruct (queue sm) as [|u q]; cbn.
    + apply yields_Ret. exists (threads k). rewrite app_nil_r. by destruct k.
    + intros k' ((k1 & q1) & (k2 & (m & Hm & ->)%ReadyToRun_appends & [= <- <-])%rbind_eq_Ret & [= <-])%rbind_eq_Ret.
      exists m. by destruct k.
  - intros k1 (m & Hm & ->). intros k' (m' & Hm' & ->)%push_frames. exists m'. simpl in Hm'. by rewrite Hm', Hm.
Qed.

Lemma Signal_takes k cd l wq : conds k !! cd = Some wq ->
  yields (fun k' => exists m, code <$> m = alter (app (IV <$> take 1 wq)) (currentThread k) (codes k) /\
    k' = set_conds (set_threads k m) (<[cd := tail wq]> (conds k))) (Signal k cd l).
Proof.
  intros Hq. unfold Signal. apply yields_any. intros lk. apply yields_any. intros _.
  unfold deref. rewrite Hq. cbn. destruct wq as [|v wq]; cbn.
  - apply yields_Ret. exists (threads k). rewrite insert_id by done. split; [|by destruct k].
    apply map_eq. intros u. destruct (decide (u = currentThread k)) as [->|].
    + rewrite lookup_alter_eq. by destruct (codes k !! _).
    + by rewrite lookup_alter_ne.
  - intros k' (m & Hm & ->)%push_frames. by exists m.
Qed.

Lemma Broadcast_signals k cd l wq : conds k !! cd = Some wq ->
  yields (fun k' => exists m, code <$> m =
      alter (app (match wq with [] => [] | _ => [ISignal cd l; IBroadcast cd l] end)) (currentThread k) (codes k) /\
    k' = set_threads k m) (Broadcast k cd l).
Proof.
  intros Hq. unfold Broadcast, deref. rewrite Hq. cbn. destruct wq as [|v wq]; cbn; [|apply push_frames].
  apply yields_Ret. exists (threads k). split; [|by destruct k].
  apply map_eq. intros u. destruct (decide (u = currentThread k)) as [->|].
  - rewrite lookup_alter_eq. by destruct (codes k !! _).
  - by rewrite lookup_alter_ne.
Qed.

(** The next instruction, in a state where the client breaks no rule. *)
Lemma step_exec k i c : codes k !! currentThread k = Some (i :: c) ->
  exists m, code <$> m = <[currentThread k := c]> (codes k) /\ step prog k = exec prog i (set_threads k m).
Proof.
  rewrite lookup_fmap. intros H. unfold step, deref. destruct (threads k !! currentThread k) as [[st d]|]; [|done].
  injection H as ->. cbn. eexists. split; [|done]. by rewrite fmap_insert.
Qed.

Hypothesis prog_plain : forall f, plain IntOn (prog f ++ [IFinish]) = true.

Lemma step_goes_on k i c : Good k -> codes k !! currentThread k = Some (i :: c) -> ~ misuse k -> ~ halting k ->
  exists k', step prog k = Ret k' /\ Good k'.
Proof.
  intros G Hc Hm Hh. pose proof (step_post prog prog_plain k G) as H.
  destruct (step prog k) as [k'| | | |]; simpl in H; [by exists k'|by destruct Hm..|by destruct Hh|done].
Qed.

End steps.

(** ** Reachable states *)

Section claims.
Context (prog : nat -> list instr) (main : list instr) (S0 : gmap nat Semaphore) (L0 : gmap nat Lock)
  (C0 : gmap nat (list nat)) (SL0 : gmap nat SynchList) (ns0 : nat) (tks : list tick) (ids : list (list nat)).
Hypothesis prog_plain : forall f, plain IntOn (prog f ++ [IFinish]) = true.
Hypothesis main_plain : plain IntOn (main ++ [IHalt]) = true.
Hypothesis objects : fresh_objects S0 C0 ns0.

(** Clients, locks and devices use the semaphores made at the start. *)
Record closed : Prop := mkClosed {
  cl_prog f : forallb (client ns0) (prog f) = true;
  cl_main : forallb (client ns0) main = true;
  cl_locks l lk : L0 !! l = Some lk -> (semaphore lk < ns0)%nat;
  cl_ticks tk s : tk ∈ tks -> s ∈ handlers tk -> (s < ns0)%nat;
  cl_idles hs s : hs ∈ ids -> s ∈ hs -> (s < ns0)%nat
}.

Abbreviation boot := (Initialize main S0 L0 C0 SL0 ns0 tks ids).

Lemma boot_waiters : closed -> devices (fun s => (s < ns0)%nat) boot /\
  WaiterInv ns0 [] (observe boot) /\ Calm ns0 (observe boot).
Proof.
  intros [Hp Hm Hl Ht Hi]. split; [by split|].
  assert (Hcl : forallb (client ns0) (ISetLevel IntOn :: main ++ [IHalt]) = true) by (simpl; by rewrite forallb_app, Hm).
  assert (HA : forall f, ahead f (observe boot) = num f (ISetLevel IntOn :: main ++ [IHalt])).
  { intros f. unfold ahead. simpl o_codes. rewrite map_fmap_singleton. unfold total. rewrite map_fold_singleton. simpl. lia. }
  assert (HQ : forall w, queued w (observe boot) = 0).
  { intros w. apply total_zero. intros cd wq Hcd. by rewrite (fo_cond _ _ _ objects cd wq Hcd). }
  assert (HV : forall w, (ns0 <= w)%nat -> val w (observe boot) = 0).
  { intros w Hw. unfold val. simpl. rewrite lookup_fmap. destruct (S0 !! w) as [sm|] eqn:Hs; [|done].
    destruct (fo_sem _ _ _ objects w sm Hs) as (_ & _ & ?). lia. }
  split; [split|]; try (intros w Hw; destruct (client_num ns0 w _ Hw Hcl) as [E1 E2]; rewrite ?HA, ?HQ, ?HV, ?E1, ?E2; done).
  - auto.
  - intros w Hw. simpl in Hw. lia.
  - apply Hl.
  - done.
  - intros u d. simpl. rewrite map_fmap_singleton. intros [_ <-]%lookup_singleton_Some. simpl.
    apply client_calm. by rewrite forallb_app, Hm.
Qed.

Lemma reachable_waiters k : closed -> reachable prog boot k ->
  Good k /\ devices (fun s => (s < ns0)%nat) k /\ WaiterInv ns0 [] (observe k) /\ Calm ns0 (observe k).
Proof.
  intros HC H. split; [by apply (reachable_good prog prog_plain boot), H; apply Initialize_good|].
  induction H as [|k k' H (Hd & I & Hca) Hs]; [by apply boot_waiters|].
  assert (G : Good k) by (apply (reachable_good prog prog_plain boot); [by apply Initialize_good|done]).
  by apply (step_waiters ns0 prog (cl_prog HC) k k').
Qed.

(** The threads that have such an instruction ahead. *)
Lemma ahead_thread f k t th : threads k !! t = Some th -> num f (code th) <= ahead f (observe k).
Proof. intros H. apply (ahead_ge _ (observe k) t). simpl. by rewrite lookup_fmap, H. Qed.

Lemma ahead_pos f k : 0 < ahead f (observe k) -> exists t th, threads k !! t = Some th /\ 0 < num f (code th).
Proof.
  intros (t & c & Hc & Hp)%total_pos. simpl in Hc. rewrite lookup_fmap in Hc.
  destruct (threads k !! t) as [th|] eqn:Ht; [|done]. injection Hc as <-. by exists t, th.
Qed.

Lemma ahead_unique f k t t' th th' : ahead f (observe k) <= 1 -> threads k !! t = Some th ->
  threads k !! t' = Some th' -> num f (code th) <> 0 -> num f (code th') <> 0 -> t = t'.
Proof.
  intros H1 Ht Ht' Hn Hn'. pose proof (num_nonneg f (code th)). pose proof (num_nonneg f (code th')).
  apply (total_unique (fun _ => num f) (codes k) t t' (code th) (code th')); try lia; [|done|..].
  - intros. apply num_nonneg.
  - by rewrite lookup_fmap, Ht.
  - by rewrite lookup_fmap, Ht'.
Qed.

Lemma queued_ge cd wq w k : conds k !! cd = Some wq -> occurs w wq <= queued w (observe k).
Proof. intros H. apply (total_ge (fun _ wq => occurs w wq) (conds k) cd); [intros; apply occurs_nonneg|done]. Qed.

(** Only the running thread can be about to signal a waiter. *)
Lemma wakes_running k w : Good k -> Calm ns0 (observe k) -> (ns0 <= w)%nat -> 0 < ahead (wakes w) (observe k) ->
  exists c, codes k !! currentThread k = Some (IV w :: c).
Proof.
  intros G Hca Hw (t & th & Ht & Hp)%ahead_pos. assert (Hc : codes k !! t = Some (code th)) by (by rewrite lookup_fmap, Ht).
  pose proof (Hca t _ Hc) as Htl. destruct (code th) as [|i c] eqn:Hcd; [simpl in Hp; lia|]. simpl in Htl.
  assert (H0 : num (wakes w) c = 0).
  { clear -Htl Hw. induction c as [|j c IH]; [done|]. simpl in *. apply andb_prop in Htl as [Hj Hc]. rewrite IH by done.
    destruct j; simpl in *; try done. apply bool_decide_eq_true in Hj. rewrite bool_decide_false by lia. done. }
  simpl in Hp. rewrite H0 in Hp. destruct i; simpl in Hp; try lia. destruct (bool_decide_reflect (s = w)) as [->|]; [|simpl in Hp; lia].
  destruct (decide (t = currentThread k)) as [->|Hn]; [by eexists|exfalso].
  destruct (decide (toBeDestroyed k = Some t)) as [Hd|Hd].
  - destruct (inv_dead G t Hd) as (_ & Hx & _). congruence.
  - destruct (inv_parked G t _ ltac:(simpl; congruence) Hc Hd) as [? _]. done.
Qed.

(** The semaphore of a waiter that a thread has still to pass. *)
Lemma waiter_sem k w : WaiterInv ns0 [] (observe k) -> (ns0 <= w)%nat -> 0 < ahead (awaits w) (observe k) ->
  exists sm, sems k !! w = Some sm /\ value sm = val w (observe k).
Proof.
  intros I Hw Hp. assert (Hlt : (w < o_next (observe k))%nat).
  { destruct (decide (w < o_next (observe k))%nat); [done|]. pose proof (wi_new I w ltac:(lia)) as H0. simpl in H0. lia. }
  destruct (wi_sems I w ltac:(lia)) as [v Hv]. unfold val. rewrite Hv. simpl in *.
  rewrite lookup_fmap in Hv. destruct (sems k !! w); [|done]. injection Hv as <-. by eexists.
Qed.

Lemma waits_awaits w c : waits w c = true -> 1 <= num (awaits w) c.
Proof.
  intros H. assert (0 < num (awaits w) c); [|lia]. apply num_pos. exists (IPLoop w).
  destruct c as [|i [|j c]]; [done|by destruct i as [| | |[]|[]| | | | | | | | | | | | | | | | | |]|].
  destruct i as [| | |[]|[]| | | | | | | | | | | | | | | | | |]; try done; destruct j; try done;
    apply bool_decide_eq_true in H; subst; (split; [set_solver|by apply bool_decide_eq_true]).
Qed.

Lemma queued_once k cd wq w : closed -> reachable prog boot k -> (ns0 <= w)%nat -> conds k !! cd = Some wq -> w ∈ wq ->
  occurs w wq = 1 /\ (forall cd' wq', conds k !! cd' = Some wq' -> w ∈ wq' -> cd' = cd) /\
  exists t th, threads k !! t = Some th /\ num (awaits w) (code th) = 1 /\
    forall t' th', threads k !! t' = Some th' -> num (awaits w) (code th') <> 0 -> t' = t.
Proof.
  intros HC Hr Hw Hcd Hq%occurs_elem. destruct (reachable_waiters k HC Hr) as (G & _ & I & Hca). set (o := observe k) in *.
  pose proof (wi_sum I w Hw) as HS. pose proof (wi_one I w Hw) as H1. pose proof (wi_val I w Hw) as HV.
  cbn [num] in HS, H1. rewrite !Z.add_0_r in HS, H1. pose proof (ahead_nonneg (wakes w) o) as HN.
  pose proof (queued_ge _ _ w k Hcd) as Hge. fold o in Hge. split; [lia|split].
  - intros cd' wq' Hcd' Hq'%occurs_elem. apply (total_unique (fun _ wq => occurs w wq) (conds k) cd' cd wq' wq); try done.
    + intros. apply occurs_nonneg.
    + unfold queued in *. simpl in *. lia.
  - destruct (ahead_pos (awaits w) k ltac:(fold o; lia)) as (t & th & Ht & Hp). exists t, th. split; [done|].
    pose proof (ahead_thread (awaits w) k t th Ht) as Hge'. fold o in Hge'. split; [lia|].
    intros t' th' Ht' Hn. apply (ahead_unique (awaits w) k t' t th' th); auto; lia.
Qed.

Lemma unqueued_signalled k w t th : closed -> reachable prog boot k -> (ns0 <= w)%nat ->
  threads k !! t = Some th -> num (awaits w) (code th) <> 0 -> (forall cd wq, conds k !! cd = Some wq -> w ∉ wq) ->
  (exists sm, sems k !! w = Some sm /\ value sm = 1) \/ exists c, codes k !! currentThread k = Some (IV w :: c).
Proof.
  intros HC Hr Hw Ht Hn Hnq. destruct (reachable_waiters k HC Hr) as (G & _ & I & Hca). set (o := observe k) in *.
  pose proof (wi_sum I w Hw) as HS. pose proof (wi_one I w Hw) as H1. pose proof (wi_val I w Hw) as HV.
  cbn [num] in HS, H1. rewrite !Z.add_0_r in HS, H1. pose proof (ahead_nonneg (wakes w) o) as HN.
  pose proof (ahead_thread (awaits w) k t th Ht) as Hge. fold o in Hge. pose proof (num_nonneg (awaits w) (code th)).
  assert (H0 : queued w o = 0).
  { apply total_zero. intros cd wq Hcd. apply Hnq in Hcd. rewrite occurs_elem in Hcd. pose proof (occurs_nonneg w wq). lia. }
  destruct (decide (0 < ahead (wakes w) o)) as [Hk|Hk]; [right; by eapply wakes_running|left].
  destruct (waiter_sem k w I Hw ltac:(fold o; lia)) as (sm & Hs & Hv). exists sm. split; [done|]. fold o in Hv. lia.
Qed.

(** A queued waiter: its semaphore, with the thread that sleeps on it, if it sleeps already. *)
Lemma waiter_asleep k cd wq w : closed -> reachable prog boot k -> conds k !! cd = Some wq -> w ∈ wq ->
  (ns0 <= w)%nat /\ exists sm, sems k !! w = Some sm /\ value sm = 0 /\
    (queue sm = [] \/ exists t th, queue sm = [t] /\ threads k !! t = Some th /\ num (awaits w) (code th) = 1).
Proof.
  intros HC Hr Hcd Hq%occurs_elem. destruct (reachable_waiters k HC Hr) as (G & _ & I & _).
  pose proof (queued_ge _ _ w k Hcd) as Hge. set (o := observe k) in *.
  assert (Hw : (ns0 <= w)%nat).
  { destruct (decide (w < ns0)%nat) as [Hlt|]; [|lia]. rewrite (wi_old I) in Hge by done. lia. }
  split; [done|]. pose proof (wi_sum I w Hw) as HS. pose proof (wi_one I w Hw) as H1. pose proof (wi_val I w Hw) as HV.
  cbn [num] in HS, H1. rewrite !Z.add_0_r in HS, H1. pose proof (ahead_nonneg (wakes w) o) as HN.
  destruct (waiter_sem k w I Hw ltac:(fold o; lia)) as (sm & Hs & Hv). fold o in Hv. exists sm.
  split; [done|]. split; [lia|].
  assert (Hin : forall t, t ∈ queue sm -> exists th, threads k !! t = Some th /\ num (awaits w) (code th) = 1).
  { intros t Ht. destruct (inv_queue G w sm t Hs Ht) as (c & Hc & Hwt). rewrite lookup_fmap in Hc.
    destruct (threads k !! t) as [th|] eqn:Hth; [|done]. injection Hc as <-. exists th. split; [done|].
    pose proof (waits_awaits w _ Hwt). pose proof (ahead_thread (awaits w) k t th Hth) as Hge'. fold o in Hge'. lia. }
  destruct (queue sm) as [|t q] eqn:Eq; [by left|right]. destruct (Hin t ltac:(left)) as (th & Ht & Hn).
  exists t, th. split; [|done]. destruct q as [|t' q]; [done|exfalso].
  destruct (Hin t' ltac:(set_solver)) as (th' & Ht' & Hn').
  assert (t = t') by (apply (ahead_unique (awaits w) k t t' th th'); fold o; auto; lia). subst t'.
  pose proof (queue_le G w sm t Hs) as Hle. rewrite Eq, !occurs_cons, decide_True in Hle by done.
  pose proof (occurs_nonneg t q). pose proof (occurs_nonneg t (readyList k)). lia.
Qed.

(** [Signal] and the [V] that it calls. *)
Lemma signal_steps k cd l c v wq : closed -> reachable prog boot k ->
  codes k !! currentThread k = Some (ISignal cd l :: c) -> holds k l -> conds k !! cd = Some (v :: wq) ->
  exists k1 k2 sm, step prog k = Ret k1 /\ step prog k1 = Ret k2 /\
    conds k2 = <[cd := wq]> (conds k) /\ sems k !! v = Some sm /\ value sm = 0 /\
    sems k2 = <[v := mkSem 1 []]> (sems k) /\ readyList k2 = readyList k ++ queue sm /\
    (queue sm = [] \/ exists t th, queue sm = [t] /\ threads k !! t = Some th /\ num (awaits v) (code th) = 1) /\
    codes k2 !! currentThread k2 = Some (ISetLevel (level k) :: c).
Proof.
  intros HC Hr Hc Hl Hq. destruct (reachable_waiters k HC Hr) as (G & _).
  destruct (waiter_asleep k cd (v :: wq) v HC Hr Hq ltac:(left)) as (_ & sm & Hs & Hv & Hqs).
  destruct (step_goes_on prog prog_plain k _ _ G Hc) as (k1 & H1 & G1).
  { intros (i & d & Hd & Hm). rewrite Hc in Hd. injection Hd as <- <-. destruct Hm as [|Hm]; [done|congruence]. }
  { intros (i & d & Hd & Hm). rewrite Hc in Hd. by injection Hd as <- <-. }
  pose proof H1 as E1. destruct (step_exec prog k _ _ Hc) as (m & Hm & He). rewrite He in E1.
  apply (Signal_takes (set_threads k m) cd l (v :: wq) Hq) in E1 as (m1 & Hm1 & Ek1). simpl in Hm1.
  assert (Hc1 : codes k1 !! currentThread k1 = Some (IV v :: c)).
  { rewrite Ek1. simpl. by rewrite Hm1, lookup_alter_eq, Hm, lookup_insert_eq. }
  assert (Hs1 : sems k1 !! v = Some sm) by (by rewrite Ek1).
  destruct (step_goes_on prog prog_plain k1 _ _ G1 Hc1) as (k2 & H2 & _).
  { intros (i & d & Hd & Hm'). rewrite Hc1 in Hd. injection Hd as <- <-. congruence. }
  { intros (i & d & Hd & Hm'). rewrite Hc1 in Hd. by injection Hd as <- <-. }
  pose proof H2 as E2. destruct (step_exec prog k1 _ _ Hc1) as (m' & Hm' & He'). rewrite He' in E2.
  apply (V_wakes (set_threads k1 m') v sm Hs1) in E2 as (m2 & Hm2 & Ek2). simpl in Hm2.
  exists k1, k2, sm. split; [done|]. split; [done|]. rewrite Ek2, Ek1. simpl. rewrite Hv.
  split; [done|]. split; [done|]. split; [done|]. split; [|split; [|split; [done|]]].
  - do 2 f_equal. by destruct Hqs as [->|(t & th & -> & _)].
  - f_equal. by destruct Hqs as [->|(t & th & -> & _)].
  - rewrite Ek1 in Hm2. simpl in Hm2. rewrite Hm2, lookup_alter_eq, Hm', Ek1. simpl. by rewrite lookup_insert_eq.
Qed.

(** [Signal] when no thread waits, and the test of the loop of [Broadcast]: nothing but
    the frames of the current thread changes. *)
Lemma quiet_steps k i c p cd : closed -> reachable prog boot k -> codes k !! currentThread k = Some (i :: c) ->
  match i with ISignal cd' l => cd' = cd /\ holds k l /\ conds k !! cd = Some [] /\ p = []
  | IBroadcast cd' l => cd' = cd /\ exists wq, conds k !! cd = Some wq /\
      p = match wq with [] => [] | _ => [ISignal cd l; IBroadcast cd l] end
  | _ => False end ->
  exists m, code <$> m = <[currentThread k := p ++ c]> (codes k) /\ step prog k = Ret (set_threads k m).
Proof.
  intros HC Hr Hc Hi. destruct (reachable_waiters k HC Hr) as (G & _).
  destruct (step_goes_on prog prog_plain k _ _ G Hc) as (k1 & H1 & _).
  { intros (j & d & Hd & Hm). rewrite Hc in Hd. injection Hd as <- <-.
    destruct i; try done.
    - destruct Hi as (-> & ? & ? & _). destruct Hm; [done|congruence].
    - destruct Hi as (-> & wq & Hq & _). congruence. }
  { intros (j & d & Hd & Hm). rewrite Hc in Hd. injection Hd as <- <-. by destruct i. }
  destruct (step_exec prog k _ _ Hc) as (m & Hm & He). rewrite H1. rewrite He in H1.
  assert (Ha : forall f, alter f (currentThread k) (code <$> m) = <[currentThread k := f c]> (codes k)).
  { intros f. rewrite Hm. apply map_eq. intros u. destruct (decide (u = currentThread k)) as [->|].
    - by rewrite lookup_alter_eq, !lookup_insert_eq.
    - by rewrite lookup_alter_ne, !lookup_insert_ne. }
  destruct i; try done.
  - destruct Hi as (-> & _ & Hq & ->). apply (Signal_takes (set_threads k m) cd l [] Hq) in H1 as (m1 & Hm1 & ->).
    exists m1. simpl in *. rewrite Hm1, Ha, (insert_id (conds k)) by done. split; [done|]. by destruct k.
  - destruct Hi as (-> & wq & Hq & ->). apply (Broadcast_signals (set_threads k m) cd l wq Hq) in H1 as (m1 & Hm1 & ->).
    exists m1. simpl in *. rewrite Hm1, Ha. split; [done|]. by destruct k.
Qed.

(** C7: A signal of a condition wakes one waiting thread, once; a broadcast goes on until
    none waits.  From every reachable state: [Signal] by the holder of the lock takes the
    first waiter from the queue, and the [V] that follows sets its semaphore, which was 0,
    to 1 and makes ready the one thread that sleeps on it, if it sleeps already; nothing
    else is signalled.  With no waiter [Signal] does nothing.  [Broadcast] signals and
    tests again while there is a waiter, and returns otherwise.  And in between no signal
    is lost or doubled: a waiter in the queue of a condition has not been signalled (its
    semaphore is 0), it is in one queue, once, and exactly one thread has still to do [P]
    on it; a thread that has still to do [P] on a waiter that is in no queue has been
    signalled: the value is 1, or the running thread is about to do [V]. *)
Theorem condition_waiters k : closed -> reachable prog boot k ->
  (forall cd l c v wq, codes k !! currentThread k = Some (ISignal cd l :: c) -> holds k l ->
     conds k !! cd = Some (v :: wq) ->
     exists k1 k2 sm, step prog k = Ret k1 /\ step prog k1 = Ret k2 /\
       conds k2 = <[cd := wq]> (conds k) /\ sems k !! v = Some sm /\ value sm = 0 /\
       sems k2 = <[v := mkSem 1 []]> (sems k) /\ readyList k2 = readyList k ++ queue sm /\
       (queue sm = [] \/ exists t th, queue sm = [t] /\ threads k !! t = Some th /\ num (awaits v) (code th) = 1) /\
       codes k2 !! currentThread k2 = Some (ISetLevel (level k) :: c)) /\
  (forall cd l c, codes k !! currentThread k = Some (ISignal cd l :: c) -> holds k l -> conds k !! cd = Some [] ->
     exists m, code <$> m = <[currentThread k := c]> (codes k) /\ step prog k = Ret (set_threads k m)) /\
  (forall cd l c wq, codes k !! currentThread k = Some (IBroadcast cd l :: c) -> conds k !! cd = Some wq ->
     exists m, code <$> m = <[currentThread k := match wq with [] => c | _ => ISignal cd l :: IBroadcast cd l :: c end]> (codes k) /\
       step prog k = Ret (set_threads k m)) /\
  (forall w cd wq, conds k !! cd = Some wq -> w ∈ wq ->
     (exists sm, sems k !! w = Some sm /\ value sm = 0) /\ occurs w wq = 1 /\
     (forall cd' wq', conds k !! cd' = Some wq' -> w ∈ wq' -> cd' = cd) /\
     exists t th, threads k !! t = Some th /\ num (awaits w) (code th) = 1 /\
       forall t' th', threads k !! t' = Some th' -> num (awaits w) (code th') <> 0 -> t' = t) /\
  (forall w t th, (ns0 <= w)%nat -> threads k !! t = Some th -> num (awaits w) (code th) <> 0 ->
     (forall cd wq, conds k !! cd = Some wq -> w ∉ wq) ->
     (exists sm, sems k !! w = Some sm /\ value sm = 1) \/
     exists c, codes k !! currentThread k = Some (IV w :: c)).
Proof.
  intros HC Hr. split; [by intros; eapply signal_steps|]. split; [|split; [|split]].
  - intros cd l c Hc Hl Hq. by apply (quiet_steps k _ c [] cd HC Hr Hc).
  - intros cd l c wq Hc Hq.
    destruct (quiet_steps k _ c _ cd HC Hr Hc (conj eq_refl (ex_intro _ wq (conj Hq eq_refl)))) as (m & Hm & ?).
    exists m. rewrite Hm. by destruct wq.
  - intros w cd wq Hcd Hq. destruct (waiter_asleep k cd wq w HC Hr Hcd Hq) as (Hw & sm & Hs & Hv & _).
    split; [by exists sm|]. by apply (queued_once k cd wq w).
  - intros w t th Hw Ht Hn Hnq. by apply (unqueued_signalled k w t th).
Qed.

End claims.

(** ** The small system *)

(** Its main thread waits on the condition; the other thread signals it. *)
Definition wait_main : list instr := [IFork 0; IAcquire 0; IWait 0 0; IRelease 0].

Definition signal_prog (f : nat) : list instr :=
  match f with
  | 0%nat => [IAcquire 0; ISignal 0 0; IBroadcast 0 0; IRelease 0]
  | _ => []
  end.

Lemma signal_plain f : plain IntOn (signal_prog f ++ [IFinish]) = true.
Proof. by destruct f. Qed.

Lemma small_closed : closed signal_prog wait_main Small.locks0 2 [] [].
Proof.
  split; try reflexivity.
  - by intros [|f].
  - unfold Small.locks0. intros l lk [_ <-]%lookup_singleton_Some. simpl. lia.
  - intros tk s Htk. inversion Htk.
  - intros hs s Hhs. inversion Hhs.
Qed.

(** The state after [n] steps. *)
Definition signal_step (n : nat) : Kernel :=
  let k0 := Initialize wait_main Small.sems0 Small.locks0 Small.conds0 Small.lists0 2 [] [] in
  match run signal_prog n k0 with Ret k => k | _ => k0 end.

Lemma signal_step_reachable n : reachable signal_prog
  (Initialize wait_main Small.sems0 Small.locks0 Small.conds0 Small.lists0 2 [] []) (signal_step n).
Proof.
  unfold signal_step. destruct (run _ _ _) eqn:H; try constructor.
  eapply run_reachable; [constructor|done].
Qed.

Lemma condition_waiters_witness : exists k1 k2, step signal_prog (signal_step 22) = Ret k1 /\
  step signal_prog k1 = Ret k2 /\ readyList (signal_step 22) = [] /\ readyList k2 = [0%nat].
Proof.
  destruct (condition_waiters signal_prog wait_main Small.sems0 Small.locks0 Small.conds0 Small.lists0 2
    [] [] signal_plain eq_refl Small.objects (signal_step 22) small_closed (signal_step_reachable 22)) as [HS _].
  destruct (HS 0%nat 0%nat [IBroadcast 0 0; IRelease 0; IFinish] 2%nat []) as (k1 & k2 & sm & H1 & H2 & _ & Hs & _ & _ & Hr & _).
  - vm_compute. reflexivity.
  - exists (mkLock 0 (Some 1%nat)). split; vm_compute; reflexivity.
  - vm_compute. reflexivity.
  - assert (E : sems (signal_step 22) !! 2%nat = Some (mkSem 0 [0%nat])) by (vm_compute; reflexivity).
    rewrite E in Hs. injection Hs as <-. exists k1, k2. split; [exact H1|]. split; [exact H2|].
    assert (Er : readyList (signal_step 22) = []) by (vm_compute; reflexivity).
    split; [exact Er|]. rewrite Hr, Er. reflexivity.
Defined.
