(* ===== verification/SynchProto.v ===== *)
(** * The protocol of synchronised lists

    The functions of threads/synchlist.cc as an abstract machine: each thread is in one phase
    of [Append], [RemoveFront] or [Apply], and steps move threads between phases, items into
    and out of the list, and waiters into and out of the queue of the condition.  The
    invariant says who owns the lock, that every waiter in the queue belongs to a thread,
    and that while threads wait, enough others are on their way to take the items.
    [SynchLists] shows that the machine of [Threads] follows the protocol. *)

From S2P Require Import Prelude.

(** ** The protocol *)

(** What a thread is to do with the list: append, remove, or apply. *)
Inductive op : Type := Produce | Consume | Look.

Inductive phase : Type :=
  | Outside                (* in none of the functions *)
  | Entering (o : op)      (* in [Acquire], before the lock's [P] has passed *)
  | Passed (o : op)        (* in [Acquire], after it *)
  | Inside (o : op)        (* holds the lock; for [Look], about to release it *)
  | Signalling             (* has appended, is to signal *)
  | ToWait (w : nat)       (* in [Wait], waiter made, holds the lock *)
  | Leaving                (* in [Release], holder cleared, is to do [V] *)
  | LeavingToWait (w : nat)
  | Waiting (w : nat).     (* in [Wait], lock released, is to do [P] on the waiter *)

#[export] Instance op_eq_dec : EqDecision op.
Proof. solve_decision. Defined.
#[export] Instance phase_eq_dec : EqDecision phase.
Proof. solve_decision. Defined.

(** The phases of the holder of the lock. *)
Definition holding (q : phase) : bool :=
  match q with Inside _ | Signalling | ToWait _ => true | _ => false end.

(** The waiter of a thread in [Wait]. *)
Definition waiter (q : phase) : option nat :=
  match q with ToWait w | LeavingToWait w | Waiting w => Some w | _ => None end.

(** Threads on their way to take an item or to signal, when [wq] wait. *)
Definition credit (wq : list nat) (q : phase) : Z :=
  match q with
  | Entering Consume | Passed Consume | Inside Consume | Signalling => 1
  | ToWait w | LeavingToWait w | Waiting w => Z.b2z (bool_decide (w ∉ wq))
  | _ => 0
  end.

Record proto : Type := mkProto {
  phases : gmap nat phase;
  owner : option nat;
  stock : list Z;
  waiters : list nat
}.

Definition at_phase (P : proto) (t : nat) (q : phase) : proto :=
  mkProto (<[t := q]> (phases P)) (owner P) (stock P) (waiters P).

(** Steps of thread [t]. *)
Inductive pstep (t : nat) (P : proto) : proto -> Prop :=
  | ps_stay : pstep t P P
  | ps_born n : phases P !! n = None -> pstep t P (at_phase P n Outside)
  | ps_gone n : phases P !! n = Some Outside ->
      pstep t P (mkProto (delete n (phases P)) (owner P) (stock P) (waiters P))
  | ps_call o : phases P !! t = Some Outside -> pstep t P (at_phase P t (Entering o))
  | ps_pass o : phases P !! t = Some (Entering o) -> pstep t P (at_phase P t (Passed o))
  | ps_hold o : phases P !! t = Some (Passed o) -> owner P = None ->
      pstep t P (mkProto (<[t := Inside o]> (phases P)) (Some t) (stock P) (waiters P))
  | ps_append x : phases P !! t = Some (Inside Produce) ->
      pstep t P (mkProto (<[t := Signalling]> (phases P)) (owner P) (stock P ++ [x]) (waiters P))
  | ps_signal : phases P !! t = Some Signalling ->
      pstep t P (mkProto (<[t := Inside Look]> (phases P)) (owner P) (stock P) (tail (waiters P)))
  | ps_take x its : phases P !! t = Some (Inside Consume) -> stock P = x :: its ->
      pstep t P (mkProto (<[t := Inside Look]> (phases P)) (owner P) its (waiters P))
  | ps_wait w : phases P !! t = Some (Inside Consume) -> stock P = [] ->
      (forall u q, phases P !! u = Some q -> waiter q <> Some w) ->
      pstep t P (mkProto (<[t := ToWait w]> (phases P)) (owner P) [] (waiters P ++ [w]))
  | ps_release q q' : phases P !! t = Some q -> owner P = Some t ->
      (q, q') = (Inside Look, Leaving) \/ (exists w, (q, q') = (ToWait w, LeavingToWait w)) ->
      pstep t P (mkProto (<[t := q']> (phases P)) None (stock P) (waiters P))
  | ps_leave q q' : phases P !! t = Some q ->
      (q, q') = (Leaving, Outside) \/ (exists w, (q, q') = (LeavingToWait w, Waiting w)) ->
      pstep t P (at_phase P t q')
  | ps_woken w : phases P !! t = Some (Waiting w) -> (w ∉ waiters P) ->
      pstep t P (at_phase P t (Entering Consume)).

Definition credits (P : proto) : Z := total (fun _ => credit (waiters P)) (phases P).

Record ProtoInv (P : proto) : Prop := mkProtoInv {
  pr_owner t : owner P = Some t <-> exists q, phases P !! t = Some q /\ holding q = true;
  pr_nodup : NoDup (waiters P);
  pr_waiters w : w ∈ waiters P -> exists t q, phases P !! t = Some q /\ waiter q = Some w;
  pr_stock : waiters P <> [] -> Z.of_nat (length (stock P)) <= credits P
}.
Arguments pr_owner {P}.
Arguments pr_nodup {P}.
Arguments pr_waiters {P}.
Arguments pr_stock {P}.

Lemma credit_nonneg wq q : 0 <= credit wq q.
Proof. destruct q as [|[]|[]|[]| | | | |]; simpl; try lia; destruct (bool_decide _); simpl; lia. Qed.

Lemma credits_nonneg P : 0 <= credits P.
Proof. apply total_nonneg. intros. apply credit_nonneg. Qed.

(** One thread changes its phase. *)
Lemma credits_at P t q q' h its : phases P !! t = Some q ->
  credits (mkProto (<[t := q']> (phases P)) h its (waiters P)) =
  credits P - credit (waiters P) q + credit (waiters P) q'.
Proof. intros H. unfold credits. simpl. by rewrite (total_insert _ _ _ q). Qed.

(** The queue is as before, and the thread keeps its waiter. *)
Lemma pr_change P t q q' h its : ProtoInv P -> phases P !! t = Some q ->
  (forall w, waiter q = Some w -> w ∈ waiters P -> waiter q' = Some w) ->
  (forall u, h = Some u <-> if decide (u = t) then holding q' = true else owner P = Some u) ->
  Z.of_nat (length its) - credit (waiters P) q' <= Z.of_nat (length (stock P)) - credit (waiters P) q ->
  ProtoInv (mkProto (<[t := q']> (phases P)) h its (waiters P)).
Proof.
  intros I Hq Hw Ho Hs. split; simpl.
  - intros u. rewrite Ho. destruct (decide (u = t)) as [->|Hn].
    + rewrite lookup_insert_eq. naive_solver.
    + rewrite lookup_insert_ne by done. apply (pr_owner I).
  - apply I.
  - intros w Hin. destruct (pr_waiters I w Hin) as (u & r & Hu & Hr).
    destruct (decide (u = t)) as [->|Hn].
    + exists t, q'. rewrite lookup_insert_eq. split; [done|]. simplify_eq. auto.
    + exists u, r. by rewrite lookup_insert_ne.
  - intros Hne. pose proof (pr_stock I Hne). rewrite (credits_at P t q) by done. lia.
Qed.

(** The same, for a thread that stays inside or outside. *)
Lemma pr_phase P t q q' its : ProtoInv P -> phases P !! t = Some q -> holding q' = holding q ->
  (forall w, waiter q = Some w -> w ∈ waiters P -> waiter q' = Some w) ->
  Z.of_nat (length its) - credit (waiters P) q' <= Z.of_nat (length (stock P)) - credit (waiters P) q ->
  ProtoInv (mkProto (<[t := q']> (phases P)) (owner P) its (waiters P)).
Proof.
  intros I Hq Hh Hw Hs. eapply pr_change; try done. intros u. case_decide; subst; [|done].
  rewrite (pr_owner I), Hh. naive_solver.
Qed.

Lemma credit_mono wq wq' q : (forall w, w ∈ wq' -> w ∈ wq) -> credit wq q <= credit wq' q.
Proof.
  intros H. destruct q as [|[]|[]|[]| | | | |]; simpl; try lia; repeat case_bool_decide; simpl; try lia; naive_solver.
Qed.

(** A signal passes the signaller's credit to the first waiter. *)
Lemma pr_signal P t : ProtoInv P -> phases P !! t = Some Signalling ->
  ProtoInv (mkProto (<[t := Inside Look]> (phases P)) (owner P) (stock P) (tail (waiters P))).
Proof.
  intros I Ht. pose proof (pr_nodup I) as Hnd. split; simpl.
  - intros u. rewrite (pr_owner I). destruct (decide (u = t)) as [->|Hn].
    + rewrite lookup_insert_eq. naive_solver.
    + by rewrite lookup_insert_ne.
  - destruct (waiters P); [done|]. by apply NoDup_cons in Hnd as [_ ?].
  - intros w Hw. assert (Hin : w ∈ waiters P) by (destruct (waiters P); set_solver).
    destruct (pr_waiters I w Hin) as (u & r & Hu & Hr). exists u, r.
    destruct (decide (u = t)) as [->|Hn]; [simplify_eq|by rewrite lookup_insert_ne].
  - destruct (waiters P) as [|w wq] eqn:Hwq; [done|]. simpl. intros _. pose proof (pr_stock I) as Hs. rewrite Hwq in Hs.
    specialize (Hs ltac:(done)). apply NoDup_cons in Hnd as [Hnw _].
    destruct (pr_waiters I w) as (u & r & Hu & Hr); [rewrite Hwq; set_solver|].
    assert (Hut : u <> t) by (intros ->; simplify_eq).
    unfold credits in *. simpl. rewrite Hwq in Hs.
    rewrite (total_insert _ _ _ Signalling) by done. simpl.
    rewrite <- (insert_id (phases P) u r) in Hs |- * by done.
    assert (credit (w :: wq) r + 1 <= credit wq r).
    { destruct r; simplify_eq; simpl; rewrite bool_decide_false, bool_decide_true by set_solver; done. }
    rewrite <- insert_delete_eq in Hs |- *. rewrite total_insert_new in Hs |- * by apply lookup_delete_eq.
    assert (total (fun _ => credit (w :: wq)) (delete u (phases P)) <= total (fun _ => credit wq) (delete u (phases P))); [|lia].
    apply total_mono. intros i x _. apply credit_mono. set_solver.
Qed.

(** Waiting starts when there is nothing in the list. *)
Lemma pr_wait P t w : ProtoInv P -> phases P !! t = Some (Inside Consume) ->
  (forall u q, phases P !! u = Some q -> waiter q <> Some w) ->
  ProtoInv (mkProto (<[t := ToWait w]> (phases P)) (owner P) [] (waiters P ++ [w])).
Proof.
  intros I Ht Hf. split; simpl.
  - intros u. rewrite (pr_owner I). destruct (decide (u = t)) as [->|Hn].
    + rewrite lookup_insert_eq. naive_solver.
    + by rewrite lookup_insert_ne.
  - apply NoDup_app. split; [apply I|]. split; [|apply NoDup_singleton].
    intros x Hx ->%list_elem_of_singleton. destruct (pr_waiters I w Hx) as (u & q & Hu & Hq). by apply (Hf u q).
  - intros x [Hx|Hx]%elem_of_app.
    + destruct (pr_waiters I x Hx) as (u & q & Hu & Hq). exists u, q. split; [|done].
      rewrite lookup_insert_ne; [done|]. intros <-. simplify_eq.
    + apply list_elem_of_singleton in Hx as ->. exists t, (ToWait w). by rewrite lookup_insert_eq.
  - intros _. apply (credits_nonneg (mkProto _ None [] _)).
Qed.

Lemma pstep_inv t P P' : ProtoInv P -> pstep t P P' -> ProtoInv P'.
Proof.
  intros I H. destruct H as [|n Hn|n Hn|o Ht|o Ht|o Ht Ho|x Ht|Ht|x its Ht Hx|w Ht Hs Hf|q q' Ht Ho Hq|q q' Ht Hq|w Ht Hw].
  - done.
  - split; simpl; try apply I.
    + intros u. rewrite (pr_owner I). destruct (decide (u = n)) as [->|]; [|by rewrite lookup_insert_ne].
      rewrite lookup_insert_eq. naive_solver.
    + intros w Hw. destruct (pr_waiters I w Hw) as (u & q & Hu & ?). exists u, q. rewrite lookup_insert_ne; [done|congruence].
    + intros Hne. pose proof (pr_stock I Hne). unfold credits in *. simpl. by rewrite total_insert_new.
  - split; simpl; try apply I.
    + intros u. rewrite (pr_owner I). destruct (decide (u = n)) as [->|]; [|by rewrite lookup_delete_ne].
      rewrite lookup_delete_eq. naive_solver.
    + intros w Hw. destruct (pr_waiters I w Hw) as (u & q & Hu & ?). exists u, q.
      rewrite lookup_delete_ne; [done|]. intros <-. by simplify_eq.
    + intros Hne. pose proof (pr_stock I Hne). unfold credits in *. simpl. rewrite (total_delete _ _ _ Outside) by done.
      simpl. lia.
  - eapply pr_phase; try done. destruct o; simpl; lia.
  - by eapply pr_phase.
  - eapply pr_change; try done. intros u. rewrite Ho. case_decide; naive_solver.
  - eapply pr_phase; try done. rewrite length_app. simpl. lia.
  - by apply pr_signal.
  - eapply pr_phase; try done. rewrite Hx. simpl. lia.
  - by apply pr_wait.
  - eapply pr_change; try done.
    + destruct Hq as [[= -> ->]|(w & [= -> ->])]; [done|]. simpl. naive_solver.
    + intros u. rewrite Ho. destruct Hq as [[= -> ->]|(w & [= -> ->])]; case_decide; naive_solver.
    + destruct Hq as [[= -> ->]|(w & [= -> ->])]; done.
  - destruct Hq as [[= -> ->]|(w & [= -> ->])]; by eapply pr_phase.
  - eapply pr_phase; try done; simpl; [naive_solver|]. rewrite bool_decide_true by done. done.
Qed.
