(* ===== verification/SynchLists.v ===== *)
(** * Synchronised lists

    [SynchList] of threads/synchlist.cc over the machine of [Threads].  What a thread has
    still to do determines its phase in the protocol of [SynchProto] ([phase_of]), and every
    step of the machine is a step of the protocol or none ([move_sim]).  With what [Locks]
    and [Conds] show of the lock and the condition, the list is a queue that threads use one
    at a time, and no thread waits for an item that is there. *)

From S2P Require Import Prelude NList Interrupt Threads Sched Locks Effects Conds SynchProto.

(** ** Phases of threads *)

Section list.
(** A list, its lock, the lock's semaphore and the condition; waiters are from [n0] on. *)
Context (sl l s cd n0 : nat).

Definition stay_out (q : phase) : option phase :=
  match q with Outside => Some Outside | _ => None end.

(** The phase before an instruction, given the phase after it. *)
Definition before (i : instr) (q : phase) : option phase :=
  match i with
  | ISetLevel _ | IYield | IRunEnd => Some q
  | ISleep false | ISleepLoop false =>
      match q with Outside | Entering _ | Waiting _ => Some q | _ => None end
  | IAcquire x =>
      if decide (x = l) then match q with Inside o => Some (Entering o) | _ => None end else stay_out q
  | IP x | IPLoop x =>
      if decide (x = s) then match q with Passed o => Some (Entering o) | _ => None end
      else match q with Outside => Some Outside | Entering Consume => Some (Waiting x) | _ => None end
  | ISetHolder x =>
      if decide (x = l) then match q with Inside o => Some (Passed o) | _ => None end else stay_out q
  | IRelease x =>
      if decide (x = l) then
        match q with Outside => Some (Inside Look) | Waiting w => Some (ToWait w) | _ => None end
      else stay_out q
  | IV x =>
      if decide (x = s) then
        match q with Outside => Some Leaving | Waiting w => Some (LeavingToWait w) | _ => None end
      else match q with Outside => Some Outside | Inside Look => Some (Inside Look) | _ => None end
  | IListAppend x _ =>
      if decide (x = sl) then match q with Signalling => Some (Inside Produce) | _ => None end else stay_out q
  | ISignal x _ =>
      if decide (x = cd) then match q with Inside Look => Some Signalling | _ => None end else stay_out q
  | IListLoop x =>
      if decide (x = sl) then match q with Inside Look => Some (Inside Consume) | _ => None end else stay_out q
  | IWait x y => if decide (x = cd \/ y = l) then None else stay_out q
  | IBroadcast x _ => if decide (x = cd) then None else stay_out q
  | _ => stay_out q
  end.

Fixpoint phase_of (c : list instr) : option phase :=
  match c with
  | [] => Some Outside
  | i :: c => match phase_of c with Some q => before i q | None => None end
  end.

(** Code that uses the list only through its functions. *)
Definition outside (i : instr) : bool :=
  match i with
  | IAcquire x | ISetHolder x | IRelease x => bool_decide (x <> l)
  | IP x | IPLoop x | IV x => bool_decide (x <> s)
  | IListAppend x _ | IListLoop x => bool_decide (x <> sl)
  | ISignal x _ | IBroadcast x _ => bool_decide (x <> cd)
  | IWait x y => bool_decide (x <> cd) && bool_decide (y <> l)
  | _ => true
  end.

Lemma outside_before i : outside i = true -> before i Outside = Some Outside.
Proof.
  destruct i; simpl; try done; intros H; try (by destruct finishing);
    try (apply andb_prop in H as [H H']; apply bool_decide_eq_true in H'); apply bool_decide_eq_true in H;
    rewrite decide_False by naive_solver; done.
Qed.

Lemma outside_phase c : forallb outside c = true -> phase_of c = Some Outside.
Proof.
  induction c as [|i c IH]; [done|]. simpl. intros [Hi Hc]%andb_prop. rewrite IH by done. by apply outside_before.
Qed.

Lemma outside_app p c : forallb outside p = true -> phase_of c = Some Outside -> phase_of (p ++ c) = Some Outside.
Proof.
  intros Hp Hc. induction p as [|i p IH]; [done|]. simpl in *. apply andb_prop in Hp as [Hi Hp].
  rewrite IH by done. by apply outside_before.
Qed.

(** A thread in [Wait] has still to do [P] on its waiter. *)
Lemma waiter_awaits c q w : phase_of c = Some q -> waiter q = Some w -> 0 < num (awaits w) c.
Proof.
  revert q. induction c as [|i c IH]; intros q; simpl; [intros [= <-]; done|].
  destruct (phase_of c) as [r|]; [|done]. intros Hb Hw. pose proof (num_nonneg (awaits w) c).
  assert (Hcase : awaits w i = true \/ waiter r = Some w).
  { destruct i; simpl in Hb; repeat case_decide; destruct r as [|[]|[]|[]| | | | |]; try done;
      repeat case_match; simplify_eq; simpl in *; simplify_eq; try (by right); left; by rewrite bool_decide_true. }
  destruct Hcase as [->|Hr]; [simpl; lia|]. specialize (IH r eq_refl Hr). destruct (awaits w i); simpl; lia.
Qed.

(** The protocol's view of a state. *)
Definition holder_of (o : obs) : option nat := match o_locks o !! l with Some lk => lockHolder lk | None => None end.
Definition stock_of (o : obs) : list Z := match o_lists o !! sl with Some L => items L | None => [] end.
Definition queue_of (o : obs) : list nat := default [] (o_conds o !! cd).

Definition view (o : obs) : proto :=
  mkProto (omap phase_of (o_codes o)) (holder_of o) (stock_of o) (queue_of o).

(** What never changes: which semaphore a lock has, which lock and condition a list, and
    which conditions there are. *)
Definition furniture (o : obs) : gmap nat nat * gmap nat (nat * nat) * gset nat :=
  (semaphore <$> o_locks o, (fun L => (lock L, listEmpty L)) <$> o_lists o, dom (o_conds o)).

(** The list has a lock, a semaphore and a condition to itself. *)
Record arranged (f : gmap nat nat * gmap nat (nat * nat) * gset nat) : Prop := mkArranged {
  ar_lock : f.1.1 !! l = Some s;
  ar_locks x y : x <> l -> f.1.1 !! x = Some y -> y <> s;
  ar_list : f.1.2 !! sl = Some (l, cd);
  ar_lists x y z : x <> sl -> f.1.2 !! x = Some (y, z) -> y <> l /\ z <> cd;
  ar_cond : cd ∈ f.2;
  ar_sem : (s < n0)%nat
}.
Arguments ar_lock {f}.
Arguments ar_locks {f}.
Arguments ar_list {f}.
Arguments ar_lists {f}.
Arguments ar_cond {f}.
Arguments ar_sem {f}.

Lemma move_furniture prog t i o o' : move prog t i o o' -> furniture o' = furniture o.
Proof.
  assert (Hdom : forall x wq (m : gmap nat (list nat)) v, m !! x = Some wq -> dom (<[x := v]> m) = dom m).
  { intros x wq m v H. rewrite dom_insert_L. apply elem_of_dom_2 in H. set_solver. }
  intros H. inversion H; subst; unfold furniture; simpl; try done;
    try (by erewrite Hdom); rewrite fmap_insert, insert_id; try done; rewrite lookup_fmap;
    match goal with H : _ !! _ = Some _ |- _ => by rewrite H end.
Qed.

(** ** Moves are steps of the protocol *)

Lemma view_lookup o t q : phases (view o) !! t = Some q <-> exists c, o_codes o !! t = Some c /\ phase_of c = Some q.
Proof. simpl. rewrite lookup_omap. destruct (o_codes o !! t); simpl; naive_solver. Qed.

(** Thread [t] has fetched its instruction and goes on with [p]. *)
Lemma view_push o o1 t c p q : o_codes o1 = <[t := c]> (o_codes o) -> phase_of (p ++ c) = Some q ->
  view (o_push t p o1) = mkProto (<[t := q]> (phases (view o))) (holder_of o1) (stock_of o1) (queue_of o1).
Proof.
  intros Hc Hq. rewrite (o_push_codes t p o1 c) by (rewrite Hc; apply lookup_insert_eq).
  unfold view. simpl. f_equal. rewrite Hc, insert_insert_eq. by apply omap_insert_Some.
Qed.

Lemma furniture_lock o x lk : o_locks o !! x = Some lk -> (furniture o).1.1 !! x = Some (semaphore lk).
Proof. intros H. simpl. by rewrite lookup_fmap, H. Qed.

Lemma furniture_list o x L : o_lists o !! x = Some L -> (furniture o).1.2 !! x = Some (lock L, listEmpty L).
Proof. intros H. simpl. by rewrite lookup_fmap, H. Qed.

(** What a list is to ours. *)
Lemma arranged_list o x L : arranged (furniture o) -> o_lists o !! x = Some L ->
  (x = sl /\ lock L = l /\ listEmpty L = cd) \/ (x <> sl /\ lock L <> l /\ listEmpty L <> cd).
Proof.
  intros A HL%furniture_list. destruct (decide (x = sl)) as [->|Hn]; [left|right].
  - rewrite (ar_list A) in HL. by simplify_eq.
  - split; [done|]. by apply (ar_lists A x).
Qed.

Ltac decides := repeat first [rewrite decide_True by done|rewrite decide_False by done|progress simpl].

(** The functions that only call others stay in their phase, but for the calls of the
    list's functions and a signal without waiters. *)
Lemma expands_phase o i p c q : arranged (furniture o) -> expands o i p -> phase_of (i :: c) = Some q ->
  exists q', phase_of (p ++ c) = Some q' /\
    (q' = q \/ (q = Outside /\ exists op, q' = Entering op) \/
     (q = Signalling /\ q' = Inside Look /\ o_conds o !! cd = Some [])).
Proof.
  intros A He. cbn [phase_of]. destruct (phase_of c) as [r|] eqn:Hc; [|done]. intros Hb.
  destruct i; simpl in He; try done;
    try (destruct He as (L & HL & ->); destruct (arranged_list o _ L A HL) as [(-> & El & Ec)|(? & ? & ?)];
      rewrite ?El, ?Ec; simpl in *; destruct r; simplify_eq/=; rewrite Hc; decides; eauto 10; fail).
  - destruct He as [-> | ->]; simpl in *; rewrite Hc; eauto.
  - destruct He as [lv [-> | ->]]; simpl in *; rewrite Hc; eauto.
  - subst p. simpl in *. rewrite Hc. eauto.
  - destruct He as [-> | ->]; simpl in *; rewrite Hc; [|eauto]. exists r. split; [done|left].
    destruct finishing; destruct r; simpl in Hb; congruence.
  - subst p. simpl in *. rewrite Hc. destruct r; simplify_eq/=; eauto.
  - destruct He as [lv ->]. simpl in *. rewrite Hc. eauto.
  - destruct He as [_ ->]. simpl in *. rewrite Hc, Hb. exists q. split; [|by left].
    case_decide; destruct r as [|[]|[]|[]| | | | |]; by simplify_eq.
  - destruct He as (lk & Hlk & ->). simpl in Hb |- *. apply furniture_lock in Hlk. rewrite Hc. case_decide; subst.
    + rewrite (ar_lock A) in Hlk. injection Hlk as <-. destruct r as [| | |o0| | | | |]; simplify_eq.
      simpl. rewrite !decide_True by done. eauto.
    + destruct r; simplify_eq/=. pose proof (ar_locks A l0 _ H Hlk).
      simpl. rewrite decide_False by done. eauto.
  - destruct He as [Hcd ->]. simpl in *. rewrite Hc. exists r. split; [done|]. case_decide; subst.
    + destruct r as [| | |[]| | | | |]; simplify_eq. eauto 10.
    + destruct r; simplify_eq/=. by left.
  - simpl in Hb. case_decide; [done|]. destruct r; simplify_eq/=. destruct He as [-> | ->]; simpl; rewrite Hc; [eauto|].
    simpl. rewrite !decide_False by done. simpl. eauto.
Qed.

(** Every thread is in some phase. *)
Definition phased (o : obs) : Prop := forall u d, o_codes o !! u = Some d -> is_Some (phase_of d).

Section sim.
Context (prog : nat -> list instr).
Hypothesis prog_outside : forall f, forallb outside (prog f) = true.
Context (o : obs) (t : nat) (i : instr) (c : list instr) (q : phase).
Hypothesis A : arranged (furniture o).
Hypothesis Hc : o_codes o !! t = Some (i :: c).
Hypothesis Hq : phase_of (i :: c) = Some q.
Hypothesis Hph : phased o.

Abbreviation o1 := (on_codes <[t := c]> o).

Definition simulated (o' : obs) : Prop := pstep t (view o) (view o') /\ phased o'.

Lemma view_t : phases (view o) !! t = Some q.
Proof. apply view_lookup. eauto. Qed.

(** The thread goes on with [p], in phase [q']. *)
Lemma sim_push o2 p q' : o_codes o2 = <[t := c]> (o_codes o) -> phase_of (p ++ c) = Some q' ->
  pstep t (view o) (mkProto (<[t := q']> (phases (view o))) (holder_of o2) (stock_of o2) (queue_of o2)) ->
  simulated (o_push t p o2).
Proof.
  intros Hc2 Hp Hs. split; [by rewrite (view_push o o2 t c p q')|].
  intros u d. rewrite (o_push_codes t p o2 c) by (rewrite Hc2; apply lookup_insert_eq). simpl.
  rewrite Hc2, insert_insert_eq. intros [[<- <-]|[_ Hd]]%lookup_insert_Some; [by eexists|by eapply Hph].
Qed.

(** In the same phase, with the list as it was. *)
Lemma sim_stay o2 p : o_codes o2 = <[t := c]> (o_codes o) -> phase_of (p ++ c) = Some q ->
  holder_of o2 = holder_of o -> stock_of o2 = stock_of o -> queue_of o2 = queue_of o ->
  simulated (o_push t p o2).
Proof.
  intros Hc2 Hp Hh Hs Hw. eapply sim_push; [done..|]. rewrite Hh, Hs, Hw, insert_id by apply view_t. apply ps_stay.
Qed.

Lemma sim_expand p : expands o1 i p -> simulated (o_push t p o1).
Proof.
  intros He. pose proof view_t as Hv.
  destruct (expands_phase o1 i p c q A He Hq) as (q' & Hp & [->|[(Eq & op & ->)|(Eq & -> & Hcd)]]).
  - by apply sim_stay.
  - rewrite Eq in Hv. eapply sim_push; [done..|]. by apply ps_call.
  - rewrite Eq in Hv. eapply sim_push; [done..|]. unfold queue_of. rewrite Hcd.
    pose proof (ps_signal t (view o) Hv) as H. simpl in H, Hcd. unfold queue_of in H. rewrite Hcd in H. apply H.
Qed.

Lemma sim_destroy d p : dead_thread t d o1 -> phase_of (p ++ c) = Some q -> simulated (o_push t p (o_destroy d o1)).
Proof.
  intros Hd Hp. destruct d as [d|]; [|by apply sim_stay].
  destruct Hd as [Hn Hd]. simpl in Hd. rewrite lookup_insert_ne in Hd by done.
  assert (Hct : o_codes (o_destroy (Some d) o1) !! t = Some c).
  { simpl. rewrite lookup_delete_ne by done. apply lookup_insert_eq. }
  rewrite (o_push_codes _ _ _ c) by done. split.
  - replace (view (on_codes _ _)) with (mkProto (delete d (phases (view o))) (owner (view o)) (stock (view o)) (waiters (view o))).
    { apply ps_gone. apply view_lookup. by exists [IRunEnd]. }
    unfold view. simpl. f_equal. rewrite <- delete_insert_ne, insert_insert_eq by done.
    rewrite omap_delete, (omap_insert_Some phase_of _ _ _ q) by done. rewrite insert_id; [done|apply view_t].
  - intros u e. simpl. intros [[<- <-]|[Hu He]]%lookup_insert_Some; [by eexists|].
    apply lookup_delete_Some in He as [_ He]. rewrite lookup_insert_ne in He by done. by eapply Hph.
Qed.

Lemma sim_fork f n lv : o_codes o1 !! n = None -> n <> t -> phase_of (ISetLevel lv :: c) = Some q ->
  simulated (o_push t [ISetLevel lv] (on_codes <[n := StackAllocate (prog f)]> o1)).
Proof.
  intros Hn Hnt Hp. simpl in Hn. rewrite lookup_insert_ne in Hn by done.
  assert (Hout : phase_of (StackAllocate (prog f)) = Some Outside).
  { apply outside_phase. simpl. by rewrite forallb_app, prog_outside. }
  rewrite (o_push_codes _ _ _ c) by (simpl; rewrite lookup_insert_ne by done; apply lookup_insert_eq). split.
  - replace (view (on_codes _ _)) with (at_phase (view o) n Outside).
    { apply ps_born. simpl. by rewrite lookup_omap, Hn. }
    unfold view, at_phase. simpl. f_equal. rewrite insert_insert_ne, insert_insert_eq by done.
    rewrite (omap_insert_Some _ _ _ _ _ Hout), (omap_insert_Some phase_of _ _ _ q) by done.
    rewrite (insert_id _ t q); [done|apply view_t].
  - intros u e. simpl. intros [[<- <-]|[Hu [[<- <-]|[_ He]]%lookup_insert_Some]]%lookup_insert_Some.
    + by eexists.
    + by eexists.
    + rewrite lookup_insert_ne in He by done. by eapply Hph.
Qed.

Hypothesis W : WaiterInv n0 [] o.

(** A queued waiter is one of ours, and has not been signalled. *)
Lemma queued_waiter x wq w : o_conds o !! x = Some wq -> w ∈ wq -> (n0 <= w)%nat /\ val w o = 0.
Proof.
  intros Hx Hw%occurs_elem.
  assert (Hge : occurs w wq <= queued w o).
  { apply (total_ge (fun _ wq => occurs w wq) (o_conds o) x); [intros; apply occurs_nonneg|done]. }
  assert (Hn : (n0 <= w)%nat).
  { destruct (decide (n0 <= w)%nat); [done|]. rewrite (wi_old W w) in Hge by lia. lia. }
  split; [done|]. pose proof (wi_sum W w Hn) as H. pose proof (wi_one W w Hn). pose proof (wi_val W w Hn).
  pose proof (ahead_nonneg (wakes w) o). simpl in *. lia.
Qed.

(** The next waiter is nobody's yet. *)
Lemma next_fresh u r w : phases (view o) !! u = Some r -> waiter r = Some w -> (w < o_next o)%nat.
Proof.
  intros (d & Hd & Hr)%view_lookup Hw. pose proof (waiter_awaits d r w Hr Hw).
  pose proof (ahead_ge (awaits w) o u d Hd). destruct (decide (w < o_next o)%nat); [done|].
  pose proof (wi_new W w ltac:(lia)) as Hz. simpl in Hz. lia.
Qed.

Lemma sim_pass x v : i = IPLoop x -> o_vals o !! x = Some v -> v <> 0 -> simulated (on_vals <[x := v - 1]> o1).
Proof.
  intros Ei Hv H0. pose proof view_t as Ht. rewrite <- (o_push_nil t). pose proof Hq as Hq'. rewrite Ei in Hq'.
  cbn [phase_of] in Hq'. destruct (phase_of c) as [r|] eqn:Hr; [|done]. simpl in Hq'.
  destruct (decide (x = s)) as [Hx|Hx].
  - destruct r as [| |op| | | | | |]; try done. injection Hq' as Eq. rewrite <- Eq in Ht.
    eapply sim_push; [done..|]. by apply ps_pass.
  - destruct r as [|[]|[]|[]| | | | |]; try done; injection Hq' as Eq.
    + apply sim_stay; try done. simpl. congruence.
    + rewrite <- Eq in Ht. eapply sim_push; [done..|]. apply (ps_woken _ _ x Ht). simpl. unfold queue_of.
      destruct (o_conds o !! cd) as [wq|] eqn:Hcd; [|simpl; set_solver]. simpl. intros Hin.
      destruct (queued_waiter cd wq x Hcd Hin) as [_ Hz]. unfold val in Hz. rewrite Hv in Hz. done.
Qed.

Lemma sim_V x v lv : i = IV x -> simulated (o_push t [ISetLevel lv] (on_vals <[x := v]> o1)).
Proof.
  intros Ei. pose proof view_t as Ht. pose proof Hq as Hq'. rewrite Ei in Hq'.
  cbn [phase_of] in Hq'. destruct (phase_of c) as [r|] eqn:Hr; [|done]. simpl in Hq'.
  assert (Hp : phase_of ([ISetLevel lv] ++ c) = Some r) by (simpl; by rewrite Hr).
  destruct (decide (x = s)) as [Hx|Hx].
  - eapply sim_push; [done..|]. apply (ps_leave t (view o) q r); [done|]. destruct r as [| | | | | | | |]; naive_solver.
  - apply sim_stay; try done. rewrite Hp. destruct r as [|[]|[]|[]| | | | |]; congruence.
Qed.

Lemma sim_hold x lk : i = ISetHolder x -> o_locks o !! x = Some lk -> (x = l -> holder_of o = None) ->
  simulated (o_lock x (mkLock (semaphore lk) (Some t)) o1).
Proof.
  intros Ei Hlk Hh. pose proof view_t as Ht. rewrite <- (o_push_nil t). pose proof Hq as Hq'. rewrite Ei in Hq'.
  cbn [phase_of] in Hq'. destruct (phase_of c) as [r|] eqn:Hr; [|done]. simpl in Hq'.
  destruct (decide (x = l)) as [Hx|Hx].
  - destruct r as [| | |op| | | | |]; try done. injection Hq' as Eq. rewrite <- Eq in Ht.
    eapply sim_push; [done..|]. unfold holder_of. simpl. rewrite Hx, lookup_insert_eq. apply ps_hold; [done|].
    simpl. auto.
  - apply sim_stay; try done.
    + simpl. destruct r; simplify_eq/=. congruence.
    + unfold holder_of. simpl. by rewrite lookup_insert_ne.
Qed.

Lemma sim_release x y : i = IRelease x -> o_locks o !! x = Some (mkLock y (Some t)) ->
  simulated (o_push t [IV y] (o_lock x (mkLock y None) o1)).
Proof.
  intros Ei Hlk. pose proof view_t as Ht. pose proof Hq as Hq'. rewrite Ei in Hq'.
  cbn [phase_of] in Hq'. destruct (phase_of c) as [r|] eqn:Hr; [|done]. simpl in Hq'.
  pose proof (furniture_lock o x _ Hlk) as Hf. cbn [semaphore] in Hf.
  destruct (decide (x = l)) as [Hx|Hx].
  - rewrite Hx in *. rewrite (ar_lock A) in Hf. injection Hf as Hy. rewrite <- Hy.
    assert (Hown : owner (view o) = Some t) by (simpl; unfold holder_of; by rewrite Hlk).
    destruct r as [| | | | | | | |w]; try done; injection Hq' as Eq;
      (eapply sim_push; [done|simpl; rewrite Hr; decides; done|]);
      unfold holder_of; simpl; rewrite lookup_insert_eq; simpl.
    + apply (ps_release t (view o) q Leaving); [done..|]. left. by rewrite Eq.
    + apply (ps_release t (view o) q (LeavingToWait w)); [done..|]. right. exists w. by rewrite Eq.
  - pose proof (ar_locks A x y Hx Hf) as Hy. apply sim_stay; try done.
    + destruct r; simplify_eq/=. rewrite Hr. decides. congruence.
    + unfold holder_of. simpl. by rewrite lookup_insert_ne.
Qed.

(** A call that is not one of the list's. *)
Lemma sim_wait x y wq o2 p : (forall r, phase_of c = Some r -> before i r = Some q -> q = Outside /\ r = Outside) ->
  o_codes o2 = <[t := c]> (o_codes o) -> holder_of o2 = holder_of o -> stock_of o2 = stock_of o ->
  queue_of o2 = queue_of o -> o_conds o2 !! x = Some wq -> x <> cd -> y <> l -> o_next o2 = o_next o ->
  forallb outside p = true ->
  simulated (o_wait t x y wq (o_push t p o2)).
Proof.
  intros Hout Hc2 Hh Hs Hw Hx Hxc Hy Hn Hp.
  pose proof Hq as Hq'. cbn [phase_of] in Hq'. destruct (phase_of c) as [r|] eqn:Hr; [|done].
  destruct (Hout r eq_refl Hq') as [Eq ->]. pose proof (wi_next W) as Hn0. pose proof (ar_sem A) as Hsem.
  set (o3 := mkObs (o_codes o2) (<[o_next o2 := 0]> (o_vals o2)) (o_locks o2) (<[x := wq ++ [o_next o2]]> (o_conds o2)) (o_lists o2) (S (o_next o2))).
  change (o_wait t x y wq (o_push t p o2)) with (o_push t [IRelease y; IP (o_next o2); IAcquire y] (o_push t p o3)).
  rewrite o_push_app. apply sim_stay; try done.
  - rewrite Eq. apply outside_app; [|done]. rewrite forallb_app, Hp. simpl. by rewrite !bool_decide_true by lia.
  - unfold queue_of. simpl. by rewrite lookup_insert_ne.
Qed.

Lemma sim_signal x y w wq : i = ISignal x y -> o_conds o !! x = Some (w :: wq) ->
  simulated (o_push t [IV w] (o_cond x wq o1)).
Proof.
  intros Ei Hx. pose proof view_t as Ht. pose proof Hq as Hq'. rewrite Ei in Hq'.
  cbn [phase_of] in Hq'. destruct (phase_of c) as [r|] eqn:Hr; [|done]. simpl in Hq'.
  destruct (queued_waiter x _ w Hx ltac:(set_solver)) as [Hw _]. pose proof (ar_sem A) as Hsem.
  destruct (decide (x = cd)) as [Exc|Hxc].
  - destruct r as [| | |[]| | | | |]; try done. injection Hq' as Eq. rewrite <- Eq in Ht.
    eapply sim_push; [done|simpl; rewrite Hr; simpl; rewrite decide_False by lia; done|].
    pose proof (ps_signal t (view o) Ht) as H. simpl in H. unfold queue_of in H |- *. simpl.
    rewrite Exc in *. rewrite lookup_insert_eq. rewrite Hx in H. apply H.
  - apply sim_stay; try done.
    + destruct r; simplify_eq/=. rewrite Hr. simpl. rewrite decide_False by lia. congruence.
    + unfold queue_of. simpl. by rewrite lookup_insert_ne.
Qed.

Lemma sim_append x y L : i = IListAppend x y -> o_lists o !! x = Some L ->
  simulated (o_list x (mkSynchList (items L ++ [y]) (returned L) (lock L) (listEmpty L)) o1).
Proof.
  intros Ei HL. pose proof view_t as Ht. rewrite <- (o_push_nil t). pose proof Hq as Hq'. rewrite Ei in Hq'.
  cbn [phase_of] in Hq'. destruct (phase_of c) as [r|] eqn:Hr; [|done]. simpl in Hq'.
  destruct (decide (x = sl)) as [Ex|Hx].
  - destruct r; try done. injection Hq' as Eq. rewrite <- Eq in Ht. rewrite Ex in *.
    eapply sim_push; [done..|]. pose proof (ps_append t (view o) y Ht) as H. simpl in H.
    unfold stock_of in H |- *. simpl. rewrite lookup_insert_eq. rewrite HL in H. apply H.
  - apply sim_stay; try done.
    + simpl. destruct r; simplify_eq/=. congruence.
    + unfold stock_of. simpl. by rewrite lookup_insert_ne.
Qed.

Lemma sim_take x y its L : i = IListLoop x -> o_lists o !! x = Some L -> items L = y :: its ->
  simulated (o_list x (mkSynchList its (returned L ++ [y]) (lock L) (listEmpty L)) o1).
Proof.
  intros Ei HL Hi. pose proof view_t as Ht. rewrite <- (o_push_nil t). pose proof Hq as Hq'. rewrite Ei in Hq'.
  cbn [phase_of] in Hq'. destruct (phase_of c) as [r|] eqn:Hr; [|done]. simpl in Hq'.
  destruct (decide (x = sl)) as [Ex|Hx].
  - destruct r as [| | |[]| | | | |]; try done. injection Hq' as Eq. rewrite <- Eq in Ht. rewrite Ex in *.
    assert (Hst : stock (view o) = y :: its) by (simpl; unfold stock_of; by rewrite HL).
    eapply sim_push; [done..|]. pose proof (ps_take t (view o) y its Ht Hst) as H. simpl in H.
    unfold stock_of. simpl. rewrite lookup_insert_eq. apply H.
  - apply sim_stay; try done.
    + simpl. destruct r; simplify_eq/=. congruence.
    + unfold stock_of. simpl. by rewrite lookup_insert_ne.
Qed.

Lemma sim_empty x L wq : i = IListLoop x -> o_lists o !! x = Some L -> items L = [] ->
  o_conds o !! listEmpty L = Some wq ->
  simulated (o_wait t (listEmpty L) (lock L) wq (o_push t [IListLoop x] o1)).
Proof.
  intros Ei HL Hi Hwq. destruct (arranged_list o x L A HL) as [(Ex & El & Ec)|(Hx & Hl & Hcd)].
  - pose proof view_t as Ht. pose proof Hq as Hq'. rewrite Ei in Hq'.
    cbn [phase_of] in Hq'. destruct (phase_of c) as [r|] eqn:Hr; [|done]. simpl in Hq'. rewrite decide_True in Hq' by done.
    destruct r as [| | |[]| | | | |]; try done. injection Hq' as Eq. rewrite <- Eq in Ht.
    rewrite El, Ec in *. set (w := o_next o). pose proof (wi_next W) as Hn0. pose proof (ar_sem A) as Hsem.
    set (o3 := mkObs (<[t := c]> (o_codes o)) (<[w := 0]> (o_vals o)) (o_locks o) (<[cd := wq ++ [w]]> (o_conds o)) (o_lists o) (S w)).
    change (o_wait t cd l wq (o_push t [IListLoop x] o1)) with (o_push t [IRelease l; IP w; IAcquire l] (o_push t [IListLoop x] o3)).
    rewrite o_push_app. eapply sim_push; [done|simpl; rewrite Hr; simpl; rewrite Ex; decides; rewrite decide_False by lia; decides; done|].
    assert (Hst : stock (view o) = []) by (simpl; unfold stock_of; by rewrite <- Ex, HL).
    pose proof (ps_wait t (view o) w Ht Hst) as H. simpl in H. unfold queue_of, stock_of in H |- *. simpl.
    rewrite lookup_insert_eq. rewrite Hwq in H. rewrite <- Ex, HL, Hi. apply H.
    intros u r Hu Hw. pose proof (next_fresh u r w Hu Hw). lia.
  - eapply sim_wait; try done.
    + intros r Hr Hb. rewrite Ei in Hb. simpl in Hb. rewrite decide_False in Hb by done. destruct r; by simplify_eq/=.
    + simpl. by rewrite bool_decide_true.
Qed.

(** Every move is a step of the protocol. *)
Lemma move_sim o' : (i = ISetHolder l -> holder_of o = None) -> move prog t i o1 o' -> simulated o'.
Proof.
  intros Hh H. pose proof Hq as Hq'. cbn [phase_of] in Hq'. destruct (phase_of c) as [r|] eqn:Hr; [|done].
  inversion H as [i' p o2 He|d o2 Hd|d p o2 Hd Hp|f n lv o2 Hn Hnt|x v o2 Hv Hv0|x v lv o2 Hv|x lk o2 Hlk|x y o2 Hlk
    |x y wq o2 Hwq|x y w wq o2 Hwq|x y L o2 HL|x L wq o2 HL Hi Hwq|x L y its o2 HL Hi]; subst o2 o'; rename select (_ = i) into Ei.
  - by apply sim_expand.
  - rewrite <- (o_push_nil t). apply sim_destroy; [done|]. rewrite <- Ei in Hq'. simpl in *. congruence.
  - apply sim_destroy; [done|]. rewrite <- Ei in Hq'. simpl in *. destruct r; simplify_eq/=.
    destruct Hp as [-> | ->]; simpl; rewrite Hr; done.
  - apply sim_fork; [done..|]. rewrite <- Ei in Hq'. simpl in *. destruct r; simplify_eq/=. by rewrite Hr.
  - by apply sim_pass.
  - by apply sim_V.
  - apply sim_hold; [done..|]. intros ->. by apply Hh.
  - by apply sim_release.
  - rewrite <- (o_push_nil t o1). rewrite <- Ei in Hq'. simpl in Hq'. case_decide; [done|].
    eapply sim_wait; try done; [|naive_solver..]. intros r' Hr' Hb. rewrite <- Ei in Hb. simpl in Hb.
    rewrite decide_False in Hb by done. destruct r'; by simplify_eq/=.
  - by apply sim_signal with y.
  - by apply sim_append.
  - by apply sim_empty.
  - by apply sim_take.
Qed.

End sim.

(** How a move changes the queues of conditions. *)
Lemma move_conds prog t i o o' : move prog t i o o' -> exists x,
  (forall y, y <> x -> o_conds o' !! y = o_conds o !! y) /\
  (o_conds o' !! x = o_conds o !! x \/
   (exists w wq, o_conds o !! x = Some (w :: wq) /\ o_conds o' !! x = Some wq) \/
   (exists wq, o_conds o !! x = Some wq /\ o_conds o' !! x = Some (wq ++ [o_next o]))).
Proof.
  intros H. inversion H; subst; try (exists 0%nat; split; [done|by left]).
  - exists cd0. simpl. split; [intros; by rewrite lookup_insert_ne|]. rewrite lookup_insert_eq. eauto.
  - exists cd0. simpl. split; [intros; by rewrite lookup_insert_ne|]. rewrite lookup_insert_eq. eauto 10.
  - exists (listEmpty L). simpl. split; [intros; by rewrite lookup_insert_ne|]. rewrite lookup_insert_eq. eauto.
Qed.

(** The waiters of the list's threads are in no other queue. *)
Definition private (o : obs) : Prop := forall u q w, phases (view o) !! u = Some q -> waiter q = Some w ->
  (n0 <= w)%nat /\ forall x wq, o_conds o !! x = Some wq -> w ∈ wq -> x = cd.

Lemma pstep_waiter t P P' u q' w : pstep t P P' -> phases P' !! u = Some q' -> waiter q' = Some w ->
  (exists q, phases P !! u = Some q /\ waiter q = Some w) \/ waiters P' = waiters P ++ [w].
Proof.
  intros H Hu Hw. destruct H; simpl in Hu; eauto;
    try (apply lookup_insert_Some in Hu as [[<- <-]|[_ Hu]]; [|by eauto]; try done).
  - apply lookup_delete_Some in Hu as [_ Hu]. eauto.
  - right. simpl. by injection Hw as ->.
  - left. exists q. split; [done|]. destruct_or!; naive_solver.
  - left. exists q. split; [done|]. destruct_or!; naive_solver.
Qed.

Lemma private_move prog t i c o o' : WaiterInv n0 [] o -> private o ->
  move prog t i (on_codes <[t := c]> o) o' -> pstep t (view o) (view o') -> private o'.
Proof.
  intros W Hp Hm Hs u q' w Hu Hw. destruct (move_conds prog t i _ o' Hm) as (x & Hne & Hx). simpl in Hne, Hx.
  assert (Hnew : forall y wq, o_conds o !! y = Some wq -> (o_next o ∉ wq)).
  { intros y wq Hy Hin%occurs_elem.
    assert (occurs (o_next o) wq <= queued (o_next o) o).
    { apply (total_ge (fun _ wq => occurs (o_next o) wq) (o_conds o) y); [intros; apply occurs_nonneg|done]. }
    pose proof (wi_sum W _ (wi_next W)) as H1. pose proof (wi_new W (o_next o) ltac:(lia)) as H2.
    pose proof (wi_val W _ (wi_next W)). pose proof (ahead_nonneg (wakes (o_next o)) o). simpl in *. lia. }
  assert (Hold : forall y wq', o_conds o' !! y = Some wq' -> w ∈ wq' ->
    (exists wq, o_conds o !! y = Some wq /\ w ∈ wq) \/ (y = x /\ w = o_next o)).
  { intros y wq' Hy Hin. destruct (decide (y = x)) as [->|]; [|rewrite Hne in Hy by done; eauto].
    destruct Hx as [Hx|[(v & wq & Hx & Hx')|(wq & Hx & Hx')]]; [rewrite Hx in Hy; eauto|..]; rewrite Hx' in Hy; simplify_eq.
    - left. exists (v :: wq'). set_solver.
    - apply elem_of_app in Hin as [?|Hin%list_elem_of_singleton]; eauto. }
  destruct (pstep_waiter t _ _ u q' w Hs Hu Hw) as [(q & Hu' & Hw')|Hwt].
  - destruct (Hp u q w Hu' Hw') as [? Hcd]. split; [done|]. intros y wq' Hy Hin.
    destruct (Hold y wq' Hy Hin) as [(wq & ? & ?)|[-> ->]]; [eauto|].
    pose proof (next_fresh o W u q _ Hu' Hw'). lia.
  - simpl in Hwt. assert (Hwn : w = o_next o /\ x = cd).
    { unfold queue_of in Hwt. pose proof (f_equal length Hwt) as Hlen. rewrite length_app in Hlen. simpl in Hlen.
      destruct (decide (x = cd)) as [->|Hn]; [|rewrite Hne in Hlen by done; lia]. split; [|done].
      destruct Hx as [Hx|[(v & wq & Hx & Hx')|(wq & Hx & Hx')]]; [rewrite Hx in Hlen; lia|..];
        rewrite Hx, Hx' in *; simpl in *; [lia|]. by apply app_inj_2 in Hwt as [_ [= ->]]. }
    destruct Hwn as [-> ->]. split; [apply (wi_next W)|]. intros y wq' Hy Hin.
    destruct (Hold y wq' Hy Hin) as [(wq & Hy' & Hin')|[-> _]]; [|done]. by apply Hnew in Hy'.
Qed.

(** ** Steps *)

Record ListInv (o : obs) : Prop := mkListInv {
  si_arranged : arranged (furniture o);
  si_phased : phased o;
  si_private : private o;
  si_proto : ProtoInv (view o)
}.
Arguments si_arranged {o}.
Arguments si_phased {o}.
Arguments si_private {o}.
Arguments si_proto {o}.

Lemma step_list prog k k' h : (forall f, forallb outside (prog f) = true) -> Good k ->
  devices (fun x => (x < n0)%nat) k -> LockInv l s 0 h k -> WaiterInv n0 [] (observe k) -> ListInv (observe k) ->
  step prog k = Ret k' -> ListInv (observe k').
Proof.
  intros Hprog G Hd LI W [A Hph Hpv Hpr] Hs.
  destruct (step_move prog _ k k' G Hd Hs) as (i & c & Hc & o' & Hm & Hd' & hs & _ & ->).
  destruct (Hph _ _ Hc) as [q Hq].
  destruct (move_sim prog Hprog (observe k) (currentThread k) i c q A Hc Hq Hph W o') as [Hsim Hph'].
  - intros ->. destruct (LockInv_setholder l s h k _ _ LI Hc) as [-> _]. unfold holder_of. simpl.
    by rewrite (li_lock _ _ _ _ _ LI).
  - done.
  - assert (I' : ListInv o'); [|by destruct I'; split]. split.
    + by rewrite (move_furniture _ _ _ _ _ Hm).
    + done.
    + by eapply private_move.
    + by eapply pstep_inv.
Qed.

(** What a thread in the phase adds to the lock. *)
Lemma phase_weight c q : phase_of c = Some q ->
  weight l s c = match q with Passed _ | Leaving | LeavingToWait _ => 1 | _ => 0 end.
Proof.
  revert q. induction c as [|i c IH]; intros q; simpl; [by intros [= <-]|].
  destruct (phase_of c) as [r|]; [|done]. rewrite (IH r eq_refl). intros Hb.
  destruct i; simpl in *; repeat case_decide; destruct r as [|[]|[]|[]| | | | |]; simplify_eq/=; try done;
    repeat case_match; by simplify_eq/=.
Qed.

Definition loops (i : instr) : bool := match i with IListLoop x => bool_decide (x = sl) | _ => false end.

(** A thread that is to take an item. *)
Definition consuming (q : phase) : bool :=
  match q with
  | Entering Consume | Passed Consume | Inside Consume | ToWait _ | LeavingToWait _ | Waiting _ => true
  | _ => false
  end.

Lemma loops_consuming c q : phase_of c = Some q -> 0 < num loops c -> consuming q = true.
Proof.
  revert q. induction c as [|i c IH]; intros q; simpl; [done|].
  destruct (phase_of c) as [r|]; [|done]. intros Hb Hn. pose proof (num_nonneg loops c).
  assert (Hcase : loops i = true \/ consuming r = true).
  { destruct (loops i); [by left|right]. apply IH; [done|]. simpl in Hn. lia. }
  clear IH. destruct Hcase as [Hi|Hr].
  - destruct i; try done. simpl in *. apply bool_decide_eq_true in Hi. rewrite decide_True in Hb by done.
    destruct r as [| | |[]| | | | |]; by simplify_eq/=.
  - destruct i; simpl in *; repeat case_decide; destruct r as [|[]|[]|[]| | | | |]; simplify_eq/=; try done;
      repeat case_match; by simplify_eq/=.
Qed.

(** Instructions that read or change the list, or that need its lock. *)
Definition touches (i : instr) : Prop :=
  match i with
  | IListAppend x _ | IListLoop x => x = sl
  | ISignal x _ => x = cd
  | IRelease x => x = l
  | _ => False
  end.

Lemma touches_holding i c q : touches i -> phase_of (i :: c) = Some q -> holding q = true.
Proof.
  cbn [phase_of]. destruct (phase_of c) as [r|]; [|done].
  destruct i; try done; simpl; intros ->; rewrite decide_True by done;
    destruct r as [|[]|[]|[]| | | | |]; try done; by intros [= <-].
Qed.

Lemma holding_holder k t c q : ListInv (observe k) -> codes k !! t = Some c -> phase_of c = Some q ->
  holding q = true -> exists lk, locks k !! l = Some lk /\ lockHolder lk = Some t.
Proof.
  intros I Hc Hq Hh. assert (Ho : owner (view (observe k)) = Some t).
  { apply (pr_owner (si_proto I)). exists q. split; [|done]. apply view_lookup. eauto. }
  simpl in Ho. unfold holder_of in Ho. simpl in Ho. destruct (locks k !! l) as [lk|]; [|done]. eauto.
Qed.

(** How a list changes in a move. *)
Definition extended (x : Z) (L L' : SynchList) : Prop := items L' = items L ++ [x] /\ returned L' = returned L.
Definition taken (x : Z) (L L' : SynchList) : Prop := items L = x :: items L' /\ returned L' = returned L ++ [x].

Lemma move_lists prog t i o o' x L : move prog t i o o' -> o_lists o !! x = Some L ->
  o_lists o' !! x = Some L \/
  exists L', o_lists o' !! x = Some L' /\
    ((exists y, i = IListAppend x y /\ extended y L L') \/ (i = IListLoop x /\ exists y, taken y L L')).
Proof.
  intros H HL. inversion H as [| | | | | | | | | |y z M o2 HM| |y M z its o2 HM Hi]; subst; try (by left); simpl;
    (destruct (decide (x = y)) as [<-|]; [right|left; by rewrite lookup_insert_ne]);
    rewrite lookup_insert_eq; (eexists; split; [done|]); simplify_eq.
  - left. by exists z.
  - right. split; [done|]. exists z. by split.
Qed.

Lemma step_lists prog k k' x L : Good k -> step prog k = Ret k' -> lists k !! x = Some L ->
  exists i c, codes k !! currentThread k = Some (i :: c) /\
    (lists k' !! x = Some L \/ exists L', lists k' !! x = Some L' /\
       ((exists y, i = IListAppend x y /\ extended y L L') \/ (i = IListLoop x /\ exists y, taken y L L'))).
Proof.
  intros G Hs HL. destruct (step_move prog (fun _ => True) k k' G ltac:(done) Hs) as (i & c & Hc & o' & Hm & _ & hs & _ & Ho).
  exists i, c. split; [done|]. change (lists k') with (o_lists (observe k')). rewrite Ho.
  by apply (move_lists prog _ _ _ _ _ _ Hm).
Qed.

(** ** What threads do with the list *)

(** Thread [t] calls [Append] with [x]; it has put [x] into the list; its [RemoveFront]
    gets [x]. *)
Inductive event : Type :=
  | Called (t : nat) (x : Z)
  | Entered (t : nat) (x : Z)
  | Taken (t : nat) (x : Z).

Definition events_of (t : nat) (i : instr) (its : list Z) : list event :=
  match i with
  | ISynchAppend y x => if decide (y = sl) then [Called t x] else []
  | IListAppend y x => if decide (y = sl) then [Entered t x] else []
  | IListLoop y => if decide (y = sl) then Taken t <$> take 1 its else []
  | _ => []
  end.

(** What the next step of [k] does. *)
Definition events (k : Kernel) : list event :=
  match codes k !! currentThread k with
  | Some (i :: _) => events_of (currentThread k) i (stock_of (observe k))
  | _ => []
  end.

Definition entered (h : list event) : list Z := omap (fun e => match e with Entered _ x => Some x | _ => None end) h.
Definition got (h : list event) : list Z := omap (fun e => match e with Taken _ x => Some x | _ => None end) h.
Definition called_by (t : nat) (h : list event) : list Z :=
  omap (fun e => match e with Called u x => if decide (u = t) then Some x else None | _ => None end) h.
Definition entered_by (t : nat) (h : list event) : list Z :=
  omap (fun e => match e with Entered u x => if decide (u = t) then Some x else None | _ => None end) h.

(** The items of calls of [Append] that a thread has still to put into the list. *)
Definition pending_item (i : instr) : option Z :=
  match i with IListAppend y x => if decide (y = sl) then Some x else None | _ => None end.
Definition pending (t : nat) (o : obs) : list Z := omap pending_item (default [] (o_codes o !! t)).

Lemma outside_pending c : phase_of c = Some Outside -> omap pending_item c = [].
Proof.
  induction c as [|i c IH]; [done|]. simpl. destruct (phase_of c) as [q|]; [|done]. intros Hb.
  assert (Hq : q = Outside /\ pending_item i = None).
  { destruct i; simpl in *; repeat case_decide; destruct q as [|[]|[]|[]| | | | |]; simplify_eq/=; try done;
      repeat case_match; by simplify_eq/=. }
  destruct Hq as [-> ->]. by apply IH.
Qed.

Lemma outside_items c : forallb outside c = true -> omap pending_item c = [].
Proof. intros H. by apply outside_pending, outside_phase. Qed.

Lemma pending_push u t p o c : o_codes o !! t = Some c ->
  pending u (o_push t p o) = (if decide (u = t) then omap pending_item p else []) ++ pending u o.
Proof.
  intros Hc. unfold pending. simpl. case_decide as Hu; [subst u|by rewrite lookup_alter_ne].
  rewrite lookup_alter_eq, Hc. simpl. by rewrite omap_app.
Qed.

Lemma pending_destroy u t d o : dead_thread t d o -> pending u (o_destroy d o) = pending u o.
Proof.
  destruct d as [d|]; [|done]. intros [_ Hd]. unfold pending. simpl.
  destruct (decide (u = d)) as [->|]; [by rewrite lookup_delete_eq, Hd|by rewrite lookup_delete_ne].
Qed.

(** The items that an instruction puts off. *)
Definition calls (i : instr) : list Z :=
  match i with ISynchAppend y x => if decide (y = sl) then [x] else [] | _ => [] end.

Lemma expands_pending o i p : expands o i p -> omap pending_item p = calls i.
Proof.
  destruct i; simpl; intros H; try done; destruct_and?; destruct_or?; subst; try done;
    destruct H as (? & H); destruct_and?; destruct_or?; subst; try done. simpl. by case_decide.
Qed.

Lemma move_pending prog t c i o o' u : (forall f, forallb outside (prog f) = true) -> o_codes o !! t = Some c ->
  move prog t i o o' -> pending u o' = (if decide (u = t) then calls i else []) ++ pending u o.
Proof.
  intros Hp Hc H. assert (Hno : (if decide (u = t) then [] else []) = @nil Z) by (by case_decide).
  inversion H; subst; cbn [calls]; rewrite ?Hno; try done.
  - rewrite (pending_push u t _ _ c) by done. by erewrite expands_pending.
  - by apply (pending_destroy _ t).
  - assert (Hc' : o_codes (o_destroy d o) !! t = Some c).
    { destruct d as [d|]; [|done]. destruct H0. simpl. by rewrite lookup_delete_ne. }
    rewrite (pending_push u t _ _ c), (pending_destroy _ t) by done. destruct_or!; subst; simpl; by rewrite ?Hno.
  - rewrite (pending_push u t _ _ c) by (simpl; by rewrite lookup_insert_ne). simpl. rewrite Hno. simpl.
    unfold pending. simpl. destruct (decide (u = n)) as [->|]; [|by rewrite lookup_insert_ne].
    rewrite lookup_insert_eq, H0. simpl. by rewrite omap_app, outside_items.
  - rewrite (pending_push u t _ _ c) by done. simpl. by rewrite ?Hno.
  - rewrite (pending_push u t _ _ c) by done. simpl. by rewrite ?Hno.
  - unfold o_wait. rewrite (pending_push u t _ _ c) by done. simpl. by rewrite ?Hno.
  - rewrite (pending_push u t _ _ c) by done. simpl. by rewrite ?Hno.
  - unfold o_wait. rewrite (pending_push u t _ _ (IListLoop sl0 :: c)) by (simpl; by rewrite lookup_alter_eq, Hc).
    simpl. rewrite Hno. simpl. change (pending u (o_push t [IListLoop sl0] o) = pending u o).
    rewrite (pending_push u t _ _ c) by done. simpl. by rewrite ?Hno.
Qed.

Lemma move_items prog t i o o' L : move prog t i o o' -> o_lists o !! sl = Some L ->
  exists L', o_lists o' !! sl = Some L' /\
    returned L' ++ items L' = (returned L ++ items L) ++ entered (events_of t i (items L)) /\
    returned L' = returned L ++ got (events_of t i (items L)).
Proof.
  intros H HL. assert (Hsame : o_lists o' !! sl = Some L -> entered (events_of t i (items L)) = [] ->
    got (events_of t i (items L)) = [] -> exists L', o_lists o' !! sl = Some L' /\
    returned L' ++ items L' = (returned L ++ items L) ++ entered (events_of t i (items L)) /\
    returned L' = returned L ++ got (events_of t i (items L))).
  { intros HL' -> ->. exists L. by rewrite !app_nil_r. }
  inversion H; subst; try (by apply Hsame).
  - apply Hsame; [done|..]; destruct i; try done; simpl; by case_decide.
  - simpl in *. case_decide; [subst sl0|apply Hsame; [by rewrite lookup_insert_ne|done..]].
    rewrite lookup_insert_eq. eexists. split; [done|]. simplify_eq. simpl. by rewrite app_nil_r, app_assoc.
  - simpl in *. case_decide; [subst sl0|by apply Hsame]. simplify_eq. apply Hsame; [done|..]; by rewrite H1.
  - simpl in *. case_decide; [subst sl0|apply Hsame; [by rewrite lookup_insert_ne|done..]].
    rewrite lookup_insert_eq. eexists. split; [done|]. simplify_eq. rewrite H1. simpl. by rewrite app_nil_r, <- app_assoc.
Qed.

(** One step: the list, and for each thread what it has still to append. *)
Lemma step_events prog k k' L : (forall f, forallb outside (prog f) = true) -> Good k -> ListInv (observe k) ->
  step prog k = Ret k' -> lists k !! sl = Some L ->
  (exists L', lists k' !! sl = Some L' /\
     returned L' ++ items L' = (returned L ++ items L) ++ entered (events k) /\
     returned L' = returned L ++ got (events k)) /\
  forall t, entered_by t (events k) ++ pending t (observe k') = pending t (observe k) ++ called_by t (events k).
Proof.
  intros Hp G I Hs HL. destruct (step_move prog (fun _ => True) k k' G ltac:(done) Hs) as (i & c & Hc & o' & Hm & _ & hs & _ & Ho).
  unfold events. rewrite Hc. unfold stock_of. simpl o_lists. rewrite HL. split.
  { change (lists k') with (o_lists (observe k')). rewrite Ho. by apply (move_items prog _ i _ o' L Hm). }
  intros t. replace (pending t (observe k')) with (pending t o') by (by rewrite Ho).
  rewrite (move_pending prog (currentThread k) c i _ o' t Hp (lookup_insert_eq (codes k) _ c) Hm).
  destruct (si_phased I (currentThread k) _ Hc) as [q Hq].
  unfold pending. simpl o_codes. case_decide as Ht; [subst t; rewrite lookup_insert_eq, Hc; simpl default|].
  - destruct i; simpl; rewrite ?app_nil_r; try done; repeat case_decide; simpl; rewrite ?decide_True by done;
      rewrite ?app_nil_r; try done.
    + simpl in Hq. destruct (phase_of c) as [r|] eqn:Hr; [|done]. destruct r; try done.
      change (list_omap instr Z pending_item c) with (omap pending_item c). by rewrite outside_pending.
    + destruct (items L); simpl; by rewrite ?app_nil_r.
  - rewrite lookup_insert_ne by done. destruct i; simpl; rewrite ?app_nil_r; try done; repeat case_decide; simpl;
      rewrite ?decide_False by done; rewrite ?app_nil_r; try done. destruct (items L); simpl; by rewrite ?app_nil_r.
Qed.

(** ** Reachable states *)

Section claims.
Context (prog : nat -> list instr) (main : list instr) (S0 : gmap nat Semaphore) (L0 : gmap nat Lock)
  (C0 : gmap nat (list nat)) (SL0 : gmap nat SynchList) (tks : list tick) (ids : list (list nat)).
Hypothesis prog_plain : forall f, plain IntOn (prog f ++ [IFinish]) = true.
Hypothesis main_plain : plain IntOn (main ++ [IHalt]) = true.
Hypothesis objects : fresh_objects S0 C0 n0.

(** The list as its constructor makes it, with its own lock and condition; clients use it
    only through its functions. *)
Record fresh_list : Prop := mkFreshList {
  fs_lock : fresh_lock l s prog main S0 L0 tks ids;
  fs_closed : closed prog main L0 n0 tks ids;
  fs_list : SL0 !! sl = Some (mkSynchList [] [] l cd);
  fs_cond : C0 !! cd = Some [];
  fs_lists x L : x <> sl -> SL0 !! x = Some L -> lock L <> l /\ listEmpty L <> cd;
  fs_prog f : forallb outside (prog f) = true;
  fs_main : forallb outside main = true
}.

Abbreviation boot := (Initialize main S0 L0 C0 SL0 n0 tks ids).

Lemma boot_list : fresh_list -> ListInv (observe boot).
Proof.
  intros [FL FC HSL HC Hls Hp Hm].
  assert (Hout : phase_of (ISetLevel IntOn :: main ++ [IHalt]) = Some Outside).
  { apply outside_phase. simpl. by rewrite forallb_app, Hm. }
  assert (Hv : forall u q, phases (view (observe boot)) !! u = Some q -> q = Outside).
  { intros u q (d & Hd & Hq)%view_lookup. simpl in Hd. rewrite map_fmap_singleton in Hd.
    apply lookup_singleton_Some in Hd as [_ <-]. simpl code in Hq. congruence. }
  split.
  - split; simpl; rewrite ?lookup_fmap.
    + by rewrite (fl_lock _ _ _ _ _ _ _ _ FL).
    + intros x y Hx. rewrite lookup_fmap. destruct (L0 !! x) as [lk|] eqn:Hlk; [|done]. intros [= <-].
      by apply (fl_others _ _ _ _ _ _ _ _ FL x).
    + by rewrite HSL.
    + intros x y z Hx. rewrite lookup_fmap. destruct (SL0 !! x) as [L|] eqn:HL; [|done]. intros [= <- <-].
      by apply (Hls x).
    + by apply elem_of_dom.
    + apply (cl_locks _ _ _ _ _ _ FC l _ (fl_lock _ _ _ _ _ _ _ _ FL)).
  - intros u d. simpl. rewrite map_fmap_singleton. intros [_ <-]%lookup_singleton_Some. by eexists.
  - intros u q w Hu Hw. by rewrite (Hv u q Hu) in Hw.
  - split.
    + intros u. simpl. unfold holder_of. simpl. rewrite (fl_lock _ _ _ _ _ _ _ _ FL). split; [done|].
      intros (q & Hu & Hh). by rewrite (Hv u q Hu) in Hh.
    + simpl. unfold queue_of. simpl. rewrite HC. constructor.
    + simpl. unfold queue_of. simpl. rewrite HC. intros w Hw. set_solver.
    + simpl. unfold queue_of. simpl. by rewrite HC.
Qed.

Lemma reachable_list k : fresh_list -> reachable prog boot k ->
  Good k /\ (exists h, LockInv l s 0 h k) /\ WaiterInv n0 [] (observe k) /\ Calm n0 (observe k) /\
  devices (fun x => (x < n0)%nat) k /\ ListInv (observe k).
Proof.
  intros HF H. pose proof (reachable_lock l s prog main S0 L0 C0 SL0 n0 tks ids prog_plain main_plain objects) as HL.
  pose proof (reachable_waiters prog main S0 L0 C0 SL0 n0 tks ids prog_plain main_plain objects) as HW.
  destruct (HL k (fs_lock HF) H) as [G LI]. destruct (HW k (fs_closed HF) H) as (_ & Hd & W & Hca).
  split_and!; try done. clear G LI Hd W Hca.
  induction H as [|k k' H IH Hs]; [by apply boot_list|].
  destruct (HL k (fs_lock HF) H) as [G [h LI]]. destruct (HW k (fs_closed HF) H) as (_ & Hd & W & _).
  by apply (step_list prog k k' h (fs_prog HF)).
Qed.

(** C6: Access to a synchronised list is exclusive: a step that changes the list is a step
    of the thread that holds its lock, inside [Append], where it adds the item at the end,
    or inside [RemoveFront], where it takes the first; and no thread that is about to read
    or change the list, to signal its condition or to release its lock fails the
    assertion that it holds the lock. *)
Theorem synchlist_exclusive k L : fresh_list -> reachable prog boot k -> lists k !! sl = Some L ->
  (forall t th i c, threads k !! t = Some th -> code th = i :: c ->
     touches i -> exists lk, locks k !! l = Some lk /\ lockHolder lk = Some t) /\
  (forall k', step prog k = Ret k' -> lists k' !! sl = Some L \/
     (holds k l /\ exists L', lists k' !! sl = Some L' /\
       ((exists x, extended x L L') \/ (exists x, taken x L L')))).
Proof.
  intros HF Hr HL. destruct (reachable_list k HF Hr) as (G & _ & _ & _ & _ & I).
  assert (Hex : forall t i c, codes k !! t = Some (i :: c) -> touches i ->
    exists lk, locks k !! l = Some lk /\ lockHolder lk = Some t).
  { intros t i c Hc Hi. destruct (si_phased I t _ Hc) as [q Hq].
    eapply holding_holder; [done..|]. by eapply touches_holding. }
  split.
  - intros t th i c Ht Hc Hi. apply (Hex t i c); [|done]. by rewrite lookup_fmap, Ht, <- Hc.
  - intros k' Hs. destruct (step_lists prog k k' sl L G Hs HL) as (i & c & Hc & [?|(L' & HL' & Hcase)]); [by left|right].
    split.
    + apply (Hex (currentThread k) i c Hc). destruct Hcase as [(y & -> & _)|(-> & _)]; done.
    + exists L'. split; [done|]. destruct Hcase as [(y & _ & ?)|(_ & y & ?)]; eauto.
Qed.

(** A run, with what threads do with the list, in order. *)
Inductive history : list event -> Kernel -> Kernel -> Prop :=
  | hist_nil k : history [] k k
  | hist_step h k k1 k2 : history h k k1 -> step prog k1 = Ret k2 -> history (h ++ events k1) k k2.

Lemma history_reachable k0 h k k' : reachable prog k0 k -> history h k k' -> reachable prog k0 k'.
Proof. intros Hr H. induction H as [|h k k1 k2 H IH Hs]; [done|]. apply (reach_step prog k0 k1); [by apply IH|done]. Qed.

(** C29: A synchronised list is a first-in first-out queue across threads.  Over any run
    and any interleaving: what [RemoveFront] returns is, in order, what was in the list at
    the start followed by the items put in during the run, and the rest of these is in the
    list at the end; no item is lost, doubled or overtaken.  The items put in are those
    given to [Append]: for each thread, those it has put in followed by those it has still
    to put in are those it had still to put in at the start followed by the arguments of
    its calls, in the order of the calls. *)
Theorem synchlist_fifo h k k' L : fresh_list -> reachable prog boot k -> history h k k' ->
  lists k !! sl = Some L ->
  (exists L', lists k' !! sl = Some L' /\
     returned L' ++ items L' = (returned L ++ items L) ++ entered h /\
     returned L' = returned L ++ got h) /\
  forall t, entered_by t h ++ pending t (observe k') = pending t (observe k) ++ called_by t h.
Proof.
  intros HF Hr H HL. induction H as [|h k k1 k2 H IH Hs].
  { split; [|intros; by rewrite app_nil_r]. exists L. by rewrite !app_nil_r. }
  destruct (IH Hr HL) as [(L1 & HL1 & HI & HR) Hq].
  destruct (reachable_list k1 HF (history_reachable _ _ _ _ Hr H)) as (G & _ & _ & _ & _ & I).
  destruct (step_events prog k1 k2 L1 (fs_prog HF) G I Hs HL1) as [(L2 & HL2 & HI2 & HR2) Hq2].
  unfold entered, got, entered_by, called_by in *. split.
  - exists L2. split; [done|]. by rewrite HI2, HI, HR2, HR, !omap_app, <- !app_assoc.
  - intros t. by rewrite !omap_app, <- app_assoc, Hq2, app_assoc, Hq, app_assoc.
Qed.

(** A thread in the queue of a semaphore is outside, or waits for the lock or its waiter. *)
Lemma waits_phase x c q : waits x c = true -> phase_of c = Some q ->
  (x = s /\ exists op, q = Entering op) \/ (x <> s /\ (q = Outside \/ q = Waiting x)).
Proof.
  intros Hw Hq. destruct c as [|i [|j c]]; [done|by destruct i as [| | |[]|[]| | | | | | | | | | | | | | | | | |]|].
  assert (Hj : j = IPLoop x).
  { destruct i as [| | |[]|[]| | | | | | | | | | | | | | | | | |]; try done; destruct j; try done; simpl in Hw;
      apply bool_decide_eq_true in Hw; by subst. }
  rewrite Hj in *. cbn [phase_of] in Hq. destruct (phase_of c) as [r|]; [|done].
  assert (Hb : before (IPLoop x) r = Some q).
  { destruct (before (IPLoop x) r) as [p|]; [|done]. simpl in Hw.
    destruct i as [| | |[]|[]| | | | | | | | | | | | | | | | | |]; try done; destruct p; by simplify_eq/=. }
  simpl in Hb. case_decide; [left|right]; (split; [done|]); destruct r as [|[]|[]|[]| | | | |]; simplify_eq; eauto.
Qed.

Section stuck.
Context (k : Kernel).
Hypothesis G : Good k.
Hypothesis I : ListInv (observe k).
Hypothesis W : WaiterInv n0 [] (observe k).
Hypothesis Hca : Calm n0 (observe k).
Hypothesis LI : exists h, LockInv l s 0 h k.
Hypothesis Hstuck : forall t th, threads k !! t = Some th ->
  (t = currentThread k /\ code th = [ISleepLoop true]) \/ exists x sm, sems k !! x = Some sm /\ t ∈ queue sm.
Hypothesis Hhead : forall w c, codes k !! currentThread k <> Some (IV w :: c).

Lemma stuck_phase t th q : threads k !! t = Some th -> phase_of (code th) = Some q ->
  (q = Outside \/ exists op, q = Entering op) \/
  exists w sm, q = Waiting w /\ sems k !! w = Some sm /\ queue sm <> [] /\ waits w (code th) = true.
Proof.
  intros Ht Hq. destruct (Hstuck t th Ht) as [[_ E]|(x & sm & Hx & Hin)].
  - rewrite E in Hq. simpl in Hq. naive_solver.
  - destruct (inv_queue G x sm t Hx Hin) as (c & Hc & Hw). rewrite lookup_fmap, Ht in Hc. injection Hc as <-.
    assert (queue sm <> []) by (by intros E; rewrite E in Hin; apply not_elem_of_nil in Hin).
    destruct (waits_phase x _ q Hw Hq) as [[_ ?]|[_ [-> | ->]]]; eauto 10.
Qed.

(** Nobody has the lock, so nobody waits for it. *)
Lemma stuck_entering t th op : threads k !! t = Some th -> phase_of (code th) <> Some (Entering op).
Proof.
  intros Ht Hq. destruct LI as [h LI']. destruct (li_sum _ _ _ _ _ LI') as (sm & Hsm & Hv & He).
  assert (Hw : total (fun _ => weight l s) (codes k) = 0).
  { apply total_zero. intros u c Hc. destruct (si_phased I u c Hc) as [r Hr].
    pose proof Hc as Hu. rewrite lookup_fmap in Hu. destruct (threads k !! u) as [th'|] eqn:Hth; [|done]. injection Hu as <-.
    rewrite (phase_weight _ _ Hr). destruct (stuck_phase u th' r Hth Hr) as [[->|(op' & ->)]|(w & _ & -> & _)]; done. }
  assert (Hh : h = None).
  { destruct h as [u|]; [exfalso|done]. assert (Ho : owner (view (observe k)) = Some u).
    { simpl. unfold holder_of. simpl. by rewrite (li_lock _ _ _ _ _ LI'). }
    apply (pr_owner (si_proto I)) in Ho as (r & (c & Hc & Hr)%view_lookup & Hold). simpl in Hc.
    rewrite lookup_fmap in Hc. destruct (threads k !! u) as [th'|] eqn:Hth; [|done]. injection Hc as <-.
    destruct (stuck_phase u th' r Hth Hr) as [[->|(op' & ->)]|(w & _ & -> & _)]; done. }
  destruct (Hstuck t th Ht) as [[_ E]|(x & sm' & Hx & Hin)]; [by rewrite E in Hq|].
  destruct (inv_queue G x sm' t Hx Hin) as (c & Hc & Hwt). rewrite lookup_fmap, Ht in Hc. injection Hc as <-.
  destruct (waits_phase x _ _ Hwt Hq) as [[-> _]|[_ [?|?]]]; [|done..]. simplify_eq.
  pose proof (stuck_value k s sm G Hsm) as H0. rewrite Hw in He. simpl in He. rewrite H0 in He; [done| |done].
  intros E. rewrite E in Hin. by apply not_elem_of_nil in Hin.
Qed.

(** A thread in [Wait] has not been signalled. *)
Lemma stuck_waiting t th w : threads k !! t = Some th -> phase_of (code th) = Some (Waiting w) ->
  exists wq, conds k !! cd = Some wq /\ w ∈ wq /\ waits w (code th) = true.
Proof.
  intros Ht Hq. destruct (stuck_phase t th _ Ht Hq) as [[?|[? ?]]|(w' & sm & [= <-] & Hsm & Hne & Hwt)]; [done..|].
  assert (Hv : phases (view (observe k)) !! t = Some (Waiting w)).
  { apply view_lookup. exists (code th). simpl. by rewrite lookup_fmap, Ht. }
  destruct (si_private I t _ w Hv eq_refl) as [Hn Hcd].
  pose proof (wi_sum W w Hn) as HS. pose proof (waiter_awaits _ _ w Hq eq_refl) as Ha.
  pose proof (ahead_thread (awaits w) k t th Ht) as Hge.
  assert (Hval : val w (observe k) = 0).
  { unfold val. simpl. rewrite lookup_fmap, Hsm. simpl. by apply (stuck_value k w). }
  assert (Hwk : ahead (wakes w) (observe k) = 0).
  { pose proof (ahead_nonneg (wakes w) (observe k)).
    destruct (decide (0 < ahead (wakes w) (observe k))) as [Hp|]; [|lia].
    destruct (wakes_running n0 k w G Hca Hn Hp) as [c Hc]. by apply Hhead in Hc. }
  assert (HQ : 0 < queued w (observe k)) by (simpl in HS; lia).
  apply total_pos in HQ as (x & wq & Hx & Hin%occurs_elem). simpl in Hx.
  rewrite (Hcd x wq Hx Hin) in Hx. eauto.
Qed.

Lemma stuck_empty t th L : threads k !! t = Some th -> 0 < num loops (code th) -> lists k !! sl = Some L ->
  items L = [] /\ exists wq w, conds k !! cd = Some wq /\ w ∈ wq /\ waits w (code th) = true.
Proof.
  intros Ht Hl HL. assert (Hct : codes k !! t = Some (code th)) by (by rewrite lookup_fmap, Ht).
  destruct (si_phased I t _ Hct) as [q Hq]. pose proof (loops_consuming _ _ Hq Hl) as Hcons.
  assert (Hw : exists w, q = Waiting w).
  { destruct (stuck_phase t th q Ht Hq) as [[->|(op & ->)]|(w & _ & -> & _)]; [done| |eauto].
    by apply (stuck_entering t th op) in Ht. }
  destruct Hw as [w ->]. destruct (stuck_waiting t th w Ht Hq) as (wq & Hwq & Hin & Hwt).
  split; [|by exists wq, w].
  assert (Hne : waiters (view (observe k)) <> []).
  { simpl. unfold queue_of. simpl. rewrite Hwq. simpl. intros E. rewrite E in Hin. by apply not_elem_of_nil in Hin. }
  pose proof (pr_stock (si_proto I) Hne) as Hst. assert (Hz : credits (view (observe k)) = 0).
  { apply total_zero. intros u r (c & Hc & Hr)%view_lookup. simpl in Hc. rewrite lookup_fmap in Hc.
    destruct (threads k !! u) as [th'|] eqn:Hth; [|done]. injection Hc as <-.
    destruct (stuck_phase u th' r Hth Hr) as [[->|(op & ->)]|(v & _ & -> & _)]; [done| |].
    - by apply (stuck_entering u th' op) in Hth.
    - destruct (stuck_waiting u th' v Hth Hr) as (wq' & Hwq' & Hin' & _). simpl. unfold queue_of. simpl.
      rewrite Hwq'. simpl. by rewrite bool_decide_false by naive_solver. }
  rewrite Hz in Hst. simpl in Hst. unfold stock_of in Hst. simpl in Hst. rewrite HL in Hst.
  destruct (items L); [done|simpl in Hst; lia].
Qed.

End stuck.

(** C1: No consumer is forgotten: when the machine stops because nothing can ever run
    again, a thread that is still inside [RemoveFront] of the list waits for an item that
    is not there: the list is empty, and the thread waits on the list's condition. *)
Theorem stuck_consumers k t th L : fresh_list -> reachable prog boot k -> step prog k = Halted ->
  (forall c, codes k !! currentThread k <> Some (IHalt :: c)) ->
  threads k !! t = Some th -> IListLoop sl ∈ code th -> lists k !! sl = Some L ->
  items L = [] /\ exists wq w, conds k !! cd = Some wq /\ w ∈ wq /\ waits w (code th) = true.
Proof.
  intros HF Hr Hs Hh Ht Hl HL. destruct (reachable_list k HF Hr) as (G & LI & W & Hca & _ & I).
  destruct (halted_stuck prog prog_plain k G Hs) as [[c Hc]|(_ & _ & Hst)]; [by apply Hh in Hc|].
  apply (stuck_empty k G I W Hca LI Hst) with t; try done.
  - intros w c Hc. pose proof Hc as Hx. rewrite lookup_fmap in Hx.
    destruct (threads k !! currentThread k) as [tc|] eqn:Htc; [|done]. injection Hx as Hx.
    destruct (Hst _ _ Htc) as [[_ E]|(x & sm & Hsm & Hin)]; [congruence|].
    destruct (inv_queue G x sm _ Hsm Hin) as (d & Hd & Hwt). rewrite Hc in Hd. injection Hd as <-. done.
  - apply num_pos. exists (IListLoop sl). split; [done|]. simpl. by rewrite bool_decide_true.
Qed.

End claims.

End list.

(** ** A small system *)

(** One thread removes three items from a list, another appends two; the timer switches
    threads once. *)
Module SmallList.

Definition prog (f : nat) : list instr :=
  match f with 0%nat => [ISynchAppend 0 7; ISynchAppend 0 8] | _ => [] end.

Definition main : list instr :=
  [IFork 0; ISynchRemoveFront 0; ISynchRemoveFront 0; ISynchRemoveFront 0].
Definition sems0 : gmap nat Semaphore := {[ 0%nat := mkSem 1 [] ]}.
Definition locks0 : gmap nat Lock := {[ 0%nat := mkLock 0 None ]}.
Definition conds0 : gmap nat (list nat) := {[ 0%nat := [] ]}.
Definition lists0 : gmap nat SynchList := {[ 0%nat := mkSynchList [] [] 0 0 ]}.
Definition ticks0 : list tick := [mkTick [] false; mkTick [] false; mkTick [] true].

Definition boot : Kernel := Initialize main sems0 locks0 conds0 lists0 1 ticks0 [].

Definition at_step (n : nat) : Kernel := match run prog n boot with Ret k => k | _ => boot end.

Lemma run_reached n : reachable prog boot (at_step n).
Proof.
  unfold at_step. destruct (run _ _ _) eqn:H; try constructor.
  eapply run_reachable; [constructor|done].
Qed.

Lemma clients_plain f : plain IntOn (prog f ++ [IFinish]) = true.
Proof. by destruct f. Qed.

Lemma list_objects : fresh_objects sems0 conds0 1.
Proof.
  split.
  - intros s sm. unfold sems0. intros [<- <-]%lookup_singleton_Some. simpl. split_and!; done || lia.
  - intros cd wq. unfold conds0. by intros [<- <-]%lookup_singleton_Some.
Qed.

Lemma no_handlers tk s : tk ∈ ticks0 -> s ∉ handlers tk.
Proof.
  unfold ticks0. intros Htk. rewrite !elem_of_cons in Htk. destruct Htk as [->|[->|[->|Htk]]]; set_solver.
Qed.

Lemma fresh : fresh_list 0 0 0 0 1 prog main sems0 locks0 conds0 lists0 ticks0 [].
Proof.
  split; try reflexivity; [split; try reflexivity|split; try reflexivity|..].
  - intros x lk Hn. unfold locks0. intros [<- _]%lookup_singleton_Some. done.
  - by intros [|f].
  - intros tk. apply no_handlers.
  - intros hs Hhs. set_solver.
  - by intros [|f].
  - unfold locks0. intros x lk [_ <-]%lookup_singleton_Some. simpl. lia.
  - intros tk s Htk Hs. by apply no_handlers in Hs.
  - intros hs s Hhs. set_solver.
  - intros x L Hn. unfold lists0. intros [<- _]%lookup_singleton_Some. done.
  - by intros [|f].
Qed.

End SmallList.

Lemma synchlist_exclusive_witness :
  lists (SmallList.at_step 44) !! 0%nat = Some (mkSynchList [7] [] 0 0) /\ holds (SmallList.at_step 44) 0.
Proof.
  assert (HL : lists (SmallList.at_step 44) !! 0%nat = Some (mkSynchList [7] [] 0 0)) by (vm_compute; reflexivity).
  split; [exact HL|].
  destruct (synchlist_exclusive 0 0 0 0 1 SmallList.prog SmallList.main SmallList.sems0 SmallList.locks0
    SmallList.conds0 SmallList.lists0 SmallList.ticks0 [] SmallList.clients_plain eq_refl SmallList.list_objects
    (SmallList.at_step 44) _ SmallList.fresh (SmallList.run_reached 44) HL) as [_ H].
  destruct (H (SmallList.at_step 45)) as [E|[Hh _]]; [vm_compute; reflexivity| |exact Hh].
  exfalso. vm_compute in E. discriminate.
Defined.

(** The events of a run of [n] steps. *)
Fixpoint run_events (n : nat) (k : Kernel) : list event :=
  match n with
  | O => []
  | S n => match step SmallList.prog k with Ret k1 => events 0 k ++ run_events n k1 | _ => [] end
  end.

Lemma run_history n : forall h k k1 k2, history 0 SmallList.prog h k k1 -> run SmallList.prog n k1 = Ret k2 ->
  history 0 SmallList.prog (h ++ run_events n k1) k k2.
Proof.
  induction n as [|n IH]; intros h k k1 k2 H; simpl.
  - intros [= <-]. by rewrite app_nil_r.
  - intros (k3 & H3 & Hr)%rbind_eq_Ret. rewrite H3, app_assoc. apply IH; [by eapply hist_step|done].
Qed.

Lemma synchlist_fifo_witness : exists L', lists (SmallList.at_step 87) !! 0%nat = Some L' /\
  returned L' ++ items L' = [7; 8] /\ called_by 1 (run_events 87 SmallList.boot) = [7; 8].
Proof.
  assert (Hrun : history 0 SmallList.prog ([] ++ run_events 87 SmallList.boot) SmallList.boot (SmallList.at_step 87)).
  { apply run_history; [constructor|vm_compute; reflexivity]. }
  destruct (synchlist_fifo 0 0 0 0 1 SmallList.prog SmallList.main SmallList.sems0 SmallList.locks0
    SmallList.conds0 SmallList.lists0 SmallList.ticks0 [] SmallList.clients_plain eq_refl SmallList.list_objects
    ([] ++ run_events 87 SmallList.boot) SmallList.boot (SmallList.at_step 87) (mkSynchList [] [] 0 0) SmallList.fresh)
    as [(L' & HL' & HI & _) _].
  - apply reach_refl.
  - exact Hrun.
  - vm_compute. reflexivity.
  - exists L'. split; [exact HL'|]. split; [rewrite HI; vm_compute; reflexivity|vm_compute; reflexivity].
Defined.

Lemma stuck_consumers_witness :
  step SmallList.prog (SmallList.at_step 87) = Halted /\ items (mkSynchList [] [7; 8] 0 0) = [].
Proof.
  assert (Hs : step SmallList.prog (SmallList.at_step 87) = Halted) by (vm_compute; reflexivity).
  split; [exact Hs|].
  edestruct (stuck_consumers 0 0 0 0 1 SmallList.prog SmallList.main SmallList.sems0 SmallList.locks0
    SmallList.conds0 SmallList.lists0 SmallList.ticks0 [] SmallList.clients_plain eq_refl SmallList.list_objects
    (SmallList.at_step 87) 0%nat) as [H _]; [apply SmallList.fresh|apply SmallList.run_reached|exact Hs|..|exact H].
  - intros c. vm_compute. discriminate.
  - vm_compute. reflexivity.
  - do 4 right. left.
  - vm_compute. reflexivity.
Defined.
