(* ===== verification/Main.v ===== *)
(** * The command line and the file commands

    threads/main.cc and the constructor of threads/kernel.cc: both read the command line,
    each for its own options.  [Copy] and [Print] of main.cc move files between the host
    and the Nachos disk; the file commands run in a fixed order, whatever the order of the
    options.  The tests that [-K], [-C] and [-N] run, and the user program of [-x], are not
    part of this file.  Texts that are only printed (usage, copyright) are left out. *)

From S2P Require Import Prelude CString AddrSpace Bitmap Host Disk FileHdr OpenFile PBitmap Directory FileSys.
From Stdlib Require Import QArith.
From Stdlib Require Strings.String.
Local Open Scope Z_scope.

(** The characters of a literal. *)
Definition lit (s : string) : list byte := Strings.String.list_byte_of_string s.

Definition newline : list byte := [byte.of_Z 10].

(** ** atoi *)

Definition is_space (c : byte) : bool :=
  let z := byte.unsigned c in (z =? 32) || ((9 <=? z) && (z <=? 13)).
Definition is_digit (c : byte) : bool :=
  let z := byte.unsigned c in (48 <=? z) && (z <=? 57).

Fixpoint skip_spaces (s : list byte) : list byte :=
  match s with c :: s' => if is_space c then skip_spaces s' else s | [] => [] end.

(** The number at the start of the string. *)
Fixpoint digits (acc : Z) (s : list byte) : Z :=
  match s with
  | c :: s' => if is_digit c then digits (10 * acc + (byte.unsigned c - 48)) s' else acc
  | [] => acc
  end.

(** Undefined when the value is no [int]. *)
Definition atoi (a : list byte) : result Z :=
  let* s := c_str a in
  let s := skip_spaces s in
  let n := match s with
           | c :: s' => if byte.unsigned c =? 45 then - digits 0 s'
                        else if byte.unsigned c =? 43 then digits 0 s' else digits 0 s
           | [] => 0
           end in
  if (- 2 ^ 31 <=? n) && (n <? 2 ^ 31) then Ret n else Fault.

(** ** Options *)

(** The variables of [main]; names are the arguments themselves. *)
Record MainOptions : Type := mkMain {
  debugArg : option (list byte);
  userProgName : option (list byte);
  threadTestFlag : bool;
  consoleTestFlag : bool;
  networkTestFlag : bool;
  copyFileNames : option (list byte * list byte);
  printFileName : option (list byte);
  removeFileName : option (list byte);
  dirListFlag : bool;
  dumpFlag : bool
}.

Definition no_options : MainOptions := mkMain None None false false false None None None false false.

(** The loop of [main] over the rest of [argv]; an option takes its argument with it. *)
Fixpoint main_loop (argv : list (list byte)) (o : MainOptions) : result MainOptions :=
  match argv with
  | [] => Ret o
  | a :: rest =>
      let* s := c_str a in
      let opt x := bool_decide (s = lit x) in
      let 'mkMain dbg prog kt ct nt cp pr rm ls du := o in
      if opt "-d" then
        match rest with v :: rest => main_loop rest (mkMain (Some v) prog kt ct nt cp pr rm ls du) | [] => AssertFail end
      else if opt "-z" then main_loop rest o
      else if opt "-x" then
        match rest with v :: rest => main_loop rest (mkMain dbg (Some v) kt ct nt cp pr rm ls du) | [] => AssertFail end
      else if opt "-K" then main_loop rest (mkMain dbg prog true ct nt cp pr rm ls du)
      else if opt "-C" then main_loop rest (mkMain dbg prog kt true nt cp pr rm ls du)
      else if opt "-N" then main_loop rest (mkMain dbg prog kt ct true cp pr rm ls du)
      else if opt "-cp" then
        match rest with
        | u :: n :: rest => main_loop rest (mkMain dbg prog kt ct nt (Some (u, n)) pr rm ls du)
        | _ => AssertFail
        end
      else if opt "-p" then
        match rest with v :: rest => main_loop rest (mkMain dbg prog kt ct nt cp (Some v) rm ls du) | [] => AssertFail end
      else if opt "-r" then
        match rest with v :: rest => main_loop rest (mkMain dbg prog kt ct nt cp pr (Some v) ls du) | [] => AssertFail end
      else if opt "-l" then main_loop rest (mkMain dbg prog kt ct nt cp pr rm true du)
      else if opt "-D" then main_loop rest (mkMain dbg prog kt ct nt cp pr rm ls true)
      else main_loop rest o
  end.

Definition main_options (argv : list (list byte)) : result MainOptions := main_loop (tail argv) no_options.

Record KernelOptions : Type := mkKernelOptions {
  randomSlice : bool;
  seed : option Z;                  (* the argument of [RandomInit] *)
  debugUserProg : bool;
  consoleIn : option (list byte);
  consoleOut : option (list byte);
  formatFlag : bool;
  reliability : Q;
  hostName : Z
}.

Definition default_options : KernelOptions := mkKernelOptions false None false None None false 1 0.

Section kernel.
(** The conversion of a decimal text to a floating point number. *)
Context (atof : list byte -> Q).

(** The loop of [Kernel::Kernel]. *)
Fixpoint kernel_loop (argv : list (list byte)) (o : KernelOptions) : result KernelOptions :=
  match argv with
  | [] => Ret o
  | a :: rest =>
      let* s := c_str a in
      let opt x := bool_decide (s = lit x) in
      let 'mkKernelOptions rs sd dp ci co fm rl hn := o in
      if opt "-rs" then
        match rest with
        | v :: rest => let* n := atoi v in kernel_loop rest (mkKernelOptions true (Some (u32 n)) dp ci co fm rl hn)
        | [] => AssertFail
        end
      else if opt "-s" then kernel_loop rest (mkKernelOptions rs sd true ci co fm rl hn)
      else if opt "-ci" then
        match rest with v :: rest => kernel_loop rest (mkKernelOptions rs sd dp (Some v) co fm rl hn) | [] => AssertFail end
      else if opt "-co" then
        match rest with v :: rest => kernel_loop rest (mkKernelOptions rs sd dp ci (Some v) fm rl hn) | [] => AssertFail end
      else if opt "-f" then kernel_loop rest (mkKernelOptions rs sd dp ci co true rl hn)
      else if opt "-n" then
        match rest with v :: rest => kernel_loop rest (mkKernelOptions rs sd dp ci co fm (atof v) hn) | [] => AssertFail end
      else if opt "-m" then
        match rest with
        | v :: rest => let* n := atoi v in kernel_loop rest (mkKernelOptions rs sd dp ci co fm rl n)
        | [] => AssertFail
        end
      else kernel_loop rest o
  end.

Definition new_Kernel (argv : list (list byte)) : result KernelOptions := kernel_loop (tail argv) default_options.
End kernel.

(** ** The file commands *)

Definition TransferSize : Z := 128.

(** What is printed: text, the names of [List], or the dump of [FileSystem::Print]. *)
Inductive output : Type :=
  | Text (s : list byte)
  | Names (l : list (list byte))
  | Dump.

Section files.
Context {H : Type} `{HostOS H} {D : Type} `{BlockDevice D}.
Variables (garbage : nat -> byte) (g_words : nat -> Z) (g_entries : nat -> DirectoryEntry) (g_hdr : FileHeader).

(** The loop of [Copy]: read a piece of the UNIX file, write it to the Nachos file. *)
Fixpoint copy_loop (fuel : nat) (h : H) (fd : Z) (dv : D) (f : OpenFile) : result (H * D * OpenFile) :=
  match fuel with
  | O => NoFuel
  | S fuel =>
      let* (h, (amountRead, buffer)) := ReadPartial h fd TransferSize in
      if amountRead >? 0 then
        let* (dv, f, _) := OpenFile.Write garbage dv f buffer amountRead in
        copy_loop fuel h fd dv f
      else Ret (h, dv, f)
  end.

(** The UNIX files are those of [h]; the file that holds the Nachos disk is the device's. *)
Definition Copy (fuel : nat) (h : H) (fs : FileSystem D) (from to : list byte) : result (H * FileSystem D * list output) :=
  let* unixName := c_str from in
  let* (h, fd) := OpenForReadWrite h unixName false in
  if fd <? 0 then Ret (h, fs, [Text (lit "Copy: couldn't open input file " ++ unixName ++ newline)]) else
  let* h := Lseek h fd 0 SEEK_END in
  let (h, fileLength) := Tell h fd in
  let* h := Lseek h fd 0 SEEK_SET in
  let* (ok, fs) := Create garbage g_words g_entries g_hdr fs to fileLength in
  if negb ok then
    let* nachosName := c_str to in
    let* (h, _) := Close h fd in
    Ret (h, fs, [Text (lit "Copy: couldn't create output file " ++ nachosName ++ newline)])
  else
    let* (fs, openFile) := Open garbage g_entries fs to in
    match openFile with
    | None => AssertFail
    | Some f =>
        let* (h, dv, _) := copy_loop fuel h fd (dev fs) f in
        let* (h, _) := Close h fd in
        Ret (h, mkFS dv (freeMapFile fs) (directoryFile fs), [])
    end.

(** The loop of [Print]. *)
Fixpoint print_loop (fuel : nat) (dv : D) (f : OpenFile) (out : list byte) : result (D * list byte) :=
  match fuel with
  | O => NoFuel
  | S fuel =>
      let* (dv, f, (amountRead, buffer)) := OpenFile.Read garbage dv f TransferSize in
      if amountRead >? 0 then print_loop fuel dv f (out ++ take (Z.to_nat amountRead) buffer)
      else Ret (dv, out)
  end.

Definition Print (fuel : nat) (fs : FileSystem D) (name : list byte) : result (FileSystem D * list output) :=
  let* (fs, openFile) := Open garbage g_entries fs name in
  match openFile with
  | None =>
      let* s := c_str name in
      Ret (fs, [Text (lit "Print: unable to open file " ++ s ++ newline)])
  | Some f =>
      let* (dv, out) := print_loop fuel (dev fs) f [] in
      Ret (mkFS dv (freeMapFile fs) (directoryFile fs), [Text out])
  end.

(** The part of [main] after the tests, up to the user program. *)
Definition file_commands (fuel : nat) (o : MainOptions) (h : H) (fs : FileSystem D)
    : result (H * FileSystem D * list output) :=
  let* fs :=
    match removeFileName o with
    | Some name => let* (_, fs) := FileSys.Remove garbage g_words g_entries fs name in Ret fs
    | None => Ret fs
    end in
  let* (h, fs, out1) :=
    match copyFileNames o with
    | Some (from, to) => Copy fuel h fs from to
    | None => Ret (h, fs, [])
    end in
  let* (fs, out2) :=
    if dumpFlag o then
      let* (fs, _) := FileSys.Print garbage g_words g_entries fs in Ret (fs, [Dump])
    else Ret (fs, []) in
  let* (fs, out3) :=
    if dirListFlag o then
      let* (fs, names) := FileSys.List garbage g_entries fs in Ret (fs, [Names names])
    else Ret (fs, []) in
  let* (fs, out4) :=
    match printFileName o with
    | Some name => Print fuel fs name
    | None => Ret (fs, [])
    end in
  Ret (h, fs, out1 ++ out2 ++ out3 ++ out4).

End files.

(** ** Copying and printing *)

Section copying.
Context {H : Type} `{RegularFile H} {D : Type} `{BlockDevice D}.
Context (garbage : nat -> byte).

Lemma copy_loop_S fuel (h : H) fd (dv : D) f : copy_loop garbage (S fuel) h fd dv f =
  (let* (h, (amountRead, buffer)) := ReadPartial h fd TransferSize in
   if amountRead >? 0 then
     let* (dv, f, _) := OpenFile.Write garbage dv f buffer amountRead in copy_loop garbage fuel h fd dv f
   else Ret (h, dv, f)).
Proof. done. Qed.

Lemma print_loop_S fuel (dv : D) f out : print_loop garbage (S fuel) dv f out =
  (let* (dv, f, (amountRead, buffer)) := OpenFile.Read garbage dv f TransferSize in
   if amountRead >? 0 then print_loop garbage fuel dv f (out ++ take (Z.to_nat amountRead) buffer)
   else Ret (dv, out)).
Proof. done. Qed.

Lemma take_drop_length {A} n (l : list A) : take n l ++ drop (length (take n l)) l = l.
Proof.
  rewrite length_take. destruct (decide (n <= length l)%nat).
  - rewrite Nat.min_l by done. apply take_drop.
  - rewrite Nat.min_r, take_ge, drop_ge by lia. apply app_nil_r.
Qed.

(** [n] more pieces are enough for the rest of the file. *)
Lemma copy_loop_spec n : forall (h : H) (dv : D) p fd data hd, at_file h fd data p -> 0 <= p <= Z.of_nat (length data) ->
  bd_wf dv -> wf_hdr hd -> numBytes hd = Z.of_nat (length data) -> numBytes hd <= MaxFileSize ->
  Z.of_nat (length data) - p <= TransferSize * Z.of_nat n ->
  exists h' dv' f', copy_loop garbage (S n) h fd dv (mkOpenFile hd p) = Ret (h', dv', f') /\
    (exists p', at_file h' fd data p') /\ bd_wf dv' /\
    file_bytes dv' hd = take (Z.to_nat p) (file_bytes dv hd) ++ drop (Z.to_nat p) data /\
    forall j, 0 <= j < NumSectors -> j ∉ sectors_of hd -> bd_sector dv' j = bd_sector dv j.
Proof.
  assert (HM : MaxFileSize = 3840) by reflexivity. assert (HT : TransferSize = 128) by reflexivity.
  induction n as [|n IH]; intros h dv p fd data hd Hat Hp Hd Hh Hlen Hmax Hn;
    pose proof (file_bytes_length dv hd Hd Hh) as Hold; rewrite copy_loop_S; unfold ReadPartial;
    destruct (read_law h fd data p TransferSize Hat ltac:(lia) ltac:(done)) as (h1 & -> & Hat1);
    rewrite rbind_Ret; set (buf := take _ _) in *;
    assert (Hbuf : Z.of_nat (length buf) = Z.min TransferSize (Z.of_nat (length data) - p))
      by (subst buf; rewrite length_take, length_drop; lia).
  - rewrite Z.gtb_ltb, (proj2 (Z.ltb_ge _ _)) by lia. eexists _, _, _. split; [done|].
    split; [eauto|]. split; [done|]. split; [|done]. rewrite take_ge, drop_ge by lia. by rewrite app_nil_r.
  - destruct (Z.gtb_spec (Z.of_nat (length buf)) 0) as [Hpos|Hz].
    + unfold Write. cbn [seekPosition hdr].
      destruct (WriteAt_spec garbage dv (mkOpenFile hd p) buf (Z.of_nat (length buf)) p Hd Hh)
        as (dv1 & HW & Hd1 & Hf & Hout); cbn [hdr] in *; try lia.
      rewrite Z.min_l in HW, Hf by lia. rewrite HW, !rbind_Ret.
      destruct (IH h1 dv1 (p + Z.of_nat (length buf)) fd data hd Hat1) as (h2 & dv2 & f2 & Hc & Hat2 & Hd2 & Hf2 & Hout2);
        try done; try lia.
      rewrite Hc. eexists _, _, _. split; [done|]. split; [done|]. split; [done|]. split.
      * rewrite Hf2, Hf, (take_ge buf) by lia. rewrite (app_assoc (take _ _) buf).
        rewrite take_app_length' by (rewrite length_app, length_take; lia).
        rewrite <- app_assoc. f_equal. rewrite Z2Nat.inj_add, Nat2Z.id by lia. subst buf.
        rewrite <- drop_drop. apply take_drop_length.
      * intros j Hj Hnj. by rewrite Hout2, Hout.
    + eexists _, _, _. split; [done|]. split; [eauto|]. split; [done|]. split; [|done].
      rewrite take_ge, drop_ge by lia. by rewrite app_nil_r.
Qed.

Lemma print_pieces n : forall (dv : D) p hd out, bd_wf dv -> wf_hdr hd -> 0 <= p <= numBytes hd ->
  numBytes hd <= MaxFileSize -> numBytes hd - p <= TransferSize * Z.of_nat n ->
  exists dv', print_loop garbage (S n) dv (mkOpenFile hd p) out = Ret (dv', out ++ drop (Z.to_nat p) (file_bytes dv hd)) /\
    bd_wf dv' /\ forall j, bd_sector dv' j = bd_sector dv j.
Proof.
  assert (HM : MaxFileSize = 3840) by reflexivity.
  induction n as [|n IH]; intros dv p hd out Hd Hh Hp Hmax Hn;
    pose proof (file_bytes_length dv hd Hd Hh) as Hlen; rewrite print_loop_S; unfold OpenFile.Read; cbn [seekPosition hdr].
  - rewrite ReadAt_empty by (right; cbn [hdr]; lia). rewrite !rbind_Ret. change (0 >? 0) with false.
    exists dv. rewrite drop_ge by lia. by rewrite app_nil_r.
  - destruct (decide (p < numBytes hd)) as [Hlt|Hge].
    + destruct (ReadAt_spec garbage dv (mkOpenFile hd p) TransferSize p Hd Hh) as (dv1 & HR & Hd1 & Hs1);
        cbn [hdr] in *; unfold TransferSize in *; try lia.
      rewrite HR, !rbind_Ret. set (m := Z.min 128 (numBytes hd - p)) in *.
      rewrite Z.gtb_ltb, (proj2 (Z.ltb_lt 0 m)) by lia.
      destruct (IH dv1 (p + m) hd (out ++ take (Z.to_nat m) (take (Z.to_nat m) (drop (Z.to_nat p) (file_bytes dv hd)))))
        as (dv2 & Hpr & Hd2 & Hs2); try done; try lia.
      exists dv2. rewrite Hpr. split; [|split; [done|intros j; by rewrite Hs2, Hs1]].
      rewrite (file_bytes_agree dv dv1) by (intros; apply Hs1). rewrite take_take, Nat.min_id, <- app_assoc.
      do 3 f_equal. rewrite Z2Nat.inj_add by lia. rewrite <- drop_drop. by rewrite take_drop.
    + rewrite ReadAt_empty by (right; cbn [hdr]; lia). rewrite !rbind_Ret. change (0 >? 0) with false.
      exists dv. rewrite drop_ge by lia. by rewrite app_nil_r.
Qed.

Context (g_words : nat -> Z) (g_entries : nat -> DirectoryEntry) (g_hdr : FileHeader).
Hypothesis G : garbage_ok g_entries g_hdr.

(** How many pieces a file has, at most. *)
Definition pieces : nat := 31.

Lemma MaxFileSize_pieces : MaxFileSize <= TransferSize * Z.of_nat 30.
Proof. by vm_compute. Qed.

Lemma Print_spec (fs : FileSystem D) b d files name s hd : fs_inv fs b d files -> is_cstring name ->
  files !! key name = Some (s, hd) -> numBytes hd <= MaxFileSize ->
  exists fs', Print garbage g_entries pieces fs name = Ret (fs', [Text (file_bytes (dev fs) hd)]) /\
    fs_inv fs' b d files /\ forall j, bd_sector (dev fs') j = bd_sector (dev fs) j.
Proof.
  intros Hi Hnm Hk Hmax. destruct G as [Hge Hgl Hg32].
  destruct (Open_spec garbage g_entries g_hdr Hge Hgl Hg32 fs b d files name Hi Hnm) as (fs1 & HO & Hi1 & Hs1).
  rewrite Hk in HO. destruct (fi_files _ _ _ _ Hi1 _ _ _ Hk) as [Hh _].
  unfold Print. rewrite HO, rbind_Ret. cbn [fmap option_fmap option_map snd].
  pose proof (wfh_bytes hd Hh). pose proof MaxFileSize_pieces.
  destruct (print_pieces 30 (dev fs1) 0 hd [] (fi_dev _ _ _ _ Hi1) Hh) as (dv & HP & Hd & Hs); try lia.
  unfold pieces. rewrite HP, rbind_Ret. simpl. rewrite drop_0. eexists. split; [|split].
  - by rewrite (file_bytes_agree (dev fs)) by (intros; apply Hs1).
  - by apply fs_inv_read.
  - intros j. simpl. by rewrite Hs, Hs1.
Qed.

(** [Copy] of a UNIX file for which there is room. *)
Lemma Copy_spec (h h1 : H) (fs : FileSystem D) b d files from nm to fd data :
  fs_inv fs b d files -> holds_str from nm -> is_cstring to ->
  os_open h nm true false = (h1, fd) -> 0 <= fd -> at_file h1 fd data 0 ->
  (forall h' d p, at_file h' fd d p -> 0 <= (os_close h' fd).2) ->
  Z.of_nat (length data) <= MaxFileSize -> can_create b d files to (Z.of_nat (length data)) ->
  exists h' fs' b' d' s hd, Copy garbage g_words g_entries g_hdr pieces h fs from to = Ret (h', fs', []) /\
    fs_inv fs' b' d' (<[key to := (s, hd)]> files) /\ numBytes hd = Z.of_nat (length data) /\
    file_bytes (dev fs') hd = data /\
    forall k' s' hd', files !! k' = Some (s', hd') -> file_bytes (dev fs') hd' = file_bytes (dev fs) hd'.
Proof.
  intros Hi Hfrom Hto Hopen Hfd Hat Hclose Hmax Hcan. destruct G as [Hge Hgl Hg32].
  unfold Copy. rewrite (c_str_holds _ _ Hfrom), rbind_Ret. unfold OpenForReadWrite. rewrite Hopen, ASSERT_true, !rbind_Ret by done.
  rewrite (proj2 (Z.ltb_ge fd 0)) by done. unfold Lseek at 1.
  destruct (lseek_end_law h1 fd data 0 Hat) as (h2 & -> & Hat2).
  rewrite ASSERT_true, !rbind_Ret by (rewrite Z.geb_leb; apply Z.leb_le; lia).
  unfold Tell. destruct (lseek_cur_law h2 fd data _ Hat2 ltac:(lia)) as (h3 & -> & Hat3). unfold Lseek.
  destruct (lseek_law h3 fd data _ 0 Hat3 ltac:(lia)) as (h4 & -> & Hat4). rewrite ASSERT_true, !rbind_Ret by done.
  destruct (Create_spec garbage g_words g_entries g_hdr Hge Hgl Hg32 fs b d files to (Z.of_nat (length data)) Hi Hto ltac:(lia))
    as [(_ & fs1 & b' & d' & s & hd & -> & Hi1 & Hnb & Hold)|[Hno _]]; [|done].
  rewrite rbind_Ret. cbn [negb].
  destruct (Open_spec garbage g_entries g_hdr Hge Hgl Hg32 fs1 b' d' _ to Hi1 Hto) as (fs2 & -> & Hi2 & Hs2).
  rewrite lookup_insert_eq, rbind_Ret. cbn [fmap option_fmap option_map snd].
  destruct (fi_files _ _ _ _ Hi2 _ _ _ (lookup_insert_eq _ _ _)) as [Hh _]. pose proof MaxFileSize_pieces.
  destruct (copy_loop_spec 30 h4 (dev fs2) 0 fd data hd Hat4) as (h5 & dv & f5 & HC & [p5 Hat5] & Hd5 & Hf5 & Hout);
    try done; try lia; [by apply (fi_dev _ _ _ _ Hi2)|].
  unfold pieces. rewrite HC, rbind_Ret. unfold Close. pose proof (Hclose h5 data p5 Hat5) as Hcl.
  destruct (os_close h5 fd) as [h6 r]. cbn [snd] in Hcl. rewrite ASSERT_true, !rbind_Ret by (rewrite Z.geb_leb; by apply Z.leb_le).
  destruct (fs_inv_data fs2 b' d' _ (key to) s hd dv Hi2 (lookup_insert_eq _ _ _) Hd5 Hout) as [Hi3 Hothers].
  eexists _, _, b', d', s, hd. split; [done|]. split; [done|]. split; [done|]. split.
  - simpl. rewrite Hf5. by rewrite take_0, drop_0.
  - intros k' s' hd' Hk'. simpl. rewrite (Hothers k' s' hd').
    + rewrite (file_bytes_agree (dev fs1)) by (intros; apply Hs2). by apply Hold with k' s'.
    + intros ->. destruct Hcan as [Hn _]. congruence.
    + rewrite lookup_insert_ne; [done|]. intros <-. destruct Hcan as [Hn _]. congruence.
Qed.

End copying.

(** C11: The file commands of [main] copy and print faithfully: with options that copy a
    UNIX file to a new Nachos file for which there is room, and print that Nachos file,
    the output is exactly the contents of the UNIX file, of any length up to the largest
    file; the file system keeps its invariant with the new file in it, and the contents of
    all other files stay.  The pieces of [TransferSize] bytes that the loops take are at
    most thirty. *)
Theorem copy_then_print {H} `{RegularFile H} {D} `{BlockDevice D} (garbage : nat -> byte) (g_words : nat -> Z)
    (g_entries : nat -> DirectoryEntry) (g_hdr : FileHeader) (h h1 : H) (fs : FileSystem D) b d files o from nm to fd data :
  garbage_ok g_entries g_hdr -> fs_inv fs b d files -> holds_str from nm -> is_cstring to ->
  os_open h nm true false = (h1, fd) -> 0 <= fd -> at_file h1 fd data 0 ->
  (forall h' d p, at_file h' fd d p -> 0 <= (os_close h' fd).2) ->
  Z.of_nat (length data) <= MaxFileSize -> can_create b d files to (Z.of_nat (length data)) ->
  copyFileNames o = Some (from, to) -> printFileName o = Some to -> removeFileName o = None ->
  dumpFlag o = false -> dirListFlag o = false ->
  exists h' fs' b' d' s hd,
    file_commands garbage g_words g_entries g_hdr pieces o h fs = Ret (h', fs', [Text data]) /\
    fs_inv fs' b' d' (<[key to := (s, hd)]> files) /\ file_bytes (dev fs') hd = data /\
    forall k' s' hd', files !! k' = Some (s', hd') -> file_bytes (dev fs') hd' = file_bytes (dev fs) hd'.
Proof.
  intros G Hi Hfrom Hto Hopen Hfd Hat Hcl Hmax Hcan Ec Ep Er Ed El.
  destruct (Copy_spec garbage g_words g_entries g_hdr G h h1 fs b d files from nm to fd data)
    as (h' & fs1 & b' & d' & s & hd & HC & Hi1 & Hn & Hf & Hothers); try done.
  destruct (Print_spec garbage g_entries g_hdr G fs1 b' d' _ to s hd Hi1 Hto (lookup_insert_eq _ _ _))
    as (fs2 & HP & Hi2 & Hs2); [lia|].
  exists h', fs2, b', d', s, hd. unfold file_commands. rewrite Er, rbind_Ret, Ec, HC, rbind_Ret, Ed, rbind_Ret, El, rbind_Ret, Ep.
  rewrite HP, rbind_Ret, Hf. split; [done|]. split; [done|].
  split; [by rewrite (file_bytes_agree (dev fs1)) by (intros; apply Hs2)|].
  intros k' s' hd' Hk'. rewrite (file_bytes_agree (dev fs1)) by (intros; apply Hs2). by apply Hothers with k' s'.
Qed.

(** ** Options *)

(** An argument that is no option: it does not begin with a hyphen. *)
Definition plain_arg (a : list byte) : Prop := exists s, holds_str a s /\ head s <> Some (byte.of_Z 45).

Lemma plain_not_option s x : head s <> Some (byte.of_Z 45) -> head (lit x) = Some (byte.of_Z 45) ->
  bool_decide (s = lit x) = false.
Proof. intros Hs Hx. apply bool_decide_eq_false. by intros ->. Qed.

(** The kernel passes over what is no option of its own. *)
Lemma kernel_skips atof a rest o : plain_arg a -> kernel_loop atof (a :: rest) o = kernel_loop atof rest o.
Proof.
  intros (s & Ha & Hs). cbn [kernel_loop]. rewrite (c_str_holds _ _ Ha), rbind_Ret. destruct o.
  by rewrite !plain_not_option by done.
Qed.

Definition arg (x : string) : list byte := lit x ++ [NUL].

(** The command line that formats the disk, copies a file and prints the copy: both loops
    understand it, in either order of the two commands. *)
Theorem copy_print_options atof name u n : plain_arg u -> plain_arg n ->
  forall argv, argv = [name; arg "-f"; arg "-cp"; u; n; arg "-p"; n] \/ argv = [name; arg "-p"; n; arg "-cp"; u; n; arg "-f"] ->
  main_options argv = Ret (mkMain None None false false false (Some (u, n)) (Some n) None false false) /\
  new_Kernel atof argv = Ret (mkKernelOptions false None false None None true 1 0).
Proof.
  intros Hu Hn argv [-> | ->]; (split; [done|]); unfold new_Kernel; cbn [tail].
  - transitivity (kernel_loop atof [u; n; arg "-p"; n] (mkKernelOptions false None false None None true 1 0)); [done|].
    rewrite 2!kernel_skips by done.
    transitivity (kernel_loop atof [n] (mkKernelOptions false None false None None true 1 0)); [done|].
    by rewrite kernel_skips.
  - transitivity (kernel_loop atof [n; arg "-cp"; u; n; arg "-f"] default_options); [done|]. rewrite kernel_skips by done.
    transitivity (kernel_loop atof [u; n; arg "-f"] default_options); [done|]. by rewrite 2!kernel_skips by done.
Qed.

(** An argument of an option of [main] that looks like an option of the kernel is read
    twice: to remove a file named [-f] formats the disk first. *)
Theorem argument_read_twice atof name :
  main_options [name; arg "-r"; arg "-f"] = Ret (mkMain None None false false false None None (Some (arg "-f")) false false) /\
  (let* o := new_Kernel atof [name; arg "-r"; arg "-f"] in Ret (formatFlag o)) = Ret true.
Proof. done. Qed.

(** ** The commands on a blank disk *)

Definition unix_file : list byte := replicate 200 (byte.of_Z 66).
Definition unix_host : ProgHost := mkProgHost {[ 3 := (unix_file, 0) ]}.
Definition unix_name : list byte := arg "notes".

Lemma unix_name_holds : holds_str unix_name (lit "notes").
Proof. split; [vm_compute; set_solver|by exists []]. Qed.

Definition copy_print : MainOptions :=
  mkMain None None false false false (Some (unix_name, sample_name)) (Some sample_name) None false false.

Lemma copy_then_print_witness :
  exists (fs fs' : FileSystem (SynchDisk ToyHost)) (h' : ProgHost),
    new_FileSystem zero_garbage zero_words blank_entries blank_header sample_synchdisk true = Ret fs /\
    file_commands zero_garbage zero_words blank_entries blank_header pieces copy_print unix_host fs =
      Ret (h', fs', [Text unix_file]).
Proof.
  destruct sample_fs as (fs & b & d & Hf & Hi & Hcan).
  destruct (copy_then_print zero_garbage zero_words blank_entries blank_header unix_host unix_host fs b d ∅
    copy_print unix_name (lit "notes") sample_name 3 unix_file blank_garbage Hi unix_name_holds sample_name_cstring)
    as (h' & fs' & _ & _ & _ & _ & HC & _); try reflexivity; try lia.
  - intros h' e p Hat. unfold at_file in Hat. simpl in Hat. simpl. rewrite Hat. simpl. lia.
  - vm_compute. discriminate.
  - exact Hcan.
  - exists fs, fs', h'. split; [exact Hf|exact HC].
Defined.
