(* ===== verification/Network.v ===== *)
(** * The network device

    Model of machine/network.cc and of the socket wrappers of lib/sysdep.cc: packets
    of a fixed size that one machine puts into the socket of another, and the device
    that polls its own socket.  The sockets of the host are a parameter; the class
    [Datagrams] says what UNIX datagram sockets promise.  The interrupts that the
    device schedules for itself are flags, as for the console.

    The chance that a packet gets through is a [double] in the code and a rational
    number here. *)

From Stdlib Require Import QArith.
From S2P Require Import Prelude Host Syscalls.
#[local] Open Scope Z_scope.

(** ** Sockets: lib/sysdep.cc *)

Class SocketOS (H : Type) : Type := {
  os_socket : H -> H * Z;
  os_bind : H -> Z -> list byte -> H * Z;
  os_recvfrom : H -> Z -> Z -> H * (Z * list byte);
  os_sendto : H -> Z -> list byte -> list byte -> H * Z;
  os_sleep : H -> Z -> H
}.

Section sockets.
Context {H : Type} `{HostOS H} `{SocketOS H}.

Definition Delay (h : H) (seconds : Z) : H := os_sleep h seconds.

Definition OpenSocket (h : H) : result (H * Z) :=
  let (h, sockID) := os_socket h in
  assert* (sockID >=? 0) in Ret (h, sockID).

Definition CloseSocket (h : H) (sockID : Z) : H := fst (os_close h sockID).

Definition AssignNameToSocket (h : H) (socketName : list byte) (sockID : Z) : result H :=
  let (h, _) := os_unlink h socketName in
  let (h, retVal) := os_bind h sockID socketName in
  assert* (retVal >=? 0) in Ret h.

Definition DeAssignNameToSocket (h : H) (socketName : list byte) : H := fst (os_unlink h socketName).

Definition PollSocket (h : H) (sockID : Z) : result (H * bool) := PollFile h sockID.

Definition ReadFromSocket (h : H) (sockID packetSize : Z) : result (H * list byte) :=
  let '(h, (retVal, buffer)) := os_recvfrom h sockID packetSize in
  assert* (retVal =? packetSize) in Ret (h, buffer).

(** The loop over [retryCount]: [n] attempts are left. *)
Fixpoint send_tries (n : nat) (h : H) (sockID : Z) (buffer toName : list byte) : result H :=
  match n with
  | O => Ret h
  | S n =>
      let (h, retVal) := os_sendto h sockID buffer toName in
      if retVal =? Z.of_nat (length buffer) then Ret h
      else assert* (retVal <? 0) in send_tries n (Delay h 1) sockID buffer toName
  end.

Definition SendToSocket (h : H) (sockID : Z) (buffer toName : list byte) : result H :=
  send_tries 10 h sockID buffer toName.

End sockets.

(** ** Structures in memory: what an assignment through a cast pointer reads and writes *)

Class Struct (T : Type) : Type := {
  sizeof : Z;
  bytes_of : T -> list byte;
  of_bytes : list byte -> T;
  representable : T -> Prop;
  bytes_of_length x : Z.of_nat (length (bytes_of x)) = sizeof;
  of_bytes_of x rest : representable x -> of_bytes (bytes_of x ++ rest) = x;
  of_bytes_take bs : of_bytes (take (Z.to_nat sizeof) bs) = of_bytes bs
}.

(** Two [int] and an [unsigned], as both headers are. *)
Definition words3 (a b c : Z) : list byte := le_split 4 (u32 a) ++ le_split 4 (u32 b) ++ le_split 4 (u32 c).

Lemma words3_length a b c : length (words3 a b c) = 12%nat.
Proof. unfold words3. by rewrite !length_app, !length_le_split. Qed.

Lemma le_combine_u32 z : le_combine (le_split 4 (u32 z)) = u32 z.
Proof. rewrite le_combine_split. apply Z.mod_small. apply u32_range. Qed.

Lemma words3_read a b c rest : is_s32 a -> is_s32 b -> is_u32 c ->
  let bs := words3 a b c ++ rest in
  s32 (le_combine (take 4 bs)) = a /\ s32 (le_combine (take 4 (drop 4 bs))) = b /\
  le_combine (take 4 (drop 8 bs)) = c.
Proof.
  intros Ha Hb Hc. unfold words3. cbv zeta. rewrite <- !app_assoc.
  assert (H4 : forall z, length (le_split 4 (u32 z)) = 4%nat) by (intros; apply length_le_split).
  rewrite (take_app_length' _ _ 4) by done. rewrite (drop_app_length' _ _ 4) by done.
  rewrite (take_app_length' _ _ 4) by done. change 8%nat with (4 + 4)%nat. rewrite <- drop_drop.
  rewrite !(drop_app_length' _ _ 4) by done. rewrite (take_app_length' _ _ 4) by done.
  rewrite !le_combine_u32, !s32_u32. split_and!; [by apply s32_id|by apply s32_id|by apply u32_id].
Qed.

(** ** Packets: machine/network.h *)

Record PacketHeader : Type := mkPacketHeader {
  pkt_to : Z;
  pkt_from : Z;
  pkt_length : Z
}.

#[export] Program Instance PacketHeader_struct : Struct PacketHeader := {
  sizeof := 12;
  bytes_of p := words3 (pkt_to p) (pkt_from p) (pkt_length p);
  of_bytes bs := mkPacketHeader (s32 (le_combine (take 4 bs))) (s32 (le_combine (take 4 (drop 4 bs))))
    (le_combine (take 4 (drop 8 bs)));
  representable p := is_s32 (pkt_to p) /\ is_s32 (pkt_from p) /\ is_u32 (pkt_length p)
}.
Next Obligation. intros p. cbv beta. by rewrite words3_length. Qed.
Next Obligation.
  intros [a b c] rest (Ha & Hb & Hc). cbn [pkt_to pkt_from pkt_length] in *.
  destruct (words3_read a b c rest Ha Hb Hc) as (-> & -> & ->). done.
Qed.
Next Obligation.
  intros bs. cbv beta. change (Z.to_nat 12) with 12%nat. rewrite !skipn_firstn_comm, !take_take. done.
Qed.

Definition MaxWireSize : Z := 64.
Definition MaxPacketSize : Z := MaxWireSize - sizeof (T := PacketHeader).

(** [sprintf(name, "SOCKET_%d", host)] *)
Definition SOCKET_ : list byte := byte.of_Z <$> [83; 79; 67; 75; 69; 84; 95].
Definition socket_name (host : Z) : list byte := SOCKET_ ++ (byte.of_Z <$> decimal host).

(** ** The device *)

Record NetworkInput : Type := mkNetIn {
  in_sock : Z;
  packetAvail : bool;
  inHdr : PacketHeader;
  inbox : list byte;
  in_scheduled : bool
}.

Record NetworkOutput : Type := mkNetOut {
  out_sock : Z;
  chanceToWork : Q;
  sendBusy : bool;
  out_scheduled : bool
}.

Section device.
Context {H : Type} `{HostOS H} `{SocketOS H}.
(** [kernel->hostName], and what fresh memory holds. *)
Context (hostName : Z) (garbage : nat -> byte).

(** The other fields of [inHdr] are not initialised. *)
Definition new_NetworkInput (h : H) (to0 from0 : Z) : result (H * NetworkInput) :=
  let* (h, sock) := OpenSocket h in
  let* h := AssignNameToSocket h (socket_name hostName) sock in
  Ret (h, mkNetIn sock false (mkPacketHeader to0 from0 0) (uninit garbage (Z.to_nat MaxPacketSize)) true).

(** The last result: whether [callWhenAvail->CallBack()] is called; [recvd] is
    [stats->numPacketsRecvd]. *)
Definition NetworkInput_CallBack (h : H) (n : NetworkInput) (recvd : Z)
    : result (H * NetworkInput * Z * bool) :=
  let n := mkNetIn (in_sock n) (packetAvail n) (inHdr n) (inbox n) true in
  if negb (pkt_length (inHdr n) =? 0) then Ret (h, n, recvd, false)
  else
    let* (h, ready) := PollSocket h (in_sock n) in
    if negb ready then Ret (h, n, recvd, false)
    else
      let* (h, buffer) := ReadFromSocket h (in_sock n) MaxWireSize in
      let* hb := zslice buffer 0 (sizeof (T := PacketHeader)) in
      let hdr : PacketHeader := of_bytes hb in
      assert* (pkt_to hdr =? hostName) && (pkt_length hdr <=? MaxPacketSize) in
      let* data := zslice buffer (sizeof (T := PacketHeader)) (pkt_length hdr) in
      let* box := zsplice (inbox n) 0 data in
      Ret (h, mkNetIn (in_sock n) (packetAvail n) hdr box true, recvd + 1, true).

Definition NetworkInput_Receive (n : NetworkInput) (data : list byte)
    : result (NetworkInput * PacketHeader * list byte) :=
  let hdr := inHdr n in
  let n := mkNetIn (in_sock n) (packetAvail n) (mkPacketHeader (pkt_to hdr) (pkt_from hdr) 0) (inbox n) (in_scheduled n) in
  if negb (pkt_length hdr =? 0) then
    let* bs := zslice (inbox n) 0 (pkt_length hdr) in
    let* data := zsplice data 0 bs in
    Ret (n, hdr, data)
  else Ret (n, hdr, data).

Definition new_NetworkOutput (h : H) (reliability : Q) : result (H * NetworkOutput) :=
  let chance := if negb (Qle_bool 0 reliability) then 0%Q
                else if negb (Qle_bool reliability 1) then 1%Q
                else reliability in
  let* (h, sock) := OpenSocket h in
  Ret (h, mkNetOut sock chance false false).

(** Whether [callWhenDone->CallBack()] is called: always.  [sent] is
    [stats->numPacketsSent]. *)
Definition NetworkOutput_CallBack (n : NetworkOutput) (sent : Z) : NetworkOutput * Z :=
  (mkNetOut (out_sock n) (chanceToWork n) false (out_scheduled n), sent + 1).

(** [RandomNumber() % 100 >= chanceToWork * 100] *)
Definition lost (n : NetworkOutput) (r : Z) : bool :=
  Qle_bool (chanceToWork n * 100) (inject_Z (Z.rem r 100)).

(** [r] is what [RandomNumber] returns. *)
Definition NetworkOutput_Send (h : H) (n : NetworkOutput) (hdr : PacketHeader) (data : list byte) (r : Z)
    : result (H * NetworkOutput) :=
  assert* Bool.eqb (sendBusy n) false && (pkt_length hdr >? 0) && (pkt_length hdr <=? MaxPacketSize)
            && (pkt_from hdr =? hostName) in
  let n := mkNetOut (out_sock n) (chanceToWork n) (sendBusy n) true in
  if lost n r then Ret (h, n)
  else
    let buffer := uninit garbage (Z.to_nat MaxWireSize) in
    let* buffer := zsplice buffer 0 (bytes_of hdr) in
    let* bs := zslice data 0 (pkt_length hdr) in
    let* buffer := zsplice buffer (sizeof (T := PacketHeader)) bs in
    let* h := SendToSocket h (out_sock n) buffer (socket_name (pkt_to hdr)) in
    Ret (h, n).

End device.

(** A network of reliability 1 or more loses nothing, one of reliability 0 or less
    everything; [rand] is not negative. *)
Lemma lost_extremes {H} `{SocketOS H} h reliability h' n r :
  new_NetworkOutput h reliability = Ret (h', n) -> 0 <= r ->
  ((1 <= reliability)%Q -> lost n r = false) /\ ((reliability <= 0)%Q -> lost n r = true).
Proof.
  intros Hn Hr. apply rbind_eq_Ret in Hn as ([h1 s] & _ & [= <- <-]). unfold lost. cbn [chanceToWork].
  pose proof (Z.rem_bound_pos r 100 Hr ltac:(lia)) as Hb. split; intros Hq.
  - assert (E : (if negb (Qle_bool 0 reliability) then 0%Q else if negb (Qle_bool reliability 1) then 1%Q else reliability) == 1).
    { destruct (Qle_bool 0 reliability) eqn:E0.
      - cbn [negb]. destruct (Qle_bool reliability 1) eqn:E1; cbn [negb]; [|reflexivity].
        apply Qle_bool_iff in E1. by apply Qle_antisym.
      - apply not_true_iff_false in E0. rewrite Qle_bool_iff in E0. exfalso. apply E0.
        apply Qle_trans with 1%Q; [done|done]. }
    rewrite E. apply not_true_iff_false. rewrite Qle_bool_iff. unfold Qle. cbn. lia.
  - assert (E : (if negb (Qle_bool 0 reliability) then 0%Q else if negb (Qle_bool reliability 1) then 1%Q else reliability) == 0).
    { destruct (Qle_bool 0 reliability) eqn:E0; cbn [negb]; [|reflexivity].
      apply Qle_bool_iff in E0. assert (E1 : Qle_bool reliability 1 = true).
      { apply Qle_bool_iff. apply Qle_trans with 0%Q; done. }
      rewrite E1. cbn [negb]. by apply Qle_antisym. }
    rewrite E. apply Qle_bool_iff. unfold Qle. cbn. lia.
Qed.

(** ** What UNIX datagram sockets promise

    [inbound h name]: the datagrams that wait at the socket bound to [name], the oldest
    first; [bound h s name]: [s] is that socket.  Datagrams of UNIX domain sockets are
    reliable and are not reordered (unix(7)). *)
Class Datagrams (H : Type) `{HostOS H} `{SocketOS H} : Type := {
  inbound : H -> list byte -> option (list (list byte));
  bound : H -> Z -> list byte -> Prop;
  sendto_law h s buf name q : inbound h name = Some q ->
    exists h', os_sendto h s buf name = (h', Z.of_nat (length buf)) /\
      inbound h' name = Some (q ++ [buf]) /\
      (forall name', name' <> name -> inbound h' name' = inbound h name') /\
      (forall s' name', bound h s' name' -> bound h' s' name');
  poll_law h s name q : bound h s name -> inbound h name = Some q ->
    exists h', os_select h s = (h', match q with [] => 0 | _ => 1 end) /\
      (forall name', inbound h' name' = inbound h name') /\
      (forall s' name', bound h s' name' -> bound h' s' name');
  recvfrom_law h s name buf q n : bound h s name -> inbound h name = Some (buf :: q) ->
    Z.of_nat (length buf) <= n ->
    exists h', os_recvfrom h s n = (h', (Z.of_nat (length buf), buf)) /\
      inbound h' name = Some q /\
      (forall name', name' <> name -> inbound h' name' = inbound h name') /\
      (forall s' name', bound h s' name' -> bound h' s' name');
  (* a new socket can be bound to a name that is not in use *)
  fresh_socket : H -> Z -> Prop;
  socket_law h : exists h' s, os_socket h = (h', s) /\ 0 <= s /\ fresh_socket h' s /\
      (forall name', inbound h' name' = inbound h name') /\
      (forall s' name', bound h s' name' -> bound h' s' name');
  unlink_law h name : exists h' r, os_unlink h name = (h', r) /\ inbound h' name = None /\
      (forall s, fresh_socket h s -> fresh_socket h' s) /\
      (forall name', name' <> name -> inbound h' name' = inbound h name') /\
      (forall s' name', name' <> name -> bound h s' name' -> bound h' s' name');
  bind_law h s name : fresh_socket h s -> inbound h name = None ->
    exists h', os_bind h s name = (h', 0) /\ inbound h' name = Some [] /\ bound h' s name /\
      (forall name', name' <> name -> inbound h' name' = inbound h name') /\
      (forall s' name', bound h s' name' -> bound h' s' name')
}.

(** ** Sending and receiving one packet *)

(** What travels: the header, the data, and what the buffer held behind it. *)
Definition packet (garbage : nat -> byte) (hdr : PacketHeader) (data : list byte) : list byte :=
  bytes_of hdr ++ take (Z.to_nat (pkt_length hdr)) data ++
  drop (Z.to_nat (sizeof (T := PacketHeader) + pkt_length hdr)) (uninit garbage (Z.to_nat MaxWireSize)).

(** A packet that the device at [host] accepts. *)
Definition acceptable (host : Z) (p : list byte) : Prop :=
  Z.of_nat (length p) = MaxWireSize /\
  pkt_to (of_bytes p) = host /\ 0 <= pkt_length (of_bytes p) <= MaxPacketSize.

Lemma hdr_bytes_length (hdr : PacketHeader) : length (bytes_of hdr) = 12%nat.
Proof. pose proof (bytes_of_length hdr) as H. change (sizeof (T := PacketHeader)) with 12 in H. lia. Qed.

Lemma packet_length garbage hdr data : 0 <= pkt_length hdr <= MaxPacketSize ->
  pkt_length hdr <= Z.of_nat (length data) -> Z.of_nat (length (packet garbage hdr data)) = MaxWireSize.
Proof.
  intros H Hd. unfold packet. unfold MaxPacketSize in H. change (sizeof (T := PacketHeader)) with 12 in *.
  unfold MaxWireSize in *. rewrite !length_app, hdr_bytes_length, length_take, length_drop, length_uninit. lia.
Qed.

Lemma packet_header garbage hdr data : representable hdr -> of_bytes (packet garbage hdr data) = hdr.
Proof. intros. by apply of_bytes_of. Qed.

(** Behind the header is the data. *)
Lemma packet_data garbage hdr data : 0 <= pkt_length hdr -> pkt_length hdr <= Z.of_nat (length data) ->
  take (Z.to_nat (pkt_length hdr)) (drop (Z.to_nat (sizeof (T := PacketHeader))) (packet garbage hdr data)) =
  take (Z.to_nat (pkt_length hdr)) data.
Proof.
  intros H Hd. unfold packet. change (sizeof (T := PacketHeader)) with 12.
  rewrite drop_app_length' by (by rewrite hdr_bytes_length).
  apply take_app_length'. rewrite length_take. lia.
Qed.

Section transfer.
Context {H : Type} `{Datagrams H}.
Context (hostName : Z) (garbage : nat -> byte).

Lemma SendToSocket_delivers h s buf name q : inbound h name = Some q ->
  exists h', SendToSocket h s buf name = Ret h' /\ inbound h' name = Some (q ++ [buf]) /\
    (forall name', name' <> name -> inbound h' name' = inbound h name') /\
    (forall s' name', bound h s' name' -> bound h' s' name').
Proof.
  intros Hq. unfold SendToSocket. simpl. destruct (sendto_law h s buf name q Hq) as (h' & -> & ? & ? & ?).
  rewrite Z.eqb_refl. eauto.
Qed.

(** A packet that is not lost is put into the socket of the destination. *)
Lemma Send_delivers h n hdr data r q : sendBusy n = false -> 0 < pkt_length hdr <= MaxPacketSize ->
  pkt_from hdr = hostName -> pkt_length hdr <= Z.of_nat (length data) -> lost n r = false ->
  inbound h (socket_name (pkt_to hdr)) = Some q ->
  exists h', NetworkOutput_Send hostName garbage h n hdr data r =
      Ret (h', mkNetOut (out_sock n) (chanceToWork n) false true) /\
    inbound h' (socket_name (pkt_to hdr)) = Some (q ++ [packet garbage hdr data]) /\
    (forall name', name' <> socket_name (pkt_to hdr) -> inbound h' name' = inbound h name') /\
    (forall s' name', bound h s' name' -> bound h' s' name').
Proof.
  intros Hb Hl Hf Hd Hlost Hq. unfold NetworkOutput_Send. rewrite ASSERT_true, rbind_Ret.
  2: { rewrite Hb, Hf, Z.eqb_refl, Z.gtb_ltb, (proj2 (Z.ltb_lt _ _)), (proj2 (Z.leb_le _ _)) by lia. done. }
  cbv zeta. rewrite Hb. change (lost (mkNetOut (out_sock n) (chanceToWork n) false true) r) with (lost n r).
  rewrite Hlost. cbn [out_sock].
  unfold MaxPacketSize in Hl. change (sizeof (T := PacketHeader)) with 12 in *. unfold MaxWireSize in *.
  rewrite zsplice_in by (rewrite ?hdr_bytes_length, ?length_uninit; lia). rewrite rbind_Ret.
  rewrite zslice_in by lia. rewrite rbind_Ret, drop_0, hdr_bytes_length.
  set (g := uninit garbage (Z.to_nat 64)). assert (Hg : length g = 64%nat) by apply length_uninit.
  set (bs := take (Z.to_nat (pkt_length hdr)) data).
  assert (Hbs : length bs = Z.to_nat (pkt_length hdr)) by (unfold bs; rewrite length_take; lia).
  assert (Hb1 : take (Z.to_nat 0) g ++ bytes_of hdr ++ drop (Z.to_nat 0 + 12) g = bytes_of hdr ++ drop 12 g) by done.
  rewrite Hb1, zsplice_in by (rewrite ?length_app, ?length_drop, ?hdr_bytes_length, ?Hbs, ?Hg; lia). rewrite rbind_Ret.
  assert (Hpk : take (Z.to_nat 12) (bytes_of hdr ++ drop 12 g) ++ bs ++
    drop (Z.to_nat 12 + length bs) (bytes_of hdr ++ drop 12 g) = packet garbage hdr data).
  { unfold packet. rewrite take_app_length' by (by rewrite hdr_bytes_length). f_equal. f_equal.
    rewrite drop_app_ge by (rewrite hdr_bytes_length; lia). rewrite hdr_bytes_length, drop_drop.
    change (sizeof (T := PacketHeader)) with 12. f_equal. lia. }
  rewrite Hpk. destruct (SendToSocket_delivers h (out_sock n) (packet garbage hdr data) _ q Hq) as (h' & -> & ? & ? & ?).
  rewrite rbind_Ret. eauto 6.
Qed.

(** Polling: nothing is there, or a packet is still buffered. *)
Lemma CallBack_idle h n recvd q : bound h (in_sock n) (socket_name hostName) ->
  inbound h (socket_name hostName) = Some q -> (pkt_length (inHdr n) <> 0 \/ q = []) ->
  exists h', NetworkInput_CallBack hostName h n recvd =
      Ret (h', mkNetIn (in_sock n) (packetAvail n) (inHdr n) (inbox n) true, recvd, false) /\
    (forall name', inbound h' name' = inbound h name') /\
    (forall s' name', bound h s' name' -> bound h' s' name').
Proof.
  intros Hb Hq Hor. unfold NetworkInput_CallBack. cbn [in_sock inHdr inbox packetAvail].
  destruct (Z.eqb_spec (pkt_length (inHdr n)) 0) as [E|E]; cbn [negb]; [|exists h; auto].
  destruct Hor as [?| ->]; [done|]. unfold PollSocket, PollFile.
  destruct (poll_law _ _ _ _ Hb Hq) as (h' & -> & ? & ?). cbn. eauto.
Qed.

(** Polling: the oldest packet is moved into the buffer, and the owner is told. *)
Lemma CallBack_takes h n recvd p q : bound h (in_sock n) (socket_name hostName) ->
  inbound h (socket_name hostName) = Some (p :: q) -> pkt_length (inHdr n) = 0 ->
  acceptable hostName p -> Z.of_nat (length (inbox n)) = MaxPacketSize ->
  exists h' box, NetworkInput_CallBack hostName h n recvd =
      Ret (h', mkNetIn (in_sock n) (packetAvail n) (of_bytes p) box true, recvd + 1, true) /\
    Z.of_nat (length box) = MaxPacketSize /\
    take (Z.to_nat (pkt_length (of_bytes p))) box =
      take (Z.to_nat (pkt_length (of_bytes p))) (drop (Z.to_nat (sizeof (T := PacketHeader))) p) /\
    inbound h' (socket_name hostName) = Some q /\
    (forall name', name' <> socket_name hostName -> inbound h' name' = inbound h name') /\
    (forall s' name', bound h s' name' -> bound h' s' name').
Proof.
  intros Hb Hq Hl (Hp & Hto & Hlen) Hbox. unfold NetworkInput_CallBack. cbn [in_sock inHdr inbox packetAvail].
  rewrite Hl. cbn [negb Z.eqb]. unfold PollSocket, PollFile.
  destruct (poll_law _ _ _ _ Hb Hq) as (h1 & -> & Hin1 & Hb1). change (assert* (1 =? 0) || (1 =? 1) in Ret (h1, negb (1 =? 0))) with (Ret (h1, true)).
  rewrite rbind_Ret. cbn [negb]. unfold ReadFromSocket.
  destruct (recvfrom_law h1 (in_sock n) (socket_name hostName) p q MaxWireSize) as (h2 & -> & Hin2 & Ho2 & Hb2);
    [by apply Hb1|by rewrite Hin1|lia|].
  rewrite Hp, Z.eqb_refl, ASSERT_true, !rbind_Ret by done.
  unfold MaxPacketSize in *. unfold MaxWireSize in *. change (sizeof (T := PacketHeader)) with 12 in *.
  rewrite zslice_in by lia. rewrite rbind_Ret, drop_0.
  assert (Hh : of_bytes (T := PacketHeader) (take (Z.to_nat 12) p) = of_bytes p) by exact (of_bytes_take (T := PacketHeader) p).
  rewrite Hh.
  rewrite ASSERT_true, rbind_Ret by (rewrite Hto, Z.eqb_refl; apply Z.leb_le; lia).
  rewrite zslice_in by lia. rewrite rbind_Ret.
  set (bs := take _ (drop _ p)).
  assert (Hbs : length bs = Z.to_nat (pkt_length (of_bytes p))).
  { unfold bs. rewrite length_take, length_drop. lia. }
  rewrite zsplice_in by lia. rewrite rbind_Ret. eexists _, _. split; [done|]. split_and!; auto.
  - rewrite length_splice by lia. done.
  - change (take (Z.to_nat 0) (inbox n)) with (@nil byte). simpl. by rewrite take_app_length' by done.
  - intros name' Hn. by rewrite Ho2, Hin1.
Qed.

(** Polling: a packet for another machine, or one that is said to be too long. *)
Lemma CallBack_rejects h n recvd p q : bound h (in_sock n) (socket_name hostName) ->
  inbound h (socket_name hostName) = Some (p :: q) -> pkt_length (inHdr n) = 0 ->
  Z.of_nat (length p) = MaxWireSize -> ~ acceptable hostName p ->
  NetworkInput_CallBack hostName h n recvd = AssertFail.
Proof.
  intros Hb Hq Hl Hp Hna. unfold NetworkInput_CallBack. cbn [in_sock inHdr inbox packetAvail].
  rewrite Hl. cbn [negb Z.eqb]. unfold PollSocket, PollFile.
  destruct (poll_law _ _ _ _ Hb Hq) as (h1 & -> & Hin1 & Hb1).
  change (assert* (1 =? 0) || (1 =? 1) in Ret (h1, negb (1 =? 0))) with (Ret (h1, true)).
  rewrite rbind_Ret. cbn [negb]. unfold ReadFromSocket.
  destruct (recvfrom_law h1 (in_sock n) (socket_name hostName) p q MaxWireSize) as (h2 & -> & _);
    [by apply Hb1|by rewrite Hin1|lia|].
  rewrite Hp, Z.eqb_refl, ASSERT_true, !rbind_Ret by done.
  rewrite zslice_in by (unfold MaxWireSize in Hp; change (sizeof (T := PacketHeader)) with 12; lia).
  rewrite rbind_Ret, drop_0. cbv zeta.
  assert (Hh : of_bytes (T := PacketHeader) (take (Z.to_nat (sizeof (T := PacketHeader))) p) = of_bytes p)
    by exact (of_bytes_take (T := PacketHeader) p).
  rewrite Hh. destruct (_ && _) eqn:E; [|done]. exfalso. to_prop. apply Hna. split; [done|]. split; [done|].
  split; [|done]. cbn [of_bytes PacketHeader_struct pkt_length]. apply le_combine_bound.
Qed.

(** Taking the packet out of the buffer. *)
Lemma Receive_buffered n data : 0 <= pkt_length (inHdr n) <= Z.of_nat (length (inbox n)) ->
  length (inbox n) = length data ->
  exists data', NetworkInput_Receive n data =
      Ret (mkNetIn (in_sock n) (packetAvail n) (mkPacketHeader (pkt_to (inHdr n)) (pkt_from (inHdr n)) 0)
             (inbox n) (in_scheduled n), inHdr n, data') /\
    length data' = length data /\
    take (Z.to_nat (pkt_length (inHdr n))) data' = take (Z.to_nat (pkt_length (inHdr n))) (inbox n).
Proof.
  intros Hl Hd. unfold NetworkInput_Receive. cbn [inbox].
  destruct (Z.eqb_spec (pkt_length (inHdr n)) 0) as [E|E]; cbn [negb].
  { exists data. rewrite E. done. }
  rewrite zslice_in by lia. rewrite rbind_Ret, drop_0.
  set (bs := take _ (inbox n)). assert (Hbs : length bs = Z.to_nat (pkt_length (inHdr n))).
  { unfold bs. rewrite length_take. lia. }
  rewrite zsplice_in by lia. rewrite rbind_Ret. eexists. split; [done|]. split.
  - rewrite length_splice by lia. done.
  - change (take (Z.to_nat 0) data) with (@nil byte). simpl. by rewrite take_app_length' by done.
Qed.

(** A new device is bound to its name, with nothing there. *)
Lemma new_NetworkInput_ok h to0 from0 : exists h' s,
  new_NetworkInput hostName garbage h to0 from0 =
    Ret (h', mkNetIn s false (mkPacketHeader to0 from0 0) (uninit garbage (Z.to_nat MaxPacketSize)) true) /\
  bound h' s (socket_name hostName) /\ inbound h' (socket_name hostName) = Some [] /\
  (forall name', name' <> socket_name hostName -> inbound h' name' = inbound h name') /\
  (forall s' name', name' <> socket_name hostName -> bound h s' name' -> bound h' s' name').
Proof.
  unfold new_NetworkInput, OpenSocket, AssignNameToSocket.
  destruct (socket_law h) as (h1 & s & -> & Hs & Hf & Hi1 & Hb1).
  rewrite ASSERT_true, !rbind_Ret by (by rewrite Z.geb_leb; apply Z.leb_le).
  destruct (unlink_law h1 (socket_name hostName)) as (h2 & r & -> & Hn & Hf2 & Hi2 & Hb2).
  destruct (bind_law h2 s (socket_name hostName)) as (h3 & -> & Hin & Hb & Hi3 & Hb3); [auto|done|].
  rewrite ASSERT_true, !rbind_Ret by done. eexists _, _. split; [done|]. split_and!; auto.
  intros name' Hne. by rewrite Hi3, Hi2, Hi1.
Qed.

End transfer.

(** ** A small host with datagram sockets *)

Record ToyNet : Type := mkToyNet {
  tn_queues : gmap (list byte) (list (list byte));
  tn_names : gmap Z (list byte);
  tn_next : Z
}.

#[export] Instance ToyNet_os : HostOS ToyNet := {
  os_open h name rw creat := (h, -1);
  os_read h fd n := (h, (-1, []));
  os_write h fd bs := (h, -1);
  os_lseek h fd off whence := (h, -1);
  os_close h fd := (h, 0);
  os_select h fd :=
    (h, match tn_names h !! fd with
        | Some name => match tn_queues h !! name with Some (_ :: _) => 1 | _ => 0 end
        | None => -1
        end);
  os_unlink h name := (mkToyNet (delete name (tn_queues h)) (tn_names h) (tn_next h), 0)
}.

#[export] Instance ToyNet_sockets : SocketOS ToyNet := {
  os_socket h := (mkToyNet (tn_queues h) (delete (Z.max 0 (tn_next h)) (tn_names h)) (Z.max 0 (tn_next h) + 1),
                  Z.max 0 (tn_next h));
  os_bind h s name := (mkToyNet (<[name := []]> (tn_queues h)) (<[s := name]> (tn_names h)) (tn_next h), 0);
  os_recvfrom h s n :=
    match tn_names h !! s with
    | Some name =>
        match tn_queues h !! name with
        | Some (p :: q) =>
            (mkToyNet (<[name := q]> (tn_queues h)) (tn_names h) (tn_next h),
             (Z.of_nat (length (take (Z.to_nat n) p)), take (Z.to_nat n) p))
        | _ => (h, (-1, []))
        end
    | None => (h, (-1, []))
    end;
  os_sendto h s buf name :=
    match tn_queues h !! name with
    | Some q => (mkToyNet (<[name := q ++ [buf]]> (tn_queues h)) (tn_names h) (tn_next h), Z.of_nat (length buf))
    | None => (h, -1)
    end;
  os_sleep h n := h
}.

(** Sockets in use have smaller numbers than the next one. *)
#[export] Program Instance ToyNet_datagrams : Datagrams ToyNet := {
  inbound h name := tn_queues h !! name;
  bound h s name := tn_names h !! s = Some name /\ s < tn_next h;
  fresh_socket h s := tn_names h !! s = None /\ s < tn_next h
}.
Next Obligation.
  intros h s buf name q Hq. cbn. rewrite Hq. eexists. split; [done|]. cbn.
  rewrite lookup_insert_eq. split_and!; auto. intros name' Hn. by rewrite lookup_insert_ne.
Qed.
Next Obligation.
  intros h s name q [Hb _] Hq. cbn in *. rewrite Hb, Hq. exists h. by destruct q.
Qed.
Next Obligation.
  intros h s name buf q n [Hb _] Hq Hn. cbn in *. rewrite Hb, Hq.
  rewrite take_ge by lia. eexists. split; [done|]. cbn. rewrite lookup_insert_eq. split_and!; auto.
  intros name' Hne. by rewrite lookup_insert_ne.
Qed.
Next Obligation.
  intros h. cbn. eexists _, _. split; [done|]. cbn. rewrite lookup_delete_eq. split; [lia|]. split; [split; [done|lia]|].
  split; [done|]. intros s' name' [Hb Hs]. rewrite lookup_delete_ne by lia. split; [done|lia].
Qed.
Next Obligation.
  intros h name. cbn. eexists _, _. split; [done|]. cbn. rewrite lookup_delete_eq. split_and!; auto.
  intros name' Hne. by rewrite lookup_delete_ne.
Qed.
Next Obligation.
  intros h s name [Hf Hs] Hn. cbn in *. eexists. split; [done|]. cbn. rewrite !lookup_insert_eq. split_and!; auto.
  - intros name' Hne. by rewrite lookup_insert_ne.
  - intros s' name' [Hb Hs']. split; [|done]. rewrite lookup_insert_ne; [done|]. intros ->. congruence.
Qed.
