(* ===== verification/Post.v ===== *)
(** * The post office

    Model of network/post.cc: mail boxes that the postal worker fills from the network
    device, and the sender.  As in [Console] and [Disk] one thread is followed: the
    lock of the sender is a flag, semaphores are counters, and a thread that waits for
    mail runs what would run meanwhile: the postal worker when it has been signalled,
    the polling interrupt of the device otherwise.  A [SynchList<Mail *>] is the list of
    the addresses of its messages. *)

From Stdlib Require Import QArith.
From S2P Require Import Prelude NList Host Syscalls Network.
#[local] Open Scope Z_scope.

(** ** Messages: network/post.h *)

Record MailHeader : Type := mkMailHeader {
  mail_to : Z;
  mail_from : Z;
  mail_length : Z
}.

#[export] Program Instance MailHeader_struct : Struct MailHeader := {
  sizeof := 12;
  bytes_of p := words3 (mail_to p) (mail_from p) (mail_length p);
  of_bytes bs := mkMailHeader (s32 (le_combine (take 4 bs))) (s32 (le_combine (take 4 (drop 4 bs))))
    (le_combine (take 4 (drop 8 bs)));
  representable p := is_s32 (mail_to p) /\ is_s32 (mail_from p) /\ is_u32 (mail_length p)
}.
Next Obligation. intros p. cbv beta. by rewrite words3_length. Qed.
Next Obligation.
  intros [a b c] rest (Ha & Hb & Hc). cbn [mail_to mail_from mail_length] in *.
  destruct (words3_read a b c rest Ha Hb Hc) as (-> & -> & ->). done.
Qed.
Next Obligation.
  intros bs. cbv beta. change (Z.to_nat 12) with 12%nat. rewrite !skipn_firstn_comm, !take_take. done.
Qed.

Definition MaxMailSize : Z := MaxPacketSize - sizeof (T := MailHeader).

Record Mail : Type := mkMail {
  pktHdr : PacketHeader;
  mailHdr : MailHeader;
  data : list byte
}.

(** ** The receiving side *)

(** [mails] holds the [Mail] objects and [brk] is the next address for one; [buffer] is
    the array of the postal worker. *)
Record PostOfficeInput : Type := mkPostIn {
  network : NetworkInput;
  boxes : list (list nat);
  numBoxes : Z;
  messageAvailable : Z;
  mails : gmap nat Mail;
  brk : nat;
  buffer : list byte;
  numPacketsRecvd : Z
}.

Section post.
Context {H : Type} `{HostOS H} `{SocketOS H}.
Context (hostName : Z) (garbage : nat -> byte).

Definition new_Mail (pktH : PacketHeader) (mailH : MailHeader) (msgData : list byte) : result Mail :=
  assert* (mail_length mailH <=? MaxMailSize) in
  let* bs := zslice msgData 0 (mail_length mailH) in
  let* d := zsplice (uninit garbage (Z.to_nat MaxMailSize)) 0 bs in
  Ret (mkMail pktH mailH d).

(** [new MailBox[nBoxes]], the network device and the worker, which waits at once. *)
Definition new_PostOfficeInput (h : H) (nBoxes to0 from0 recvd : Z) : result (H * PostOfficeInput) :=
  let* (h, n) := new_NetworkInput hostName garbage h to0 from0 in
  Ret (h, mkPostIn n (replicate (Z.to_nat nBoxes) []) nBoxes 0 ∅ 0 (uninit garbage (Z.to_nat MaxPacketSize)) recvd).

(** [boxes[box].Put]: the message is a new object at the end of the list. *)
Definition Put (po : PostOfficeInput) (box : Z) (pktHdr : PacketHeader) (mailHdr : MailHeader)
    (msg : list byte) : result PostOfficeInput :=
  let* mail := new_Mail pktHdr mailHdr msg in
  let* messages := zget (boxes po) box in
  let* messages := Seq.Append messages (brk po) in
  let* bx := zset (boxes po) box messages in
  Ret (mkPostIn (network po) bx (numBoxes po) (messageAvailable po) (<[brk po := mail]> (mails po))
         (S (brk po)) (buffer po) (numPacketsRecvd po)).

(** [boxes[box].Get], when the list is not empty; [dst] is the buffer of the caller. *)
Definition Get (po : PostOfficeInput) (box : Z) (dst : list byte)
    : result (PostOfficeInput * PacketHeader * MailHeader * list byte) :=
  let* messages := zget (boxes po) box in
  let* (a, messages) := Seq.RemoveFront messages in
  let* bx := zset (boxes po) box messages in
  let* mail := match mails po !! a with Some mail => Ret mail | None => Fault end in
  let* bs := zslice (data mail) 0 (mail_length (mailHdr mail)) in
  let* dst := zsplice dst 0 bs in
  Ret (mkPostIn (network po) bx (numBoxes po) (messageAvailable po) (delete a (mails po))
         (brk po) (buffer po) (numPacketsRecvd po), pktHdr mail, mailHdr mail, dst).

(** One pass of the postal worker, after [messageAvailable->P()]. *)
Definition PostalDelivery (po : PostOfficeInput) : result PostOfficeInput :=
  let* (n, pkt, buf) := NetworkInput_Receive (network po) (buffer po) in
  let* hb := zslice buf 0 (sizeof (T := MailHeader)) in
  let mh : MailHeader := of_bytes hb in
  assert* (0 <=? mail_to mh) && (mail_to mh <? numBoxes po) in
  assert* (mail_length mh <=? MaxMailSize) in
  Put (mkPostIn n (boxes po) (numBoxes po) (messageAvailable po - 1) (mails po) (brk po) buf (numPacketsRecvd po))
    (mail_to mh) pkt mh (drop (Z.to_nat (sizeof (T := MailHeader))) buf).

(** The polling interrupt; [PostOfficeInput::CallBack] is [messageAvailable->V()]. *)
Definition PostOfficeInput_CallBack (po : PostOfficeInput) : PostOfficeInput :=
  mkPostIn (network po) (boxes po) (numBoxes po) (messageAvailable po + 1) (mails po) (brk po) (buffer po)
    (numPacketsRecvd po).

Definition poll (h : H) (po : PostOfficeInput) : result (H * PostOfficeInput) :=
  let* (h, n, recvd, called) := NetworkInput_CallBack hostName h (network po) (numPacketsRecvd po) in
  let po := mkPostIn n (boxes po) (numBoxes po) (messageAvailable po) (mails po) (brk po) (buffer po) recvd in
  Ret (h, if called : bool then PostOfficeInput_CallBack po else po).

(** What runs while a thread waits for mail: the worker if there is something to deliver,
    otherwise the machine idles until the device polls. *)
Definition wait_turn (h : H) (po : PostOfficeInput) : result (H * PostOfficeInput) :=
  if messageAvailable po >? 0 then
    let* po := PostalDelivery po in Ret (h, po)
  else if in_scheduled (network po) then poll h po
  else Halted.

(** [SynchList::RemoveFront] waits while the box is empty. *)
Fixpoint wait_mail (fuel : nat) (h : H) (po : PostOfficeInput) (box : Z) : result (H * PostOfficeInput) :=
  let* messages := zget (boxes po) box in
  if negb (Seq.IsEmpty messages) then Ret (h, po)
  else
    match fuel with
    | O => NoFuel
    | S fuel => let* (h, po) := wait_turn h po in wait_mail fuel h po box
    end.

Definition Receive (fuel : nat) (h : H) (po : PostOfficeInput) (box : Z) (dst : list byte)
    : result (H * PostOfficeInput * PacketHeader * MailHeader * list byte) :=
  assert* (box >=? 0) && (box <? numBoxes po) in
  let* (h, po) := wait_mail fuel h po box in
  let* (po, pkt, mh, dst) := Get po box dst in
  assert* (mail_length mh <=? MaxMailSize) in
  Ret (h, po, pkt, mh, dst).

(** One turn of a thread in [Receive]: it gets its message, or lets the others run. *)
Definition receive_turn (h : H) (po : PostOfficeInput) (box : Z) (dst : list byte)
    : result (H * PostOfficeInput * option (PacketHeader * MailHeader * list byte)) :=
  assert* (box >=? 0) && (box <? numBoxes po) in
  let* messages := zget (boxes po) box in
  if negb (Seq.IsEmpty messages) then
    let* (po, pkt, mh, dst) := Get po box dst in
    assert* (mail_length mh <=? MaxMailSize) in
    Ret (h, po, Some (pkt, mh, dst))
  else
    let* (h, po) := wait_turn h po in Ret (h, po, None).

(** ** The sending side *)

Record PostOfficeOutput : Type := mkPostOut {
  out_network : NetworkOutput;
  messageSent : Z;
  sendLock : bool;
  numPacketsSent : Z
}.

Definition new_PostOfficeOutput (h : H) (reliability : Q) (sent : Z) : result (H * PostOfficeOutput) :=
  let* (h, n) := new_NetworkOutput h reliability in
  Ret (h, mkPostOut n 0 false sent).

(** The interrupt of the device, and [messageSent->V()]. *)
Definition PostOfficeOutput_CallBack (po : PostOfficeOutput) : PostOfficeOutput :=
  let (n, sent) := NetworkOutput_CallBack (out_network po) (numPacketsSent po) in
  mkPostOut n (messageSent po + 1) (sendLock po) sent.

(** [messageSent->P()] by the only thread. *)
Definition wait_sent (po : PostOfficeOutput) : result PostOfficeOutput :=
  let take_one po := mkPostOut (out_network po) (messageSent po - 1) (sendLock po) (numPacketsSent po) in
  if messageSent po >? 0 then Ret (take_one po)
  else
    let n := out_network po in
    if out_scheduled n then
      let n := mkNetOut (out_sock n) (chanceToWork n) (sendBusy n) false in
      Ret (take_one (PostOfficeOutput_CallBack (mkPostOut n (messageSent po) (sendLock po) (numPacketsSent po))))
    else Halted.

(** [r] is what [RandomNumber] returns to the device. *)
Definition Send (h : H) (po : PostOfficeOutput) (pkt : PacketHeader) (mh : MailHeader) (msg : list byte) (r : Z)
    : result (H * PostOfficeOutput) :=
  let buf := uninit garbage (Z.to_nat MaxPacketSize) in
  assert* (mail_length mh <=? MaxMailSize) in
  assert* (0 <=? mail_to mh) in
  let pkt := mkPacketHeader (pkt_to pkt) hostName (u32 (mail_length mh + sizeof (T := MailHeader))) in
  let* buf := zsplice buf 0 (bytes_of mh) in
  let* bs := zslice msg 0 (mail_length mh) in
  let* buf := zsplice buf (sizeof (T := MailHeader)) bs in
  if sendLock po then Halted else
  let* (h, n) := NetworkOutput_Send hostName garbage h (out_network po) pkt buf r in
  let po := mkPostOut n (messageSent po) true (numPacketsSent po) in
  let* po := wait_sent po in
  assert* sendLock po in
  Ret (h, mkPostOut (out_network po) (messageSent po) false (numPacketsSent po)).

End post.

(** ** What is on its way

    A message is the two headers and as many bytes as the mail header says. *)
Definition message : Type := PacketHeader * MailHeader * list byte.
Definition msg_box (m : message) : Z := mail_to (m.1.2).

Definition message_at (pkt : PacketHeader) (mh : MailHeader) (body : list byte) : message :=
  (pkt, mh, take (Z.to_nat (mail_length mh)) body).

Definition mail_message (m : Mail) : message := message_at (pktHdr m) (mailHdr m) (data m).

(** The message in a payload, and in a packet. *)
Definition payload_message (pkt : PacketHeader) (bs : list byte) : message :=
  message_at pkt (of_bytes bs) (drop (Z.to_nat (sizeof (T := MailHeader))) bs).

Definition wire_message (p : list byte) : message :=
  payload_message (of_bytes p) (drop (Z.to_nat (sizeof (T := PacketHeader))) p).

(** In the mail box, in the buffer of the device, and in the socket with queue [q]. *)
Definition messages_at (st : gmap nat Mail) (l : list nat) : list message :=
  omap (fun a => mail_message <$> st !! a) l.

Definition in_box (po : PostOfficeInput) (box : Z) : list message :=
  messages_at (mails po) (default [] (boxes po !! Z.to_nat box)).

Definition buffered (po : PostOfficeInput) : list message :=
  if pkt_length (inHdr (network po)) =? 0 then []
  else [payload_message (inHdr (network po)) (inbox (network po))].

(** The messages for one mail box, the oldest first. *)
Definition mail_for (po : PostOfficeInput) (q : list (list byte)) (box : Z) : list message :=
  in_box po box ++ filter (fun m => msg_box m = box) (buffered po ++ (wire_message <$> q)).

(** A packet for mail box 0 to [nb] - 1 of machine [host]. *)
Record deliverable (host nb : Z) (p : list byte) : Prop := {
  dl_accept : acceptable host p;
  dl_length : pkt_length (of_bytes p) =
    mail_length (wire_message p).1.2 + sizeof (T := MailHeader);
  dl_box : 0 <= msg_box (wire_message p) < nb
}.

(** A [Mail] object in mail box [b]. *)
Definition mail_ok (b : nat) (m : Mail) : Prop :=
  mail_to (mailHdr m) = Z.of_nat b /\ 0 <= mail_length (mailHdr m) <= MaxMailSize /\
  Z.of_nat (length (data m)) = MaxMailSize.

Lemma messages_at_app st l l' : messages_at st (l ++ l') = messages_at st l ++ messages_at st l'.
Proof. apply omap_app. Qed.

Lemma messages_at_ext st st' l : (forall a, a ∈ l -> st' !! a = st !! a) -> messages_at st' l = messages_at st l.
Proof.
  unfold messages_at. induction l as [|a l IH]; intros Hl; [done|]. cbn. rewrite (Hl a) by set_solver.
  rewrite IH by set_solver. done.
Qed.

Section proofs.
Context {H : Type} `{Datagrams H}.
Context (hostName : Z) (garbage : nat -> byte).

(** The device has no packet, or one that the worker has been told of. *)
Definition device_ok (po : PostOfficeInput) : Prop :=
  (pkt_length (inHdr (network po)) = 0 /\ messageAvailable po = 0) \/
  (exists p, deliverable hostName (numBoxes po) p /\ inHdr (network po) = of_bytes p /\
     take (Z.to_nat (pkt_length (of_bytes p))) (inbox (network po)) =
     take (Z.to_nat (pkt_length (of_bytes p))) (drop (Z.to_nat (sizeof (T := PacketHeader))) p) /\
     messageAvailable po = 1).

Record PostInv (h : H) (po : PostOfficeInput) (q : list (list byte)) : Prop := mkPostInv {
  pi_bound : bound h (in_sock (network po)) (socket_name hostName);
  pi_in : inbound h (socket_name hostName) = Some q;
  pi_q : Forall (deliverable hostName (numBoxes po)) q;
  pi_sched : in_scheduled (network po) = true;
  pi_inbox : Z.of_nat (length (inbox (network po))) = MaxPacketSize;
  pi_buffer : Z.of_nat (length (buffer po)) = MaxPacketSize;
  pi_boxes : Z.of_nat (length (boxes po)) = numBoxes po;
  pi_device : device_ok po;
  pi_mails b box a : boxes po !! b = Some box -> a ∈ box ->
    (a < brk po)%nat /\ exists m, mails po !! a = Some m /\ mail_ok b m;
  pi_nodup b box : boxes po !! b = Some box -> NoDup box
}.

(** Nothing changes for other sockets. *)
Definition others (h h' : H) : Prop :=
  (forall name', name' <> socket_name hostName -> inbound h' name' = inbound h name') /\
  (forall s' name', bound h s' name' -> bound h' s' name').

#[local] Instance others_preorder : PreOrder others.
Proof.
  split; [split; auto|]. intros h1 h2 h3 [A1 B1] [A2 B2]. split; [|auto].
  intros name' Hn. by rewrite A2, A1.
Qed.

Lemma mail_length_nonneg bs : 0 <= mail_length (of_bytes bs).
Proof. cbn. apply le_combine_bound. Qed.

Lemma deliverable_bounds nb p : deliverable hostName nb p ->
  sizeof (T := MailHeader) <= pkt_length (of_bytes p) <= MaxPacketSize /\
  0 <= mail_length (wire_message p).1.2 <= MaxMailSize.
Proof.
  intros [(_ & _ & Ha) Hl _]. pose proof (mail_length_nonneg (drop (Z.to_nat (sizeof (T := PacketHeader))) p)) as Hn.
  unfold MaxMailSize. change (wire_message p).1.2 with (of_bytes (T := MailHeader) (drop (Z.to_nat (sizeof (T := PacketHeader))) p)) in *.
  lia.
Qed.

(** The device's copy of a payload says what the packet says. *)
Lemma payload_copy nb p bs : deliverable hostName nb p ->
  take (Z.to_nat (pkt_length (of_bytes p))) bs =
    take (Z.to_nat (pkt_length (of_bytes p))) (drop (Z.to_nat (sizeof (T := PacketHeader))) p) ->
  payload_message (of_bytes p) bs = wire_message p.
Proof.
  intros Hd Hb. destruct (deliverable_bounds nb p Hd) as [[Hl _] [Hm _]]. pose proof (dl_length _ _ _ Hd) as Hlen.
  unfold wire_message in *. set (rest := drop (Z.to_nat (sizeof (T := PacketHeader))) p) in *.
  assert (Hh : of_bytes (T := MailHeader) bs = of_bytes rest).
  { rewrite <- (of_bytes_take (T := MailHeader) bs), <- (of_bytes_take (T := MailHeader) rest).
    assert (E : forall l : list byte, take (Z.to_nat (sizeof (T := MailHeader))) l =
      take (Z.to_nat (sizeof (T := MailHeader))) (take (Z.to_nat (pkt_length (of_bytes p))) l)).
    { intros l. rewrite take_take. f_equal. lia. }
    by rewrite E, Hb, <- E. }
  unfold payload_message, message_at. rewrite Hh. f_equal. cbn [fst snd] in Hlen.
  assert (E : forall l : list byte, take (Z.to_nat (mail_length (of_bytes rest))) (drop (Z.to_nat (sizeof (T := MailHeader))) l) =
    drop (Z.to_nat (sizeof (T := MailHeader))) (take (Z.to_nat (pkt_length (of_bytes p))) l)).
  { intros l. rewrite skipn_firstn_comm. f_equal.
    unfold payload_message, message_at in Hlen. cbn [fst snd] in Hlen. rewrite Hlen.
    pose proof (mail_length_nonneg rest). change (sizeof (T := MailHeader)) with 12. lia. }
  by rewrite !E, Hb.
Qed.

(** ** The device polls *)

Lemma mail_for_ext po po' q q' b : boxes po' = boxes po -> mails po' = mails po ->
  buffered po' ++ (wire_message <$> q') = buffered po ++ (wire_message <$> q) ->
  mail_for po' q' b = mail_for po q b.
Proof. intros Hb Hm He. unfold mail_for, in_box. by rewrite Hb, Hm, He. Qed.

(** Nothing is lost or reordered; if the device was empty, the oldest packet moves up. *)
Lemma poll_ok h po q : PostInv h po q ->
  exists h' po', poll hostName h po = Ret (h', po') /\ others h h' /\
    numBoxes po' = numBoxes po /\
    (exists q', PostInv h' po' q' /\ (forall b, mail_for po' q' b = mail_for po q b) /\
       (messageAvailable po = 0 -> (q = [] /\ q' = [] /\ messageAvailable po' = 0) \/ (length q = S (length q') /\ messageAvailable po' = 1))).
Proof.
  intros I. unfold poll. pose proof (pi_bound _ _ _ I) as Hb. pose proof (pi_in _ _ _ I) as Hin.
  destruct (decide (pkt_length (inHdr (network po)) <> 0 \/ q = [])) as [Hidle|Hnew].
  - destruct (CallBack_idle hostName h (network po) (numPacketsRecvd po) q Hb Hin Hidle) as (h' & -> & Hi' & Hb').
    rewrite rbind_Ret. eexists _, _. split; [done|]. split; [by split; auto|]. split; [done|]. exists q.
    split; [|split; [done|]].
    + destruct I. split; cbn; auto. by rewrite Hi'.
    + cbn. intros Hm. destruct Hidle as [Hl| ->]; [|by left].
      destruct (pi_device _ _ _ I) as [[? _]|(p & _ & _ & _ & ?)]; [done|lia].
  - assert (Hl : pkt_length (inHdr (network po)) = 0) by (destruct (decide (pkt_length (inHdr (network po)) = 0)); tauto).
    destruct q as [|p q]; [tauto|]. pose proof (pi_q _ _ _ I) as Hq. apply Forall_cons in Hq as [Hp Hq].
    destruct (CallBack_takes hostName h (network po) (numPacketsRecvd po) p q Hb Hin Hl (dl_accept _ _ _ Hp)
      (pi_inbox _ _ _ I)) as (h' & box & -> & Hbl & Hbt & Hin' & Ho & Hb').
    rewrite rbind_Ret. eexists _, _. split; [done|]. split; [by split|]. split; [done|]. exists q.
    destruct (pi_device _ _ _ I) as [[_ Hm]|(p' & Hp' & E & _)]; cycle 1.
    { destruct (deliverable_bounds _ _ Hp') as [Hlp _]. rewrite <- E, Hl in Hlp. cbn in Hlp. lia. }
    split; [|split].
    + destruct I. split; cbn; auto. right. exists p. cbn. rewrite Hm. auto.
    + intros b. apply mail_for_ext; [done|done|]. unfold buffered, PostOfficeInput_CallBack. cbn [network inHdr inbox].
      destruct (deliverable_bounds _ _ Hp) as [Hlp _]. change (sizeof (T := MailHeader)) with 12 in Hlp.
      rewrite Hl, (proj2 (Z.eqb_neq _ 0)) by lia. cbn [Z.eqb]. rewrite (payload_copy (numBoxes po) p) by done. done.
    + intros _. right. cbn. rewrite Hm. done.
Qed.

(** ** The worker delivers *)

Lemma Put_ok po box msgs pkt mh msg : (box < length (boxes po))%nat -> boxes po !! box = Some msgs ->
  0 <= mail_length mh <= MaxMailSize -> mail_length mh <= Z.of_nat (length msg) -> (brk po ∉ msgs) ->
  exists m, Put garbage po (Z.of_nat box) pkt mh msg =
      Ret (mkPostIn (network po) (<[box := msgs ++ [brk po]]> (boxes po)) (numBoxes po) (messageAvailable po)
             (<[brk po := m]> (mails po)) (S (brk po)) (buffer po) (numPacketsRecvd po)) /\
    pktHdr m = pkt /\ mailHdr m = mh /\ mail_message m = message_at pkt mh msg /\
    Z.of_nat (length (data m)) = MaxMailSize.
Proof.
  intros Hlt Hbox Hlen Hmsg Hn. unfold Put, new_Mail.
  rewrite ASSERT_true, rbind_Ret by (apply Z.leb_le; lia).
  rewrite zslice_in by lia. rewrite rbind_Ret, drop_0.
  set (bs := take _ msg). assert (Hbs : length bs = Z.to_nat (mail_length mh)).
  { unfold bs. rewrite length_take. lia. }
  rewrite zsplice_in by (rewrite ?length_uninit; lia). rewrite !rbind_Ret.
  rewrite (zget_lookup (boxes po) (Z.of_nat box) msgs), rbind_Ret; [|lia|by rewrite Nat2Z.id].
  unfold Seq.Append, Seq.IsInList. rewrite bool_decide_false by done. cbn [negb ASSERT]. rewrite !rbind_Ret.
  rewrite zset_in, rbind_Ret, Nat2Z.id by lia.
  eexists. split; [done|]. cbn [pktHdr mailHdr data]. split_and!; auto.
  - unfold mail_message, message_at. cbn [pktHdr mailHdr data]. f_equal.
    change (take (Z.to_nat 0) (uninit garbage (Z.to_nat MaxMailSize))) with (@nil byte).
    rewrite app_nil_l, take_app_length' by done. unfold bs. done.
  - rewrite length_splice; rewrite length_uninit; [|lia]. by vm_compute.
Qed.

(** The boxes after a new message, which goes behind the others of its box. *)
Lemma in_box_insert po po' box msgs m b : boxes po !! box = Some msgs ->
  boxes po' = <[box := msgs ++ [brk po]]> (boxes po) -> mails po' = <[brk po := m]> (mails po) ->
  (forall b' box' a, boxes po !! b' = Some box' -> a ∈ box' -> a <> brk po) ->
  in_box po' b = in_box po b ++ (if decide (Z.to_nat b = box) then [mail_message m] else []).
Proof.
  intros Hbox Hb Hm Hfresh. unfold in_box. rewrite Hb, Hm.
  assert (Hext : forall l, (forall a, a ∈ l -> a <> brk po) ->
    messages_at (<[brk po := m]> (mails po)) l = messages_at (mails po) l).
  { intros l Hl. apply messages_at_ext. intros a Ha. rewrite lookup_insert_ne; [done|].
    intros E. by apply (Hl a). }
  destruct (decide (Z.to_nat b = box)) as [E|E].
  - rewrite E, list_lookup_insert_eq by (by eapply lookup_lt_Some). rewrite Hbox. simpl.
    rewrite messages_at_app, Hext by (intros a; by apply (Hfresh box)).
    unfold messages_at at 2. cbn. by rewrite lookup_insert_eq.
  - rewrite list_lookup_insert_ne, app_nil_r by done. apply Hext.
    intros a Ha. destruct (boxes po !! Z.to_nat b) as [l|] eqn:Hl; [|cbn in Ha; set_solver].
    by apply (Hfresh (Z.to_nat b) l).
Qed.

(** The invariant with a new message in a box and an empty device. *)
Lemma insert_inv h po q box msgs m n av buf : PostInv h po q -> boxes po !! box = Some msgs -> mail_ok box m ->
  in_sock n = in_sock (network po) -> in_scheduled n = true -> inbox n = inbox (network po) ->
  pkt_length (inHdr n) = 0 -> av = 0 -> Z.of_nat (length buf) = MaxPacketSize ->
  PostInv h (mkPostIn n (<[box := msgs ++ [brk po]]> (boxes po)) (numBoxes po) av (<[brk po := m]> (mails po))
    (S (brk po)) buf (numPacketsRecvd po)) q.
Proof.
  intros I Hbox Hm E1 E2 E3 E4 -> Hbuf. pose proof (lookup_lt_Some _ _ _ Hbox) as Hlt.
  destruct I as [? ? ? ? ? ? ? ? Hmails Hnd].
  split; cbn [network boxes numBoxes messageAvailable mails brk buffer]; rewrite ?E1, ?E2, ?E3, ?length_insert; auto.
  - by left.
  - intros b bx a Hb Ha. destruct (decide (b = box)) as [->|Hne].
    + rewrite list_lookup_insert_eq in Hb by done. injection Hb as <-.
      apply elem_of_app in Ha as [Ha|Ha%list_elem_of_singleton].
      * destruct (Hmails _ _ _ Hbox Ha) as [? (m' & ? & ?)]. split; [lia|]. exists m'.
        rewrite lookup_insert_ne by lia. done.
      * subst a. split; [lia|]. exists m. by rewrite lookup_insert_eq.
    + rewrite list_lookup_insert_ne in Hb by done. destruct (Hmails _ _ _ Hb Ha) as [? (m' & ? & ?)].
      split; [lia|]. exists m'. rewrite lookup_insert_ne by lia. done.
  - intros b bx Hb. destruct (decide (b = box)) as [->|Hne].
    + rewrite list_lookup_insert_eq in Hb by done. injection Hb as <-.
      apply NoDup_app. split; [eauto|]. split; [|apply NoDup_singleton].
      intros a Ha ->%list_elem_of_singleton. destruct (Hmails _ _ _ Hbox Ha) as [? _]. lia.
    + rewrite list_lookup_insert_ne in Hb by done. eauto.
Qed.

(** The buffered message moves into its box. *)
Lemma deliver_ok h po q : PostInv h po q -> messageAvailable po = 1 ->
  exists po', PostalDelivery garbage po = Ret po' /\ PostInv h po' q /\
    numBoxes po' = numBoxes po /\ messageAvailable po' = 0 /\
    (forall b, 0 <= b -> mail_for po' q b = mail_for po q b).
Proof.
  intros I Hav. destruct (pi_device _ _ _ I) as [[_ ?]|(p & Hp & Hh & Hcopy & _)]; [lia|].
  destruct (deliverable_bounds _ _ Hp) as [[Hl1 Hl2] Hml].
  pose proof (dl_box _ _ _ Hp) as Hbox.
  pose proof (pi_inbox _ _ _ I) as Hib. pose proof (pi_buffer _ _ _ I) as Hbf.
  unfold PostalDelivery.
  destruct (Receive_buffered (network po) (buffer po)) as (buf & -> & Hlen & Hbuf).
  { rewrite Hh. change (sizeof (T := MailHeader)) with 12 in Hl1. lia. }
  { lia. }
  rewrite rbind_Ret. rewrite Hh in *.
  assert (Hmsg : payload_message (of_bytes p) buf = wire_message p).
  { apply (payload_copy (numBoxes po)); [done|]. by rewrite Hbuf. }
  assert (Hbl : Z.of_nat (length buf) = MaxPacketSize) by lia.
  change MaxPacketSize with 52 in *. change MaxMailSize with 40 in *.
  change (sizeof (T := MailHeader)) with 12 in *.
  rewrite zslice_in by lia. rewrite rbind_Ret, drop_0.
  assert (Et : of_bytes (T := MailHeader) (take (Z.to_nat 12) buf) = of_bytes buf) by exact (of_bytes_take (T := MailHeader) buf).
  rewrite Et. clear Et. unfold payload_message, message_at in Hmsg.
  change (sizeof (T := MailHeader)) with 12 in Hmsg.
  set (mh := of_bytes (T := MailHeader) buf) in *.
  assert (Emh : (wire_message p).1.2 = mh) by (by rewrite <- Hmsg).
  unfold msg_box in Hbox. rewrite Emh in *. fold (msg_box (wire_message p)) in *.
  rewrite ASSERT_true, rbind_Ret by (rewrite (proj2 (Z.leb_le _ _)), (proj2 (Z.ltb_lt _ _)) by lia; done).
  rewrite ASSERT_true, rbind_Ret by (apply Z.leb_le; lia).
  pose proof (pi_boxes _ _ _ I) as Hnb.
  destruct (lookup_lt_is_Some_2 (boxes po) (Z.to_nat (mail_to mh))) as [msgs Hmsgs]; [lia|].
  set (n1 := mkNetIn _ _ _ _ _). set (po1 := mkPostIn n1 _ _ _ _ _ _ _).
  assert (Hfresh : forall b' box' a, boxes po !! b' = Some box' -> a ∈ box' -> a <> brk po).
  { intros b' box' a Hb' Ha. destruct (pi_mails _ _ _ I b' box' a Hb' Ha) as [? _]. lia. }
  destruct (Put_ok po1 (Z.to_nat (mail_to mh)) msgs (of_bytes p) mh (drop (Z.to_nat 12) buf))
    as (m & HPut & Hm1 & Hm2 & Hm3 & Hm4).
  { by eapply lookup_lt_Some. } { done. } { change MaxMailSize with 40. lia. }
  { rewrite length_drop. lia. } { intros Hn. by apply (Hfresh _ _ _ Hmsgs Hn). }
  rewrite Z2Nat.id in HPut by lia. rewrite HPut.
  eexists. split; [done|]. split; [|split; [done|split; [cbn; lia|]]].
  - change (PostInv h (mkPostIn n1 (<[Z.to_nat (mail_to mh) := msgs ++ [brk po]]> (boxes po)) (numBoxes po)
      (messageAvailable po - 1) (<[brk po := m]> (mails po)) (S (brk po)) buf (numPacketsRecvd po)) q).
    apply insert_inv; try done; [|apply (pi_sched _ _ _ I)|lia]. unfold mail_ok. rewrite Hm2.
    change MaxMailSize with 40. split_and!; try lia. done.
  - intros b Hb. unfold mail_for.
    rewrite (in_box_insert po _ (Z.to_nat (mail_to mh)) msgs m b Hmsgs) by done.
    unfold buffered. cbn [network inHdr pkt_length]. rewrite Hh, (proj2 (Z.eqb_neq (pkt_length (of_bytes p)) 0)) by lia.
    cbn [Z.eqb app]. rewrite (payload_copy (numBoxes po) p) by done.
    rewrite <- app_assoc. f_equal. rewrite filter_cons. rewrite Hm3. unfold message_at. rewrite Hmsg.
    assert (Hmb : msg_box (wire_message p) = mail_to mh) by (unfold msg_box; by rewrite Emh).
    destruct (decide (Z.to_nat b = Z.to_nat (mail_to mh))), (decide (msg_box (wire_message p) = b)); done || lia.
Qed.

(** ** Receiving *)

(** The mail that the worker has not put into boxes yet, in turns: a packet needs two. *)
Definition backlog (po : PostOfficeInput) (q : list (list byte)) : nat :=
  2 * length q + Z.to_nat (messageAvailable po).

Lemma device_available h po q : PostInv h po q -> messageAvailable po = 0 \/ messageAvailable po = 1.
Proof. intros I. destruct (pi_device _ _ _ I) as [[_ ?]|(p & _ & _ & _ & ?)]; auto. Qed.

(** A turn of the worker or of the device makes the backlog smaller, unless there is none. *)
Lemma wait_turn_ok h po q : PostInv h po q ->
  exists h' po' q', wait_turn hostName garbage h po = Ret (h', po') /\ others h h' /\ PostInv h' po' q' /\
    numBoxes po' = numBoxes po /\ (forall b, 0 <= b -> mail_for po' q' b = mail_for po q b) /\
    backlog po' q' = pred (backlog po q).
Proof.
  intros I. unfold wait_turn, backlog. destruct (device_available h po q I) as [Hav|Hav]; rewrite Hav.
  - change (0 >? 0) with false. cbv iota. rewrite (pi_sched _ _ _ I).
    destruct (poll_ok h po q I) as (h1 & po1 & -> & Ho & Hn & q1 & I1 & Hsame & Hq). exists h1, po1, q1.
    split_and!; auto. destruct (Hq Hav) as [(-> & -> & ->)|[-> ->]]; simpl; lia.
  - change (1 >? 0) with true. cbv iota.
    destruct (deliver_ok h po q I Hav) as (po1 & -> & I1 & Hn & Hav1 & Hsame). rewrite rbind_Ret.
    exists h, po1, q. split_and!; auto; [reflexivity|]. rewrite Hav1. simpl. lia.
Qed.

(** Without a backlog all mail is in the boxes. *)
Lemma no_backlog h po q box : PostInv h po q -> backlog po q = O -> mail_for po q box = in_box po box.
Proof.
  intros I Hb. unfold backlog in Hb. destruct q; [|simpl in Hb; lia].
  unfold mail_for, buffered. destruct (pi_device _ _ _ I) as [[-> _]|(p & _ & _ & _ & Hav)]; [apply app_nil_r|].
  rewrite Hav in Hb. simpl in Hb. lia.
Qed.

(** A box without messages, while there is mail for it. *)
Lemma wait_mail_ok fuel : forall h po q box, PostInv h po q -> 0 <= box < numBoxes po ->
  mail_for po q box <> [] -> (backlog po q <= fuel)%nat ->
  exists h' po' q', wait_mail hostName garbage fuel h po box = Ret (h', po') /\ others h h' /\
    PostInv h' po' q' /\ numBoxes po' = numBoxes po /\
    (forall b, 0 <= b -> mail_for po' q' b = mail_for po q b) /\
    exists a msgs, boxes po' !! Z.to_nat box = Some (a :: msgs).
Proof.
  induction fuel as [|fuel IH]; intros h po q box I Hbox Hmail Hfuel.
  all: pose proof (pi_boxes _ _ _ I) as Hnb.
  all: destruct (lookup_lt_is_Some_2 (boxes po) (Z.to_nat box)) as [msgs Hmsgs]; [lia|].
  all: cbn [wait_mail]; rewrite (zget_lookup _ _ msgs) by (lia || done); rewrite rbind_Ret.
  all: destruct msgs as [|a msgs]; cbn [Seq.IsEmpty length]; [|exists h, po, q; split_and!; eauto; reflexivity].
  - exfalso. apply Hmail. rewrite (no_backlog h) by (done || lia). unfold in_box. by rewrite Hmsgs.
  - change (negb (Z.of_nat 0 =? 0)) with false. cbv iota.
    destruct (wait_turn_ok h po q I) as (h1 & po1 & q1 & -> & Ho & I1 & Hn1 & Hsame & Hlog). rewrite rbind_Ret.
    destruct (IH h1 po1 q1 box I1) as (h2 & po2 & q2 & Hw & Ho2 & I2 & Hn2 & Hs2 & Hne).
    { by rewrite Hn1. } { by rewrite Hsame by lia. } { lia. }
    exists h2, po2, q2. split_and!; auto; [by etransitivity|congruence|].
    intros b Hb. by rewrite Hs2, Hsame.
Qed.

(** The invariant without the first message of a box. *)
Lemma remove_inv h po q box a msgs : PostInv h po q -> boxes po !! box = Some (a :: msgs) ->
  (forall b bx a', boxes po !! b = Some bx -> a' ∈ bx -> (b <> box \/ a' ∈ msgs) -> a' <> a) ->
  PostInv h (mkPostIn (network po) (<[box := msgs]> (boxes po)) (numBoxes po) (messageAvailable po)
    (delete a (mails po)) (brk po) (buffer po) (numPacketsRecvd po)) q.
Proof.
  intros I Hbox Hkeep. pose proof (lookup_lt_Some _ _ _ Hbox) as Hlt. destruct I as [? ? ? ? ? ? ? ? Hmails Hnd].
  split; cbn [network boxes numBoxes messageAvailable mails brk buffer]; rewrite ?length_insert; auto.
  - intros b bx a' Hb Ha'. assert (Hb' : exists bx', boxes po !! b = Some bx' /\ a' ∈ bx' /\ (b <> box \/ a' ∈ msgs)).
    { destruct (decide (b = box)) as [->|Hne].
      - rewrite list_lookup_insert_eq in Hb by done. injection Hb as <-. exists (a :: msgs). set_solver.
      - rewrite list_lookup_insert_ne in Hb by done. exists bx. auto. }
    destruct Hb' as (bx' & Hb1 & Ha1 & Hor). destruct (Hmails _ _ _ Hb1 Ha1) as [? (m & ? & ?)].
    split; [done|]. exists m. rewrite lookup_delete_ne; [done|]. intros ->. by apply (Hkeep b bx' a').
  - intros b bx Hb. destruct (decide (b = box)) as [->|Hne].
    + rewrite list_lookup_insert_eq in Hb by done. injection Hb as <-.
      specialize (Hnd _ _ Hbox). by apply NoDup_cons in Hnd as [_ ?].
    + rewrite list_lookup_insert_ne in Hb by done. eauto.
Qed.

(** Taking the first message out of a box. *)
Lemma Get_ok h po q box a msgs dst : PostInv h po q -> 0 <= box ->
  boxes po !! Z.to_nat box = Some (a :: msgs) -> MaxMailSize <= Z.of_nat (length dst) ->
  exists po' m, Get po box dst = Ret (po', pktHdr m, mailHdr m,
      (mail_message m).2 ++ drop (Z.to_nat (mail_length (mailHdr m))) dst) /\
    PostInv h po' q /\ numBoxes po' = numBoxes po /\ mail_length (mailHdr m) <= MaxMailSize /\
    mail_for po q box = mail_message m :: mail_for po' q box /\
    (forall b, 0 <= b -> b <> box -> mail_for po' q b = mail_for po q b).
Proof.
  intros I Hbox Hmsgs Hdst. pose proof (lookup_lt_Some _ _ _ Hmsgs) as Hlt.
  destruct (pi_mails _ _ _ I _ _ a Hmsgs ltac:(set_solver)) as (_ & m & Hm & Hok).
  pose proof (pi_nodup _ _ _ I _ _ Hmsgs) as Hnd. apply NoDup_cons in Hnd as [Hna Hnd].
  pose proof Hok as (Hto & Hlen & Hdata).
  unfold Get. rewrite (zget_lookup _ _ (a :: msgs)), rbind_Ret by done. cbn [Seq.RemoveFront]. rewrite rbind_Ret.
  rewrite zset_in, rbind_Ret, Hm, rbind_Ret by lia. rewrite zslice_in, rbind_Ret, drop_0 by lia.
  set (bs := take _ (data m)).
  assert (Hbs : length bs = Z.to_nat (mail_length (mailHdr m))) by (unfold bs; rewrite length_take; lia).
  rewrite zsplice_in, rbind_Ret by lia. change (take (Z.to_nat 0) dst) with (@nil byte).
  rewrite app_nil_l, Hbs. eexists _, m. split; [done|].
  assert (Hkeep : forall b bx a', boxes po !! b = Some bx -> a' ∈ bx -> (b <> Z.to_nat box \/ a' ∈ msgs) -> a' <> a).
  { intros b bx a' Hb Ha' Hor ->. destruct Hor as [Hne|Hin]; [|done].
    destruct (pi_mails _ _ _ I _ _ a Hb Ha') as (_ & m' & Hm' & (Hto' & _)). simplify_eq. lia. }
  assert (Hat : forall b bx, boxes po !! b = Some bx -> (b <> Z.to_nat box) ->
    messages_at (delete a (mails po)) bx = messages_at (mails po) bx).
  { intros b bx Hb Hne. apply messages_at_ext. intros a' Ha'. rewrite lookup_delete_ne; [done|].
    intros E. by apply (Hkeep b bx a' Hb Ha' ltac:(by left)). }
  split; [|split; [done|split; [lia|split]]].
  - by apply remove_inv.
  - unfold mail_for, in_box. cbn [boxes mails]. rewrite Hmsgs, list_lookup_insert_eq by done. simpl.
    unfold messages_at at 1. simpl. rewrite Hm. simpl. f_equal. f_equal. symmetry. apply messages_at_ext.
    intros a' Ha'. rewrite lookup_delete_ne; [done|]. intros ->. done.
  - intros b Hb Hne. unfold mail_for, in_box. cbn [boxes mails]. f_equal.
    rewrite list_lookup_insert_ne by lia.
    destruct (boxes po !! Z.to_nat b) as [bx|] eqn:Hbx; [|done]. simpl. apply (Hat (Z.to_nat b)); [done|lia].
Qed.

(** A turn of [Receive]: the oldest message, or progress towards it. *)
Lemma receive_turn_ok h po q box dst : PostInv h po q -> 0 <= box < numBoxes po ->
  MaxMailSize <= Z.of_nat (length dst) ->
  exists h' po' q' o, receive_turn hostName garbage h po box dst = Ret (h', po', o) /\
    others h h' /\ PostInv h' po' q' /\ numBoxes po' = numBoxes po /\
    (forall b, 0 <= b -> b <> box -> mail_for po' q' b = mail_for po q b) /\
    match o with
    | Some (pkt, mh, dst') =>
        exists m, mail_for po q box = m :: mail_for po' q' box /\ pkt = m.1.1 /\ mh = m.1.2 /\
          dst' = m.2 ++ drop (Z.to_nat (mail_length m.1.2)) dst /\ backlog po' q' = backlog po q
    | None => mail_for po' q' box = mail_for po q box /\ backlog po' q' = pred (backlog po q) /\
        (mail_for po q box <> [] -> backlog po q <> O)
    end.
Proof.
  intros I Hbox Hdst. unfold receive_turn. rewrite ASSERT_true, rbind_Ret.
  2: { rewrite Z.geb_leb, (proj2 (Z.leb_le _ _)), (proj2 (Z.ltb_lt _ _)) by lia. done. }
  pose proof (pi_boxes _ _ _ I) as Hnb.
  destruct (lookup_lt_is_Some_2 (boxes po) (Z.to_nat box)) as [msgs Hmsgs]; [lia|].
  rewrite (zget_lookup _ _ msgs) by (lia || done). rewrite rbind_Ret.
  destruct msgs as [|a msgs]; cbn [Seq.IsEmpty length].
  - change (negb (Z.of_nat 0 =? 0)) with false. cbv iota.
    destruct (wait_turn_ok h po q I) as (h1 & po1 & q1 & -> & Ho & I1 & Hn1 & Hsame & Hlog). rewrite rbind_Ret.
    exists h1, po1, q1, None. do 4 (split; [done|]). split; [by auto|]. split; [apply Hsame; lia|]. split; [done|].
    intros Hm Hz. apply Hm. rewrite (no_backlog h) by done. unfold in_box. by rewrite Hmsgs.
  - change (negb (Z.of_nat (S (length msgs)) =? 0)) with true. cbv iota.
    destruct (Get_ok h po q box a msgs dst I) as (po1 & m & HG & I1 & Hn1 & Hl & Hm & Hs); [lia|done|done|].
    assert (Hav : messageAvailable po1 = messageAvailable po).
    { revert HG. unfold Get. rewrite (zget_lookup _ _ (a :: msgs)), rbind_Ret by (lia || done).
      cbn [Seq.RemoveFront]. rewrite rbind_Ret. intros HG. repeat (apply rbind_eq_Ret in HG as (? & _ & HG)).
      by injection HG as <-. }
    rewrite HG, rbind_Ret, ASSERT_true, rbind_Ret by (by apply Z.leb_le).
    exists h, po1, q, (Some (pktHdr m, mailHdr m, (mail_message m).2 ++ drop (Z.to_nat (mail_length (mailHdr m))) dst)).
    split; [done|]. split; [reflexivity|]. do 3 (split; [done|]). exists (mail_message m). split_and!; auto.
    unfold backlog. by rewrite Hav.
Qed.

(** [Receive] is a sequence of such turns. *)
Lemma Receive_turns fuel h po q box dst : PostInv h po q -> Receive hostName garbage (S fuel) h po box dst =
  (let* (h, po, o) := receive_turn hostName garbage h po box dst in
   match o with
   | Some (pkt, mh, dst') => Ret (h, po, pkt, mh, dst')
   | None => Receive hostName garbage fuel h po box dst
   end).
Proof.
  intros I. unfold Receive, receive_turn. rewrite !rbind_assoc.
  destruct (ASSERT ((box >=? 0) && (box <? numBoxes po))) eqn:EA; try done. rewrite !rbind_Ret. cbn [wait_mail]. rewrite !rbind_assoc.
  destruct (zget (boxes po) box) as [msgs| | | |]; try done. rewrite !rbind_Ret.
  destruct (negb (Seq.IsEmpty msgs)).
  - rewrite rbind_Ret, rbind_assoc. destruct (Get po box dst) as [[[[po1 pkt] mh] d]| | | |]; try done.
    rewrite !rbind_Ret, rbind_assoc. by destruct (ASSERT (mail_length mh <=? MaxMailSize)).
  - destruct (wait_turn_ok h po q I) as (h1 & po1 & q1 & -> & _ & _ & Hn & _). by rewrite !rbind_Ret, Hn, EA, rbind_Ret.
Qed.

(** C28: Receiving: whenever there is mail for a box, in the box, in the device or still
    in the socket, [Receive] on the box returns, with twice as many turns as there are
    packets in the socket and one more, and it returns exactly the oldest message for
    that box: its packet header, its mail header and its bytes at the start of the
    caller's buffer.  The mail for the box loses that message, the mail of every other
    box stays as it was, and so do the other sockets of the host. *)
Theorem receive_oldest fuel h po q box dst m rest : PostInv h po q -> 0 <= box < numBoxes po ->
  mail_for po q box = m :: rest -> (2 * length q + 1 <= fuel)%nat -> MaxMailSize <= Z.of_nat (length dst) ->
  exists h' po' q', Receive hostName garbage fuel h po box dst =
      Ret (h', po', m.1.1, m.1.2, m.2 ++ drop (Z.to_nat (mail_length m.1.2)) dst) /\
    PostInv h' po' q' /\ others h h' /\ mail_for po' q' box = rest /\
    (forall b, 0 <= b -> b <> box -> mail_for po' q' b = mail_for po q b).
Proof.
  intros I Hbox Hmail Hfuel Hdst. unfold Receive.
  rewrite ASSERT_true, rbind_Ret.
  2: { rewrite Z.geb_leb, (proj2 (Z.leb_le _ _)), (proj2 (Z.ltb_lt _ _)) by lia. done. }
  pose proof (device_available h po q I) as Hav.
  destruct (wait_mail_ok fuel h po q box I Hbox) as (h1 & po1 & q1 & -> & Ho & I1 & Hn1 & Hs1 & a & msgs & Hmsgs).
  { by rewrite Hmail. } { unfold backlog. lia. }
  rewrite rbind_Ret.
  destruct (Get_ok h1 po1 q1 box a msgs dst I1) as (po2 & mm & -> & I2 & Hn2 & Hl & Hm & Hs2); [lia|done|done|].
  rewrite rbind_Ret, ASSERT_true, rbind_Ret by (by apply Z.leb_le).
  rewrite Hs1, Hmail in Hm by lia. injection Hm as -> ->. exists h1, po2, q1. split; [done|].
  split; [done|]. split; [done|]. split; [done|]. intros b Hb Hne. rewrite Hs2, Hs1 by done. done.
Qed.

(** ** Sending *)

(** Nobody is sending. *)
Record idle_sender (po : PostOfficeOutput) : Prop := mkIdleSender {
  is_lock : sendLock po = false;
  is_sent : messageSent po = 0;
  is_busy : sendBusy (out_network po) = false
}.

(** The packet that carries a message. *)
Definition mail_packet (me dest : Z) (mh : MailHeader) (msg : list byte) : list byte :=
  packet garbage (mkPacketHeader dest me (mail_length mh + sizeof (T := MailHeader)))
    (bytes_of mh ++ take (Z.to_nat (mail_length mh)) msg ++
     drop (Z.to_nat (sizeof (T := MailHeader) + mail_length mh)) (uninit garbage (Z.to_nat MaxPacketSize))).

Lemma mail_hdr_bytes_length (mh : MailHeader) : length (bytes_of mh) = 12%nat.
Proof. pose proof (bytes_of_length mh) as Hl. change (sizeof (T := MailHeader)) with 12 in Hl. lia. Qed.

Section message.
Context (me nb : Z) (mh : MailHeader) (msg : list byte).
Hypothesis (Hme : is_s32 me) (Hdest : is_s32 hostName) (Hmh : representable mh).
Hypothesis (Hlen : 0 <= mail_length mh <= MaxMailSize) (Hmsg : mail_length mh <= Z.of_nat (length msg)).

Abbreviation hdr := (mkPacketHeader hostName me (mail_length mh + sizeof (T := MailHeader))).
Abbreviation payload := (bytes_of mh ++ take (Z.to_nat (mail_length mh)) msg ++
     drop (Z.to_nat (sizeof (T := MailHeader) + mail_length mh)) (uninit garbage (Z.to_nat MaxPacketSize))).

Lemma payload_length : Z.of_nat (length payload) = MaxPacketSize.
Proof.
  change MaxPacketSize with 52. change (sizeof (T := MailHeader)) with 12. change MaxMailSize with 40 in Hlen.
  rewrite !length_app, mail_hdr_bytes_length, length_take, length_drop, length_uninit. lia.
Qed.

Lemma hdr_ok : representable hdr /\ 0 < pkt_length hdr <= MaxPacketSize.
Proof.
  cbn [pkt_length]. change (sizeof (T := MailHeader)) with 12. change MaxMailSize with 40 in Hlen.
  change MaxPacketSize with 52. split; [|lia].
  split; [done|]. split; [done|]. cbn [pkt_length]. unfold is_u32. lia.
Qed.

(** The packet says where it goes, and carries the message. *)
Lemma mail_packet_message : wire_message (mail_packet me hostName mh msg) =
  (hdr, mh, take (Z.to_nat (mail_length mh)) msg).
Proof.
  destruct hdr_ok as [Hr Hl]. pose proof payload_length as Hp. unfold mail_packet, wire_message.
  rewrite packet_header by done.
  set (rest := drop _ _).
  assert (Hrest : take (Z.to_nat (pkt_length hdr)) rest = take (Z.to_nat (pkt_length hdr)) payload).
  { apply packet_data; lia. }
  cbn [pkt_length] in Hrest. change (sizeof (T := MailHeader)) with 12 in *.
  assert (Hpay : take (Z.to_nat (mail_length mh + 12)) payload = bytes_of mh ++ take (Z.to_nat (mail_length mh)) msg).
  { rewrite app_assoc. apply take_app_length'. rewrite length_app, mail_hdr_bytes_length, length_take. lia. }
  change (sizeof (T := MailHeader)) with 12 in Hpay. rewrite Hpay in Hrest. clear Hpay.
  assert (E1 : of_bytes (T := MailHeader) rest = mh).
  { rewrite <- (of_bytes_take (T := MailHeader) rest). change (sizeof (T := MailHeader)) with 12.
    assert (E : take (Z.to_nat 12) rest = take (Z.to_nat 12) (take (Z.to_nat (mail_length mh + 12)) rest)).
    { rewrite take_take. f_equal. lia. }
    rewrite E, Hrest. rewrite take_app_length' by (by rewrite mail_hdr_bytes_length).
    rewrite <- (app_nil_r (bytes_of mh)). by apply of_bytes_of. }
  unfold payload_message, message_at. rewrite E1. f_equal. change (sizeof (T := MailHeader)) with 12.
  assert (E : take (Z.to_nat (mail_length mh)) (drop (Z.to_nat 12) rest) =
    drop (Z.to_nat 12) (take (Z.to_nat (mail_length mh + 12)) rest)).
  { rewrite skipn_firstn_comm. f_equal. lia. }
  rewrite E, Hrest. by apply drop_app_length'; rewrite mail_hdr_bytes_length.
Qed.

Lemma mail_packet_deliverable : 0 <= mail_to mh < nb -> deliverable hostName nb (mail_packet me hostName mh msg).
Proof.
  intros Hto. destruct hdr_ok as [Hr Hl]. pose proof payload_length as Hp. pose proof mail_packet_message as Hw.
  assert (Hh : of_bytes (mail_packet me hostName mh msg) = hdr) by (by apply packet_header).
  split.
  - unfold acceptable. rewrite Hh. split; [apply packet_length; lia|]. split; [done|lia].
  - by rewrite Hh, Hw.
  - unfold msg_box. by rewrite Hw.
Qed.

End message.

(** The two copies into the buffer of [Send]. *)
Lemma send_buffer mh msg (g : list byte) : Z.of_nat (length g) = MaxPacketSize ->
  0 <= mail_length mh <= MaxMailSize -> mail_length mh <= Z.of_nat (length msg) ->
  (let* buf := zsplice g 0 (bytes_of mh) in
   let* bs := zslice msg 0 (mail_length mh) in zsplice buf (sizeof (T := MailHeader)) bs) =
  Ret (bytes_of mh ++ take (Z.to_nat (mail_length mh)) msg ++
    drop (Z.to_nat (sizeof (T := MailHeader) + mail_length mh)) g).
Proof.
  change MaxPacketSize with 52. change MaxMailSize with 40. change (sizeof (T := MailHeader)) with 12. intros Hg Hl Hm.
  rewrite zsplice_in by (rewrite ?mail_hdr_bytes_length; lia). rewrite rbind_Ret, zslice_in, rbind_Ret, drop_0 by lia.
  set (bs := take _ msg). assert (Hbs : length bs = Z.to_nat (mail_length mh)) by (unfold bs; rewrite length_take; lia).
  rewrite mail_hdr_bytes_length. change (take (Z.to_nat 0) g) with (@nil byte). rewrite app_nil_l.
  rewrite zsplice_in by (rewrite ?length_app, ?length_drop, ?mail_hdr_bytes_length, ?Hbs; lia).
  rewrite take_app_length' by (by rewrite mail_hdr_bytes_length). f_equal. f_equal. f_equal.
  rewrite drop_app_ge by (rewrite mail_hdr_bytes_length; lia). rewrite mail_hdr_bytes_length, drop_drop. f_equal. lia.
Qed.

(** A device that has sent a packet: the interrupt frees it, and the sender goes on. *)
Lemma wait_sent_ok n sent : out_scheduled n = true ->
  exists n', wait_sent (mkPostOut n 0 true sent) = Ret (mkPostOut n' 0 true (sent + 1)) /\
    sendBusy n' = false /\ chanceToWork n' = chanceToWork n.
Proof. intros Hs. unfold wait_sent. cbn. rewrite Hs. eauto. Qed.

(** A packet more in the socket. *)
Lemma enqueue_inv h h' po q p : PostInv h po q -> deliverable hostName (numBoxes po) p ->
  inbound h' (socket_name hostName) = Some (q ++ [p]) ->
  (forall s' name', bound h s' name' -> bound h' s' name') -> PostInv h' po (q ++ [p]).
Proof. intros [] Hp Hin Hb. split; auto. by apply Forall_app; split; [|apply Forall_singleton]. Qed.

Lemma mail_for_snoc po q p b : mail_for po (q ++ [p]) b =
  mail_for po q b ++ (if decide (msg_box (wire_message p) = b) then [wire_message p] else []).
Proof.
  unfold mail_for. rewrite fmap_app, app_assoc, filter_app, app_assoc. done.
Qed.

(** The packet is at the end of the queue. *)
Lemma Send_enqueues me h out pi q pkt mh msg r : PostInv h pi q -> idle_sender out ->
  is_s32 me -> is_s32 hostName -> representable mh -> pkt_to pkt = hostName ->
  0 <= mail_length mh <= MaxMailSize -> mail_length mh <= Z.of_nat (length msg) ->
  0 <= mail_to mh < numBoxes pi -> lost (out_network out) r = false ->
  exists h' out' q', Send me garbage h out pkt mh msg r = Ret (h', out') /\
    idle_sender out' /\ numPacketsSent out' = numPacketsSent out + 1 /\
    chanceToWork (out_network out') = chanceToWork (out_network out) /\ length q' = S (length q) /\
    PostInv h' pi q' /\ others h h' /\
    forall b, mail_for pi q' b = mail_for pi q b ++
      (if decide (mail_to mh = b)
       then [(mkPacketHeader hostName me (mail_length mh + sizeof (T := MailHeader)), mh,
              take (Z.to_nat (mail_length mh)) msg)]
       else []).
Proof.
  intros I [Hlk Hsn Hbz] Hme Hdest Hmh Hto Hlen Hmsg Hbox Hlost.
  pose proof (payload_length mh msg Hlen Hmsg) as Hp.
  unfold Send. rewrite ASSERT_true, rbind_Ret by (apply Z.leb_le; lia).
  rewrite ASSERT_true, rbind_Ret by (apply Z.leb_le; lia). cbv zeta. rewrite Hto, Hlk.
  rewrite u32_id by (unfold is_u32; change MaxMailSize with 40 in Hlen; change (sizeof (T := MailHeader)) with 12; lia).
  pose proof (send_buffer mh msg (uninit garbage (Z.to_nat MaxPacketSize)) ltac:(by rewrite length_uninit) Hlen Hmsg) as Hbuf.
  set (hdr := mkPacketHeader _ _ _). set (g := uninit _ _) in *.
  set (payload := bytes_of mh ++ _) in *.
  destruct (Send_delivers me garbage h (out_network out) hdr payload r q) as (h' & Hsend & Hin & Ho & Hb);
    [done| |done| |done|apply (pi_in _ _ _ I)|].
  { apply (hdr_ok me mh); done. } { rewrite Hp. cbn [hdr pkt_length]. change (sizeof (T := MailHeader)) with 12.
    change MaxMailSize with 40 in Hlen. change MaxPacketSize with 52. lia. }
  apply rbind_eq_Ret in Hbuf as (b1 & -> & Hbuf). rewrite rbind_Ret.
  apply rbind_eq_Ret in Hbuf as (b2 & -> & Hbuf). rewrite rbind_Ret, Hbuf, rbind_Ret.
  rewrite Hsend, rbind_Ret, Hsn.
  destruct (wait_sent_ok (mkNetOut (out_sock (out_network out)) (chanceToWork (out_network out)) false true)
    (numPacketsSent out) eq_refl) as (n' & -> & Hn' & Hcw). rewrite rbind_Ret. cbn [sendLock ASSERT]. rewrite rbind_Ret.
  pose proof (mail_packet_deliverable me (numBoxes pi) mh msg Hme Hdest Hmh Hlen Hmsg Hbox) as Hdl.
  pose proof (mail_packet_message me mh msg Hme Hdest Hmh Hlen Hmsg) as Hw.
  exists h', (mkPostOut n' 0 false (numPacketsSent out + 1)), (q ++ [mail_packet me hostName mh msg]).
  split; [done|]. split; [by split|]. split; [done|]. split; [done|]. split; [rewrite length_app; simpl; lia|].
  split; [|split; [by split|]].
  - by apply (enqueue_inv h).
  - intros b. by rewrite mail_for_snoc, Hw.
Qed.

(** Sending: a message of at most [MaxMailSize] bytes for an existing mail box of a
    machine whose post office runs, on a network that does not lose the packet, is
    appended to the mail for that box, with the sender as its origin; the mail of other
    boxes and the sockets of other machines do not change, and the sender is ready for
    the next message. *)
Theorem send_appends me h out pi q pkt mh msg r : PostInv h pi q -> idle_sender out ->
  is_s32 me -> is_s32 hostName -> representable mh -> pkt_to pkt = hostName ->
  0 <= mail_length mh <= MaxMailSize -> mail_length mh <= Z.of_nat (length msg) ->
  0 <= mail_to mh < numBoxes pi -> lost (out_network out) r = false ->
  exists h' out' q', Send me garbage h out pkt mh msg r = Ret (h', out') /\
    idle_sender out' /\ numPacketsSent out' = numPacketsSent out + 1 /\
    PostInv h' pi q' /\ others h h' /\
    forall b, mail_for pi q' b = mail_for pi q b ++
      (if decide (mail_to mh = b)
       then [(mkPacketHeader hostName me (mail_length mh + sizeof (T := MailHeader)), mh,
              take (Z.to_nat (mail_length mh)) msg)]
       else []).
Proof.
  intros I Hout Hme Hdest Hmh Hto Hlen Hmsg Hbox Hlost.
  destruct (Send_enqueues me h out pi q pkt mh msg r I Hout Hme Hdest Hmh Hto Hlen Hmsg Hbox Hlost)
    as (h' & out' & q' & HS & Ho & Hn & _ & _ & Hrest). exists h', out', q'. done.
Qed.

(** ** The start, and packets from anywhere *)

Lemma new_PostOfficeInput_ok h nBoxes to0 from0 recvd : 0 <= nBoxes -> exists h' po,
  new_PostOfficeInput hostName garbage h nBoxes to0 from0 recvd = Ret (h', po) /\ PostInv h' po [] /\
  numBoxes po = nBoxes /\ (forall b, mail_for po [] b = []) /\
  (forall name', name' <> socket_name hostName -> inbound h' name' = inbound h name') /\
  (forall s' name', name' <> socket_name hostName -> bound h s' name' -> bound h' s' name').
Proof.
  intros Hn. unfold new_PostOfficeInput.
  destruct (new_NetworkInput_ok hostName garbage h to0 from0) as (h' & s & -> & Hb & Hi & Ho & Hbo).
  rewrite rbind_Ret. eexists _, _. split; [done|].
  assert (Hempty : forall b bx, replicate (Z.to_nat nBoxes) (@nil nat) !! b = Some bx -> bx = []).
  { intros b bx Hbx. by apply lookup_replicate in Hbx as [-> _]. }
  split; [|split; [done|split; [|by split]]].
  - split; cbn [network boxes numBoxes messageAvailable mails brk buffer in_sock in_scheduled inbox inHdr pkt_length];
      rewrite ?length_uninit, ?length_replicate; auto; try lia.
    + by left.
    + intros b bx a Hbx Ha. apply Hempty in Hbx. subst. set_solver.
    + intros b bx Hbx. apply Hempty in Hbx. subst. constructor.
  - intros b. unfold mail_for, in_box, buffered. cbn.
    destruct (replicate _ _ !! _) as [bx|] eqn:Hbx; [|done]. apply Hempty in Hbx. by subst.
Qed.

(** The worker on any buffered packet. *)
Lemma PostalDelivery_safe po : 0 <= pkt_length (inHdr (network po)) <= MaxPacketSize ->
  Z.of_nat (length (inbox (network po))) = MaxPacketSize -> Z.of_nat (length (buffer po)) = MaxPacketSize ->
  Z.of_nat (length (boxes po)) = numBoxes po ->
  (forall b box a, boxes po !! b = Some box -> a ∈ box -> (a < brk po)%nat) ->
  PostalDelivery garbage po = AssertFail \/ exists po', PostalDelivery garbage po = Ret po'.
Proof.
  intros Hl Hib Hbf Hnb Hbrk. unfold PostalDelivery.
  destruct (Receive_buffered (network po) (buffer po)) as (buf & -> & Hlen & _); [lia|lia|].
  assert (Hbl : Z.of_nat (length buf) = MaxPacketSize) by lia. change MaxPacketSize with 52 in *.
  rewrite rbind_Ret. rewrite zslice_in by (change (sizeof (T := MailHeader)) with 12; lia).
  rewrite rbind_Ret. cbv zeta. set (mh := of_bytes _ : MailHeader).
  assert (Hml0 : 0 <= mail_length mh) by apply mail_length_nonneg.
  destruct (_ && _) eqn:E; [|by left]. to_prop. cbn [ASSERT]. rewrite rbind_Ret.
  destruct (mail_length mh <=? MaxMailSize) eqn:Em; [|by left]. to_prop. cbn [ASSERT]. rewrite rbind_Ret.
  destruct (lookup_lt_is_Some_2 (boxes po) (Z.to_nat (mail_to mh))) as [msgs Hmsgs]; [lia|].
  set (po1 := mkPostIn _ _ _ _ _ _ _ _).
  destruct (Put_ok po1 (Z.to_nat (mail_to mh)) msgs (inHdr (network po)) mh
    (drop (Z.to_nat (sizeof (T := MailHeader))) buf)) as (m & HPut & _).
  - by eapply lookup_lt_Some.
  - done.
  - done.
  - rewrite length_drop. change (sizeof (T := MailHeader)) with 12. change MaxMailSize with 40 in *. lia.
  - intros Hin. pose proof (Hbrk _ _ _ Hmsgs Hin). cbn in *. lia.
  - rewrite Z2Nat.id in HPut by lia. rewrite HPut. eauto.
Qed.

(** C40: Whatever packet of the wire's size is waiting, the device and the worker stay
    inside their buffers: the device takes it or fails its assertion, exactly when the
    packet is for another machine or says it is longer than a packet can be; and then the
    worker delivers it or fails an assertion, when it names no mail box or is too long. *)
Theorem any_packet_contained h po p q : bound h (in_sock (network po)) (socket_name hostName) ->
  inbound h (socket_name hostName) = Some (p :: q) -> Z.of_nat (length p) = MaxWireSize ->
  pkt_length (inHdr (network po)) = 0 -> Z.of_nat (length (inbox (network po))) = MaxPacketSize ->
  Z.of_nat (length (buffer po)) = MaxPacketSize -> Z.of_nat (length (boxes po)) = numBoxes po ->
  (forall b box a, boxes po !! b = Some box -> a ∈ box -> (a < brk po)%nat) ->
  (poll hostName h po = AssertFail /\ ~ acceptable hostName p) \/
  (acceptable hostName p /\ exists h' po', poll hostName h po = Ret (h', po') /\
     (PostalDelivery garbage po' = AssertFail \/ exists po'', PostalDelivery garbage po' = Ret po'')).
Proof.
  intros Hb Hin Hp Hl Hib Hbf Hnb Hbrk.
  destruct (decide (acceptable hostName p)) as [Ha|Ha].
  - right. split; [done|]. unfold poll.
    destruct (CallBack_takes hostName h (network po) (numPacketsRecvd po) p q Hb Hin Hl Ha Hib)
      as (h' & box & -> & Hbl & _). rewrite rbind_Ret. eexists _, _. split; [done|].
    apply PostalDelivery_safe; try done. apply Ha.
  - left. split; [|done]. unfold poll. by rewrite (CallBack_rejects hostName h _ _ p q).
Qed.

End proofs.

(** ** Two machines on a small host: machine 1 has two mail boxes, machine 0 sends *)

Module SmallNet.

Definition zeros (n : nat) : byte := byte.of_Z 0.
Definition host0 : ToyNet := mkToyNet ∅ ∅ 0.
Definition sender : PostOfficeOutput := mkPostOut (mkNetOut 7 1 false false) 0 false 0.
Definition hi : list byte := [byte.of_Z 104; byte.of_Z 105].
Definition hi_header : MailHeader := mkMailHeader 1 0 2.

Lemma small_ranges : is_s32 0 /\ is_s32 1 /\ representable hi_header.
Proof. unfold representable. cbn. unfold is_s32, is_u32. lia. Qed.

End SmallNet.

Lemma send_appends_witness : exists h po h' out' q',
  new_PostOfficeInput 1 SmallNet.zeros SmallNet.host0 2 0 0 0 = Ret (h, po) /\
  Send 0 SmallNet.zeros h SmallNet.sender (mkPacketHeader 1 5 5) SmallNet.hi_header SmallNet.hi 42 = Ret (h', out') /\
  mail_for po q' 1 = [(mkPacketHeader 1 0 14, SmallNet.hi_header, SmallNet.hi)] /\ mail_for po q' 0 = [].
Proof.
  destruct (new_PostOfficeInput_ok 1 SmallNet.zeros SmallNet.host0 2 0 0 0) as (h & po & Hn & I & Hb & Hm & _); [lia|].
  destruct SmallNet.small_ranges as (R0 & R1 & R2).
  destruct (send_appends 1 SmallNet.zeros 0 h SmallNet.sender po [] (mkPacketHeader 1 5 5) SmallNet.hi_header
    SmallNet.hi 42) as (h' & out' & q' & Hs & _ & _ & _ & _ & Hq); try done.
  - rewrite Hb. cbn. lia.
  - exists h, po, h', out', q'. split; [exact Hn|]. split; [exact Hs|]. rewrite !Hq, !Hm. done.
Defined.

Lemma receive_oldest_witness : exists h po h' po' dst,
  Receive 1 SmallNet.zeros 3 h po 1 (replicate 40 (byte.of_Z 0)) =
    Ret (h', po', mkPacketHeader 1 0 14, SmallNet.hi_header, dst) /\ take 2 dst = SmallNet.hi.
Proof.
  destruct (new_PostOfficeInput_ok 1 SmallNet.zeros SmallNet.host0 2 0 0 0) as (h & po & Hn & I & Hb & Hm & _); [lia|].
  destruct SmallNet.small_ranges as (R0 & R1 & R2).
  pose proof (mail_packet_deliverable 1 SmallNet.zeros 0 2 SmallNet.hi_header SmallNet.hi R0 R1 R2 ltac:(done) ltac:(done)
    ltac:(cbn; lia)) as Hd.
  pose proof (mail_packet_message 1 SmallNet.zeros 0 SmallNet.hi_header SmallNet.hi R0 R1 R2 ltac:(done) ltac:(done)) as Hw.
  set (p := mail_packet SmallNet.zeros 0 1 SmallNet.hi_header SmallNet.hi) in *.
  destruct (sendto_law h 0 p (socket_name 1) [] (pi_in _ _ _ _ I)) as (h1 & _ & Hin & _ & Hb1).
  pose proof (enqueue_inv 1 h h1 po [] p I ltac:(by rewrite Hb) Hin Hb1) as I1.
  destruct (receive_oldest 1 SmallNet.zeros 3 h1 po ([] ++ [p]) 1 (replicate 40 (byte.of_Z 0)) (wire_message p) [] I1)
    as (h' & po' & q' & Hr & _).
  - rewrite Hb. lia.
  - rewrite mail_for_snoc, Hm, Hw. done.
  - cbn. lia.
  - done.
  - exists h1, po, h', po'. eexists. rewrite Hr, Hw. split; [reflexivity|]. reflexivity.
Defined.

Lemma any_packet_contained_witness : exists h po,
  (poll 1 h po = AssertFail /\ ~ acceptable 1 (replicate 64 (byte.of_Z 0))).
Proof.
  destruct (new_PostOfficeInput_ok 1 SmallNet.zeros SmallNet.host0 2 0 0 0) as (h & po & Hn & I & Hb & Hm & _); [lia|].
  destruct (sendto_law h 0 (replicate 64 (byte.of_Z 0)) (socket_name 1) [] (pi_in _ _ _ _ I)) as (h1 & _ & Hin & _ & Hb1).
  destruct (any_packet_contained 1 SmallNet.zeros h1 po (replicate 64 (byte.of_Z 0)) [])
    as [Hp|[(_ & Ha & _) _]]; try done; try apply I.
  - apply Hb1, I.
  - destruct (pi_device _ _ _ _ I) as [[? _]|(p & _ & _ & _ & Hav)]; [done|].
    unfold new_PostOfficeInput in Hn. apply rbind_eq_Ret in Hn as ([h0 n0] & _ & [= _ <-]). cbn in Hav. lia.
  - exists h1, po. exact Hp.
Defined.
