(* ===== verification/KernelTests.v ===== *)
(** * The console test and the network test

    [ConsoleTest] and [NetworkTest] of threads/kernel.cc.  The first echoes what is typed.
    The second runs on two machines at once: each sends a message to the other, waits for
    the other's message, acknowledges it and waits for the acknowledgement.  A machine
    takes turns: a turn is a call of [Send], or one turn of a thread that waits in
    [Receive] (module [Post]); the two machines interleave in any way and share the
    host with its sockets. *)

From Stdlib Require Import QArith.
From S2P Require Import Prelude CString Host Main Syscalls Console Network Post.
#[local] Open Scope Z_scope.

(** ** The console test *)

Section console_test.
Context {H : Type} `{HostOS H}.

(** The loop of [ConsoleTest]; [polls] bounds the waiting for a key or the display. *)
Fixpoint ConsoleTest (polls fuel : nat) (k : Console H) : result (Console H) :=
  match fuel with
  | O => NoFuel
  | S fuel =>
      let* (k, ch) := GetChar polls k in
      let* k := if negb (ch =? EOF) then PutChar polls k ch else Ret k in
      if negb (ch =? EOF) then ConsoleTest polls fuel k else Ret k
  end.

End console_test.

(** ** The network test on one machine *)

(** What [NetworkTest] has still to do. *)
Inductive TestPc : Type :=
  | SendData                                              (* send the first message *)
  | WaitData                                              (* wait for the message from the other machine *)
  | SendAck (inPktHdr : PacketHeader) (inMailHdr : MailHeader)
  | WaitAck
  | Finished.

(** One machine in its test: the post office, the local variables, and what has been
    printed: the text, the machine and the mail box it came from. *)
Record TestMachine : Type := mkTest {
  hostName : Z;
  postOfficeIn : PostOfficeInput;
  postOfficeOut : PostOfficeOutput;
  pc : TestPc;
  outPktHdr : PacketHeader;
  test_buffer : list byte;
  got : list (list byte * Z * Z)
}.

Definition data_text : list byte := lit "Hello there!" ++ [NUL].
Definition ack_text : list byte := lit "Got it!" ++ [NUL].

Definition farHost (hostName : Z) : Z := if hostName =? 0 then 1 else 0.

Section network_test.
Context {H : Type} `{HostOS H} `{SocketOS H}.
Context (garbage : nat -> byte).

(** The start: the headers and the buffer are not initialised, only machines 0 and 1 do
    anything. *)
Definition NetworkTest_start (me : Z) (pin : PostOfficeInput) (pout : PostOfficeOutput) (hdr : PacketHeader) : TestMachine :=
  mkTest me pin pout (if (me =? 0) || (me =? 1) then SendData else Finished)
    (mkPacketHeader (farHost me) (pkt_from hdr) (pkt_length hdr)) (uninit garbage (Z.to_nat MaxMailSize)) [].

(** [postOfficeOut->Send]; [r] is the next random number. *)
Definition send_turn (h : H) (t : TestMachine) (mh : MailHeader) (msg : list byte) (pkt : PacketHeader) (next : TestPc) (r : Z)
    : result (H * TestMachine) :=
  let* (h, po) := Send (hostName t) garbage h (postOfficeOut t) pkt mh msg r in
  Ret (h, mkTest (hostName t) (postOfficeIn t) po next pkt (test_buffer t) (got t)).

(** A turn in [postOfficeIn->Receive], and what is printed after it. *)
Definition receive_and_print (h : H) (t : TestMachine) (box : Z) (next : PacketHeader -> MailHeader -> TestPc)
    : result (H * TestMachine) :=
  let* (h, po, o) := receive_turn (hostName t) garbage h (postOfficeIn t) box (test_buffer t) in
  match o with
  | None => Ret (h, mkTest (hostName t) po (postOfficeOut t) (pc t) (outPktHdr t) (test_buffer t) (got t))
  | Some (inPktHdr, inMailHdr, buffer) =>
      let* text := c_str buffer in
      Ret (h, mkTest (hostName t) po (postOfficeOut t) (next inPktHdr inMailHdr) (outPktHdr t) buffer
                (got t ++ [(text, pkt_from inPktHdr, mail_from inMailHdr)]))
  end.

(** One turn of [NetworkTest]. *)
Definition NetworkTest (h : H) (t : TestMachine) (r : Z) : result (H * TestMachine) :=
  match pc t with
  | SendData =>
      let* n := strlen data_text in
      send_turn h t (mkMailHeader 0 1 (n + 1)) data_text (outPktHdr t) WaitData r
  | WaitData => receive_and_print h t 0 SendAck
  | SendAck inPktHdr inMailHdr =>
      let* n := strlen ack_text in
      let pkt := mkPacketHeader (pkt_from inPktHdr) (pkt_from (outPktHdr t)) (pkt_length (outPktHdr t)) in
      send_turn h t (mkMailHeader (mail_from inMailHdr) 1 (n + 1)) ack_text pkt WaitAck r
  | WaitAck => receive_and_print h t 1 (fun _ _ => Finished)
  | Finished => Ret (h, t)
  end.

(** ** Two machines *)

(** Machine 0 is [machine false], machine 1 is [machine true]. *)
Record TestNet : Type := mkNet {
  net_host : H;
  machine : bool -> TestMachine
}.

(** The post office as [Kernel::Initialize] makes it, and the test about to start. *)
Definition test_init (h : H) (me : Z) (reliability : Q) (hdr : PacketHeader) : result (H * TestMachine) :=
  let* (h, pin) := new_PostOfficeInput me garbage h 10 (pkt_to hdr) (pkt_from hdr) 0 in
  let* (h, pout) := new_PostOfficeOutput h reliability 0 in
  Ret (h, NetworkTest_start me pin pout hdr).

Definition net_init (h : H) (reliability : Q) (hdr0 hdr1 : PacketHeader) : result TestNet :=
  let* (h, t0) := test_init h 0 reliability hdr0 in
  let* (h, t1) := test_init h 1 reliability hdr1 in
  Ret (mkNet h (fun b : bool => if b then t1 else t0)).

(** A turn of machine [b], with the random number it draws, if it draws one. *)
Definition net_step (w : TestNet) (turn : bool * Z) : result TestNet :=
  let (b, r) := turn in
  let* (h, t) := NetworkTest (net_host w) (machine w b) r in
  Ret (mkNet h (fun c => if Bool.eqb c b then t else machine w c)).

Fixpoint net_run (w : TestNet) (turns : list (bool * Z)) : result TestNet :=
  match turns with
  | [] => Ret w
  | turn :: turns => let* w := net_step w turn in net_run w turns
  end.

End network_test.
Arguments TestNet : clear implicits.

(** ** The console test echoes *)

Lemma ConsoleTest_S {H} `{HostOS H} polls fuel (k : Console H) : ConsoleTest polls (S fuel) k =
  (let* (k, ch) := GetChar polls k in
   let* k := if negb (ch =? EOF) then PutChar polls k ch else Ret k in
   if negb (ch =? EOF) then ConsoleTest polls fuel k else Ret k).
Proof. done. Qed.

(** The console test displays exactly what is typed, up to the end of the input or the
    first byte that reads as the end, and then stops, whenever interrupts fire; it takes
    one turn for every character and one for the end. *)
Theorem console_echo {H} `{CharDevices H} n (k : Console H) : quiet k -> attended k ->
  (length (clock k) + max_delay < n)%nat ->
  exists k', ConsoleTest n (S (length (input k))) k = Ret k' /\ output k' = output k ++ input k /\ input k' = [].
Proof.
  remember (input k) as l eqn:Hin. symmetry in Hin. revert k Hin.
  induction l as [|b l IH]; intros k Hin Q Ha Hn; rewrite ConsoleTest_S;
    destruct (GetChar_result n k Q Ha Hn) as (k1 & c & -> & Q1 & Ho1 & Hk1 & Hcase);
    rewrite rbind_Ret; rewrite Hin in Hcase; destruct Hcase as (-> & Hcase).
  - change (negb (EOF =? EOF)) with false. cbv iota. rewrite rbind_Ret.
    exists k1. rewrite app_nil_r. by destruct Hcase.
  - destruct Hcase as (Hb & Hin1 & Ha1). rewrite (proj2 (Z.eqb_neq _ _) Hb). cbn [negb].
    destruct (PutChar_result n k1 (schar b) Q1) as (k2 & -> & Q2 & Hin2 & Ho2 & Hk2 & Ha2); [lia|]. rewrite rbind_Ret.
    destruct (IH k2) as (k' & HC & Ho & Hi); [congruence|done|auto|lia|]. exists k'. cbn [length]. rewrite HC.
    split; [done|]. split; [|done]. rewrite Ho, Ho2, Ho1, <- app_assoc, of_schar. done.
Qed.

Lemma console_echo_witness : exists k', ConsoleTest 6 4 (timed_console hello poll_early) = Ret k' /\ output k' = hello.
Proof.
  destruct (console_echo 6 (timed_console hello poll_early) (timed_console_quiet hello poll_early)) as (k' & HC & Ho & _).
  - left. reflexivity.
  - simpl. lia.
  - exists k'. split; [exact HC|exact Ho].
Defined.

(** ** The network test finishes *)

Definition num (b : bool) : Z := if b then 1 else 0.

(** How far a machine is. *)
Definition stage (p : TestPc) : nat :=
  match p with SendData => 0 | WaitData => 1 | SendAck _ _ => 2 | WaitAck => 3 | Finished => 4 end.

(** The two messages for machine [b], as they arrive. *)
Definition data_message (b : bool) : message :=
  (mkPacketHeader (num b) (num (negb b)) 25, mkMailHeader 0 1 13, data_text).
Definition ack_message (b : bool) : message :=
  (mkPacketHeader (num b) (num (negb b)) 20, mkMailHeader 1 1 8, ack_text).

(** The mail for a machine at stage [s], the other machine being at stage [so]. *)
Definition mail0 (b : bool) (s so : nat) : list message :=
  if decide (1 <= so /\ s <= 1)%nat then [data_message b] else [].
Definition mail1 (b : bool) (s so : nat) : list message :=
  if decide (3 <= so /\ s <= 3)%nat then [ack_message b] else [].

(** What machine [b] has printed. *)
Definition printed (b : bool) (s : nat) : list (list byte * Z * Z) :=
  (if decide (2 <= s)%nat then [(lit "Hello there!", num (negb b), 1)] else []) ++
  (if decide (4 <= s)%nat then [(lit "Got it!", num (negb b), 1)] else []).

Lemma printed_prefix b s : printed b s `prefix_of` printed b 4.
Proof.
  unfold printed. cbn. repeat case_decide; try lia; cbn; [by exists []|by eexists|by eexists].
Qed.

Lemma socket_names b : socket_name (num (negb b)) <> socket_name (num b).
Proof. destruct b; vm_compute; congruence. Qed.

Lemma num_s32 b : is_s32 (num b).
Proof. destruct b; unfold is_s32; simpl; lia. Qed.

Section proofs.
Context {H : Type} `{Datagrams H}.
Context (garbage : nat -> byte).

(** Machine [b] at its stage, the other one being at stage [so]; [q] is its socket. *)
Record machine_ok (b : bool) (h : H) (so : nat) (t : TestMachine) (q : list (list byte)) : Prop := {
  mo_host : hostName t = num b;
  mo_inv : PostInv (num b) h (postOfficeIn t) q;
  mo_boxes : numBoxes (postOfficeIn t) = 10;
  mo_idle : idle_sender (postOfficeOut t);
  mo_lost r : 0 <= r -> lost (out_network (postOfficeOut t)) r = false;
  mo_to : pkt_to (outPktHdr t) = num (negb b);
  mo_buffer : Z.of_nat (length (test_buffer t)) = MaxMailSize;
  mo_mail0 : mail_for (postOfficeIn t) q 0 = mail0 b (stage (pc t)) so;
  mo_mail1 : mail_for (postOfficeIn t) q 1 = mail1 b (stage (pc t)) so;
  mo_got : got t = printed b (stage (pc t));
  mo_pc p m : pc t = SendAck p m -> pkt_from p = num (negb b) /\ mail_from m = 1;
  mo_order : ((2 <= stage (pc t) -> 1 <= so) /\ (4 <= stage (pc t) -> 3 <= so))%nat
}.

(** What is still to do: three turns for a stage, and the backlog of the post office. *)
Definition todo (t : TestMachine) (q : list (list byte)) : nat :=
  3 * (4 - stage (pc t)) + backlog (postOfficeIn t) q.

(** A machine that is not waiting in vain. *)
Definition can_go (s so : nat) : Prop := (s = 0 \/ s = 2 \/ (s = 1 /\ 1 <= so) \/ (s = 3 /\ 3 <= so))%nat.

Lemma lost_chance n n' r : chanceToWork n' = chanceToWork n -> lost n' r = lost n r.
Proof. unfold lost. by intros ->. Qed.

(** Turns of one machine do not disturb the socket of the other. *)
Lemma machine_ok_frame b c h h' so t q : others (num c) h h' -> c <> b -> machine_ok b h so t q -> machine_ok b h' so t q.
Proof.
  intros [Hin Hb] Hne []. split; auto. destruct mo_inv0. split; auto. rewrite Hin; [done|].
  destruct b, c; try done; vm_compute; congruence.
Qed.

(** The machines after a turn of machine [b], of which something may have come, unless the
    machine can only wait. *)
Definition turn_ok (b : bool) (h : H) (so : nat) (t t' : TestMachine) (q q' : list (list byte)) (res : result (H * TestMachine)) : Prop :=
  exists h1 t1 q1 q1', res = Ret (h1, t1) /\ machine_ok b h1 so t1 q1 /\ machine_ok (negb b) h1 (stage (pc t1)) t' q1' /\
    ((todo t1 q1 + todo t' q1' < todo t q + todo t' q')%nat \/
     stage (pc t1) = stage (pc t) /\ (todo t1 q1 + todo t' q1' = todo t q + todo t' q')%nat /\ ~ can_go (stage (pc t)) so).

(** The message [m] brings the other machine's mail to the next stage. *)
Definition brings (b : bool) (so s s' : nat) (box : Z) (m : message) : Prop :=
  mail0 (negb b) so s' = mail0 (negb b) so s ++ (if decide (box = 0) then [m] else []) /\
  mail1 (negb b) so s' = mail1 (negb b) so s ++ (if decide (box = 1) then [m] else []) /\
  mail0 b s' so = mail0 b s so /\ mail1 b s' so = mail1 b s so /\ printed b s' = printed b s /\
  ((2 <= s' -> 1 <= so) /\ (4 <= s' -> 3 <= so))%nat.

Lemma send_turn_ok b h t t' q q' mh msg pkt next r :
  machine_ok b h (stage (pc t')) t q -> machine_ok (negb b) h (stage (pc t)) t' q' -> 0 <= r ->
  pkt_to pkt = num (negb b) -> representable mh -> mail_length mh = Z.of_nat (length msg) ->
  mail_length mh <= MaxMailSize -> 0 <= mail_to mh < 10 ->
  stage next = S (stage (pc t)) -> (stage (pc t) < 4)%nat -> (forall p m, next <> SendAck p m) ->
  brings b (stage (pc t')) (stage (pc t)) (stage next) (mail_to mh)
    (mkPacketHeader (num (negb b)) (num b) (mail_length mh + 12), mh, msg) ->
  turn_ok b h (stage (pc t')) t t' q q' (send_turn garbage h t mh msg pkt next r).
Proof.
  intros [Eh I Hb Hi Hl Ht Hbuf M0 M1 Hg Hp Hord] [Eh' I' Hb' Hi' Hl' Ht' Hbuf' M0' M1' Hg' Hp' Hord'] Hr Hto Hmh Hlen Hmax Hbox Hst Hst4 Hnext (B0 & B1 & B2 & B3 & B4 & B5). unfold send_turn. rewrite Eh.
  destruct (Send_enqueues (num (negb b)) garbage (num b) h (postOfficeOut t) (postOfficeIn t') q' pkt mh msg r)
    as (h1 & out & q1 & -> & Hidle & _ & Hch & Hq & Hinv & Ho & Hmail); auto using num_s32; try lia.
  rewrite rbind_Ret. eexists h1, _, q, q1. split; [done|].
  assert (E : take (Z.to_nat (mail_length mh)) msg = msg) by (apply take_ge; lia).
  change (sizeof (T := MailHeader)) with 12 in Hmail. rewrite E in Hmail. split; [|split].
  - apply (machine_ok_frame b (negb b) h); [done|by destruct b|].
    split; cbn [hostName postOfficeIn postOfficeOut pc outPktHdr test_buffer got]; rewrite ?B2, ?B3, ?B4; auto.
    + intros r' Hr'. rewrite (lost_chance (out_network (postOfficeOut t))); auto.
    + intros p m E'. by destruct (Hnext p m).
  - cbn [pc]. split; auto; rewrite ?Hmail, ?B0, ?B1, ?M0', ?M1'; auto. lia.
  - left. unfold todo, backlog. cbn [pc postOfficeIn]. lia.
Qed.

(** The two places where a machine waits: the box, the message it waits for, and the text
    in it. *)
Definition waits (b : bool) (p : TestPc) (box : Z) (next : PacketHeader -> MailHeader -> TestPc) (m : message) (text : list byte) : Prop :=
  (p = WaitData /\ box = 0 /\ next = SendAck /\ m = data_message b /\ text = lit "Hello there!") \/
  (p = WaitAck /\ box = 1 /\ next = (fun _ _ => Finished) /\ m = ack_message b /\ text = lit "Got it!").

(** What the invariant says of the box it waits for. *)
Lemma waits_mail b h so t q box next m text : machine_ok b h so t q -> waits b (pc t) box next m text ->
  0 <= box < 10 /\ (stage (pc t) < 4)%nat /\
  ((mail_for (postOfficeIn t) q box = [m] /\ can_go (stage (pc t)) so) \/
   (mail_for (postOfficeIn t) q box = [] /\ ~ can_go (stage (pc t)) so)).
Proof.
  intros [Eh I Hb Hi Hl Ht Hbuf M0 M1 Hg Hp Hord] [(E & -> & _ & -> & _)|(E & -> & _ & -> & _)];
    rewrite E in *; cbn [stage] in *; (split; [lia|]); (split; [lia|]).
  - rewrite M0. unfold mail0, can_go. destruct (decide _); [left|right]; (split; [done|lia]).
  - rewrite M1. unfold mail1, can_go. destruct (decide _); [left|right]; (split; [done|lia]).
Qed.

Lemma message_text b box p next m text rest : waits b p box next m text -> length m.2 = Z.to_nat (mail_length m.1.2) /\
  c_str (m.2 ++ rest) = Ret text.
Proof.
  intros [(_ & _ & _ & -> & ->)|(_ & _ & _ & -> & ->)]; (split; [done|]); apply c_str_holds; unfold data_message, ack_message;
    cbn [snd]; unfold data_text, ack_text; rewrite <- app_assoc; (split; [vm_compute; set_solver|by eexists]).
Qed.

(** Nothing but the message moves when it arrives. *)
Lemma waits_done b h so t q box next m text : machine_ok b h so t q -> waits b (pc t) box next m text -> can_go (stage (pc t)) so ->
  let s' := stage (next m.1.1 m.1.2) in
  s' = S (stage (pc t)) /\ printed b s' = printed b (stage (pc t)) ++ [(text, pkt_from m.1.1, mail_from m.1.2)] /\
  (forall s, mail0 (negb b) s s' = mail0 (negb b) s (stage (pc t)) /\ mail1 (negb b) s s' = mail1 (negb b) s (stage (pc t))) /\
  mail0 b s' so = (if decide (box = 0) then [] else mail_for (postOfficeIn t) q 0) /\
  mail1 b s' so = (if decide (box = 1) then [] else mail_for (postOfficeIn t) q 1) /\
  ((2 <= s' -> 1 <= so) /\ (4 <= s' -> 3 <= so))%nat /\
  (forall p' m', next m.1.1 m.1.2 = SendAck p' m' -> pkt_from p' = num (negb b) /\ mail_from m' = 1).
Proof.
  intros [Eh I Hb Hi Hl Ht Hbuf M0 M1 Hg Hp Hord] [(E & -> & -> & -> & ->)|(E & -> & -> & -> & ->)] Hc;
    rewrite E in *; unfold can_go in Hc; cbn in Hc |- *; rewrite ?M0, ?M1; cbn [stage]; unfold mail0, mail1 in *.
  - split; [done|]. split; [done|]. split; [intros s; split; repeat case_decide; done || lia|].
    split_and!; try (repeat case_decide; done || lia); try lia. by intros p' m' [= <- <-].
  - split; [done|]. split; [done|]. split; [intros s; split; repeat case_decide; done || lia|].
    split_and!; repeat case_decide; done || lia.
Qed.

Lemma receive_and_print_ok b h t t' q q' box next m text :
  machine_ok b h (stage (pc t')) t q -> machine_ok (negb b) h (stage (pc t)) t' q' -> waits b (pc t) box next m text ->
  turn_ok b h (stage (pc t')) t t' q q' (receive_and_print garbage h t box next).
Proof.
  intros M M' W. destruct (waits_mail b h _ t q box next m text M W) as (Hbox & Hs4 & Hmail).
  pose proof (waits_done b h _ t q box next m text M W) as Hdone.
  pose proof M as [Eh I Hb Hi Hl Ht Hbuf M0 M1 Hg Hp Hord]. unfold receive_and_print. rewrite Eh.
  destruct (receive_turn_ok (num b) garbage h (postOfficeIn t) q box (test_buffer t) I)
    as (h1 & po & q1 & o & -> & Ho & I1 & Hn & Hother & Hcase); [lia|lia|]. rewrite rbind_Ret.
  assert (Hne : b <> negb b) by (by destruct b).
  destruct o as [[[pkt mh] dst]|].
  - destruct Hcase as (m' & Hm & -> & -> & -> & Hlog). destruct Hmail as [[E Hc]|[E _]]; rewrite E in Hm; [|done].
    injection Hm as <- Hrest. destruct (message_text b box (pc t) next m text (drop (Z.to_nat (mail_length m.1.2)) (test_buffer t)) W) as [Hlen ->].
    rewrite rbind_Ret. destruct (Hdone Hc) as (Es & Ep & Hsame & E0 & E1 & Eo & Epc). eexists h1, _, q1, q'. split; [done|]. split; [|split].
    + split; cbn [hostName postOfficeIn postOfficeOut pc outPktHdr test_buffer got]; auto; try congruence.
      * rewrite length_app, length_drop, Hlen. destruct W as [(_ & _ & _ & -> & _)|(_ & _ & _ & -> & _)];
          change MaxMailSize with 40 in *; cbn; lia.
      * rewrite E0. destruct (decide (box = 0)) as [->|]; [done|apply Hother; lia].
      * rewrite E1. destruct (decide (box = 1)) as [->|]; [done|apply Hother; lia].
    + destruct (Hsame (stage (pc t'))) as [S0 S1]. destruct (machine_ok_frame _ _ _ _ _ _ _ Ho Hne M'). split; auto;
        cbn [pc]; rewrite ?S0, ?S1; auto. rewrite Es. lia.
    + left. unfold todo. cbn [pc postOfficeIn]. rewrite Es, Hlog. lia.
  - destruct Hcase as (Hsame & Hlog & Hprog). eexists h1, _, q1, q'. split; [done|].
    assert (Hall : forall c, 0 <= c -> mail_for po q1 c = mail_for (postOfficeIn t) q c).
    { intros c Hc. destruct (decide (c = box)) as [->|]; auto. }
    split; [|split; [by apply (machine_ok_frame (negb b) b h)|]].
    + split; cbn [hostName postOfficeIn postOfficeOut pc outPktHdr test_buffer got]; auto; try congruence; by rewrite Hall.
    + unfold todo. cbn [pc postOfficeIn]. rewrite Hlog. destruct (backlog (postOfficeIn t) q) as [|n]; [right|left; lia].
      split; [done|]. split; [lia|]. destruct Hmail as [[E _]|[_ Hc]]; [|done]. exfalso. apply Hprog; [by rewrite E|done].
Qed.

(** A turn of machine [b]. *)
Lemma NetworkTest_ok b h t t' q q' r : machine_ok b h (stage (pc t')) t q -> machine_ok (negb b) h (stage (pc t)) t' q' -> 0 <= r ->
  turn_ok b h (stage (pc t')) t t' q q' (NetworkTest garbage h t r).
Proof.
  intros M M' Hr. pose proof M as [Eh I Hb Hi Hl Ht Hbuf M0 M1 Hg Hp Hord]. pose proof (mo_order _ _ _ _ _ M') as Hord'.
  unfold NetworkTest. destruct (pc t) as [| |p mh| |] eqn:E; cbn [stage] in Hord, Hord'.
  - change (strlen data_text) with (Ret 12). rewrite rbind_Ret.
    apply send_turn_ok; rewrite ?E; auto; try done; cbn; try lia.
    unfold brings, mail0, mail1. cbn. split_and!; repeat case_decide; first [done|lia|by destruct b].
  - apply (receive_and_print_ok b h t t' q q' 0 SendAck (data_message b) (lit "Hello there!")); rewrite ?E; try done. by left.
  - destruct (Hp p mh eq_refl) as [Hpf Hmf]. change (strlen ack_text) with (Ret 7). rewrite rbind_Ret, Hpf, Hmf.
    apply send_turn_ok; rewrite ?E; auto; try done; cbn; try lia.
    unfold brings, mail0, mail1. cbn. split_and!; repeat case_decide; first [done|lia|by destruct b].
  - apply (receive_and_print_ok b h t t' q q' 1 (fun _ _ => Finished) (ack_message b) (lit "Got it!")); rewrite ?E; try done. by right.
  - exists h, t, q, q'. rewrite E. split_and!; auto. right. unfold can_go. cbn. lia.
Qed.

(** ** Both machines *)

Definition stage_of (w : TestNet H) (b : bool) : nat := stage (pc (machine w b)).

Definition net_ok (w : TestNet H) (q : bool -> list (list byte)) : Prop :=
  forall b, machine_ok b (net_host w) (stage_of w (negb b)) (machine w b) (q b).

Definition net_todo (w : TestNet H) (q : bool -> list (list byte)) : nat :=
  todo (machine w false) (q false) + todo (machine w true) (q true).

(** A turn makes the rest smaller, or it was a turn of a machine that can only wait. *)
Lemma net_step_ok w q b r : net_ok w q -> 0 <= r ->
  exists w' q', net_step garbage w (b, r) = Ret w' /\ net_ok w' q' /\
    ((net_todo w' q' < net_todo w q)%nat \/
     (forall c, stage_of w' c = stage_of w c) /\ net_todo w' q' = net_todo w q /\
     ~ can_go (stage_of w b) (stage_of w (negb b))).
Proof.
  intros Hw Hr. pose proof (Hw b) as M. pose proof (Hw (negb b)) as M'. rewrite negb_involutive in M'.
  destruct (NetworkTest_ok b (net_host w) (machine w b) (machine w (negb b)) (q b) (q (negb b)) r M M' Hr)
    as (h1 & t1 & q1 & q1' & HN & M1 & M1' & Hprog).
  unfold net_step. rewrite HN, rbind_Ret.
  eexists _, (fun c => if Bool.eqb c b then q1 else q1'). split; [done|]. unfold net_ok, net_todo, stage_of in *. cbn [net_host machine]. split.
  - intros c. destruct b, c; cbn [Bool.eqb negb] in *; done.
  - destruct Hprog as [Hlt|(Hst & Heq & Hno)]; [left; destruct b; cbn [Bool.eqb negb] in *; lia|right].
    split; [intros c; destruct b, c; cbn [Bool.eqb negb] in *; done|].
    split; [destruct b; cbn [Bool.eqb negb] in *; lia|done].
Qed.

(** Any sequence of turns: no assertion fails. *)
Lemma net_run_ok turns : forall w q, net_ok w q -> Forall (fun turn => 0 <= turn.2) turns ->
  exists w' q', net_run garbage w turns = Ret w' /\ net_ok w' q' /\
    ((net_todo w' q' < net_todo w q)%nat \/
     (forall c, stage_of w' c = stage_of w c) /\ net_todo w' q' = net_todo w q /\
     forall b, b ∈ turns.*1 -> ~ can_go (stage_of w b) (stage_of w (negb b))).
Proof.
  induction turns as [|[b r] turns IH]; intros w q Hw Hr.
  - exists w, q. split_and!; auto. right. split_and!; auto. set_solver.
  - apply Forall_cons in Hr as [Hr Hrs].
    destruct (net_step_ok w q b r Hw Hr) as (w1 & q1 & HS & Hw1 & Hp1).
    destruct (IH w1 q1 Hw1 Hrs) as (w2 & q2 & HR & Hw2 & Hp2).
    exists w2, q2. cbn [net_run]. rewrite HS, rbind_Ret. split_and!; auto.
    destruct Hp1 as [?|(Hs1 & Ht1 & Hc1)], Hp2 as [?|(Hs2 & Ht2 & Hc2)]; try (left; lia).
    right. split; [intros c; by rewrite Hs2|]. split; [lia|]. intros c. rewrite fmap_cons, elem_of_cons.
    intros [->|Hc]; [done|]. rewrite <- !Hs1. by apply Hc2.
Qed.

(** While the test is not over, one of the machines is not waiting in vain. *)
Lemma someone_can_go w q : net_ok w q -> stage_of w false <> 4%nat \/ stage_of w true <> 4%nat ->
  exists b, can_go (stage_of w b) (stage_of w (negb b)).
Proof.
  intros Hw Hne. pose proof (mo_order _ _ _ _ _ (Hw false)) as O0. pose proof (mo_order _ _ _ _ _ (Hw true)) as O1.
  cbn [negb] in *. unfold can_go. fold (stage_of w false) in *. fold (stage_of w true) in *.
  assert (L : forall b, (stage_of w b <= 4)%nat) by (intros b; unfold stage_of; destruct (pc (machine w b)); simpl; lia).
  pose proof (L false). pose proof (L true).
  destruct (decide (stage_of w false = 0 \/ stage_of w false = 2 \/
    (stage_of w false = 1 /\ 1 <= stage_of w true) \/ (stage_of w false = 3 /\ 3 <= stage_of w true))%nat); [by exists false|].
  exists true. cbn [negb]. lia.
Qed.

(** A round gives each machine a turn. *)
Definition fair_round (turns : list (bool * Z)) : Prop :=
  Forall (fun turn => 0 <= turn.2) turns /\ forall b, b ∈ turns.*1.

Lemma net_run_app turns turns' (w : TestNet H) :
  net_run garbage w (turns ++ turns') = (let* w := net_run garbage w turns in net_run garbage w turns').
Proof.
  revert w. induction turns as [|turn turns IH]; intros w; [done|]. cbn [net_run app]. rewrite rbind_assoc.
  destruct (net_step garbage w turn); done || apply IH.
Qed.

(** The end of the test. *)
Lemma finished_stays turns : forall w : TestNet H, (forall b, stage_of w b = 4%nat) ->
  exists w', net_run garbage w turns = Ret w' /\ forall b, stage_of w' b = 4%nat.
Proof.
  induction turns as [|[b r] turns IH]; intros w Hw; [by exists w|]. cbn [net_run].
  assert (Hpc : pc (machine w b) = Finished) by (specialize (Hw b); unfold stage_of in Hw; by destruct (pc (machine w b))).
  unfold net_step, NetworkTest. rewrite Hpc, !rbind_Ret. apply IH. intros c. unfold stage_of. cbn [machine].
  destruct (Bool.eqb_spec c b) as [->|_]; [by rewrite Hpc|apply Hw].
Qed.

Lemma rounds_finish rounds : forall w q, net_ok w q -> Forall fair_round rounds -> (net_todo w q <= length rounds)%nat ->
  exists w' q', net_run garbage w (concat rounds) = Ret w' /\ net_ok w' q' /\ forall b, stage_of w' b = 4%nat.
Proof.
  induction rounds as [|rd rounds IH]; intros w q Hw Hf Hn.
  - exists w, q. split_and!; auto. intros b. cbn in Hn. unfold net_todo, todo, stage_of in *.
    destruct b, (pc (machine w false)), (pc (machine w true)); cbn in *; lia.
  - apply Forall_cons in Hf as [[Hr Hb] Hf]. destruct (net_run_ok rd w q Hw Hr) as (w1 & q1 & HR & Hw1 & Hp).
    assert (Hcase : (net_todo w1 q1 <= length rounds)%nat \/ forall b, stage_of w1 b = 4%nat).
    { destruct Hp as [?|(Hs & Ht & Hc)]; [left; simpl in Hn; lia|].
      destruct (decide (stage_of w false = 4%nat /\ stage_of w true = 4%nat)) as [[E0 E1]|Hne].
      - right. intros b. rewrite Hs. by destruct b.
      - destruct (someone_can_go w q Hw) as (b & Hgo); [lia|]. destruct (Hc b (Hb b) Hgo). }
    cbn [concat]. rewrite net_run_app, HR, rbind_Ret. destruct Hcase as [Hle|Hall].
    + by apply (IH w1 q1).
    + assert (Hrs : Forall (fun turn => 0 <= turn.2) (concat rounds)).
      { apply Forall_concat. eapply Forall_impl; [exact Hf|]. by intros rd' [? _]. }
      destruct (net_run_ok (concat rounds) w1 q1 Hw1 Hrs) as (w2 & q2 & HR2 & Hw2 & _).
      destruct (finished_stays (concat rounds) w1 Hall) as (w2' & HR2' & Hall2). rewrite HR2 in HR2'. injection HR2' as <-.
      by exists w2, q2.
Qed.

(** ** The start *)

Lemma new_PostOfficeOutput_ok (h : H) reliability : (1 <= reliability)%Q ->
  exists h' out, new_PostOfficeOutput h reliability 0 = Ret (h', out) /\ idle_sender out /\
    (forall r, 0 <= r -> lost (out_network out) r = false) /\
    (forall name, inbound h' name = inbound h name) /\ (forall s name, bound h s name -> bound h' s name).
Proof.
  intros Hrel. destruct (new_NetworkOutput h reliability) as [[h' n]| | | |] eqn:E.
  { exists h', (mkPostOut n 0 false 0). unfold new_PostOfficeOutput. rewrite E, rbind_Ret. split; [done|].
    pose proof E as E'. unfold new_NetworkOutput, OpenSocket in E'.
    destruct (socket_law h) as (h1 & s & Hs & Hs0 & _ & Hin & Hb). rewrite Hs in E'.
    rewrite ASSERT_true, !rbind_Ret in E' by (rewrite Z.geb_leb; by apply Z.leb_le). injection E' as <- <-.
    split_and!; auto; [done|]. intros r Hr. by apply (lost_extremes h reliability h1 _ r E Hr). }
  all: exfalso; unfold new_NetworkOutput, OpenSocket in E; destruct (socket_law h) as (h1 & s & Hs & Hs0 & _);
    rewrite Hs, ASSERT_true, !rbind_Ret in E by (rewrite Z.geb_leb; by apply Z.leb_le); done.
Qed.

(** A machine starts; a socket with another name is left alone. *)
Lemma test_init_ok (h : H) b reliability hdr : (1 <= reliability)%Q ->
  exists h' t, test_init garbage h (num b) reliability hdr = Ret (h', t) /\ pc t = SendData /\
    machine_ok b h' 0 t [] /\ todo t [] = 12%nat /\
    (forall name', name' <> socket_name (num b) -> inbound h' name' = inbound h name') /\
    (forall s' name', name' <> socket_name (num b) -> bound h s' name' -> bound h' s' name').
Proof.
  intros Hrel. unfold test_init.
  destruct (new_PostOfficeInput_ok (num b) garbage h 10 (pkt_to hdr) (pkt_from hdr) 0)
    as (h1 & po & Hpo & I & Hnb & Hm & Hin & Hb); [lia|]. rewrite Hpo, rbind_Ret.
  destruct (new_PostOfficeOutput_ok h1 reliability Hrel) as (h2 & out & -> & Hidle & Hlost & Hin2 & Hb2). rewrite rbind_Ret.
  eexists _, _. split; [done|].
  assert (Hpc : pc (NetworkTest_start garbage (num b) po out hdr) = SendData) by (by destruct b).
  assert (Hav : messageAvailable po = 0).
  { unfold new_PostOfficeInput in Hpo. by apply rbind_eq_Ret in Hpo as ([h0 n0] & _ & [= _ <-]). }
  split; [done|]. split; [|split; [|split]].
  - split; rewrite ?Hpc; cbn [stage]; auto; try done.
    + cbn. destruct I. split; auto. by rewrite Hin2.
    + by destruct b.
    + lia.
  - unfold todo, backlog. rewrite Hpc. unfold NetworkTest_start; cbn [postOfficeIn]. by rewrite Hav.
  - intros name' Hn. by rewrite Hin2, Hin.
  - auto.
Qed.

Lemma net_init_ok (h : H) reliability hdr0 hdr1 : (1 <= reliability)%Q ->
  exists w q, net_init garbage h reliability hdr0 hdr1 = Ret w /\ net_ok w q /\ net_todo w q = 24%nat.
Proof.
  intros Hrel. unfold net_init.
  destruct (test_init_ok h false reliability hdr0 Hrel) as (h0 & t0 & E0 & P0 & M0 & T0 & _). cbn [num] in E0.
  rewrite E0, rbind_Ret.
  destruct (test_init_ok h0 true reliability hdr1 Hrel) as (h1 & t1 & E1 & P1 & M1 & T1 & Hin & Hb). cbn [num] in E1.
  rewrite E1, rbind_Ret. eexists _, (fun _ => []). split; [done|]. split.
  - intros b. unfold stage_of. cbn [machine net_host]. destruct b; cbn [negb]; rewrite ?P0, ?P1; cbn [stage]; [done|].
    destruct M0 as [Eh I]. split; auto. destruct I. pose proof (socket_names true) as Hne. split; auto. by rewrite Hin.
  - unfold net_todo. cbn [machine]. lia.
Qed.

End proofs.

(** C27: The network test works between two machines: on a network that loses nothing, once
    both post offices are open, no sequence of turns makes an assertion fail, whatever
    random numbers are drawn, and what the machines have printed is always the beginning
    of the expected output; and after twenty-four rounds in which each machine has a turn,
    both have finished, each having printed the message and then the acknowledgement of
    the other. *)
Theorem network_test_finishes {H} `{Datagrams H} (garbage : nat -> byte) (h : H) reliability hdr0 hdr1 :
  (1 <= reliability)%Q ->
  exists w, net_init garbage h reliability hdr0 hdr1 = Ret w /\
    (forall turns, Forall (fun turn => 0 <= turn.2) turns -> exists w', net_run garbage w turns = Ret w' /\
       forall b, got (machine w' b) `prefix_of` printed b 4) /\
    (forall rounds, Forall fair_round rounds -> (24 <= length rounds)%nat ->
       exists w', net_run garbage w (concat rounds) = Ret w' /\
         forall b, pc (machine w' b) = Finished /\
           got (machine w' b) = [(lit "Hello there!", num (negb b), 1); (lit "Got it!", num (negb b), 1)]).
Proof.
  intros Hrel. destruct (net_init_ok garbage h reliability hdr0 hdr1 Hrel) as (w & q & HI & Hw & Htodo).
  exists w. split; [done|]. split.
  - intros turns Hr. destruct (net_run_ok garbage turns w q Hw Hr) as (w' & q' & HR & Hw' & _).
    exists w'. split; [done|]. intros b. rewrite (mo_got _ _ _ _ _ (Hw' b)). by apply printed_prefix.
  - intros rounds Hf Hn. destruct (rounds_finish garbage rounds w q Hw Hf ltac:(lia)) as (w' & q' & HR & Hw' & Hall).
    exists w'. split; [done|]. intros b. pose proof (mo_got _ _ _ _ _ (Hw' b)) as Hg. specialize (Hall b).
    unfold stage_of in Hall. destruct (pc (machine w' b)); done.
Qed.

Lemma network_test_finishes_witness : exists w w',
  net_init SmallNet.zeros SmallNet.host0 1 (mkPacketHeader 5 6 7) (mkPacketHeader 0 0 0) = Ret w /\
  net_run SmallNet.zeros w (concat (replicate 24 [(true, 3); (false, 4)])) = Ret w' /\
  got (machine w' true) = [(lit "Hello there!", 0, 1); (lit "Got it!", 0, 1)].
Proof.
  destruct (network_test_finishes SmallNet.zeros SmallNet.host0 1 (mkPacketHeader 5 6 7) (mkPacketHeader 0 0 0))
    as (w & HI & _ & Hfin).
  - apply Qle_refl.
  - destruct (Hfin (replicate 24 [(true, 3); (false, 4)])) as (w' & HR & Hall).
    + apply Forall_replicate. split; [repeat constructor; cbn; lia|]. intros [|]; set_solver.
    + rewrite length_replicate. lia.
    + exists w, w'. split; [exact HI|]. split; [exact HR|apply (Hall true)].
Defined.

(** A machine that is neither 0 nor 1 has nothing to do. *)
Lemma bystander {H} `{HostOS H} `{SocketOS H} garbage (h : H) me pin pout hdr r : me <> 0 -> me <> 1 ->
  NetworkTest garbage h (NetworkTest_start garbage me pin pout hdr) r =
    Ret (h, NetworkTest_start garbage me pin pout hdr).
Proof.
  intros H0' H1'. unfold NetworkTest, NetworkTest_start.
  by rewrite (proj2 (Z.eqb_neq me 0)), (proj2 (Z.eqb_neq me 1)) by done.
Qed.
