(* ===== verification/LoadDelay.v ===== *)
(** * Pending loads

    A load takes effect one instruction late (machine/mipssim.cc, [DelayedLoad]): the next
    instruction still sees the old value.  Every interrupt and every exception completes
    the pending load early.  This file compares an instruction on a machine with a pending
    load and on the machine where the load has been completed. *)

From S2P Require Import Prelude Machine Mips.
#[local] Open Scope Z_scope.

(** ** What an instruction uses *)

(** The general registers that the case of the switch reads or assigns; not the register
    that a load will load. *)
Definition uses (i : Instruction) : list Z :=
  match opCode i with
  | OP_ADD | OP_ADDU | OP_AND | OP_NOR | OP_OR | OP_SLLV | OP_SLT | OP_SLTU | OP_SRAV | OP_SRLV
  | OP_SUB | OP_SUBU | OP_XOR => [rs i; rt i; rd i]
  | OP_ADDI | OP_ADDIU | OP_ANDI | OP_ORI | OP_SLTI | OP_SLTIU | OP_XORI => [rs i; rt i]
  | OP_LUI => [rt i]
  | OP_SLL | OP_SRA | OP_SRL => [rt i; rd i]
  | OP_BEQ | OP_BNE | OP_DIV | OP_DIVU | OP_MULT | OP_MULTU => [rs i; rt i]
  | OP_BGEZ | OP_BGTZ | OP_BLEZ | OP_BLTZ | OP_JR | OP_MTHI | OP_MTLO => [rs i]
  | OP_BGEZAL | OP_BLTZAL => [rs i; R31]
  | OP_JAL => [R31]
  | OP_JALR => [rs i; rd i]
  | OP_LB | OP_LBU | OP_LH | OP_LHU | OP_LW | OP_LWL | OP_LWR => [rs i]
  | OP_MFHI | OP_MFLO => [rd i]
  | OP_SB | OP_SH | OP_SW | OP_SWL | OP_SWR => [rs i; rt i]
  | _ => []
  end.

(** The instruction may follow a load of register [lr]: it does not use it, unless it is
    register 0, which is always zero.  [LWL] and [LWR] of register 0 look at the pending value
    of a register that has none, and are left out. *)
Definition delay_safe (lr : Z) (i : Instruction) : bool :=
  ((lr =? 0) || negb (bool_decide (lr ∈ uses i))) &&
  match opCode i with OP_LWL | OP_LWR => negb (rt i =? 0) | _ => true end.

(** The instruction that the machine will execute, unless fetching it raises an exception. *)
Definition next_instr (m : Machine) : result (option Instruction) :=
  let* pc := zget (registers m) PCReg in
  let* (m', x) := Translate m pc 4 false in
  match x with
  | inl _ => Ret None
  | inr pa =>
      let* raw := load_bytes (mainMemory m') pa 4 in
      let* i := Decode (u32 raw) in
      Ret (Some i)
  end.

(** It does not depend on a load that is pending. *)
Definition slot_safe (m : Machine) : bool :=
  match registers m !! Z.to_nat LoadReg, next_instr m with
  | Some lr, Ret (Some i) => delay_safe lr i
  | _, _ => true
  end.

(** ** Outcomes that agree *)

Definition rrel {A B} (R : A -> B -> Prop) (c1 : result A) (c2 : result B) : Prop :=
  match c1, c2 with
  | Ret a, Ret b => R a b
  | AssertFail, AssertFail | Fault, Fault | Halted, Halted | NoFuel, NoFuel => True
  | _, _ => False
  end.

Lemma rrel_bind {A B A' B'} (R : A -> B -> Prop) (R' : A' -> B' -> Prop) c1 c2 k1 k2 :
  rrel R c1 c2 -> (forall a b, R a b -> rrel R' (k1 a) (k2 b)) -> rrel R' (rbind c1 k1) (rbind c2 k2).
Proof. destruct c1, c2; simpl; auto; done. Qed.

Lemma rrel_bind_eq {A B A' B'} (R : A -> B -> Prop) (R' : A' -> B' -> Prop) c1 c2 k1 k2 :
  rrel R c1 c2 -> (forall a b, c1 = Ret a -> R a b -> rrel R' (k1 a) (k2 b)) -> rrel R' (rbind c1 k1) (rbind c2 k2).
Proof. destruct c1, c2; simpl; auto; done. Qed.

Lemma rrel_eq {A} (c1 c2 : result A) : rrel eq c1 c2 <-> c1 = c2.
Proof. split; [destruct c1, c2; simpl; done || by intros -> |intros ->; by destruct c2]. Qed.

Lemma rrel_refl {A} (c : result A) : rrel eq c c.
Proof. by apply rrel_eq. Qed.

(** ** A pending load and a completed one *)

(** [r] has a load of [lr] pending, with value [v]; in [r2] it has been completed. *)
Record late (lr v : Z) (r r2 : list Z) : Prop := {
  lt_len : length r = Z.to_nat NumTotalRegs;
  lt_len2 : length r2 = Z.to_nat NumTotalRegs;
  lt_reg : r !! Z.to_nat LoadReg = Some lr;
  lt_val : r !! Z.to_nat LoadValueReg = Some v;
  lt_reg2 : r2 !! Z.to_nat LoadReg = Some 0;
  lt_val2 : r2 !! Z.to_nat LoadValueReg = Some 0;
  lt_done : lr <> 0 -> r2 !! Z.to_nat lr = Some v;
  lt_same i : (i < Z.to_nat NumTotalRegs)%nat -> i <> Z.to_nat LoadReg -> i <> Z.to_nat LoadValueReg ->
    lr = 0 \/ i <> Z.to_nat lr -> r2 !! i = r !! i
}.

Section delay.
Context {K : Type}.
Implicit Types (w : World K).

(** Machines that differ in nothing else. *)
Definition late_w (lr v : Z) w w2 : Prop :=
  late lr v (registers (machine w)) (registers (machine w2)) /\
  w2 = set_machine w (set_registers (machine w) (registers (machine w2))).

(** Registers that an instruction may use while register [lr] is late. *)
Definition free (lr i : Z) : Prop := 0 <= i < NumTotalRegs /\ i <> LoadReg /\ i <> LoadValueReg /\ (lr = 0 \/ i <> lr).

Lemma late_reg lr v w w2 i : 0 <= lr -> late_w lr v w w2 -> free lr i -> rrel eq (reg w i) (reg w2 i).
Proof.
  intros Hlr [[] _] (Hi & H1 & H2 & H3). apply rrel_eq. unfold reg, LoadReg, LoadValueReg, NumTotalRegs in *.
  destruct (lookup_lt_is_Some_2 (registers (machine w)) (Z.to_nat i)) as [x Hx]; [lia|].
  rewrite (zget_lookup _ i x) by (lia || done).
  rewrite (zget_lookup _ i x); [done|lia|]. rewrite lt_same0; [done|lia..].
Qed.

Lemma late_setreg lr v w w2 i x : 0 <= lr -> late_w lr v w w2 -> free lr i ->
  rrel (late_w lr v) (setreg w i x) (setreg w2 i x).
Proof.
  intros Hlr [[] E] (Hi & H1 & H2 & H3). unfold setreg, LoadReg, LoadValueReg, NumTotalRegs in *.
  rewrite !zset_in by lia. rewrite !rbind_Ret. cbn [rrel]. split; [|by rewrite E].
  cbn [machine set_machine set_registers registers].
  split; rewrite ?length_insert; auto.
  - by rewrite list_lookup_insert_ne by (unfold LoadReg; lia).
  - by rewrite list_lookup_insert_ne by (unfold LoadValueReg; lia).
  - by rewrite list_lookup_insert_ne by (unfold LoadReg; lia).
  - by rewrite list_lookup_insert_ne by (unfold LoadValueReg; lia).
  - intros Hne. rewrite list_lookup_insert_ne by lia. auto.
  - intros j Hj ? ? ?. destruct (decide (j = Z.to_nat i)) as [->|].
    + rewrite !list_lookup_insert_eq by lia. done.
    + rewrite !list_lookup_insert_ne by done. auto.
Qed.

(** The next load completes the pending one, and the two machines are the same. *)
Lemma late_DelayedLoad lr v m r2 a b : 0 <= lr < NumGPRegs -> late lr v (registers m) r2 ->
  DelayedLoad m a b = DelayedLoad (set_registers m r2) a b.
Proof.
  intros Hlr []. unfold DelayedLoad, LoadReg, LoadValueReg, NumTotalRegs, NumGPRegs in *. cbn [registers set_registers].
  rewrite (zget_lookup _ 37 lr), (zget_lookup _ 38 v), (zget_lookup r2 37 0), (zget_lookup r2 38 0) by (lia || done).
  rewrite !rbind_Ret. do 4 (rewrite !zset_in by (rewrite ?length_insert; lia); rewrite !rbind_Ret).
  f_equal. unfold set_registers. cbn. f_equal. apply list_eq. intros i.
  destruct (decide (i < 40)%nat) as [Hi|Hi].
  2: { rewrite !lookup_ge_None_2 by (rewrite ?length_insert; lia). done. }
  destruct (decide (i = 0%nat)) as [->|]; [rewrite !list_lookup_insert_eq by (rewrite ?length_insert; lia); done|].
  rewrite !(list_lookup_insert_ne _ (Z.to_nat 0)) by lia.
  destruct (decide (i = 38%nat)) as [->|]; [rewrite !list_lookup_insert_eq by (rewrite ?length_insert; lia); done|].
  rewrite !(list_lookup_insert_ne _ (Z.to_nat 38)) by lia.
  destruct (decide (i = 37%nat)) as [->|]; [rewrite !list_lookup_insert_eq by (rewrite ?length_insert; lia); done|].
  rewrite !(list_lookup_insert_ne _ (Z.to_nat 37)) by lia. rewrite (list_lookup_insert_ne r2) by lia.
  destruct (decide (i = Z.to_nat lr)) as [->|].
  - rewrite list_lookup_insert_eq by lia. rewrite lt_done0; [done|lia].
  - rewrite list_lookup_insert_ne by done. symmetry. apply lt_same0; lia || auto.
Qed.

(** ** Memory accesses *)

(** Translation does not look at registers. *)
Lemma Translate_set_registers m r va size wr : Translate (set_registers m r) va size wr =
  (let* (m', x) := Translate m va size wr in Ret (set_registers m' r, x)).
Proof.
  unfold Translate. destruct (misaligned va size); [done|].
  change (tlb (set_registers m r)) with (tlb m). change (pageTable (set_registers m r)) with (pageTable m).
  change (find_entry (set_registers m r)) with (find_entry m).
  destruct (ASSERT (is_null (tlb m) || is_null (pageTable m))); try done. rewrite !rbind_Ret.
  destruct (ASSERT (negb (is_null (tlb m)) || negb (is_null (pageTable m)))); try done. rewrite !rbind_Ret.
  destruct (find_entry m _) as [[exn|p]| | | |]; try done. rewrite !rbind_Ret.
  change (load_entry (set_registers m r) p) with (load_entry m p).
  destruct (load_entry m p) as [e| | | |]; try done. rewrite !rbind_Ret.
  destruct (readOnly e && wr); [done|]. destruct (_ >=? NumPhysPages); [done|].
  assert (E : store_entry (set_registers m r) p (mark_used e wr) =
    (let* m' := store_entry m p (mark_used e wr) in Ret (set_registers m' r))).
  { unfold store_entry. cbn [tlb pageTable set_registers]. destruct p, (tlb m), (pageTable m); try done;
      (destruct (zset _ _ _); done). }
  rewrite E. destruct (store_entry m p _); try done. rewrite !rbind_Ret.
  destruct (ASSERT _); done.
Qed.

Lemma Translate_registers m va size wr m' x : Translate m va size wr = Ret (m', x) -> registers m' = registers m.
Proof.
  intros E. pose proof (Translate_set_registers m (registers m) va size wr) as E2.
  replace (set_registers m (registers m)) with m in E2 by (by destruct m). rewrite E in E2. simpl in E2.
  injection E2 as E2. by rewrite E2.
Qed.

Variable ExceptionHandler : ExceptionType -> World K -> result (World K).

(** An exception completes the load as well. *)
Lemma late_RaiseException lr v w w2 e bad : 0 <= lr < NumGPRegs -> late_w lr v w w2 ->
  RaiseException ExceptionHandler w e bad = RaiseException ExceptionHandler w2 e bad.
Proof.
  intros Hlr Hl. unfold RaiseException.
  assert (Hs : rrel (late_w lr v) (setreg w BadVAddrReg bad) (setreg w2 BadVAddrReg bad)).
  { apply late_setreg; [lia|done|]. unfold free, BadVAddrReg, NumTotalRegs, LoadReg, LoadValueReg, NumGPRegs in *. lia. }
  destruct Hl as [[] E]. revert Hs. unfold setreg.
  rewrite !zset_in by (unfold BadVAddrReg, NumTotalRegs in *; lia). rewrite !rbind_Ret. cbn [rrel]. intros [Hl' _].
  cbn [machine set_machine registers set_registers] in Hl'. clear - Hlr E Hl'. revert E Hl'.
  generalize (registers (machine w2)). intros r2 -> Hl'. cbn [machine set_machine registers set_registers].
  by rewrite (late_DelayedLoad lr v (set_registers (machine w) _) _ 0 0 Hlr Hl').
Qed.

(** The outcome of a case of the switch: with the load still late, or after an exception. *)
Definition late_exec (lr v : Z) : World K * option (Z * Z * Z) -> World K * option (Z * Z * Z) -> Prop :=
  fun a b => match a, b with
  | (w, Some x), (w2, Some y) => x = y /\ late_w lr v w w2
  | (w, None), (w2, None) => w = w2
  | _, _ => False
  end.

Lemma late_trap lr v w w2 e bad : 0 <= lr < NumGPRegs -> late_w lr v w w2 ->
  rrel (late_exec lr v) (trap ExceptionHandler w e bad) (trap ExceptionHandler w2 e bad).
Proof.
  intros Hlr Hl. unfold trap. rewrite (late_RaiseException lr v w w2) by done.
  destruct (RaiseException ExceptionHandler w2 e bad); done.
Qed.

Lemma late_next lr v w w2 pc : late_w lr v w w2 -> rrel (late_exec lr v) (next w pc) (next w2 pc).
Proof. done. Qed.

Lemma late_next_load lr v w w2 pc r x : late_w lr v w w2 -> rrel (late_exec lr v) (next_load w pc r x) (next_load w2 pc r x).
Proof. done. Qed.

(** Replacing the machine but for its registers. *)
Lemma late_w_machine lr v w w2 m' : late_w lr v w w2 -> registers m' = registers (machine w) ->
  late_w lr v (set_machine w m') (set_machine w2 (set_registers m' (registers (machine w2)))).
Proof. intros [Hl E] Hr. split; cbn; [by rewrite Hr|]. by rewrite E. Qed.

Lemma late_ReadMem lr v w w2 addr size : 0 <= lr < NumGPRegs -> late_w lr v w w2 ->
  rrel (fun a b => match a.2, b.2 with
    | Some x, Some y => x = y /\ late_w lr v a.1 b.1 | None, None => a.1 = b.1 | _, _ => False end)
    (ReadMem ExceptionHandler w addr size) (ReadMem ExceptionHandler w2 addr size).
Proof.
  intros Hlr Hl. unfold ReadMem. pose proof Hl as [Hl0 E]. rewrite E. cbn [machine set_machine].
  rewrite Translate_set_registers. destruct (Translate (machine w) addr size false) as [[m' x]| | | |] eqn:ET; try done.
  rewrite !rbind_Ret. pose proof (late_w_machine lr v w w2 m' Hl (Translate_registers _ _ _ _ _ _ ET)) as Hl'.
  rewrite E in Hl'. cbn [machine set_machine registers set_registers] in Hl'.
  destruct x as [exn|pa].
  - rewrite (late_RaiseException lr v _ _ exn addr Hlr Hl'). destruct (RaiseException _ _ exn addr); done.
  - cbn [mainMemory set_registers]. destruct (load_bytes (mainMemory m') pa size); done.
Qed.

Lemma late_WriteMem lr v w w2 addr size x : 0 <= lr < NumGPRegs -> late_w lr v w w2 ->
  rrel (fun a b => if a.2 : bool then b.2 = true /\ late_w lr v a.1 b.1 else b.2 = false /\ a.1 = b.1)
    (WriteMem ExceptionHandler w addr size x) (WriteMem ExceptionHandler w2 addr size x).
Proof.
  intros Hlr Hl. unfold WriteMem. pose proof Hl as [Hl0 E]. rewrite E. cbn [machine set_machine].
  rewrite Translate_set_registers. destruct (Translate (machine w) addr size true) as [[m' y]| | | |] eqn:ET; try done.
  rewrite !rbind_Ret. pose proof (Translate_registers _ _ _ _ _ _ ET) as Hr.
  pose proof (late_w_machine lr v w w2 m' Hl Hr) as Hl'.
  rewrite E in Hl'. cbn [machine set_machine registers set_registers] in Hl'.
  destruct y as [exn|pa].
  - rewrite (late_RaiseException lr v _ _ exn addr Hlr Hl'). destruct (RaiseException _ _ exn addr); done.
  - cbn [mainMemory set_registers]. destruct (store_bytes (mainMemory m') pa size x); try done. cbn [rrel rbind fst snd].
    split; [done|]. split; cbn [machine set_machine set_mainMemory registers set_registers]; [by rewrite Hr|done].
Qed.

(** ** Cases of the switch *)

Lemma late_with_read lr v w w2 addr size k1 k2 : 0 <= lr < NumGPRegs -> late_w lr v w w2 ->
  (forall w w2 x, late_w lr v w w2 -> rrel (late_exec lr v) (k1 w x) (k2 w2 x)) ->
  rrel (late_exec lr v) (with_read ExceptionHandler w addr size k1) (with_read ExceptionHandler w2 addr size k2).
Proof.
  intros Hlr Hl Hk. unfold with_read. eapply rrel_bind; [by apply late_ReadMem|].
  intros [w' [x|]] [w2' [y|]]; cbn [fst snd]; try done. intros [<- ?]. by apply Hk.
Qed.

Lemma late_with_write lr v w w2 addr size x k1 k2 : 0 <= lr < NumGPRegs -> late_w lr v w w2 ->
  (forall w w2, late_w lr v w w2 -> rrel (late_exec lr v) (k1 w) (k2 w2)) ->
  rrel (late_exec lr v) (with_write ExceptionHandler w addr size x k1) (with_write ExceptionHandler w2 addr size x k2).
Proof.
  intros Hlr Hl Hk. unfold with_write. eapply rrel_bind; [by apply late_WriteMem|].
  intros [w' [|]] [w2' y]; cbn [fst snd]; intros [-> Hw]; [by apply Hk|done].
Qed.

Lemma late_pending lr v w w2 r : 0 <= lr < NumGPRegs -> 0 < r < NumGPRegs -> late_w lr v w w2 ->
  rrel eq (pending_value w r) (pending_value w2 r).
Proof.
  intros Hlr Hr Hl. pose proof Hl as [[] _]. unfold NumGPRegs, NumTotalRegs in *. unfold pending_value.
  change (reg w LoadReg) with (zget (registers (machine w)) LoadReg). change (reg w2 LoadReg) with (zget (registers (machine w2)) LoadReg).
  rewrite (zget_lookup _ LoadReg lr), (zget_lookup _ LoadReg 0), !rbind_Ret by (unfold LoadReg; lia || done).
  rewrite (proj2 (Z.eqb_neq 0 r)) by lia. destruct (Z.eqb_spec lr r) as [->|Hne].
  - unfold reg. rewrite (zget_lookup _ LoadValueReg v), (zget_lookup _ r v); [done|lia|apply lt_done0; lia|unfold LoadValueReg; lia|done].
  - apply (late_reg lr v); [lia|done|]. unfold free, NumTotalRegs, LoadReg, LoadValueReg. lia.
Qed.

End delay.

(** A step through a case of the switch on both machines. *)
Ltac free_reg := unfold free, R31, HiReg, LoReg, NextPCReg, PCReg, PrevPCReg, LoadReg, LoadValueReg, NumTotalRegs, NumGPRegs in *; lia.

Ltac late_step :=
  match goal with
  | |- rrel _ (rbind (reg _ _) _) (rbind (reg _ _) _) =>
      eapply rrel_bind; [eapply late_reg; [|eassumption|]; [lia|free_reg]|intros ? ? <-]
  | |- rrel _ (rbind (setreg _ _ _) _) (rbind (setreg _ _ _) _) =>
      eapply rrel_bind; [eapply late_setreg; [|eassumption|]; [lia|free_reg]|intros]
  | |- rrel _ (rbind (rbind _ _) _) (rbind (rbind _ _) _) => rewrite !rbind_assoc
  | |- rrel _ (rbind (pending_value _ _) _) _ =>
      eapply rrel_bind; [eapply late_pending; [| |eassumption]; [eassumption|free_reg]|intros ? ? <-]
  | |- rrel _ (next _ _) (next _ _) => by apply late_next
  | |- rrel _ (next_load _ _ _ _) (next_load _ _ _ _) => by apply late_next_load
  | |- rrel _ (trap _ _ _ _) (trap _ _ _ _) => by apply late_trap
  | |- rrel _ (with_read _ _ _ _ _) (with_read _ _ _ _ _) => eapply late_with_read; [|eassumption|intros]; [eassumption|]
  | |- rrel _ (with_write _ _ _ _ _ _) (with_write _ _ _ _ _ _) => eapply late_with_write; [|eassumption|intros]; [eassumption|]
  | |- rrel _ (let (_, _) := ?x in _) _ => destruct x
  | |- rrel _ (if ?b then _ else _) (if ?b then _ else _) => destruct b
  | |- rrel _ Fault Fault => done
  | |- rrel _ AssertFail AssertFail => done
  end.

Section instructions.
Context {K : Type} (ExceptionHandler : ExceptionType -> World K -> result (World K)).

(** Every instruction that may follow the load does the same on both machines. *)
Lemma late_execute lr v (w w2 : World K) i pcAfter : 0 <= lr < NumGPRegs -> wf_instr i -> delay_safe lr i = true ->
  late_w lr v w w2 -> rrel (late_exec lr v) (execute ExceptionHandler w i pcAfter) (execute ExceptionHandler w2 i pcAfter).
Proof.
  intros Hlr [Hs Ht Hd _ _ Hop] Hsafe Hl. unfold delay_safe in Hsafe. apply andb_prop in Hsafe as [Hu Hz].
  assert (Huse : Forall (fun r => lr = 0 \/ r <> lr) (uses i)).
  { apply Forall_forall. intros r Hr. destruct (Z.eqb_spec lr 0); [by left|right]. intros ->. simpl in Hu.
    by rewrite bool_decide_true in Hu. }
  clear Hu. unfold uses in Huse. unfold execute.
  destruct (opCode i) eqn:E; try (by destruct Hop as (? & ? & ?)); rewrite ?Forall_cons in Huse; destruct_and? Huse;
    try apply negb_true_iff, Z.eqb_neq in Hz;
    unfold exec_ADD, exec_ADDI, exec_ADDIU, exec_ADDU, exec_AND, exec_ANDI, exec_BEQ, exec_BGEZAL, exec_BGEZ, exec_BGTZ,
      exec_BLEZ, exec_BLTZAL, exec_BLTZ, exec_BNE, exec_DIV, exec_DIVU, exec_JAL, exec_J, exec_JALR, exec_JR, exec_LB,
      exec_LH, exec_LUI, exec_LW, exec_LWL, exec_LWR, exec_MFHI, exec_MFLO, exec_MTHI, exec_MTLO, exec_MULT, exec_MULTU,
      exec_mult, exec_NOR, exec_OR, exec_ORI, exec_SB, exec_SH, exec_SLL, exec_SLLV, exec_SLT, exec_SLTI, exec_SLTIU,
      exec_SLTU, exec_SRA, exec_SRAV, exec_SRL, exec_SRLV, exec_SUB, exec_SUBU, exec_SW, exec_SWL, exec_SWR, exec_XOR,
      exec_XORI, exec_store, link, branch.
  all: cbv zeta; repeat late_step.
Qed.

(** The load completed. *)
Lemma late_commit (m : Machine) : wf_machine m -> exists lr v m2, registers m !! Z.to_nat LoadReg = Some lr /\
  0 <= lr < NumGPRegs /\ DelayedLoad m 0 0 = Ret m2 /\ late lr v (registers m) (registers m2) /\ m2 = set_registers m (registers m2).
Proof.
  intros [_ [Hl Hs H0 (lr & Hlr & Hr)]].
  destruct (lookup_lt_is_Some_2 (registers m) (Z.to_nat LoadValueReg)) as [v Hv]; [rewrite Hl; unfold LoadValueReg, NumTotalRegs; lia|].
  exists lr, v. unfold DelayedLoad, LoadReg, LoadValueReg, NumTotalRegs, NumGPRegs in *.
  rewrite (zget_lookup _ 37 lr), (zget_lookup _ 38 v) by (lia || done). rewrite !rbind_Ret.
  do 4 (rewrite zset_in by (rewrite ?length_insert; lia); rewrite rbind_Ret).
  eexists. split; [done|]. split; [done|]. split; [done|]. split; [|done]. cbn [registers set_registers].
  split; rewrite ?length_insert; unfold LoadReg, LoadValueReg, NumTotalRegs in *; auto.
  - rewrite (list_lookup_insert_ne _ (Z.to_nat 0)), (list_lookup_insert_ne _ (Z.to_nat 38)) by lia.
    by rewrite list_lookup_insert_eq by (rewrite ?length_insert; lia).
  - rewrite (list_lookup_insert_ne _ (Z.to_nat 0)) by lia. by rewrite list_lookup_insert_eq by (rewrite ?length_insert; lia).
  - intros Hne. rewrite !(list_lookup_insert_ne _ _ (Z.to_nat lr)) by lia. by rewrite list_lookup_insert_eq by lia.
  - intros i Hi H37 H38 Hor. destruct (decide (i = 0%nat)) as [->|].
    + rewrite H0. by rewrite list_lookup_insert_eq by (rewrite ?length_insert; lia).
    + rewrite !list_lookup_insert_ne by lia. done.
Qed.

Lemma late_advance lr v (w w2 : World K) pcAfter a b : 0 <= lr < NumGPRegs -> late_w lr v w w2 ->
  advance w pcAfter a b = advance w2 pcAfter a b.
Proof.
  intros Hlr [Hl E]. revert E Hl. generalize (registers (machine w2)). intros r2 -> Hl. unfold advance.
  cbn [machine set_machine]. by rewrite (late_DelayedLoad lr v (machine w) r2 a b Hlr Hl).
Qed.

(** Completing the load first makes no difference to an instruction that does not depend
    on it. *)
Lemma OneInstruction_commit debug_m (w : World K) : wf_machine (machine w) -> slot_safe (machine w) = true ->
  exists m2, DelayedLoad (machine w) 0 0 = Ret m2 /\
    OneInstruction ExceptionHandler debug_m (set_machine w m2) = OneInstruction ExceptionHandler debug_m w.
Proof.
  intros Hw Hsafe. destruct (late_commit _ Hw) as (lr & v & m2 & Hlr & Hr & HD & Hl & E). exists m2. split; [done|].
  assert (Hlw : late_w lr v w (set_machine w m2)) by (split; cbn [machine set_machine]; [done|by rewrite <- E]).
  symmetry. apply rrel_eq. unfold OneInstruction.
  destruct (zget (registers (machine w)) PCReg) as [pc| | | |] eqn:Epc.
  2-5: exfalso; destruct Hw as [_ [Hlen _ _ _]]; destruct (zget_spec (registers (machine w)) PCReg) as (? & ? & _);
    [rewrite Hlen; unfold PCReg, NumTotalRegs; lia|congruence].
  assert (Epc2 : reg (set_machine w m2) PCReg = Ret pc).
  { assert (R : rrel eq (reg w PCReg) (reg (set_machine w m2) PCReg)) by (apply (late_reg lr v); [lia|done|free_reg]).
    apply rrel_eq in R. rewrite <- R. exact Epc. }
  rewrite Epc2. change (reg w PCReg) with (zget (registers (machine w)) PCReg). rewrite Epc, !rbind_Ret.
  eapply rrel_bind_eq; [exact (late_ReadMem ExceptionHandler lr v w (set_machine w m2) pc 4 Hr Hlw)|].
  intros [w1 [raw|]] [w1' [raw'|]] ER; cbn [fst snd]; [|intros []|intros []|intros ->; apply rrel_refl].
  intros [<- Hl1].
  destruct (Decode_spec (u32 raw)) as (i & HDec & _ & Hwi). rewrite HDec, !rbind_Ret.
  assert (Hds : delay_safe lr i = true).
  { unfold slot_safe in Hsafe. rewrite Hlr in Hsafe. unfold next_instr in Hsafe. rewrite Epc, rbind_Ret in Hsafe.
    unfold ReadMem in ER. apply rbind_eq_Ret in ER as ([m' [exn|pa]] & ET & ER); rewrite ET, rbind_Ret in Hsafe.
    - by apply rbind_eq_Ret in ER as (? & _ & [=]).
    - apply rbind_eq_Ret in ER as (raw' & HL & ER). injection ER as <- <-. rewrite HL, rbind_Ret, HDec, rbind_Ret in Hsafe. done. }
  eapply rrel_bind; [apply rrel_refl|intros _ _ _].
  eapply rrel_bind; [eapply late_reg; [|eassumption|]; [lia|free_reg]|intros npc ? <-].
  eapply rrel_bind; [by apply (late_execute lr v)|].
  intros [wa [[[pa la] va]|]] [wb [[[pb lb] vb]|]]; unfold late_exec; [|intros []|intros []|intros ->; apply rrel_refl].
  intros [[= <- <- <-] Hl2]. apply rrel_eq. by apply (late_advance lr v).
Qed.

End instructions.
