(* ===== verification/UserRun.v ===== *)
(** * Running a user program

    [Machine::Run] of machine/mipssim.cc: instructions and clock ticks in turn, for ever, with
    the interrupt controller of [Interrupt] and its timer.  [Yield] is [Thread::Yield] of
    threads/thread.cc when no other thread is ready.  The time that the kernel spends inside
    a system call is not counted; an exception leaves the kernel in user mode again before
    [OneInstruction] returns, so that the controller's status is [UserMode] at every tick. *)

From S2P Require Import Prelude NList Machine Mips LoadDelay Interrupt.
#[local] Open Scope Z_scope.

Section run.
Context {C K : Type} `{EqDecision C}.
Abbreviation S := (Sim C (World K)).
Variable ExceptionHandler : ExceptionType -> World K -> result (World K).
Variable CallBack : C -> S -> result S.
(** [Machine::Debugger], which waits for commands of the user (Debugger.v) *)
Variable Debugger : S -> result S.
Variable debug_m : bool.

(** [kernel->machine->DelayedLoad(0, 0)] *)
Definition machine_load (w : World K) : result (World K) :=
  let* m := Machine.DelayedLoad (machine w) 0 0 in Ret (set_machine w m).

(** [Thread::Yield] of a thread that is alone: [FindNextToRun] returns [NULL], and setting
    the level back lets the clock tick, which may call [Yield] again. *)
Fixpoint Yield_alone (fuel : nat) (s : S) : result S :=
  match fuel with
  | O => NoFuel
  | Datatypes.S fuel =>
      let* (s, oldLevel) := SetLevel CallBack (Yield_alone fuel) machine_load s IntOff in
      let* (s, _) := SetLevel CallBack (Yield_alone fuel) machine_load s oldLevel in
      Ret s
  end.

(** One turn of the loop of [Run]. *)
Definition Run_turn (fuel : nat) (s : S) : result S :=
  let* w := OneInstruction ExceptionHandler debug_m (rest s) in
  let s := mkSim (intr s) (ticks s) (Interrupt.brk s) w in
  let* s := OneTick CallBack (Yield_alone fuel) machine_load s in
  if singleStep (machine (rest s)) && (runUntilTime (machine (rest s)) <=? totalTicks (ticks s)) then Debugger s
  else Ret s.

Fixpoint Run_turns (fuel n : nat) (s : S) : result S :=
  match n with
  | O => Ret s
  | Datatypes.S n => let* s := Run_turn fuel s in Run_turns fuel n s
  end.

(** [Machine::Run], as far as [n] turns. *)
Definition Run (fuel n : nat) (s : S) : result S :=
  Run_turns fuel n (Interrupt.setStatus s UserMode).

(** The instructions alone. *)
Fixpoint instructions (n : nat) (w : World K) : result (World K) :=
  match n with
  | O => Ret w
  | Datatypes.S n => let* w := OneInstruction ExceptionHandler debug_m w in instructions n w
  end.

End run.

(** ** Kernels that return a well-formed machine *)

(** [c'] returns what [c] returns. *)
Definition returns_as {A} (c c' : result A) : Prop := forall a, c = Ret a -> c' = Ret a.

Lemma returns_bind {A B} (c c' : result A) (k k' : A -> result B) :
  returns_as c c' -> (forall a, returns_as (k a) (k' a)) -> returns_as (rbind c k) (rbind c' k').
Proof. intros Hc Hk b Hb. apply rbind_eq_Ret in Hb as (a & Ha & Hb). rewrite (Hc a Ha), rbind_Ret. by apply Hk. Qed.

Lemma returns_refl {A} (c : result A) : returns_as c c.
Proof. by intros a. Qed.

Section returning.
Context {K : Type} (handler handler' : ExceptionType -> World K -> result (World K)).
Hypothesis Hh : forall e w, returns_as (handler e w) (handler' e w).

Lemma returns_Raise w e bad : returns_as (RaiseException handler w e bad) (RaiseException handler' w e bad).
Proof. unfold RaiseException. repeat (apply returns_bind; [apply returns_refl || apply Hh|intros]). apply returns_refl. Qed.

Lemma returns_trap w e bad : returns_as (trap handler w e bad) (trap handler' w e bad).
Proof. apply returns_bind; [apply returns_Raise|intros; apply returns_refl]. Qed.

Lemma returns_ReadMem w addr size : returns_as (ReadMem handler w addr size) (ReadMem handler' w addr size).
Proof.
  apply returns_bind; [apply returns_refl|]. intros [m [exn|pa]]; [|apply returns_refl].
  apply returns_bind; [apply returns_Raise|intros; apply returns_refl].
Qed.

Lemma returns_WriteMem w addr size v : returns_as (WriteMem handler w addr size v) (WriteMem handler' w addr size v).
Proof.
  apply returns_bind; [apply returns_refl|]. intros [m [exn|pa]]; [|apply returns_refl].
  apply returns_bind; [apply returns_Raise|intros; apply returns_refl].
Qed.

Lemma returns_with_read w addr size k k' : (forall w v, returns_as (k w v) (k' w v)) ->
  returns_as (with_read handler w addr size k) (with_read handler' w addr size k').
Proof. intros Hk. apply returns_bind; [apply returns_ReadMem|]. intros [w' [v|]]; [apply Hk|apply returns_refl]. Qed.

Lemma returns_with_write w addr size v k k' : (forall w, returns_as (k w) (k' w)) ->
  returns_as (with_write handler w addr size v k) (with_write handler' w addr size v k').
Proof. intros Hk. apply returns_bind; [apply returns_WriteMem|]. intros [w' [|]]; [apply Hk|apply returns_refl]. Qed.

Ltac returns_step :=
  match goal with
  | |- returns_as ?c ?c => apply returns_refl
  | |- returns_as (trap _ _ _ _) _ => apply returns_trap
  | |- returns_as (with_read _ _ _ _ _) _ => apply returns_with_read; intros
  | |- returns_as (with_write _ _ _ _ _ _) _ => apply returns_with_write; intros
  | |- returns_as (rbind _ _) _ => apply returns_bind; [|intros]
  | |- returns_as (if ?b then _ else _) _ => destruct b
  end.

(** An instruction returns with the second kernel what it returns with the first. *)
Lemma returns_execute w i pc : returns_as (execute handler w i pc) (execute handler' w i pc).
Proof.
  unfold execute. destruct (opCode i); try apply returns_refl; try apply returns_trap;
    unfold exec_ADD, exec_ADDI, exec_SUB, exec_LB, exec_LH, exec_LW, exec_LWL, exec_LWR, exec_SB, exec_SH, exec_SW,
      exec_store, exec_SWL, exec_SWR; cbv zeta; repeat returns_step.
Qed.

Lemma returns_OneInstruction debug_m w : returns_as (OneInstruction handler debug_m w) (OneInstruction handler' debug_m w).
Proof.
  unfold OneInstruction. apply returns_bind; [apply returns_refl|intros pc]. apply returns_bind; [apply returns_ReadMem|].
  intros [w1 [raw|]]; [|apply returns_refl]. do 3 (apply returns_bind; [apply returns_refl|intros]).
  apply returns_bind; [apply returns_execute|]. intros [w2 [[[? ?] ?]|]]; apply returns_refl.
Qed.

End returning.

Section wellformed.
Context {K : Type} (handler : ExceptionType -> World K -> result (World K)).
(** What the machine needs of the kernel: when the handler returns, the machine is well formed. *)
Hypothesis handler_wf : forall e w w', wf_machine (machine w) -> handler e w = Ret w' -> wf_machine (machine w').

(** The same kernel, which halts instead of failing. *)
Definition or_halt (e : ExceptionType) (w : World K) : result (World K) :=
  match handler e w with Ret w' => Ret w' | _ => Halted end.

(** The division that traps on the host does not return. *)
Lemma div_traps_fails debug_m (w : World K) w1 raw i : fetch or_halt w = Ret (w1, Some raw) -> Decode (u32 raw) = Ret i ->
  div_traps w1 i -> forall w', OneInstruction or_halt debug_m w <> Ret w'.
Proof.
  intros Hf Hd (Hop & Ha & Hb) w' HO. unfold OneInstruction in HO. unfold fetch in Hf.
  apply rbind_eq_Ret in HO as (pc & Hpc & HO). rewrite Hpc, rbind_Ret in Hf. rewrite Hf, rbind_Ret, Hd, rbind_Ret in HO.
  apply rbind_eq_Ret in HO as (_ & _ & HO). apply rbind_eq_Ret in HO as (npc & _ & HO).
  unfold execute in HO. rewrite Hop in HO. unfold exec_DIV in HO. by rewrite Ha, rbind_Ret, Hb, rbind_Ret in HO.
Qed.

Lemma OneInstruction_wf debug_m (w w' : World K) : wf_machine (machine w) -> OneInstruction handler debug_m w = Ret w' ->
  wf_machine (machine w').
Proof.
  intros Hw HO.
  assert (HO' : OneInstruction or_halt debug_m w = Ret w').
  { apply (returns_OneInstruction handler or_halt); [|done]. intros e u a Ha. unfold or_halt. by rewrite Ha. }
  destruct (OneInstruction_step or_halt) with (debug_m := debug_m) (w := w) as [(w1 & raw & i & Hf & Hd & Ht)|Hs]; [|done| |].
  - intros e u Hu. unfold or_halt. destruct (handler e u) eqn:E; try done. by apply (handler_wf e u).
  - by destruct (div_traps_fails debug_m w w1 raw i Hf Hd Ht w').
  - by rewrite HO' in Hs.
Qed.

(** ** Interrupts *)

Implicit Types (w : World K).

(** [w2] is [w], with the pending load completed or not. *)
Definition caught_up (w w2 : World K) : Prop := w2 = w \/ machine_load w = Ret w2.

Lemma machine_load_Ret (w : World K) : wf_machine (machine w) -> exists w2, machine_load w = Ret w2 /\
  exists m2, Machine.DelayedLoad (machine w) 0 0 = Ret m2 /\ w2 = set_machine w m2.
Proof.
  intros Hw. destruct (late_commit _ Hw) as (lr & v & m2 & _ & _ & HD & _). unfold machine_load. rewrite HD, rbind_Ret. eauto 10.
Qed.

Lemma caught_up_wf w w2 : wf_machine (machine w) -> caught_up w w2 -> wf_machine (machine w2).
Proof.
  intros Hw [->|Hm]; [done|]. unfold machine_load in Hm. apply rbind_eq_Ret in Hm as (m2 & HD & [= <-]).
  destruct (DelayedLoad_wf (machine w) 0 0 (wf_machine_mid _ Hw)) as (m' & HD' & Hm'); [unfold NumGPRegs; lia|unfold is_s32; lia|].
  rewrite HD in HD'. by injection HD' as <-.
Qed.

(** A load that has been completed stays completed. *)
Lemma machine_load_twice w w2 : wf_machine (machine w) -> machine_load w = Ret w2 -> machine_load w2 = Ret w2.
Proof.
  intros Hw Hm. destruct (late_commit _ Hw) as (lr & v & m2 & _ & Hr & HD & Hl & E). unfold machine_load in Hm |- *.
  rewrite HD, rbind_Ret in Hm. injection Hm as <-. cbn [machine set_machine].
  pose proof (late_DelayedLoad lr v (machine w) (registers m2) 0 0 Hr Hl) as HD2. rewrite <- E, HD in HD2.
  rewrite <- HD2, rbind_Ret. done.
Qed.

Lemma caught_up_load w w2 : wf_machine (machine w) -> caught_up w w2 -> exists w3, machine_load w2 = Ret w3 /\ caught_up w w3.
Proof.
  intros Hw [->|Hm].
  - destruct (machine_load_Ret w Hw) as (w3 & Hm & _). exists w3. split; [done|by right].
  - exists w2. split; [by apply (machine_load_twice w)|by right].
Qed.

Lemma caught_up_step debug_m w w2 : wf_machine (machine w) -> slot_safe (machine w) = true -> caught_up w w2 ->
  OneInstruction handler debug_m w2 = OneInstruction handler debug_m w.
Proof.
  intros Hw Hs [->|Hm]; [done|]. destruct (OneInstruction_commit handler debug_m w Hw Hs) as (m2 & HD & HO).
  unfold machine_load in Hm. rewrite HD, rbind_Ret in Hm. by injection Hm as <-.
Qed.

End wellformed.

(** ** The clock *)

Section clock.
Context {C K : Type} `{EqDecision C}.
Context (CallBack : C -> Sim C (World K) -> result (Sim C (World K))) (c : C) (rand : Z).
(** The timer without random slices is the only device. *)
Hypothesis Htimer : forall s, CallBack c s = Timer_CallBack c rand (mkTimer false false) s.
Implicit Types (s : Sim C (World K)).

(** A user program runs at time [t]; the timer is set for time [e]; the user and system
    ticks so far. *)
Record clock_at s (t e user system : Z) : Prop := mkClock {
  ck_run : exists x, running s x t /\ when x = e /\ callOnInterrupt x = c;
  ck_user : userTicks (ticks s) = user;
  ck_system : systemTicks (ticks s) = system
}.

Lemma tick_before Y s t e user system : clock_at s t e user system -> 0 <= t -> t + 1 < e -> e < 2 ^ 30 -> 0 <= user < 2 ^ 30 ->
  exists s', OneTick CallBack Y machine_load s = Ret s' /\ rest s' = rest s /\ clock_at s' (t + 1) e (user + 1) system.
Proof.
  intros [(x & [Hl Hp Hh Hy Hst Ht Ha] & Hw & Hc) Hu Hs] H0 Hte He Hub. unfold OneTick. rewrite Hst. unfold CheckIfDue. simpl.
  rewrite Hp. rewrite Z.gtb_ltb, Ht, s32_id by (unfold is_s32; unfold UserTick; lia).
  rewrite (proj2 (Z.ltb_lt _ _)) by (unfold UserTick; lia). simpl. rewrite Hy.
  eexists. split; [done|]. split; [done|]. split; [|cbn|done].
  - exists x. split; [|done]. by split.
  - rewrite Hu, s32_id by (unfold is_s32, UserTick; lia). done.
Qed.

(** At its time the timer makes the thread yield: the pending load is completed, ten ticks
    of system time pass, and the timer is set again. *)
Lemma tick_expires fuel s t user system w : clock_at s t (t + 1) user system -> 0 <= t -> t + 200 < 2 ^ 30 ->
  0 <= user < 2 ^ 30 -> 0 <= system < 2 ^ 30 -> machine_load (rest s) = Ret w ->
  exists s', OneTick CallBack (Yield_alone CallBack (S fuel)) machine_load s = Ret s' /\ rest s' = w /\
    clock_at s' (t + 1 + SystemTick) (t + 1 + TimerTicks) (user + 1) (system + SystemTick).
Proof.
  intros [(x & [Hl Hp Hh Hy Hst Ht Ha] & Hw & Hc) Hu Hs] H0 Hte Hub Hsb Hm.
  assert (Htick : s32 (totalTicks (ticks s) + UserTick) = t + 1) by (rewrite Ht, s32_id by (unfold is_s32, UserTick; lia); done).
  unfold OneTick. rewrite Hst. unfold CheckIfDue. simpl. rewrite Hp, Htick, Hw.
  rewrite Z.gtb_ltb, Z.ltb_irrefl, Hm. simpl. unfold fire. simpl. rewrite Hc, Htimer.
  unfold Timer_CallBack, Alarm_CallBack, YieldOnReturn, SetInterrupt. simpl.
  rewrite Hst, bool_decide_eq_false_2 by done. simpl. unfold Schedule. simpl.
  rewrite ?Htick. rewrite (s32_id (t + 1 + TimerTicks)) by (unfold is_s32, TimerTicks; lia).
  rewrite (proj2 (Z.leb_gt (t + 1 + TimerTicks) (t + 1))) by (unfold TimerTicks; lia). simpl.
  unfold SetLevel. simpl. unfold OneTick. simpl. unfold CheckIfDue. simpl. rewrite ?Htick.
  rewrite (s32_id (t + 1 + SystemTick)) by (unfold is_s32, SystemTick; lia).
  rewrite Z.gtb_ltb, (proj2 (Z.ltb_lt _ _)) by (unfold TimerTicks, SystemTick; lia). simpl.
  eexists. split; [done|]. split; [done|]. split; simpl.
  - exists (mkPending (Interrupt.brk s) c (t + 1 + TimerTicks) TimerInt). split; [|done]. split; try done. simpl. lia.
  - rewrite Hu, s32_id by (unfold is_s32, UserTick; lia). done.
  - rewrite Hs, s32_id by (unfold is_s32, SystemTick; lia). done.
Qed.

End clock.

(** ** The run *)

(** How often the timer expires in [n] instructions, when it is set for [d] ticks from now:
    after [d] instructions, and then after every ninety, since ten ticks of each slice of a
    hundred go to the kernel. *)
Definition expiries (n d : Z) : Z := if n <? d then 0 else 1 + (n - d) / (TimerTicks - SystemTick).

Lemma expiries_early n d : 1 < d -> expiries n d = expiries (n - 1) (d - 1).
Proof.
  intros Hd. unfold expiries. replace (n - 1 - (d - 1)) with (n - d) by lia.
  destruct (Z.ltb_spec n d), (Z.ltb_spec (n - 1) (d - 1)); try lia; done.
Qed.

Lemma expiries_now n : 1 <= n -> expiries n 1 = 1 + expiries (n - 1) (TimerTicks - SystemTick).
Proof.
  intros Hn. unfold expiries, TimerTicks, SystemTick. change (100 - 10) with 90.
  rewrite (proj2 (Z.ltb_ge n 1)) by lia. destruct (Z.ltb_spec (n - 1) 90) as [Hlt|Hge].
  - rewrite Z.div_small by lia. lia.
  - replace (n - 1) with (n - 1 - 90 + 1 * 90) at 1 by lia. rewrite Z.div_add by lia. lia.
Qed.

Lemma expiries_bounds n d : 0 <= n -> 1 <= d -> 0 <= expiries n d <= n.
Proof.
  intros Hn Hd. unfold expiries, TimerTicks, SystemTick. change (100 - 10) with 90. destruct (Z.ltb_spec n d); [lia|].
  pose proof (Z.div_pos (n - d) 90 ltac:(lia) ltac:(lia)). pose proof (Z.div_le_upper_bound (n - d) 90 (n - d) ltac:(lia) ltac:(lia)). lia.
Qed.

Section running.
Context {C K : Type} `{EqDecision C}.
Context (handler : ExceptionType -> World K -> result (World K)).
Context (CallBack : C -> Sim C (World K) -> result (Sim C (World K))) (Debugger : Sim C (World K) -> result (Sim C (World K))).
Context (debug_m : bool) (c : C) (rand : Z).
Hypothesis Htimer : forall s, CallBack c s = Timer_CallBack c rand (mkTimer false false) s.
Hypothesis handler_wf : forall e w w', wf_machine (machine w) -> handler e w = Ret w' -> wf_machine (machine w').
Implicit Types (s : Sim C (World K)) (w : World K).

(** The program, run alone, never uses a register in the slot after its load, and is not
    single-stepped. *)
Definition respects_slots (n : nat) w : Prop := forall k w', (k <= n)%nat -> instructions handler debug_m k w = Ret w' ->
  slot_safe (machine w') = true /\ singleStep (machine w') = false.

Lemma respects_step n w w1 : respects_slots (S n) w -> OneInstruction handler debug_m w = Ret w1 -> respects_slots n w1.
Proof. intros Hr HO k w' Hk Hi. apply (Hr (S k)); [lia|]. cbn [instructions]. by rewrite HO, rbind_Ret. Qed.

Lemma caught_up_singleStep w w2 : caught_up w w2 -> singleStep (machine w2) = singleStep (machine w).
Proof.
  intros [->|Hm]; [done|]. unfold machine_load in Hm. apply rbind_eq_Ret in Hm as (m2 & HD & [= <-]).
  unfold Machine.DelayedLoad in HD. repeat (apply rbind_eq_Ret in HD as (? & _ & HD)). by injection HD as <-.
Qed.

(** One turn of the loop, the load of the machine being late or not. *)
Lemma Run_turn_ok fuel s w w1 t e user system : OneInstruction handler debug_m (rest s) = Ret w1 -> wf_machine (machine w1) ->
  singleStep (machine w1) = false -> clock_at c s t e user system ->
  0 <= t < e -> e + 300 < 2 ^ 30 -> 0 <= user < 2 ^ 30 -> 0 <= system < 2 ^ 30 ->
  exists s', Run_turn handler CallBack Debugger debug_m (S fuel) s = Ret s' /\ caught_up w1 (rest s') /\
    if decide (t + 1 = e) then clock_at c s' (e + SystemTick) (e + TimerTicks) (user + 1) (system + SystemTick)
    else clock_at c s' (t + 1) e (user + 1) system.
Proof.
  intros HO Hw1 Hss [(x & Hr & Hwx & Hcx) Hu Hsy] Hte He Hub Hsb. unfold Run_turn. rewrite HO, rbind_Ret.
  set (s1 := mkSim _ _ _ w1).
  assert (Hck : clock_at c s1 t e user system) by (split; [exists x; split; [by destruct Hr|done]|done|done]).
  assert (Hfin : forall s', OneTick CallBack (Yield_alone CallBack (S fuel)) machine_load s1 = Ret s' -> caught_up w1 (rest s') ->
    (let* s := OneTick CallBack (Yield_alone CallBack (S fuel)) machine_load s1 in
     if singleStep (machine (rest s)) && (runUntilTime (machine (rest s)) <=? totalTicks (ticks s)) then Debugger s else Ret s) = Ret s').
  { intros s' -> Hc'. rewrite rbind_Ret, (caught_up_singleStep _ _ Hc'), Hss. done. }
  case_decide as Hdue.
  - destruct (machine_load_Ret w1 Hw1) as (w2 & Hm & _). rewrite <- Hdue in Hck |- *.
    destruct (tick_expires CallBack c rand Htimer fuel s1 t user system w2) as (s' & HT & Hrest & Hck'); try done; try lia.
    assert (Hcu : caught_up w1 (rest s')) by (rewrite Hrest; by right). eauto.
  - destruct (tick_before CallBack c (Yield_alone CallBack (S fuel)) s1 t e user system) as (s' & HT & Hrest & Hck'); try done; try lia.
    assert (Hcu : caught_up w1 (rest s')) by (rewrite Hrest; by left). eauto.
Qed.

Lemma Run_turns_ok fuel n : forall s w t e user system, wf_machine (machine w) -> caught_up w (rest s) -> respects_slots n w ->
  clock_at c s t e user system -> 0 <= t < e -> e + TimerTicks * (Z.of_nat n + 3) < 2 ^ 30 ->
  0 <= user -> user + Z.of_nat n < 2 ^ 30 -> 0 <= system -> system + SystemTick * Z.of_nat n < 2 ^ 30 ->
  let k := expiries (Z.of_nat n) (e - t) in
  rrel (fun s' w' => caught_up w' (rest s') /\
      clock_at c s' (t + Z.of_nat n + SystemTick * k) (e + TimerTicks * k) (user + Z.of_nat n) (system + SystemTick * k))
    (Run_turns handler CallBack Debugger debug_m (S fuel) n s) (instructions handler debug_m n w).
Proof.
  induction n as [|n IH]; intros s w t e user system Hw Hcu Hresp Hck Hte He Hu Hub Hsy Hsb k.
  - cbn [Run_turns instructions rrel]. assert (k = 0) as -> by (unfold k, expiries; rewrite (proj2 (Z.ltb_lt _ _)) by lia; done).
    split; [done|]. change (Z.of_nat 0) with 0. rewrite !Z.mul_0_r, !Z.add_0_r. done.
  - cbn [Run_turns instructions].
    pose proof (caught_up_step handler debug_m w (rest s) Hw (proj1 (Hresp O w ltac:(lia) eq_refl)) Hcu) as HO.
    destruct (OneInstruction handler debug_m w) as [w1| | | |] eqn:E; rewrite ?rbind_Ret.
    2-5: unfold Run_turn; rewrite HO; exact I.
    pose proof (OneInstruction_wf handler handler_wf debug_m w w1 Hw E) as Hw1.
    assert (Hss : singleStep (machine w1) = false).
    { apply (Hresp 1%nat w1); [lia|]. cbn [instructions]. by rewrite E. }
    unfold TimerTicks, SystemTick in He, Hsb.
    destruct (Run_turn_ok fuel s w w1 t e user system HO Hw1 Hss Hck) as (s1 & HT & Hcu1 & Hck1); [lia..|].
    rewrite HT, rbind_Ret. pose proof (respects_step n w w1 Hresp E) as Hr1.
    unfold TimerTicks, SystemTick in *. destruct (decide (t + 1 = e)) as [Hdue|Hdue].
    + assert (Ek : k = 1 + expiries (Z.of_nat n) (100 - 10)).
      { unfold k. replace (e - t) with 1 by lia. rewrite expiries_now by lia. unfold TimerTicks, SystemTick. do 2 f_equal. lia. }
      clearbody k.
      specialize (IH s1 w1 (e + 10) (e + 100) (user + 1) (system + 10) Hw1 Hcu1 Hr1 Hck1). replace (e + 100 - (e + 10)) with (100 - 10) in IH by lia.
      replace (t + Z.of_nat (S n) + 10 * k) with (e + 10 + Z.of_nat n + 10 * expiries (Z.of_nat n) (100 - 10)) by lia.
      replace (e + 100 * k) with (e + 100 + 100 * expiries (Z.of_nat n) (100 - 10)) by lia.
      replace (user + Z.of_nat (S n)) with (user + 1 + Z.of_nat n) by lia.
      replace (system + 10 * k) with (system + 10 + 10 * expiries (Z.of_nat n) (100 - 10)) by lia.
      apply IH; lia.
    + assert (Ek : k = expiries (Z.of_nat n) (e - (t + 1))).
      { unfold k. rewrite expiries_early by lia. f_equal; lia. }
      specialize (IH s1 w1 (t + 1) e (user + 1) system Hw1 Hcu1 Hr1 Hck1). rewrite <- Ek in IH.
      replace (t + Z.of_nat (S n) + 10 * k) with (t + 1 + Z.of_nat n + 10 * k) by lia.
      replace (user + Z.of_nat (S n)) with (user + 1 + Z.of_nat n) by lia. apply IH; lia.
Qed.

(** The same, decided by running the program. *)
Fixpoint respects_b (n : nat) w : bool :=
  slot_safe (machine w) && negb (singleStep (machine w)) &&
  match n with
  | O => true
  | Datatypes.S n => match OneInstruction handler debug_m w with Ret w1 => respects_b n w1 | _ => true end
  end.

Lemma respects_b_sound n : forall w, respects_b n w = true -> respects_slots n w.
Proof.
  induction n as [|n IH]; intros w Hb k w' Hk Hi; cbn [respects_b] in Hb; apply andb_true_iff in Hb as [Hb Hn];
    apply andb_true_iff in Hb as [Hs Hss%negb_true_iff].
  - assert (k = 0%nat) as -> by lia. by injection Hi as <-.
  - destruct k as [|k]; [by injection Hi as <-|]. cbn [instructions] in Hi. apply rbind_eq_Ret in Hi as (w1 & HO & Hi).
    rewrite HO in Hn. by apply (IH w1 Hn k); [lia|].
Qed.

(** ** Claims *)

(** C14: interrupts are transparent.  For a program that does not use a register in the slot
    after its load, [n] turns of [Machine::Run], with the clock, the timer and the yields
    that the timer forces, end the way [n] bare instructions end: both fail in the same way
    or both return, and then the machine is that of the bare instructions, except that a
    load that is pending there may have been completed.  The clock is exact: the timer has
    expired [k] times, once after its first delay and then once in every ninety
    instructions, and each expiry has cost ten ticks of system time. *)
Theorem run_transparent fuel n s t e user system :
  wf_machine (machine (rest s)) -> respects_slots n (rest s) ->
  clock_at c (Interrupt.setStatus s UserMode) t e user system ->
  0 <= t < e -> e + TimerTicks * (Z.of_nat n + 3) < 2 ^ 30 ->
  0 <= user -> user + Z.of_nat n < 2 ^ 30 -> 0 <= system -> system + SystemTick * Z.of_nat n < 2 ^ 30 ->
  let k := expiries (Z.of_nat n) (e - t) in
  rrel (fun s' w' => caught_up w' (rest s') /\
      clock_at c s' (t + Z.of_nat n + SystemTick * k) (e + TimerTicks * k) (user + Z.of_nat n) (system + SystemTick * k))
    (Run handler CallBack Debugger debug_m (S fuel) n s) (instructions handler debug_m n (rest s)).
Proof. intros Hw Hr Hc. apply (Run_turns_ok fuel n); [done|by left|done|done]. Qed.

End running.

(** ** A program that loads *)

(** The timer leaves the program's machine alone. *)
Lemma Timer_CallBack_rest {C X} `{EqDecision C} (c : C) rand t (s s' : Sim C X) : Timer_CallBack c rand t s = Ret s' -> rest s' = rest s.
Proof.
  unfold Timer_CallBack, Alarm_CallBack, YieldOnReturn, SetInterrupt, Schedule. intros HT.
  apply rbind_eq_Ret in HT as (s1 & H1 & HT). assert (rest s1 = rest s) as <-.
  { repeat (case_match; simplify_eq; try done); apply rbind_eq_Ret in H1 as (? & _ & H1); by injection H1 as <-. }
  repeat (case_match; simplify_eq; try done). all: repeat (apply rbind_eq_Ret in HT as (? & _ & HT)); by injection HT as <-.
Qed.

Definition words (l : list Z) : list byte := l ≫= (fun v => map (fun k => byte.of_Z (Z.shiftr v (8 * Z.of_nat k))) (seq 0 4)).

(** Put at virtual address 0 of the machine [sample_machine], whose page 0 is in frame 3. *)
Definition with_program (l : list Z) : World unit :=
  sample_world (set_mainMemory (set_registers sample_machine (<[Z.to_nat NextPCReg := 4]> (replicate 40 0)))
    (replicate 384 (byte.of_Z 0) ++ words l ++
     replicate (Z.to_nat (MemorySize - 384) - length (words l)) (byte.of_Z 0))).

(** [lw $8,12($0)], an instruction that does not use [$8] or one that does, [addu $9,$8,$8]
    and the datum. *)
Definition safe_program : World unit := with_program [0x8c08000c; 0; 0x01084821; 42].
Definition hasty_program : World unit := with_program [0x8c08000c; 0x01084821; 0; 42].

Definition clock_callback (c : unit) (s : Sim unit (World unit)) : result (Sim unit (World unit)) :=
  Timer_CallBack c 0 (mkTimer false false) s.

(** The kernel starts the program when the timer has [d] ticks to go. *)
Definition starting (d : Z) (w : World unit) : Sim unit (World unit) :=
  mkSim (mkInterrupt IntOn [mkPending 0 tt d TimerInt] false false SystemMode) new_Ticks 1 w.

Lemma with_program_wf l : (length (words l) <= Z.to_nat (MemorySize - 384))%nat -> wf_machine (machine (with_program l)).
Proof.
  intros Hl. destruct sample_machine_wf as [_ Ht]. split; [split|split]; try done.
  - cbn. rewrite !length_app, !length_replicate. unfold MemorySize, NumPhysPages, PageSize in *. lia.
  - apply Forall_insert; [apply Forall_replicate|]; unfold is_s32; lia.
  - by exists 0.
Qed.

Lemma starting_clock d w : 0 < d -> clock_at tt (Interrupt.setStatus (starting d w) UserMode) 0 d 0 0.
Proof. intros Hd. split; [|done..]. exists (mkPending 0 tt d TimerInt). by split; [split|]. Qed.

Lemma halting_wf : forall e w w', wf_machine (machine w) -> halting_handler e w = Ret w' -> wf_machine (machine w').
Proof. done. Qed.

Lemma run_transparent_witness :
  exists s', Run halting_handler clock_callback Ret false 1 3 (starting 1 safe_program) = Ret s' /\
    totalTicks (ticks s') = 13 /\ systemTicks (ticks s') = 10.
Proof.
  assert (Hi : exists w, instructions halting_handler false 3 safe_program = Ret w) by (vm_compute; eexists; reflexivity).
  destruct Hi as [w Hi].
  pose proof (run_transparent halting_handler clock_callback Ret false tt 0 (fun _ => eq_refl) halting_wf
    0 3 (starting 1 safe_program) 0 1 0 0 (with_program_wf [0x8c08000c; 0; 0x01084821; 42] ltac:(vm_compute; lia))
    (respects_b_sound halting_handler false 3 safe_program ltac:(vm_compute; reflexivity))
    (starting_clock 1 safe_program ltac:(lia)) ltac:(lia) ltac:(unfold TimerTicks; lia) ltac:(lia) ltac:(lia)
    ltac:(lia) ltac:(unfold SystemTick; lia)) as HT.
  change (rest (starting 1 safe_program)) with safe_program in HT. rewrite Hi in HT.
  destruct (Run halting_handler clock_callback Ret false 1 3 (starting 1 safe_program)) as [s'| | | |]; try contradiction HT.
  exists s'. split; [reflexivity|]. destruct HT as [_ [(x & Hx & _) _ Hs]].
  split; [exact (run_time _ _ _ Hx)|exact Hs].
Defined.

(** A program that uses the slot sees the interrupt: [addu $9,$8,$8] right after the load of
    [$8] adds the old value, zero, unless the timer expires between the two. *)
Theorem hasty_program_sees_interrupts :
  let sum d := let* s := Run halting_handler clock_callback Ret false 1 2 (starting d hasty_program) in
               Ret (registers (machine (rest s)) !! 9%nat) in
  sum 50 = Ret (Some 0) /\ sum 1 = Ret (Some 84) /\ respects_b halting_handler false 1 hasty_program = false.
Proof. split; [|split]; vm_compute; reflexivity. Qed.
