(* ===== verification/Debugger.v ===== *)
(** * The machine's debugger

    [Machine::Debugger] and [Machine::DumpState] of machine/machine.cc and
    [Interrupt::DumpState] of machine/interrupt.cc: the commands that the user types when a
    program is single-stepped, on the standard input and output of the C++ library. *)

From S2P Require Import Prelude CString NList Machine Confined Mips Interrupt UserRun.
#[local] Open Scope Z_scope.

(** ** The standard streams

    Of [cin] the characters that are still to come and whether the stream is good: a failed
    read leaves it bad, and from then on no read takes anything.  Of [cout] the items that
    were inserted; a literal is written as in the source, with its escapes. *)

Inductive Out : Type :=
  | OStr (s : string)
  | ONum (n : Z)
  | OBuf (s : list byte).

Record Streams : Type := mkStreams {
  input : list byte;
  good : bool;
  printed : list Out
}.

(** Where the kernel keeps it. *)
Class HasStreams (K : Type) : Type := {
  streams : K -> Streams;
  set_streams : K -> Streams -> K;
  streams_set k t : streams (set_streams k t) = t
}.

Definition NL : byte := byte.of_Z 10.

Definition put (t : Streams) (l : list Out) : Streams := mkStreams (input t) (good t) (printed t ++ l).

(** The characters before the first newline, at most [n], what follows them, and whether the
    end of the input was met. *)
Fixpoint until_newline (n : nat) (l : list byte) : list byte * list byte * bool :=
  match n, l with
  | O, _ => ([], l, false)
  | S _, [] => ([], [], true)
  | S n, b :: l' =>
      if bool_decide (b = NL) then ([], l, false)
      else let '(s, r, eof) := until_newline n l' in (b :: s, r, eof)
  end.

(** [cin.get(buf, n)]: the array then holds the characters and a zero.  Reading no character
    is a failure. *)
Definition cin_get_line (t : Streams) (n : nat) : Streams * list byte :=
  if good t then
    let '(s, r, eof) := until_newline (n - 1) (input t) in
    (mkStreams r (negb eof && negb (bool_decide (s = []))) (printed t), s ++ [NUL])
  else (t, [NUL]).

(** [cin.get()], whose result is not used. *)
Definition cin_get (t : Streams) : Streams :=
  if good t then
    match input t with
    | [] => mkStreams [] false (printed t)
    | _ :: l => mkStreams l true (printed t)
    end
  else t.

(** ** [sscanf(buf, "%d", &num)] *)

Definition isspace (b : byte) : bool := let c := byte.unsigned b in (c =? 32) || ((9 <=? c) && (c <=? 13)).
Definition isdigit (b : byte) : bool := let c := byte.unsigned b in (48 <=? c) && (c <=? 57).

Fixpoint skip_spaces (l : list byte) : list byte :=
  match l with b :: l' => if isspace b then skip_spaces l' else l | [] => [] end.

Fixpoint scan_digits (v : Z) (l : list byte) : Z :=
  match l with b :: l' => if isdigit b then scan_digits (10 * v + (byte.unsigned b - 48)) l' else v | [] => v end.

Definition scan_unsigned (l : list byte) : option Z :=
  match l with b :: _ => if isdigit b then Some (scan_digits 0 l) else None | [] => None end.

Definition scan_int (l : list byte) : option Z :=
  match skip_spaces l with
  | b :: l' =>
      if byte.unsigned b =? 45 then Z.opp <$> scan_unsigned l'
      else if byte.unsigned b =? 43 then scan_unsigned l'
      else scan_unsigned (b :: l')
  | [] => None
  end.

(** The number, if the call returns 1; a number that is no [int] is undefined behaviour. *)
Definition sscanf_d (buf : list byte) : result (option Z) :=
  let* s := c_str buf in
  match scan_int s with
  | None => Ret None
  | Some v => if bool_decide (is_s32 v) then Ret (Some v) else Fault
  end.

(** ** The state that it prints *)

Definition intLevelNames : list string := ["off"; "on"].
Definition intTypeNames : list string :=
  ["timer"; "disk"; "console write"; "console read"; "network send"; "network recv"].

Definition level_index (l : IntStatus) : Z := match l with IntOff => 0 | IntOn => 1 end.
Definition type_index (t : IntType) : Z :=
  match t with
  | TimerInt => 0 | DiskInt => 1 | ConsoleWriteInt => 2 | ConsoleReadInt => 3
  | NetworkSendInt => 4 | NetworkRecvInt => 5
  end.

Definition PrintPending {C} (t : Streams) (p : PendingInterrupt C) : result Streams :=
  let* name := zget intTypeNames (type_index (type p)) in
  Ret (put t [OStr "Interrupt handler "; OStr name; OStr ", scheduled at "; ONum (when p)]).

(** [pending->Apply(PrintPending)] *)
Fixpoint print_pending {C} (t : Streams) (l : list (PendingInterrupt C)) : result Streams :=
  match l with
  | [] => Ret t
  | p :: l => let* t := PrintPending t p in print_pending t l
  end.

(** [Interrupt::DumpState] *)
Definition Interrupt_DumpState {C X} (s : Sim C X) (t : Streams) : result Streams :=
  let t := put t [OStr "Time: "; ONum (totalTicks (ticks s))] in
  let* name := zget intLevelNames (level_index (level (intr s))) in
  let t := put t [OStr ", interrupts "; OStr name; OStr "\n"] in
  let t := put t [OStr "Pending interrupts:\n"] in
  let* t := print_pending t (pending (intr s)) in
  Ret (put t [OStr "\nEnd of pending interrupts\n"]).

(** [Machine::DumpState], its loop and the special registers. *)
Definition dump_register (m : Machine) (t : Streams) (i : Z) : result Streams :=
  let* v := zget (registers m) i in
  let t :=
    if i =? StackReg then put t [OStr "\tSP("; ONum i; OStr "):\t"; ONum v]
    else if i =? RetAddrReg then put t [OStr "\tRA("; ONum i; OStr "):\t"; ONum v]
    else put t [OStr "\t"; ONum i; OStr ":\t"; ONum v] in
  Ret (if i mod 4 =? 3 then put t [OStr "\n"] else t).

Fixpoint dump_registers (n : nat) (m : Machine) (t : Streams) (i : Z) : result Streams :=
  match n with
  | O => Ret t
  | S n => let* t := dump_register m t i in dump_registers n m t (i + 1)
  end.

Definition dump_special (m : Machine) (t : Streams) (name : string) (r : Z) : result Streams :=
  let* v := zget (registers m) r in Ret (put t [OStr name; ONum v]).

Definition DumpState (m : Machine) (t : Streams) : result Streams :=
  let t := put t [OStr "Machine registers:\n"] in
  let* t := dump_registers (Z.to_nat NumGPRegs) m t 0 in
  let* t := dump_special m t "\tHi:\t" HiReg in
  let* t := dump_special m t "\tLo:\t" LoReg in
  let* t := dump_special m t "\tPC:\t" PCReg in
  let* t := dump_special m t "\tNextPC:\t" NextPCReg in
  let* t := dump_special m t "\tPrevPC:\t" PrevPCReg in
  let* t := dump_special m t "\tLoad:\t" LoadReg in
  let* t := dump_special m t "\tLoadV:\t" LoadValueReg in
  Ret (put t [OStr "\n"]).

(** ** The debugger *)

Definition set_stepping (m : Machine) (step : bool) (time : Z) : Machine :=
  mkMachine (registers m) (mainMemory m) (tlb m) (pageTable m) (pageTableSize m) step time.

Definition help : list Out :=
  [OStr "Machine commands:\n"; OStr "    <return>  execute one instruction\n";
   OStr "    <number>  run until the given timer tick\n"; OStr "    c         run until completion\n";
   OStr "    ?         print help message\n"].

(** What the loop does with a line: the machine, the output and [done]. *)
Definition command (m : Machine) (t : Streams) (buf : list byte) : result (Machine * Streams * bool) :=
  let* num := sscanf_d buf in
  match num with
  | Some num => Ret (set_stepping m (singleStep m) num, t, true)
  | None =>
      let m := set_stepping m (singleStep m) 0 in
      let* c := zget buf 0 in
      let c := byte.unsigned c in
      if c =? 0 then Ret (m, t, true)
      else if c =? 99 then Ret (set_stepping m false 0, t, true)
      else if c =? 63 then Ret (m, put t help, false)
      else
        let* s := c_str buf in
        Ret (m, put t [OStr "Unknown command: "; OBuf s; OStr "\n"; OStr "Type ? for help.\n"], false)
  end.

(** One turn of [while (!done)] per unit of fuel. *)
Fixpoint debug_loop (fuel : nat) (now : Z) (m : Machine) (t : Streams) : result (Machine * Streams) :=
  match fuel with
  | O => NoFuel
  | S fuel =>
      let t := put t [ONum now; OStr ">"] in
      let (t, buf) := cin_get_line t 80 in
      let* (m, t, done) := command m t buf in
      let t := cin_get t in
      if done : bool then Ret (m, t) else debug_loop fuel now m t
  end.

Definition Debugger {C K} `{HasStreams K} (s : Sim C (World K)) : result (Sim C (World K)) :=
  let w := rest s in
  let* t := Interrupt_DumpState s (streams (kern w)) in
  let* t := DumpState (machine w) t in
  let* (m, t) := debug_loop (S (length (input t))) (totalTicks (ticks s)) (machine w) t in
  Ret (mkSim (intr s) (ticks s) (Interrupt.brk s) (mkWorld m (Machine.status w) (set_streams (kern w) t))).

(** ** What a call does *)

(** The lines that are no [int] although they are numbers. *)
Definition too_big (buf : list byte) : Prop :=
  exists s v, c_str buf = Ret s /\ scan_int s = Some v /\ ~ is_s32 v.

Lemma until_newline_spec n l : forall s r eof, until_newline n l = (s, r, eof) -> l = s ++ r /\ (eof = true -> r = []).
Proof.
  revert l; induction n as [|n IH]; intros [|b l] s r eof; cbn [until_newline]; try (intros [= <- <- <-]; by split).
  case_bool_decide; [intros [= <- <- <-]; by split|].
  destruct (until_newline n l) as [[s1 r1] e1] eqn:E. intros [= <- <- <-].
  destruct (IH _ _ _ _ E) as [-> He]. by split.
Qed.

(** A line that is typed and fits the buffer is read whole, without its newline. *)
Lemma until_newline_line n l r : (NL ∉ l) -> (length l <= n)%nat -> until_newline n (l ++ NL :: r) = (l, NL :: r, false).
Proof.
  revert l. induction n as [|n IH]; intros [|b l] Hl Hn; cbn [app until_newline]; try (cbn in Hn; lia); try done.
  apply not_elem_of_cons in Hl as [Hb Hl]. rewrite bool_decide_eq_false_2 by done. rewrite IH; [done|done|cbn in Hn; lia].
Qed.

Lemma c_str_terminated s : exists s', c_str (s ++ [NUL]) = Ret s'.
Proof.
  destruct (is_cstring_holds (s ++ [NUL])) as [s' Hs]; [unfold is_cstring; set_solver|]. exists s'. by apply c_str_spec.
Qed.

Lemma empty_command m t : command m t [NUL] = Ret (set_stepping m (singleStep m) 0, t, true).
Proof. done. Qed.

(** A command changes the stepping of the machine and what is printed, if its number is an
    [int]. *)
Lemma command_cases m t s : let buf := s ++ [NUL] in
  (exists b time l done, command m t buf = Ret (set_stepping m b time, put t l, done)) \/
  (command m t buf = Fault /\ too_big buf).
Proof.
  intros buf. destruct (c_str_terminated s) as [s' Hs]. fold buf in Hs. unfold command, sscanf_d. rewrite Hs, rbind_Ret.
  assert (Hput : put t [] = t) by (destruct t; unfold put; cbn; by rewrite app_nil_r).
  destruct (scan_int s') as [v|] eqn:E.
  - destruct (decide (is_s32 v)) as [Hv|Hv].
    + rewrite bool_decide_eq_true_2, rbind_Ret by done. left. exists (singleStep m), v, [], true. by rewrite Hput.
    + rewrite bool_decide_eq_false_2 by done. right. split; [done|]. by exists s', v.
  - rewrite rbind_Ret. left. destruct (zget_spec buf 0) as (c & Hc & _); [unfold buf; rewrite length_app; cbn; lia|].
    rewrite Hc, rbind_Ret. cbv zeta. repeat case_match.
    + exists (singleStep m), 0, [], true. by rewrite Hput.
    + exists false, 0, [], true. by rewrite Hput.
    + by eexists (singleStep m), 0, _, false.
    + rewrite rbind_Ret. by eexists (singleStep m), 0, _, false.
Qed.

Lemma cin_get_line_spec t n t' buf : cin_get_line t n = (t', buf) ->
  exists s, buf = s ++ [NUL] /\ input t = s ++ input t' /\ printed t' = printed t.
Proof.
  unfold cin_get_line. destruct (good t); [|intros [= <- <-]; by exists []].
  destruct (until_newline (n - 1) (input t)) as [[s r] eof] eqn:E. intros [= <- <-].
  destruct (until_newline_spec _ _ _ _ _ E) as [Hl _]. by exists s.
Qed.

Lemma cin_get_suffix t : input (cin_get t) `suffix_of` input t.
Proof.
  unfold cin_get. destruct (good t); [|done]. destruct (input t) as [|b l]; [by exists []|]. by exists [b].
Qed.

(** A line is too big a number; nothing is too big in a part of the input that it is not in. *)
Definition overflowing (l : list byte) : Prop := exists p s r, l = p ++ s ++ r /\ too_big (s ++ [NUL]).

Lemma overflowing_suffix l l' : l' `suffix_of` l -> overflowing l' -> overflowing l.
Proof. intros [q ->] (p & s & r & -> & Hb). exists (q ++ p), s, r. by rewrite <- app_assoc. Qed.

(** The loop ends, because each turn takes a character or is the last one. *)
Lemma debug_loop_spec now fuel : forall m t, (length (input t) < fuel)%nat ->
  match debug_loop fuel now m t with
  | Ret (m', t') => (exists b time, m' = set_stepping m b time) /\ input t' `suffix_of` input t
  | Fault => overflowing (input t)
  | _ => False
  end.
Proof.
  induction fuel as [|fuel IH]; intros m t Hf; [lia|]. cbn [debug_loop].
  set (t0 := put t _). change (input t) with (input t0) in *. destruct (cin_get_line t0 80) as [t1 buf] eqn:E.
  destruct (cin_get_line_spec _ _ _ _ E) as (s & -> & Hin & _).
  assert (Hsuf : input t1 `suffix_of` input t0) by (rewrite Hin; by apply suffix_app_r).
  destruct (command_cases m t1 s) as [(b & time & l & done & Hc)|[Hc Hb]]; rewrite Hc; cbn [rbind].
  2: { exists [], s, (input t1). by rewrite Hin. }
  pose proof (cin_get_suffix (put t1 l)) as Hg. change (input (put t1 l)) with (input t1) in Hg.
  destruct done eqn:Hd; [split; [eauto|by etrans]|]. destruct s as [|c s].
  { cbn [app] in Hc. rewrite empty_command in Hc. by injection Hc. }
  specialize (IH (set_stepping m b time) (cin_get (put t1 l))). assert (Hlen : (length (input (cin_get (put t1 l))) < fuel)%nat).
  { apply suffix_length in Hg. rewrite Hin in Hf. cbn [app length] in Hf. rewrite length_app in Hf. lia. }
  specialize (IH Hlen). assert (Hsuf' : input (cin_get (put t1 l)) `suffix_of` input t0) by (by etrans).
  destruct (debug_loop fuel now _ _) as [[m' t']| | | |]; try done.
  - destruct IH as [(b' & time' & ->) Hs]. split; [by exists b', time'|by etrans].
  - by apply (overflowing_suffix _ _ Hsuf').
Qed.

(** Printing the state reads nothing. *)
Lemma print_pending_spec {C} (l : list (PendingInterrupt C)) : forall t, exists o, print_pending t l = Ret (put t o).
Proof.
  induction l as [|p l IH]; intros t; cbn [print_pending].
  - exists []. destruct t. unfold put. cbn. by rewrite app_nil_r.
  - unfold PrintPending. destruct (zget_spec intTypeNames (type_index (type p))) as (n & Hn & _); [by destruct (type p)|].
    rewrite Hn, !rbind_Ret. edestruct IH as [o ->]. eexists. unfold put. cbn. by rewrite <- app_assoc.
Qed.

Lemma put_put t o o' : put (put t o) o' = put t (o ++ o').
Proof. unfold put. cbn. by rewrite <- app_assoc. Qed.

Lemma Interrupt_DumpState_spec {C X} (s : Sim C X) t : exists o, Interrupt_DumpState s t = Ret (put t o).
Proof.
  unfold Interrupt_DumpState. destruct (zget_spec intLevelNames (level_index (level (intr s)))) as (n & Hn & _); [by destruct (level _)|].
  rewrite Hn, rbind_Ret. edestruct @print_pending_spec as [o ->]. rewrite rbind_Ret, !put_put. by eexists.
Qed.

(** The registers are all there. *)
Lemma dump_registers_spec m n : forall t i, length (registers m) = 40%nat -> 0 <= i -> i + Z.of_nat n <= 40 ->
  exists o, dump_registers n m t i = Ret (put t o).
Proof.
  induction n as [|n IH]; intros t i Hl Hi Hn; cbn [dump_registers].
  - exists []. destruct t. unfold put. cbn. by rewrite app_nil_r.
  - unfold dump_register. destruct (zget_spec (registers m) i) as (v & Hv & _); [lia|]. rewrite Hv, !rbind_Ret.
    edestruct IH as [o ->]; [done|lia|lia|]. repeat case_match; rewrite !put_put; by eexists.
Qed.

Lemma dump_special_spec m t name r : length (registers m) = 40%nat -> 0 <= r < 40 ->
  exists o, dump_special m t name r = Ret (put t o).
Proof. intros Hl Hr. unfold dump_special. destruct (zget_spec (registers m) r) as (v & -> & _); [lia|]. by eexists. Qed.

Lemma DumpState_spec m t : length (registers m) = 40%nat -> exists o, DumpState m t = Ret (put t o).
Proof.
  intros Hl. unfold DumpState. destruct (dump_registers_spec m (Z.to_nat NumGPRegs) (put t [OStr "Machine registers:\n"]) 0) as [o Ho];
    [done|lia|unfold NumGPRegs; lia|]. rewrite Ho, rbind_Ret.
  do 7 (edestruct dump_special_spec as [? ->]; [done|unfold HiReg, LoReg, PCReg, NextPCReg, PrevPCReg, LoadReg, LoadValueReg; lia|];
    rewrite rbind_Ret).
  rewrite !put_put. by eexists.
Qed.

(** The machine but for its stepping. *)
Definition stepping_only (m m' : Machine) : Prop := exists b time, m' = set_stepping m b time.

Section debugger.
Context {C K : Type} `{HasStreams K}.
Implicit Types (s : Sim C (World K)).

(** The debugger, after it has printed the state. *)
Lemma Debugger_loop s : length (registers (machine (rest s))) = 40%nat -> exists o,
  Debugger s = let t := put (streams (kern (rest s))) o in
    let* (m, t) := debug_loop (S (length (input t))) (totalTicks (ticks s)) (machine (rest s)) t in
    Ret (mkSim (intr s) (ticks s) (Interrupt.brk s) (mkWorld m (Machine.status (rest s)) (set_streams (kern (rest s)) t))).
Proof.
  intros Hl. unfold Debugger. destruct (Interrupt_DumpState_spec s (streams (kern (rest s)))) as [o ->]. rewrite rbind_Ret.
  edestruct DumpState_spec as [o' ->]; [done|]. rewrite rbind_Ret, put_put. by exists (o ++ o').
Qed.

Lemma Debugger_stepping s s' : length (registers (machine (rest s))) = 40%nat -> Debugger s = Ret s' ->
  stepping_only (machine (rest s)) (machine (rest s')).
Proof.
  intros Hl HD. destruct (Debugger_loop s Hl) as [o Ho]. rewrite Ho in HD. cbv zeta in HD.
  apply rbind_eq_Ret in HD as ([m t] & HL & [= <-]). pose proof (debug_loop_spec (totalTicks (ticks s)) _ (machine (rest s))
    (put (streams (kern (rest s))) o) (Nat.lt_succ_diag_r _)) as Hs.
  rewrite HL in Hs. apply Hs.
Qed.

(** ** Commands

    What the user means: a line that starts with a number runs the program until that time,
    one that starts with a [c] runs it to its end, and any other asks for the next line. *)
Definition starts_with_c (l : list byte) : bool := match l with b :: _ => byte.unsigned b =? 99 | [] => false end.

Fixpoint dialogue (m : Machine) (lines : list (list byte)) : Machine * list (list byte) :=
  match lines with
  | [] => (set_stepping m (singleStep m) 0, [])
  | l :: lines =>
      match scan_int l with
      | Some v => (set_stepping m (singleStep m) v, lines)
      | None => if starts_with_c l then (set_stepping m false 0, lines) else dialogue m lines
      end
  end.

(** A command: some characters, which fit the buffer, and no number that is no [int]. *)
Record typed_line (l : list byte) : Prop := {
  tl_some : l <> [];
  tl_fits : (length l <= 79)%nat;
  tl_chars : (NL ∉ l) /\ (NUL ∉ l);
  tl_int v : scan_int l = Some v -> is_s32 v
}.

Definition typed_lines (lines : list (list byte)) : list byte := lines ≫= (fun l => l ++ [NL]).

Lemma dialogue_stepping lines : forall m b time, b = singleStep m -> dialogue (set_stepping m b time) lines = dialogue m lines.
Proof.
  induction lines as [|l lines IH]; intros m b time ->; cbn [dialogue]; [done|].
  destruct (scan_int l); [done|]. destruct (starts_with_c l); [done|]. by apply IH.
Qed.

Lemma command_line m t l : typed_line l ->
  command m t (l ++ [NUL]) = Ret (match scan_int l with
    | Some v => (set_stepping m (singleStep m) v, t, true)
    | None =>
        if starts_with_c l then (set_stepping m false 0, t, true)
        else (set_stepping m (singleStep m) 0, put t (match l with
          | b :: _ => if byte.unsigned b =? 63 then help
                      else [OStr "Unknown command: "; OBuf l; OStr "\n"; OStr "Type ? for help.\n"]
          | [] => []
          end), false)
    end).
Proof.
  intros [Hs _ [_ Hn] Hi]. unfold command, sscanf_d.
  assert (Hc : c_str (l ++ [NUL]) = Ret l) by (apply c_str_holds; split; [done|by exists []]).
  rewrite Hc, rbind_Ret. destruct (scan_int l) as [v|].
  { by rewrite bool_decide_eq_true_2, rbind_Ret by auto. }
  rewrite rbind_Ret. destruct l as [|b l]; [done|]. cbn [app]. rewrite (zget_lookup _ 0 b) by done. rewrite rbind_Ret.
  cbv zeta. cbn [starts_with_c]. apply not_elem_of_cons in Hn as [Hb _].
  destruct (Z.eqb_spec (byte.unsigned b) 0) as [E|_]; [destruct Hb; rewrite <- (byte.of_Z_unsigned b), E; done|].
  destruct (byte.unsigned b =? 99); [done|]. destruct (byte.unsigned b =? 63); [done|].
  done.
Qed.

Lemma debug_loop_dialogue now lines : forall fuel m t, Forall typed_line lines -> good t = true ->
  input t = typed_lines lines -> (length (input t) < fuel)%nat ->
  exists t', debug_loop fuel now m t = Ret ((dialogue m lines).1, t') /\ input t' = typed_lines (dialogue m lines).2.
Proof.
  induction lines as [|l lines IH]; intros [|fuel] m t Hl Hg Hi Hf; try lia; cbn [debug_loop].
  - unfold cin_get_line. cbn [good put input]. rewrite Hg, Hi. cbn. by eexists.
  - apply Forall_cons_1 in Hl as [Hl Hls]. cbn [typed_lines mbind list_bind] in Hi. rewrite <- app_assoc in Hi. cbn [app] in Hi.
    fold (typed_lines lines) in Hi.
    unfold cin_get_line. cbn [good put input]. pose proof (tl_fits _ Hl) as Hfit.
    rewrite Hg, Hi, (until_newline_line (80 - 1) l) by (first [exact (proj1 (tl_chars _ Hl))|lia]).
    rewrite (command_line m _ l Hl). cbn [dialogue].
    rewrite bool_decide_eq_false_2 by exact (tl_some _ Hl). cbn [negb andb].
    destruct (scan_int l) as [v|]; [by eexists|]. destruct (starts_with_c l); [by eexists|]. cbn [rbind].
    edestruct (IH fuel (set_stepping m (singleStep m) 0)) as (t' & Ht & Hi'); [done| | | |].
    4: { rewrite Ht, dialogue_stepping in * by done. by exists t'. }
    1,2: done.
    cbn. rewrite Hi, !length_app in Hf. cbn in Hf. lia.
Qed.

(** ** Claims *)

(** The debugger returns.  Whatever is typed, with an end of input or a failed stream, it
    leaves its loop, having changed nothing of the machine but the single-step flag and the
    time to run to, and nothing of the clock; only a number that is no [int] is undefined. *)
Theorem debugger_returns s : length (registers (machine (rest s))) = 40%nat ->
  match Debugger s with
  | Ret s' => stepping_only (machine (rest s)) (machine (rest s')) /\
      intr s' = intr s /\ ticks s' = ticks s /\
      input (streams (kern (rest s'))) `suffix_of` input (streams (kern (rest s)))
  | Fault => overflowing (input (streams (kern (rest s))))
  | _ => False
  end.
Proof.
  intros Hl. destruct (Debugger_loop s Hl) as [o ->]. cbv zeta. set (t := put _ o).
  pose proof (debug_loop_spec (totalTicks (ticks s)) (S (length (input t))) (machine (rest s)) t ltac:(lia)) as HL.
  destruct (debug_loop _ _ _ t) as [[m' t']| | | |]; cbn [rbind]; try exact HL.
  destruct HL as [Hm Hi]. cbn. rewrite streams_set. by split_and!.
Qed.

(** The debugger does what its help says.  When command lines have been typed, the call
    takes them up to the first that ends it and leaves the others for the next call. *)
Theorem debugger_obeys s lines : length (registers (machine (rest s))) = 40%nat -> Forall typed_line lines ->
  good (streams (kern (rest s))) = true -> input (streams (kern (rest s))) = typed_lines lines ->
  exists s', Debugger s = Ret s' /\ machine (rest s') = (dialogue (machine (rest s)) lines).1 /\
    input (streams (kern (rest s'))) = typed_lines (dialogue (machine (rest s)) lines).2.
Proof.
  intros Hl Hls Hg Hi. destruct (Debugger_loop s Hl) as [o ->]. cbv zeta. set (t := put _ o).
  destruct (debug_loop_dialogue (totalTicks (ticks s)) lines (S (length (input t))) (machine (rest s)) t Hls Hg Hi)
    as (t' & -> & Ht); [lia|].
  eexists. split; [done|]. cbn. by rewrite streams_set.
Qed.

(** A bare return is the last command.  It makes the read fail, so the debugger takes it
    as it should, but the stream stays bad: the newline is never consumed, and every later
    call returns at once, as if return had been pressed again, whatever has been typed. *)
Theorem return_key_sticks s l : length (registers (machine (rest s))) = 40%nat ->
  good (streams (kern (rest s))) = false \/ input (streams (kern (rest s))) = NL :: l ->
  exists s', Debugger s = Ret s' /\ machine (rest s') = set_stepping (machine (rest s)) (singleStep (machine (rest s))) 0 /\
    good (streams (kern (rest s'))) = false /\ input (streams (kern (rest s'))) = input (streams (kern (rest s))).
Proof.
  intros Hl Ht. destruct (Debugger_loop s Hl) as [o ->]. cbv zeta. cbn [debug_loop]. unfold cin_get_line. cbn [good put input].
  destruct (good (streams (kern (rest s)))) eqn:Hg.
  - destruct Ht as [|Ht]; [done|]. rewrite Ht. cbn. eexists. split; [done|]. cbn. rewrite streams_set. cbn. by rewrite ?Ht.
  - cbn. eexists. split; [done|]. cbn. rewrite streams_set.
    unfold cin_get. cbn. by rewrite Hg.
Qed.

End debugger.

(** ** A debugged program *)

#[export] Program Instance Streams_streams : HasStreams Streams := { streams t := t; set_streams _ t := t }.
Next Obligation. done. Qed.

Definition text (s : string) : list byte := (fun c => byte.of_Z (Z.of_N (Ascii.N_of_ascii c))) <$> String.list_ascii_of_string s.

(** The sample machine, single-stepped, when [l] has been typed. *)
Definition debugged (l : list byte) : Sim unit (World Streams) :=
  mkSim (mkInterrupt IntOff [mkPending 0 tt 3 TimerInt] false false UserMode) new_Ticks 1
    (mkWorld (set_stepping sample_machine true 0) UserMode (mkStreams l true [])).

Lemma typed_line_int (s : string) v : scan_int (text s) = Some v ->
  bool_decide (text s <> []) && bool_decide (length (text s) <= 79)%nat && bool_decide (NL ∉ text s) &&
    bool_decide (NUL ∉ text s) && bool_decide (is_s32 v) = true -> typed_line (text s).
Proof.
  rewrite !andb_true_iff, !bool_decide_eq_true. intros Hv [[[[? ?] ?] ?] ?].
  split; [done|done|done|]. rewrite Hv. by intros v' [= <-].
Qed.

Lemma debugger_returns_witness : exists s', Debugger (debugged (text "12")) = Ret s' /\ runUntilTime (machine (rest s')) = 12.
Proof.
  pose proof (debugger_returns (debugged (text "12")) eq_refl) as HD.
  destruct (Debugger (debugged (text "12"))) as [s'| | | |] eqn:E; try contradiction HD.
  - exists s'. split; [reflexivity|].
    assert (HE : (let* s := Debugger (debugged (text "12")) in Ret (runUntilTime (machine (rest s)))) = Ret 12) by (vm_compute; reflexivity).
    rewrite E in HE. injection HE as HE. exact HE.
  - assert (HE : (let* s := Debugger (debugged (text "12")) in Ret (runUntilTime (machine (rest s)))) = Ret 12) by (vm_compute; reflexivity).
    rewrite E in HE. discriminate HE.
Defined.

Lemma debugger_obeys_witness : exists s', Debugger (debugged (typed_lines [text "12"; text "20"])) = Ret s' /\
  runUntilTime (machine (rest s')) = 12 /\ input (streams (kern (rest s'))) = typed_lines [text "20"].
Proof.
  destruct (debugger_obeys (debugged (typed_lines [text "12"; text "20"])) [text "12"; text "20"] eq_refl) as (s' & HD & Hm & Hi).
  - apply Forall_cons. split; [apply (typed_line_int "12" 12); reflexivity|].
    apply Forall_singleton, (typed_line_int "20" 20); reflexivity.
  - reflexivity.
  - reflexivity.
  - exists s'. split; [exact HD|]. rewrite Hm, Hi. split; vm_compute; reflexivity.
Defined.

Lemma return_key_sticks_witness : exists s', Debugger (debugged (NL :: text "20")) = Ret s' /\
  good (streams (kern (rest s'))) = false /\ input (streams (kern (rest s'))) = NL :: text "20".
Proof.
  destruct (return_key_sticks (debugged (NL :: text "20")) (text "20") eq_refl) as (s' & HD & _ & Hg & Hi); [right; reflexivity|].
  exists s'. split; [exact HD|]. split; [exact Hg|]. rewrite Hi. reflexivity.
Defined.
