(* ===== verification/LibTests.v ===== *)
(** * The library's self tests

    [ListIterator], [List::SelfTest], [SortedList::SanityCheck] and [SortedList::SelfTest] of
    lib/list.h and lib/list.cc, and [LibSelfTest] of lib/libtest.cc, which runs them and those
    of bit maps and hash tables; and the flags of lib/debug.cc.  [SanityCheck] and [Append] are virtual: the test of a
    [List] that is a [SortedList] inserts in order and also checks the order. *)

From S2P Require Import Prelude CString Bitmap NList Hash Machine Debugger.
Import Heap.
#[local] Open Scope Z_scope.

(** ** [ListIterator] *)

Section iterator.
Context {T : Type}.
Implicit Types (h : Store T) (L : List).

Definition new_ListIterator (L : List) : option positive := first L.
Definition IsDone (current : option positive) : bool := bool_decide (current = None).
Definition Item h (current : option positive) : result T :=
  assert* negb (IsDone current) in
  let* e := deref h current in Ret (item e).
Definition Next h (current : option positive) : result (option positive) :=
  let* e := deref h current in Ret (next e).

(** The loop [for (; !iter->IsDone(); iter->Next())], the items it meets. *)
Fixpoint iterate (n : nat) h (current : option positive) : result (list T) :=
  if IsDone current then Ret []
  else match n with
       | O => NoFuel
       | S n =>
           let* x := Item h current in
           let* current := Next h current in
           let* xs := iterate n h current in
           Ret (x :: xs)
       end.

Lemma iterate_lseg n h p ls xs : lseg (cells h) p ls xs None -> (length ls <= n)%nat -> iterate n h p = Ret xs.
Proof.
  revert p ls xs. induction n as [|n IH]; intros p [|l ls] [|x xs] Hs Hn; try done; cbn in Hn; try lia.
  - cbn in Hs. by subst.
  - cbn in Hs. by subst.
  - destruct Hs as (-> & m & Hc & Hs). cbn [iterate]. unfold IsDone, Item, Next. rewrite bool_decide_eq_false_2 by done.
    cbn [negb deref]. rewrite ASSERT_true by done. rewrite rbind_Ret, Hc, !rbind_Ret. cbn [item next].
    rewrite (IH m ls xs) by (done || lia). by rewrite rbind_Ret.
Qed.

(** An iterator meets the items of the list in order. *)
Lemma iterate_list h L ls xs : repr h L ls xs -> iterate (fuel L) h (new_ListIterator L) = Ret xs.
Proof.
  intros [Hs _ _ Hn _]. pose proof (lseg_length _ _ _ _ _ Hs). apply (iterate_lseg _ _ _ ls); [done|]. unfold fuel. lia.
Qed.

End iterator.

(** ** [List::SelfTest] *)

Section selftest.
Context {T : Type} `{EqDecision T}.
(** The virtual operations. *)
Variable append : Store T -> List -> T -> result (Store T * List).
Variable sanity : Store T -> List -> result unit.
Implicit Types (h : Store T) (L : List) (p : list T).

Fixpoint append_all h L p : result (Store T * List) :=
  match p with
  | [] => Ret (h, L)
  | x :: p =>
      let* (h, L) := append h L x in
      let* found := IsInList h L x in
      assert* found in
      assert* negb (IsEmpty L) in
      append_all h L p
  end.

Fixpoint remove_all h L p : result (Store T * List) :=
  match p with
  | [] => Ret (h, L)
  | x :: p =>
      let* (h, L) := Remove h L x in
      let* found := IsInList h L x in
      assert* negb found in
      remove_all h L p
  end.

(** [p] is the array of [numEntries] items. *)
Definition List_SelfTest h L p : result (Store T * List) :=
  let iterator := new_ListIterator L in
  let* _ := sanity h L in
  assert* IsEmpty L && bool_decide (first L = None) in
  let* _ := (if IsDone iterator then Ret tt else AssertFail) in
  let* (h, L) := append_all h L p in
  let* _ := sanity h L in
  let* (h, L) := remove_all h L p in
  assert* IsEmpty L in
  let* _ := sanity h L in
  Ret (h, L).

End selftest.

(** ** [SortedList] *)

Section sortedlist.
Context {T : Type} `{EqDecision T} (compare : T -> T -> Z).
Implicit Types (h : Store T) (L : List) (p : list T).

(** [prev] and [ptr] walk the list together. *)
Fixpoint sorted_loop (n : nat) h (prev ptr : option positive) : result unit :=
  match ptr with
  | None => Ret tt
  | Some _ =>
      match n with
      | O => NoFuel
      | S n =>
          let* a := deref h prev in
          let* b := deref h ptr in
          assert* compare (item a) (item b) <=? 0 in
          sorted_loop n h ptr (next b)
      end
  end.

Definition SortedList_SanityCheck h L : result unit :=
  let* _ := SanityCheck h L in
  if decide (first L <> last L) then
    let* e := deref h (first L) in
    sorted_loop (fuel L) h (first L) (next e)
  else Ret tt.

Fixpoint insert_all h L p : result (Store T * List) :=
  match p with
  | [] => Ret (h, L)
  | x :: p =>
      let* (h, L) := Insert compare h L x in
      let* found := IsInList h L x in
      assert* found in
      insert_all h L p
  end.

(** The array [q] of what comes out. *)
Fixpoint remove_fronts (n : nat) h L : result (Store T * List * list T) :=
  match n with
  | O => Ret (h, L, [])
  | S n =>
      let* (x, h, L) := RemoveFront h L in
      let* found := IsInList h L x in
      assert* negb found in
      let* (h, L, q) := remove_fronts n h L in
      Ret (h, L, x :: q)
  end.

Fixpoint in_order (q : list T) : result unit :=
  match q with
  | x :: (y :: _) as q' => assert* compare x y <=? 0 in in_order q'
  | _ => Ret tt
  end.

Definition SortedList_SelfTest h L p : result (Store T * List) :=
  let* (h, L) := List_SelfTest (Insert compare) SortedList_SanityCheck h L p in
  let* (h, L) := insert_all h L p in
  let* _ := SortedList_SanityCheck h L in
  let* (h, L, q) := remove_fronts (length p) h L in
  assert* IsEmpty L in
  let* _ := in_order q in
  let* _ := SortedList_SanityCheck h L in
  Ret (h, L).

End sortedlist.

(** ** The tests pass *)

Section passing.
Context {T : Type} `{EqDecision T}.
Implicit Types (h : Store T) (L : List) (p xs : list T).

Lemma remove_first_perm (x : T) xs : x ∈ xs -> xs ≡ₚ x :: Seq.remove_first x xs.
Proof.
  induction xs as [|y xs IH]; [by intros ?%not_elem_of_nil|]. intros Hx. cbn [Seq.remove_first].
  case_decide as E; [by rewrite E|]. apply elem_of_cons in Hx as [|Hx]; [done|]. etrans; [apply perm_skip, IH, Hx|constructor].
Qed.

(** What the test needs of the virtual operations: [Q] holds of the sequences that the list
    may hold. *)
Context (append : Store T -> List -> T -> result (Store T * List)) (sanity : Store T -> List -> result unit).
Context (Q : list T -> Prop).
Hypothesis append_ok : forall h L ls xs x, repr h L ls xs -> Q xs -> x ∉ xs ->
  exists h' L' ls' xs', append h L x = Ret (h', L') /\ repr h' L' ls' xs' /\ Q xs' /\ xs' ≡ₚ x :: xs.
Hypothesis sanity_ok : forall h L ls xs, repr h L ls xs -> Q xs -> sanity h L = Ret tt.

Lemma append_all_ok p : forall h L ls xs, repr h L ls xs -> Q xs -> NoDup (p ++ xs) ->
  exists h' L' ls' xs', append_all append h L p = Ret (h', L') /\ repr h' L' ls' xs' /\ Q xs' /\ xs' ≡ₚ p ++ xs.
Proof.
  induction p as [|x p IH]; intros h L ls xs Hr HQ Hnd; cbn [append_all]; [by exists h, L, ls, xs|].
  cbn [app] in Hnd. apply NoDup_cons in Hnd as [Hx Hnd].
  destruct (append_ok h L ls xs x Hr HQ) as (h1 & L1 & ls1 & xs1 & -> & Hr1 & HQ1 & HP); [set_solver|].
  rewrite rbind_Ret, (IsInList_spec _ _ _ _ _ Hr1), bool_decide_eq_true_2, rbind_Ret by (rewrite HP; set_solver).
  rewrite ASSERT_true, rbind_Ret by done. rewrite (IsEmpty_spec _ _ _ _ Hr1). unfold Seq.IsEmpty.
  rewrite ASSERT_true, rbind_Ret by (rewrite HP; cbn; by apply negb_true_iff, Z.eqb_neq).
  destruct (IH h1 L1 ls1 xs1 Hr1 HQ1) as (h2 & L2 & ls2 & xs2 & -> & Hr2 & HQ2 & HP2).
  { rewrite HP, <- Permutation_middle. by apply NoDup_cons. }
  exists h2, L2, ls2, xs2. split; [done|]. split; [done|]. split; [done|]. rewrite HP2, HP. cbn. by rewrite Permutation_middle.
Qed.

Lemma remove_all_ok p : forall h L ls xs, repr h L ls xs -> xs ≡ₚ p -> NoDup p ->
  exists h' L' ls', remove_all h L p = Ret (h', L') /\ repr h' L' ls' [].
Proof.
  induction p as [|x p IH]; intros h L ls xs Hr HP Hnd; cbn [remove_all].
  { apply Permutation_nil_r in HP as ->. by exists h, L, ls. }
  apply NoDup_cons in Hnd as [Hx Hnd]. pose proof (Remove_sim h L ls xs x Hr) as HS.
  assert (Hin : x ∈ xs) by (rewrite HP; set_solver). pose proof (remove_first_perm x xs Hin) as HR.
  assert (HP' : Seq.remove_first x xs ≡ₚ p) by (apply (Permutation_cons_inv (a := x)); by rewrite <- HR).
  unfold Seq.Remove, Seq.IsInList in HS. rewrite bool_decide_eq_true_2, ASSERT_true, rbind_Ret in HS by done.
  rewrite bool_decide_eq_false_2, ASSERT_true, rbind_Ret in HS by (rewrite ?HP'; done).
  destruct HS as (h1 & L1 & ls1 & -> & Hr1 & _). rewrite rbind_Ret, (IsInList_spec _ _ _ _ _ Hr1).
  rewrite bool_decide_eq_false_2, rbind_Ret, ASSERT_true, rbind_Ret by (rewrite ?HP'; done).
  by apply (IH h1 L1 ls1 (Seq.remove_first x xs)).
Qed.

Lemma List_SelfTest_ok h L p : repr h L [] [] -> Q [] -> NoDup p ->
  exists h' L' ls', List_SelfTest append sanity h L p = Ret (h', L') /\ repr h' L' ls' [].
Proof.
  intros Hr HQ Hnd. unfold List_SelfTest. rewrite (sanity_ok _ _ _ _ Hr HQ), rbind_Ret.
  assert (Hf : first L = None) by apply Hr. unfold new_ListIterator, IsDone. rewrite Hf.
  rewrite (IsEmpty_spec _ _ _ _ Hr), ASSERT_true, rbind_Ret by done. cbn [bool_decide decide_rel]. rewrite bool_decide_eq_true_2, rbind_Ret by done.
  destruct (append_all_ok p h L [] [] Hr HQ) as (h1 & L1 & ls1 & xs1 & -> & Hr1 & HQ1 & HP); [by rewrite app_nil_r|].
  rewrite rbind_Ret, (sanity_ok _ _ _ _ Hr1 HQ1), rbind_Ret. rewrite app_nil_r in HP.
  destruct (remove_all_ok p h1 L1 ls1 xs1 Hr1 HP Hnd) as (h2 & L2 & ls2 & -> & Hr2). rewrite rbind_Ret.
  rewrite (IsEmpty_spec _ _ _ _ Hr2), ASSERT_true, rbind_Ret, (sanity_ok _ _ _ _ Hr2 HQ) by done. by exists h2, L2, ls2.
Qed.

End passing.

Section sorted_passing.
Context {T : Type} `{EqDecision T} (compare : T -> T -> Z) `{!Comparator compare}.
Implicit Types (h : Store T) (L : List) (p xs : list T).
Abbreviation sorted := (StronglySorted (before compare)).

Lemma insert_sorted_perm (x : T) xs : Seq.insert_sorted compare x xs ≡ₚ x :: xs.
Proof.
  induction xs as [|y xs IH]; cbn [Seq.insert_sorted]; [done|]. destruct (_ <? 0); [done|]. rewrite IH. constructor.
Qed.

Lemma Insert_ok h L ls xs x : repr h L ls xs -> sorted xs -> x ∉ xs ->
  exists h' L' ls' xs', Insert compare h L x = Ret (h', L') /\ repr h' L' ls' xs' /\ sorted xs' /\ xs' ≡ₚ x :: xs.
Proof.
  intros Hr Hs Hx. pose proof (Insert_sim compare h L ls xs x Hr) as HS.
  unfold Seq.Insert, Seq.IsInList in HS. rewrite bool_decide_eq_false_2, ASSERT_true, rbind_Ret in HS by done.
  destruct HS as (h' & L' & ls' & HI & Hr' & _). exists h', L', ls', (Seq.insert_sorted compare x xs). split; [done|]. split; [done|].
  split; [by apply insert_sorted_sorted|apply insert_sorted_perm].
Qed.

Lemma sorted_loop_ok n h : forall l x (p : option positive) ls xs, cells h !! l = Some (mkElem x p) -> lseg (cells h) p ls xs None ->
  sorted (x :: xs) -> (length ls <= n)%nat -> sorted_loop compare n h (Some l) p = Ret tt.
Proof.
  induction n as [|n IH]; intros l x p [|l' ls] [|y xs] Hc Hs Hso Hn; try done; cbn in Hs, Hn; try lia; try (by rewrite Hs).
  destruct Hs as (-> & m & Hc' & Hs). cbn [sorted_loop deref]. rewrite Hc, rbind_Ret, Hc', rbind_Ret. cbn [item next].
  apply StronglySorted_inv in Hso as [Hso Hx]. apply Forall_cons in Hx as [Hx _].
  rewrite ASSERT_true, rbind_Ret by (apply Z.leb_le, Hx). apply (IH l' y m ls xs); done || lia.
Qed.

Lemma SortedList_SanityCheck_ok h L ls xs : repr h L ls xs -> sorted xs -> SortedList_SanityCheck compare h L = Ret tt.
Proof.
  intros Hr Hs. unfold SortedList_SanityCheck. rewrite (SanityCheck_spec _ _ _ _ Hr), rbind_Ret.
  case_decide as Hne; [|done]. destruct xs as [|x xs].
  { destruct Hr as [Hl _ Hla _ _]. destruct ls; [|done]. destruct Hne. cbn in Hl. by rewrite Hl, Hla. }
  destruct (repr_cons _ _ _ _ _ Hr) as (l & ls' & n & -> & Hf & Hc & Hl & _). pose proof (lseg_length _ _ _ _ _ Hl) as Hlen.
  rewrite Hf. cbn [deref]. rewrite Hc, rbind_Ret. cbn [next]. apply (sorted_loop_ok _ h l x n ls' xs); try done.
  unfold fuel. rewrite (repr_num _ _ _ _ Hr). cbn [length]. lia.
Qed.

Lemma insert_all_ok p : forall h L ls xs, repr h L ls xs -> sorted xs -> NoDup (p ++ xs) ->
  exists h' L' ls' xs', insert_all compare h L p = Ret (h', L') /\ repr h' L' ls' xs' /\ sorted xs' /\ xs' ≡ₚ p ++ xs.
Proof.
  induction p as [|x p IH]; intros h L ls xs Hr Hs Hnd; cbn [insert_all]; [by exists h, L, ls, xs|].
  cbn [app] in Hnd. apply NoDup_cons in Hnd as [Hx Hnd].
  destruct (Insert_ok h L ls xs x Hr Hs) as (h1 & L1 & ls1 & xs1 & -> & Hr1 & Hs1 & HP); [set_solver|].
  rewrite rbind_Ret, (IsInList_spec _ _ _ _ _ Hr1), bool_decide_eq_true_2, rbind_Ret by (rewrite HP; set_solver).
  rewrite ASSERT_true, rbind_Ret by done. destruct (IH h1 L1 ls1 xs1 Hr1 Hs1) as (h2 & L2 & ls2 & xs2 & -> & Hr2 & Hs2 & HP2).
  { rewrite HP, <- Permutation_middle. by apply NoDup_cons. }
  exists h2, L2, ls2, xs2. split; [done|]. split; [done|]. split; [done|]. rewrite HP2, HP. cbn. by rewrite Permutation_middle.
Qed.

Lemma remove_fronts_ok xs : forall h L ls, repr h L ls xs -> NoDup xs ->
  exists h' L' ls', remove_fronts (length xs) h L = Ret (h', L', xs) /\ repr h' L' ls' [].
Proof.
  induction xs as [|x xs IH]; intros h L ls Hr Hnd; cbn [length remove_fronts]; [by exists h, L, ls|].
  apply NoDup_cons in Hnd as [Hx Hnd]. destruct (RemoveFront_sim h L ls (x :: xs) Hr) as (h1 & L1 & ls1 & -> & Hr1 & _).
  rewrite rbind_Ret, (IsInList_spec _ _ _ _ _ Hr1), bool_decide_eq_false_2, rbind_Ret, ASSERT_true, rbind_Ret by done.
  destruct (IH h1 L1 ls1 Hr1 Hnd) as (h2 & L2 & ls2 & -> & Hr2). rewrite rbind_Ret. by exists h2, L2, ls2.
Qed.

Lemma in_order_ok xs : sorted xs -> in_order compare xs = Ret tt.
Proof.
  induction xs as [|x [|y xs] IH]; intros Hs; [done|done|]. cbn [in_order]. apply StronglySorted_inv in Hs as [Hs Hx].
  apply Forall_cons in Hx as [Hx _]. rewrite ASSERT_true, rbind_Ret by (apply Z.leb_le, Hx). by apply IH.
Qed.

Lemma SortedList_SelfTest_ok h L p : repr h L [] [] -> NoDup p ->
  exists h' L' ls', SortedList_SelfTest compare h L p = Ret (h', L') /\ repr h' L' ls' [].
Proof.
  intros Hr Hnd. assert (Hnil : sorted []) by constructor. unfold SortedList_SelfTest.
  destruct (List_SelfTest_ok (Insert compare) (SortedList_SanityCheck compare) sorted Insert_ok SortedList_SanityCheck_ok
    h L p Hr Hnil Hnd) as (h1 & L1 & ls1 & -> & Hr1).
  rewrite rbind_Ret. destruct (insert_all_ok p h1 L1 ls1 [] Hr1 Hnil) as (h2 & L2 & ls2 & xs & -> & Hr2 & Hs2 & HP); [by rewrite app_nil_r|].
  rewrite app_nil_r in HP. rewrite rbind_Ret, (SortedList_SanityCheck_ok _ _ _ _ Hr2 Hs2), rbind_Ret, <- (Permutation_length HP).
  destruct (remove_fronts_ok xs h2 L2 ls2 Hr2) as (h3 & L3 & ls3 & -> & Hr3); [by rewrite HP|].
  rewrite rbind_Ret, (IsEmpty_spec _ _ _ _ Hr3), ASSERT_true, rbind_Ret, (in_order_ok _ Hs2), rbind_Ret by done.
  rewrite (SortedList_SanityCheck_ok _ _ _ _ Hr3 Hnil), rbind_Ret. by exists h3, L3, ls3.
Qed.

End sorted_passing.

Lemma plain_SelfTest_ok {T} `{EqDecision T} (h : Store T) L p : repr h L [] [] -> NoDup p ->
  exists h' L' ls', List_SelfTest Append SanityCheck h L p = Ret (h', L') /\ repr h' L' ls' [].
Proof.
  intros Hr Hnd. apply (List_SelfTest_ok Append SanityCheck (fun _ => True)); try done.
  - intros h0 L0 ls xs x Hr0 _ Hx. pose proof (Append_sim h0 L0 ls xs x Hr0) as HS.
    unfold Seq.Append, Seq.IsInList in HS. rewrite bool_decide_eq_false_2, ASSERT_true, rbind_Ret in HS by done.
    destruct HS as (h' & L' & ls' & HA & Hr' & _). exists h', L', ls', (xs ++ [x]). split_and!; try done. symmetry. apply Permutation_cons_append.
  - intros h0 L0 ls xs Hr0 _. by apply (SanityCheck_spec _ _ ls xs).
Qed.

Lemma new_List_repr {T} (h : Store T) : (forall l, is_Some (cells h !! l) -> (l < brk h)%positive) -> repr h new_List [] [].
Proof. intros Hb. constructor; cbn; auto. constructor. Qed.

(** ** [LibSelfTest] *)

(** [HashKey] is [atoi]; the items are the numerals, each a literal of its own. *)
Definition HashKey (str : list byte) : Z := default 0 (scan_int str).

Definition listTestVector : list Z := [9; 5; 7].
Definition hashTestVector : list (list byte) :=
  text <$> ["0"; "1"; "2"; "3"; "4"; "5"; "6"; "7"; "8"; "9"; "10"; "11"; "12"; "13"; "14"].

(** [g] is the memory that the bit map gets. *)
Definition LibSelfTest (g : nat -> Z) (h : Store Z) : result (Store Z) :=
  let* map := new_Bitmap g 200 in
  let list := new_List in
  let sortList := new_List in
  let* hashTable := new_HashTable in
  let* map := Bitmap.SelfTest map in
  let* (h, list) := List_SelfTest Append SanityCheck h list listTestVector in
  let* (h, sortList) := SortedList_SelfTest IntCompare h sortList listTestVector in
  let* hashTable := Hash.SelfTest HashKey HashInt hashTable hashTestVector in
  let* _ := delete_HashTable hashTable in
  Ret h.

(** ** [Debug] *)

(** [strchr(s, c) != 0]; the terminating zero counts as a character. *)
Definition strchr_found (s : list byte) (c : byte) : result bool :=
  let* t := c_str s in Ret (bool_decide (c = NUL) || bool_decide (c ∈ t)).

Definition dbgAll : byte := byte.of_Z 43.

(** The argument of the constructor is the string of flags, or [NULL]. *)
Definition IsEnabled (enableFlags : option (list byte)) (flag : byte) : result bool :=
  match enableFlags with
  | Some s =>
      let* a := strchr_found s flag in
      if a then Ret true else strchr_found s dbgAll
  | None => Ret false
  end.

Lemma IsEnabled_spec a s flag : holds_str a s -> flag <> NUL ->
  IsEnabled (Some a) flag = Ret (bool_decide (flag ∈ s \/ dbgAll ∈ s)).
Proof.
  intros Ha Hf. unfold IsEnabled, strchr_found. rewrite (c_str_holds a s Ha), !rbind_Ret.
  rewrite (bool_decide_eq_false_2 (flag = NUL)) by done. cbn [orb]. rewrite bool_decide_or.
  by destruct (bool_decide (flag ∈ s)), (bool_decide (dbgAll ∈ s)).
Qed.

(** ** Claims *)

(** The self tests of the lists pass, whatever store they run on and whatever distinct
    items they are given, with the virtual calls of a sorted list as well as with those of a
    plain one, and leave the list empty. *)
Theorem list_SelfTests {T} `{EqDecision T} compare `{!Comparator compare} (h : Store T) p :
  (forall l, is_Some (cells h !! l) -> (l < brk h)%positive) -> NoDup p ->
  (exists h' L' ls', List_SelfTest Append SanityCheck h new_List p = Ret (h', L') /\ repr h' L' ls' []) /\
  (exists h' L' ls', SortedList_SelfTest compare h new_List p = Ret (h', L') /\ repr h' L' ls' []).
Proof.
  intros Hb Hnd. split; [apply (plain_SelfTest_ok h new_List p)|apply (SortedList_SelfTest_ok compare h new_List p)];
    by auto using new_List_repr.
Qed.

(** No assertion of the library's self test fails, whatever memory it gets. *)
Theorem LibSelfTest_passes g (h : Store Z) : (forall l, is_Some (cells h !! l) -> (l < brk h)%positive) ->
  exists h', LibSelfTest g h = Ret h'.
Proof.
  intros Hb. unfold LibSelfTest. destruct (SelfTest_fresh g 200) as (b & b' & -> & HB & _); [vm_compute; discriminate|].
  rewrite rbind_Ret. destruct (new_HashTable_wf HashKey HashInt) as (tb & -> & Hwf). rewrite rbind_Ret, HB, rbind_Ret.
  assert (Hnd : NoDup listTestVector) by (apply (bool_decide_unpack _); vm_compute; exact I).
  destruct (plain_SelfTest_ok h new_List listTestVector (new_List_repr h Hb) Hnd) as (h1 & L1 & ls1 & -> & Hr1). rewrite rbind_Ret.
  destruct (SortedList_SelfTest_ok IntCompare h1 new_List listTestVector) as (h2 & L2 & ls2 & -> & Hr2); [|done|].
  { apply new_List_repr, Hr1. }
  rewrite rbind_Ret. destruct (Hash.SelfTest_spec HashKey HashInt tb hashTestVector Hwf) as (tb' & -> & Hwf').
  { apply (bool_decide_unpack _). vm_compute. exact I. }
  { unfold hashTestVector. rewrite length_fmap. cbn. lia. }
  rewrite rbind_Ret. unfold delete_HashTable, Hash.IsEmpty. rewrite (wt_count _ _ _ _ Hwf'). by exists h2.
Qed.

Lemma LibSelfTest_passes_witness : exists h', LibSelfTest (fun k => Z.of_nat k) (mkStore ∅ 1) = Ret h'.
Proof. apply LibSelfTest_passes. intros l Hl. cbn in Hl. rewrite lookup_empty in Hl. destruct Hl as [e He]. discriminate He. Defined.

Lemma list_SelfTests_witness :
  exists h' L' ls', SortedList_SelfTest IntCompare (mkStore ∅ 1) new_List listTestVector = Ret (h', L') /\ repr h' L' ls' [].
Proof.
  destruct (list_SelfTests IntCompare (mkStore ∅ 1) listTestVector) as [_ HS]; [| |exact HS].
  - intros l Hl. cbn in Hl. rewrite lookup_empty in Hl. destruct Hl as [e He]. discriminate He.
  - apply (bool_decide_unpack _). vm_compute. exact I.
Defined.
