(* ===== verification/ProgramConfined.v ===== *)
(** * User programs are confined

    Whatever instructions a user program consists of, and whatever system calls it makes, it
    changes no memory outside the frames that its page table lets it write, nor the page
    table: for one instruction, for the loop of [Machine::Run] with interrupts, and for the
    kernel's exception handler of userprog/exception.cc. *)

From S2P Require Import Prelude CString Host Console FileSysStub AddrSpace Syscalls Exception Machine Confined Mips NList Interrupt UserRun Debugger.
#[local] Open Scope Z_scope.

(** ** Instructions *)

(** What the machine needs of the kernel to confine a program: the handler does. *)
Class ConfinedKernel {K} (handler : ExceptionType -> World K -> result (World K)) : Prop :=
  kernel_confined e w w' : wf_mmu (machine w) -> length (registers (machine w)) = Z.to_nat NumTotalRegs ->
    handler e w = Ret w' ->
    confined (machine w) (machine w') /\ length (registers (machine w')) = Z.to_nat NumTotalRegs.

Section confinement.
Context {K : Type} (handler : ExceptionType -> World K -> result (World K)) `{!ConfinedKernel handler} (w0 : World K).
Implicit Types (w : World K).

(** The states that the program may reach from [w0]. *)
Definition within w : Prop :=
  confined (machine w0) (machine w) /\ length (registers (machine w)) = Z.to_nat NumTotalRegs.

(** Whatever [c] returns is such a state. *)
Definition keeps {A} (c : result (World K * A)) : Prop := forall r, c = Ret r -> within r.1.

Lemma keeps_bind {A B} (c : result A) (k : A -> result (World K * B)) (P : A -> Prop) :
  (forall a, c = Ret a -> P a) -> (forall a, P a -> keeps (k a)) -> keeps (rbind c k).
Proof. intros Hc Hk r Hr. apply rbind_eq_Ret in Hr as (a & Ha & Hr). by apply (Hk a (Hc a Ha)). Qed.

Lemma within_regs w r : within w -> length r = Z.to_nat NumTotalRegs -> within (set_machine w (set_registers (machine w) r)).
Proof. intros [Hc _] Hl. split; [by apply confined_registers|done]. Qed.

Lemma within_setreg w i v w' : within w -> setreg w i v = Ret w' -> within w'.
Proof.
  intros Hw Hs. unfold setreg in Hs. apply rbind_eq_Ret in Hs as (r & Hr & Hs). injection Hs as <-.
  apply zset_Ret in Hr as [_ ->]. apply within_regs; [done|]. rewrite length_insert. apply Hw.
Qed.

Lemma within_load w a b m : within w -> Machine.DelayedLoad (machine w) a b = Ret m -> within (set_machine w m).
Proof.
  intros Hw HD. unfold Machine.DelayedLoad in HD.
  do 2 (apply rbind_eq_Ret in HD as (? & _ & HD)).
  do 4 (apply rbind_eq_Ret in HD as (? & ?Hz & HD)). injection HD as <-.
  repeat match goal with H : zset _ _ _ = Ret _ |- _ => apply zset_Ret in H as [_ ->] end.
  apply within_regs; [done|]. rewrite !length_insert. apply Hw.
Qed.

Lemma within_wf w : within w -> wf_mmu (machine w).
Proof. intros [Hc _]. apply Hc. Qed.

Lemma within_Raise w e bad w' : within w -> RaiseException handler w e bad = Ret w' -> within w'.
Proof.
  intros Hw HR. unfold RaiseException in HR. apply rbind_eq_Ret in HR as (r & Hr & HR).
  apply rbind_eq_Ret in HR as (m & HD & HR). apply rbind_eq_Ret in HR as (w1 & HH & HR). injection HR as <-.
  assert (H1 : within (set_machine w m)).
  { apply (within_load (set_machine w (set_registers (machine w) r)) 0 0); [|done].
    apply zset_Ret in Hr as [_ ->]. apply within_regs; [done|]. rewrite length_insert. apply Hw. }
  destruct (kernel_confined (handler := handler) e (Machine.setStatus (set_machine w m) SystemMode) w1 (within_wf _ H1) (proj2 H1) HH) as [Hc Hl]. split; [|done].
  by apply (confined_trans _ m); [apply H1|].
Qed.

Lemma keeps_trap w e bad : within w -> keeps (trap handler w e bad).
Proof. intros Hw. apply (keeps_bind _ _ within); [intros w'; by apply within_Raise|]. by intros w' Hw' r [= <-]. Qed.

Lemma keeps_next w x : within w -> keeps (Ret (w, x) : result (World K * option (Z * Z * Z))).
Proof. by intros Hw r [= <-]. Qed.

Lemma keeps_reg {A} w i (k : Z -> result (World K * A)) : (forall v, keeps (k v)) -> keeps (rbind (reg w i) k).
Proof. intros Hk. by apply (keeps_bind _ _ (fun _ => True)). Qed.

Lemma keeps_setreg {A} w i v (k : World K -> result (World K * A)) : within w -> (forall w', within w' -> keeps (k w')) ->
  keeps (rbind (setreg w i v) k).
Proof. intros Hw Hk. apply (keeps_bind _ _ within); [intros w'; by apply within_setreg|done]. Qed.

Lemma ReadMem_within w addr size w' v : access_size size -> within w -> ReadMem handler w addr size = Ret (w', v) -> within w'.
Proof.
  intros Hs Hw HR. destruct v as [v|].
  - split.
    + apply (confined_trans _ (machine w)); [apply Hw|]. by apply (ReadMem_confined handler w addr size w' v (within_wf _ Hw)).
    + destruct (ReadMem_spec handler w addr size (within_wf _ Hw) Hs) as (m' & _ & Hsm & Hm).
      destruct (mmu_access _ _ _ _) as [exn|[[p e] pa]].
      * rewrite Hm in HR. by apply rbind_eq_Ret in HR as (? & _ & [=]).
      * destruct Hm as (_ & _ & v' & _ & _ & Hm). rewrite Hm in HR. injection HR as <- _. cbn. rewrite (sm_regs _ _ Hsm). apply Hw.
  - destruct (ReadMem_exception handler w addr size w' (within_wf _ Hw) Hs HR) as (exn & _ & HE). by apply (within_Raise w exn addr).
Qed.

Lemma WriteMem_within w addr size v w' ok : access_size size -> within w -> WriteMem handler w addr size v = Ret (w', ok) -> within w'.
Proof.
  intros Hs Hw HR. destruct ok.
  - split.
    + apply (confined_trans _ (machine w)); [apply Hw|]. by apply (WriteMem_confined handler w addr size v w' (within_wf _ Hw)).
    + pose proof (WriteMem_spec handler w addr size v (within_wf _ Hw) Hs) as Hm.
      destruct (mmu_access _ _ _ _) as [exn|[[p e] pa]].
      * rewrite Hm in HR. by apply rbind_eq_Ret in HR as (? & _ & [=]).
      * destruct Hm as (m' & mem' & _ & Hsm & Hm & _). rewrite Hm in HR. injection HR as <-. cbn. rewrite (sm_regs _ _ Hsm). apply Hw.
  - destruct (WriteMem_exception handler w addr size v w' (within_wf _ Hw) Hs HR) as (exn & _ & HE). by apply (within_Raise w exn addr).
Qed.

Lemma keeps_read w addr size k : access_size size -> within w -> (forall w' v, within w' -> keeps (k w' v)) ->
  keeps (with_read handler w addr size k).
Proof.
  intros Hs Hw Hk. apply (keeps_bind _ _ (fun r => within r.1)); [intros [w' v]; by apply ReadMem_within|].
  intros [w' [v|]] Hw'; [by apply Hk|by intros r [= <-]].
Qed.

Lemma keeps_write w addr size v k : access_size size -> within w -> (forall w', within w' -> keeps (k w')) ->
  keeps (with_write handler w addr size v k).
Proof.
  intros Hs Hw Hk. apply (keeps_bind _ _ (fun r => within r.1)); [intros [w' ok]; by apply WriteMem_within|].
  intros [w' [|]] Hw'; [by apply Hk|by intros r [= <-]].
Qed.

End confinement.

Ltac size_ok := unfold access_size; lia.

Ltac keeps_step :=
  match goal with
  | |- keeps _ (rbind (reg _ _) _) => apply keeps_reg; intros
  | |- keeps _ (rbind (setreg _ _ _) _) => apply keeps_setreg; [assumption|intros]
  | |- keeps _ (rbind (rbind _ _) _) => rewrite !rbind_assoc
  | |- keeps _ (rbind (pending_value _ _) _) => apply (keeps_bind _ _ _ (fun _ => True)); [done|intros ? _]
  | |- keeps _ (next _ _) => by apply keeps_next
  | |- keeps _ (next_load _ _ _ _) => by apply keeps_next
  | |- keeps _ (trap _ _ _ _) => by apply keeps_trap
  | |- keeps _ (with_read _ _ _ _ _) => apply keeps_read; [assumption|size_ok|assumption|intros]
  | |- keeps _ (with_write _ _ _ _ _ _) => apply keeps_write; [assumption|size_ok|assumption|intros]
  | |- keeps _ (let (_, _) := ?x in _) => destruct x
  | |- keeps _ (if ?b then _ else _) => destruct b
  | |- keeps _ _ => by intros ? [=]
  end.

Section runs.
Context {K : Type} (handler : ExceptionType -> World K -> result (World K)) `{!ConfinedKernel handler} (w0 : World K).
Implicit Types (w : World K).

Lemma execute_keeps w i pc : within w0 w -> keeps w0 (execute handler w i pc).
Proof.
  intros Hw. unfold execute. destruct (opCode i);
    unfold exec_ADD, exec_ADDI, exec_ADDIU, exec_ADDU, exec_AND, exec_ANDI, exec_BEQ, exec_BGEZAL, exec_BGEZ, exec_BGTZ,
      exec_BLEZ, exec_BLTZAL, exec_BLTZ, exec_BNE, exec_DIV, exec_DIVU, exec_JAL, exec_J, exec_JALR, exec_JR, exec_LB,
      exec_LH, exec_LUI, exec_LW, exec_LWL, exec_LWR, exec_MFHI, exec_MFLO, exec_MTHI, exec_MTLO, exec_MULT, exec_MULTU,
      exec_mult, exec_NOR, exec_OR, exec_ORI, exec_SB, exec_SH, exec_SLL, exec_SLLV, exec_SLT, exec_SLTI, exec_SLTIU,
      exec_SLTU, exec_SRA, exec_SRAV, exec_SRL, exec_SRLV, exec_SUB, exec_SUBU, exec_SW, exec_SWL, exec_SWR, exec_XOR,
      exec_XORI, exec_store, link, branch; cbv zeta; repeat keeps_step.
Qed.

Lemma OneInstruction_within debug_m w w' : within w0 w -> OneInstruction handler debug_m w = Ret w' -> within w0 w'.
Proof.
  intros Hw HO. unfold OneInstruction in HO. apply rbind_eq_Ret in HO as (pc & _ & HO).
  apply rbind_eq_Ret in HO as ([w1 raw] & HR & HO).
  pose proof (ReadMem_within handler w0 w pc 4 w1 raw ltac:(size_ok) Hw HR) as Hw1.
  destruct raw as [raw|]; [|by injection HO as <-].
  do 3 (apply rbind_eq_Ret in HO as (? & _ & HO)). apply rbind_eq_Ret in HO as ([w2 r] & HE & HO).
  pose proof (execute_keeps w1 _ _ Hw1 _ HE) as Hw2. cbn [fst] in Hw2.
  destruct r as [[[pcAfter lr] lv]|]; [|by injection HO as <-]. unfold advance in HO.
  apply rbind_eq_Ret in HO as (m & HD & HO). apply (within_load w0 w2) in HD; [|done].
  apply rbind_eq_Ret in HO as (? & _ & HO). apply rbind_eq_Ret in HO as (w3 & H3 & HO). apply within_setreg with (w0 := w0) in H3; [|done].
  apply rbind_eq_Ret in HO as (? & _ & HO). apply rbind_eq_Ret in HO as (w4 & H4 & HO). apply within_setreg with (w0 := w0) in H4; [|done].
  by apply within_setreg with (w0 := w0) in HO.
Qed.

(** ** Runs *)

Context {C : Type} `{EqDecision C} (CallBack : C -> Sim C (World K) -> result (Sim C (World K)))
  (Debugger : Sim C (World K) -> result (Sim C (World K))) (debug_m : bool).
(** Devices leave the machine alone, and the debugger changes its stepping. *)
Hypothesis CallBack_rest : forall c s s', CallBack c s = Ret s' -> rest s' = rest s.
Hypothesis Debugger_only : forall s s', length (registers (machine (rest s))) = 40%nat -> Debugger s = Ret s' ->
  stepping_only (machine (rest s)) (machine (rest s')).
Implicit Types (s : Sim C (World K)).

Lemma machine_load_within w w' : within w0 w -> machine_load w = Ret w' -> within w0 w'.
Proof. intros Hw HL. unfold machine_load in HL. apply rbind_eq_Ret in HL as (m & HD & [= <-]). by apply (within_load w0 w 0 0). Qed.

Lemma fire_rest fuel : forall s s', fire CallBack fuel s = Ret s' -> rest s' = rest s.
Proof.
  induction fuel as [|fuel IH]; intros s s' HF; [done|]. cbn [fire] in HF.
  apply rbind_eq_Ret in HF as ([x p] & _ & HF). apply rbind_eq_Ret in HF as (s1 & HC & HF).
  apply CallBack_rest in HC. destruct (pending (intr s1)) as [|y p']; [by injection HF as <-|].
  destruct (when y <=? _); [|by injection HF as <-]. apply IH in HF. by rewrite HF, HC.
Qed.

Lemma CheckIfDue_within s adv s' b : within w0 (rest s) -> CheckIfDue CallBack machine_load s adv = Ret (s', b) -> within w0 (rest s').
Proof.
  intros Hw HC. unfold CheckIfDue in HC. apply rbind_eq_Ret in HC as (_ & _ & HC).
  destruct (pending (intr s)) as [|x p]; [by injection HC as <- _|].
  assert (Hdue : forall s0, rest s0 = rest s -> (let* r := machine_load (rest s0) in
      let* s1 := fire CallBack (length (pending (intr s0))) (set_inHandler (mkSim (intr s0) (ticks s0) (Interrupt.brk s0) r) true) in
      Ret (set_inHandler s1 false, true)) = Ret (s', b) -> within w0 (rest s')).
  { intros s0 E HD. apply rbind_eq_Ret in HD as (r & HL & HD). apply rbind_eq_Ret in HD as (s1 & HF & HD). injection HD as <- _.
    apply fire_rest in HF. cbn in HF |- *. rewrite HF. apply (machine_load_within (rest s0)); [by rewrite E|done]. }
  destruct (when x >? _); [destruct (negb adv)|]; [by injection HC as <- _|by apply Hdue in HC|by apply Hdue in HC].
Qed.

Lemma OneTick_within Y s s' : (forall s s', within w0 (rest s) -> Y s = Ret s' -> within w0 (rest s')) -> within w0 (rest s) ->
  OneTick CallBack Y machine_load s = Ret s' -> within w0 (rest s').
Proof.
  intros HY Hw HT. unfold OneTick in HT. apply rbind_eq_Ret in HT as ([s1 b] & HC & HT). apply CheckIfDue_within in HC; [|done].
  destruct (yieldOnReturn _); [|by injection HT as <-]. apply rbind_eq_Ret in HT as (s2 & H2 & [= <-]). apply HY in H2; done.
Qed.

Lemma SetLevel_within Y s now s' old : (forall s s', within w0 (rest s) -> Y s = Ret s' -> within w0 (rest s')) -> within w0 (rest s) ->
  SetLevel CallBack Y machine_load s now = Ret (s', old) -> within w0 (rest s').
Proof.
  intros HY Hw HS. unfold SetLevel in HS. apply rbind_eq_Ret in HS as (_ & _ & HS). apply rbind_eq_Ret in HS as (s1 & HT & HS). injection HS as <- _.
  destruct (_ && _); [|by injection HT as <-]. by apply OneTick_within in HT.
Qed.

Lemma Yield_alone_within fuel : forall s s', within w0 (rest s) -> Yield_alone CallBack fuel s = Ret s' -> within w0 (rest s').
Proof.
  induction fuel as [|fuel IH]; intros s s' Hw HY; [done|]. cbn [Yield_alone] in HY.
  apply rbind_eq_Ret in HY as ([s1 l1] & H1 & HY). apply SetLevel_within in H1; [|done|done].
  apply rbind_eq_Ret in HY as ([s2 l2] & H2 & HY). apply SetLevel_within in H2; [|done|done]. by injection HY as <-.
Qed.

Lemma within_stepping w w' : within w0 w -> stepping_only (machine w) (machine w') -> within w0 w'.
Proof. intros [[? ? ? [? ?] ?] Hl] (b & time & E). unfold within. rewrite E. split; [by split|done]. Qed.

Lemma Run_turns_within fuel n : forall s s', within w0 (rest s) -> Run_turns handler CallBack Debugger debug_m fuel n s = Ret s' ->
  within w0 (rest s').
Proof.
  induction n as [|n IH]; intros s s' Hw HR; [by injection HR as <-|]. cbn [Run_turns] in HR.
  apply rbind_eq_Ret in HR as (s1 & HT & HR). apply (IH s1); [|done]. unfold Run_turn in HT.
  apply rbind_eq_Ret in HT as (w & HO & HT). apply OneInstruction_within in HO; [|done].
  apply rbind_eq_Ret in HT as (s2 & H2 & HT). apply OneTick_within in H2; [|apply Yield_alone_within|done].
  destruct (_ && _); [|by injection HT as <-]. apply Debugger_only in HT; [|apply H2]. by apply (within_stepping (rest s2)).
Qed.

End runs.

(** ** The kernel *)

#[export] Instance ExceptionHandler_confined {H} `{CharDevices H} rhs_first g_char g_int rand fuel :
  ConfinedKernel (ExceptionHandler rhs_first g_char g_int rand fuel : ExceptionType -> World (Kernel H) -> _).
Proof. intros e w w'. apply handler_confined. Qed.

(** The frames of a program that has just been started are the first ones. *)
Lemma started_frames m pages frame : tlb m = None -> Machine.pageTable m = Some identity_table -> pageTableSize m = pages ->
  1 <= pages -> writable_frame m frame -> frame < pages.
Proof.
  intros Ht Hp Hs H1 (vpn & p & e & Hl & Hf & _). unfold mmu_lookup in Hl. rewrite Ht, Hp, Hs in Hl. cbn [mbind option_bind] in Hl.
  destruct (decide (vpn < pages)) as [Hv|]; [|done]. unfold identity_table in Hl. rewrite list_lookup_fmap in Hl.
  destruct (seq 0 128 !! Z.to_nat vpn) as [i|] eqn:E; [|done]. apply lookup_seq in E as [-> Hi].
  cbn [fmap option_fmap option_map identity_entry valid] in Hl. injection Hl as _ <-. unfold frame_of, identity_entry in Hf. cbn [physicalPage] in Hf.
  rewrite u32_id in Hf by (unfold is_u32; lia). lia.
Qed.

(** A program with [pages] pages, started on the machine [m], has left alone what is not its own
    on [m']: memory from the end of its address space on, and the entries of its page table
    but for the use and dirty bits. *)
Record outside_kept (pages : Z) (m m' : Machine) : Prop := {
  ok_memory i : pages * PageSize <= Z.of_nat i -> mainMemory m' !! i = mainMemory m !! i;
  ok_table : option_Forall2 (Forall2 same_entry) (Some identity_table) (Machine.pageTable m');
  ok_size : pageTableSize m' = pages
}.

(** ** Claims *)

(** C13: user programs are confined.  An object file whose segments fit is loaded and started;
    then, whatever its instructions are and whatever system calls it makes, however the
    devices (which do not touch the machine themselves) interrupt it, with or without the
    debugger (which changes no more than the stepping) and for as long as [Machine::Run] goes on, no byte of memory at or beyond the end of its address space
    changes, and its page table keeps its size and its entries, but for the use and dirty
    bits. *)
Theorem program_confined {H H' C} `{RegularFile H} `{CharDevices H'} `{EqDecision C} g_entry g_pages g_char
    h h1 m fileName nm fd data hd rhs_first g_buf g_int rand
    (CallBack : C -> Sim C (World (Kernel H')) -> result (Sim C (World (Kernel H')))) Debugger debug_m :
  holds_str fileName nm -> os_open h nm true false = (h1, fd) -> 0 <= fd ->
  at_file h1 fd data 0 -> (forall h' d p, at_file h' fd d p -> 0 <= (os_close h' fd).2) ->
  is_program data hd ->
  length (registers m) = 40%nat -> Z.of_nat (length (mainMemory m)) = MemorySize -> tlb m = None ->
  (forall c s s', CallBack c s = Ret s' -> rest s' = rest s) -> 
  (forall s s', length (registers (machine (rest s))) = 40%nat -> Debugger s = Ret s' ->
     stepping_only (machine (rest s)) (machine (rest s'))) ->
  exists sp0 m0 h' sp m1 m2,
    new_AddrSpace g_entry g_pages m = Ret (sp0, m0) /\
    Load g_char h sp0 m0 fileName = Ret (h', sp, m1, true) /\
    AddrSpace.Execute sp m1 = Ret m2 /\
    forall calls fuel n s s', machine (rest s) = m2 ->
      Run (ExceptionHandler rhs_first g_buf g_int rand calls) CallBack Debugger debug_m fuel n s = Ret s' ->
      outside_kept (program_pages hd) m2 (machine (rest s')).
Proof.
  intros Hname Hopen Hfd Hat Hclose Hp Hregs Hmem Htlb HC HD.
  destruct (program_started g_entry g_pages g_char h h1 m fileName nm fd data hd
    Hname Hopen Hfd Hat Hclose Hp Hregs Hmem Htlb)
    as (sp0 & m0 & h' & sp & m1 & m2 & E1 & E2 & E3 & _ & Hwf & Hr & Ht & Hpt & Hsz).
  pose proof (program_pages_range _ _ Hp) as Hpg.
  exists sp0, m0, h', sp, m1, m2. split; [exact E1|]. split; [exact E2|]. split; [exact E3|].
  intros calls fuel n s s' Hs HR. clear E1 E2 E3.
  assert (Hst : within (rest s) (rest (Interrupt.setStatus s UserMode))).
  { split; [apply confined_refl; change (rest (Interrupt.setStatus s UserMode)) with (rest s); by rewrite Hs|]. change (rest (Interrupt.setStatus s UserMode)) with (rest s).
    rewrite Hs, Hr. unfold start_registers. by rewrite !length_insert. }
  destruct (Run_turns_within _ (rest s) CallBack Debugger debug_m HC HD _ _ _ _ Hst HR) as [[_ Hpt' Hsz' _ Hout] _].
  rewrite Hs in Hpt', Hsz', Hout. rewrite Hpt in Hpt'. split; [|exact Hpt'|congruence].
  intros i Hi. apply Hout. intros Hw. apply (started_frames m2 (program_pages hd)) in Hw; [|done|done|done|lia].
  unfold PageSize in *. pose proof (Z.div_le_lower_bound (Z.of_nat i) 128 (program_pages hd) ltac:(lia)). lia.
Qed.

(** ** A program that calls the kernel *)

(** [addiu $2,$0,42], [addiu $4,$0,40], [addiu $5,$0,3], [syscall]: the system call [Add]; then
    [sw $2,0($29)], just below the end of the address space. *)
Definition adding_program : list byte :=
  concat (le_split 4 <$> [NOFFMAGIC; 0; 52; 20; 20; 72; 4; 0; 0; 0; 24; 0; 12]) ++
  concat (le_split 4 <$> [0x2402002a; 0x24040028; 0x24050003; 0x0000000c; 0xafa20000; 7]).

Definition adding_header : NoffHeader :=
  mkNoff NOFFMAGIC (mkSegment 0 52 20) (mkSegment 20 72 4) (mkSegment 0 0 0) (mkSegment 24 0 12).

Lemma adding_is_program : is_program adding_program adding_header.
Proof.
  split; try (unfold disjoint_segments, in_segment; simpl; lia);
    try (vm_compute; reflexivity); try (unfold segment_fits, MemorySize, NumPhysPages, PageSize; simpl; lia).
  all: vm_compute; congruence.
Qed.

Definition adding_host : ProgHost := mkProgHost {[ 3 := (adding_program, 0) ]}.

Definition blank_machine : Machine := set_mainMemory sample_machine zero_memory.

Definition adding_kernel (m : Machine) : Sim unit (World (Kernel ToyHost)) :=
  mkSim (mkInterrupt IntOn [mkPending 0 tt 3 TimerInt] false false SystemMode) new_Ticks 1
    (mkWorld m SystemMode (mkKernel (toy_console []) blank_fs (replicate 13 NUL))).

Definition adding_clock (c : unit) (s : Sim unit (World (Kernel ToyHost))) : result (Sim unit (World (Kernel ToyHost))) :=
  Timer_CallBack c 0 (mkTimer false false) s.

Lemma adding_clock_rest c s s' : adding_clock c s = Ret s' -> rest s' = rest s.
Proof. apply Timer_CallBack_rest. Qed.

(** The program run: the sum, and the word at the top of its address space. *)
Definition adding_run (n : nat) : result (option Z * option byte) :=
  let* (sp, m) := new_AddrSpace (fun _ => sample_entry 9 9 true) 0 blank_machine in
  let* (_, sp, m, _) := Load (fun _ => NUL) adding_host sp m word_name in
  let* m := AddrSpace.Execute sp m in
  let* s := Run (ExceptionHandler true zeros 0 0 2) adding_clock Ret false 1 n (adding_kernel m) in
  Ret (registers (machine (rest s)) !! 2%nat, mainMemory (machine (rest s)) !! Z.to_nat (program_pages adding_header * PageSize - 16)).

Example adding_run_sum : adding_run 5 = Ret (Some 43, Some (byte.of_Z 43)).
Proof. vm_compute. reflexivity. Qed.

Lemma program_confined_witness :
  exists m2 s', Run (ExceptionHandler true zeros 0 0 2) adding_clock Ret false 1 5 (adding_kernel m2) = Ret s' /\
    registers (machine (rest s')) !! 2%nat = Some 43 /\
    forall i, program_pages adding_header * PageSize <= Z.of_nat i ->
      mainMemory (machine (rest s')) !! i = mainMemory m2 !! i.
Proof.
  destruct (program_confined (fun _ => sample_entry 9 9 true) 0 (fun _ => NUL) adding_host adding_host
    blank_machine word_name word_chars 3 adding_program adding_header true zeros 0 0 adding_clock Ret false
    word_name_holds) as (sp0 & m0 & h' & sp & m1 & m2 & E1 & E2 & E3 & HR).
  - reflexivity.
  - lia.
  - reflexivity.
  - intros h' d p Hat. unfold at_file in Hat. simpl in Hat. simpl. rewrite Hat. simpl. lia.
  - exact adding_is_program.
  - reflexivity.
  - unfold blank_machine, set_mainMemory, zero_memory. cbn [mainMemory]. rewrite length_replicate. reflexivity.
  - reflexivity.
  - exact adding_clock_rest.
  - intros s s' _ Hs. injection Hs as Hs. rewrite <- Hs. exists (singleStep (machine (rest s))), (runUntilTime (machine (rest s))).
    destruct (machine (rest s)). reflexivity.
  - pose proof adding_run_sum as Hrun. unfold adding_run in Hrun. rewrite E1, rbind_Ret, E2, rbind_Ret, E3, rbind_Ret in Hrun.
    apply rbind_eq_Ret in Hrun as (s' & Hs & Hrun). injection Hrun as Hrun _. exists m2, s'. split; [exact Hs|].
    split; [exact Hrun|]. exact (ok_memory _ _ _ (HR 2%nat 1%nat 5%nat (adding_kernel m2) s' eq_refl Hs)).
Defined.
