(* ===== verification/UserSwitch.v ===== *)
(** * Switching between user programs

    What [Scheduler::Run] does for threads that run user programs (threads/scheduler.cc):
    before SWITCH it saves the registers of the program that is left
    ([Thread::SaveUserState], [AddrSpace::SaveState]), and after SWITCH it restores those of
    the program that goes on ([Thread::RestoreUserState], [AddrSpace::RestoreState]).  The
    rest of [Run] is in [Threads]. *)

From S2P Require Import Prelude NList Machine Confined Mips Interrupt UserRun Debugger AddrSpace ProgramConfined.
#[local] Open Scope Z_scope.

(** Of a thread, what belongs to its user program. *)
Record UserThread : Type := mkUser {
  userRegisters : list Z;
  space : option AddrSpace
}.

Definition SaveUserState (t : UserThread) (m : Machine) : result UserThread :=
  let* r := forZ 0 NumTotalRegs (fun i r => let* v := ReadRegister m i in zset r i v) (userRegisters t) in
  Ret (mkUser r (space t)).

Definition RestoreUserState (t : UserThread) (m : Machine) : result Machine :=
  forZ 0 NumTotalRegs (fun i m => let* v := zget (userRegisters t) i in WriteRegister m i v) m.

(** The page table of the running program is one array, which the address space and the
    machine both point to: the use and dirty bits that the machine has set are the space's. *)
Definition shared_table (sp : AddrSpace) (m : Machine) : AddrSpace :=
  match Machine.pageTable m with Some pt => mkSpace pt (numPages sp) | None => sp end.

(** Before SWITCH, for the thread that is left. *)
Definition leave_user (t : UserThread) (m : Machine) : result UserThread :=
  match space t with
  | None => Ret t
  | Some sp =>
      let* t := SaveUserState t m in
      Ret (mkUser (userRegisters t) (Some (SaveState (shared_table sp m))))
  end.

(** After SWITCH, for the thread that goes on. *)
Definition resume_user (t : UserThread) (m : Machine) : result Machine :=
  match space t with
  | None => Ret m
  | Some sp =>
      let* m := RestoreUserState t m in
      Ret (RestoreState sp m)
  end.

(** ** Saving and restoring *)

Lemma SaveUserState_spec t m : length (registers m) = 40%nat -> length (userRegisters t) = 40%nat ->
  SaveUserState t m = Ret (mkUser (registers m) (space t)).
Proof.
  intros Hm Ht. unfold SaveUserState.
  destruct (forZ_inv (fun i r => length r = 40%nat /\ forall j : nat, Z.of_nat j < i -> r !! j = registers m !! j)
    0 NumTotalRegs (fun i r => let* v := ReadRegister m i in zset r i v) (userRegisters t)) as (r & -> & Hl & Hr).
  - unfold NumTotalRegs. lia.
  - split; [done|]. intros j Hj. lia.
  - intros i r Hi [Hl Hr]. unfold NumTotalRegs in Hi. 
    unfold ReadRegister. rewrite Z.geb_leb, (proj2 (Z.leb_le 0 i)), (proj2 (Z.ltb_lt i NumTotalRegs)) by (unfold NumTotalRegs; lia).
    cbn [andb]. rewrite ASSERT_true by done. rewrite rbind_Ret.
    destruct (zget_spec (registers m) i) as (v & -> & Hv); [lia|]. rewrite rbind_Ret, zset_in by lia.
    eexists. split; [done|]. rewrite length_insert. split; [done|]. intros j Hj.
    destruct (decide (j = Z.to_nat i)) as [->|]; [by rewrite list_lookup_insert_eq by lia|].
    rewrite list_lookup_insert_ne by done. apply Hr. lia.
  - rewrite rbind_Ret. do 2 f_equal. apply list_eq. intros j. destruct (decide (j < 40)%nat); [apply Hr; unfold NumTotalRegs; lia|].
    by rewrite !lookup_ge_None_2 by lia.
Qed.

Lemma RestoreUserState_spec t m : length (registers m) = 40%nat -> length (userRegisters t) = 40%nat ->
  RestoreUserState t m = Ret (set_registers m (userRegisters t)).
Proof.
  intros Hm Ht. unfold RestoreUserState.
  destruct (forZ_inv (fun i m' => m' = set_registers m (registers m') /\ length (registers m') = 40%nat /\
      forall j : nat, Z.of_nat j < i -> registers m' !! j = userRegisters t !! j)
    0 NumTotalRegs (fun i m => let* v := zget (userRegisters t) i in WriteRegister m i v) m) as (m1 & -> & Hm1 & Hl & Hr).
  - unfold NumTotalRegs. lia.
  - split; [by destruct m|]. split; [done|]. intros j Hj. lia.
  - intros i m' Hi (Hm' & Hl & Hr). unfold NumTotalRegs in Hi.
    destruct (zget_spec (userRegisters t) i) as (v & -> & Hv); [lia|].
    rewrite rbind_Ret, WriteRegister_spec by (done || unfold NumTotalRegs; lia). eexists. split; [done|]. cbn.
    split; [by rewrite Hm'|]. rewrite length_insert. split; [done|]. intros j Hj.
    destruct (decide (j = Z.to_nat i)) as [->|]; [by rewrite list_lookup_insert_eq by lia|].
    rewrite list_lookup_insert_ne by done. apply Hr. lia.
  - rewrite Hm1. do 2 f_equal. apply list_eq. intros j. destruct (decide (j < 40)%nat); [apply Hr; unfold NumTotalRegs; lia|].
    by rewrite !lookup_ge_None_2 by lia.
Qed.

(** The thread runs its program on the machine. *)
Record running_on (t : UserThread) (m : Machine) (sp : AddrSpace) : Prop := {
  ro_space : space t = Some sp;
  ro_regs : length (registers m) = 40%nat;
  ro_user : length (userRegisters t) = 40%nat;
  ro_tlb : tlb m = None;
  ro_table : is_Some (Machine.pageTable m);
  ro_size : pageTableSize m = numPages sp
}.

Lemma leave_then_resume t m sp m' : running_on t m sp -> length (registers m') = 40%nat -> tlb m' = None ->
  exists t' m2, leave_user t m = Ret t' /\ resume_user t' m' = Ret m2 /\
    registers m2 = registers m /\ mainMemory m2 = mainMemory m' /\ tlb m2 = tlb m /\
    Machine.pageTable m2 = Machine.pageTable m /\ pageTableSize m2 = pageTableSize m.
Proof.
  intros [Hs Hr Hu Ht [pt Hp] Hz] Hr' Ht'. eexists (mkUser (registers m) (Some (mkSpace pt (numPages sp)))), _.
  unfold leave_user, shared_table. rewrite Hs, SaveUserState_spec, rbind_Ret, Hp by done. split; [done|].
  unfold resume_user. cbn [space]. rewrite RestoreUserState_spec, rbind_Ret by done. split; [done|]. cbn. by rewrite Ht, Ht', Hz.
Qed.

(** ** Claims *)

(** C15: time sharing.  A user program that is left by the scheduler and resumed later goes on
    with the registers it had, and with a translation of addresses that gives the same for
    every access.  What it finds changed in memory is what another program, which ran in
    between for any number of instructions, system calls and interrupts, could write: no
    other frame has changed. *)
Theorem time_sharing {C K} `{EqDecision C} (handler : ExceptionType -> World K -> result (World K)) `{!ConfinedKernel handler}
    (CallBack : C -> Sim C (World K) -> result (Sim C (World K))) Debugger debug_m
    a b (m : Machine) spa spb fuel n (s s' : Sim C (World K)) mb :
  (forall c s s', CallBack c s = Ret s' -> rest s' = rest s) ->
  (forall s s', length (registers (machine (rest s))) = 40%nat -> Debugger s = Ret s' ->
     stepping_only (machine (rest s)) (machine (rest s'))) ->
  wf_mmu m -> running_on a m spa -> space b = Some spb -> length (userRegisters b) = 40%nat ->
  numPages spb <= Z.of_nat (length (pageTable spb)) ->
  resume_user b m = Ret mb -> machine (rest s) = mb ->
  Run_turns handler CallBack Debugger debug_m fuel n s = Ret s' ->
  exists a' m2, leave_user a m = Ret a' /\ resume_user a' (machine (rest s')) = Ret m2 /\
    registers m2 = registers m /\
    (forall va size writing, mmu_access m2 va size writing = mmu_access m va size writing) /\
    forall i, ~ writable_frame mb (Z.of_nat i / PageSize) -> mainMemory m2 !! i = mainMemory m !! i.
Proof.
  intros HC HD Hwf Ha Hb Hbl Hbn Hres Hs HR. pose proof Ha as [_ Hmr _ Hmt _ _].
  assert (Emb : mb = RestoreState spb (set_registers m (userRegisters b))).
  { unfold resume_user in Hres. rewrite Hb, RestoreUserState_spec, rbind_Ret in Hres by done. by injection Hres. }
  assert (Hwb : wf_mmu mb).
  { rewrite Emb. destruct Hwf as [Hm _]. split; [done|]. cbn. by rewrite Hmt. }
  destruct (Run_turns_within handler (rest s) CallBack Debugger debug_m HC HD fuel n s s') as [[Htlb _ _ _ Hout] Hl].
  { split; [apply confined_refl; by rewrite Hs|]. by rewrite Hs, Emb. }
  { done. }
  rewrite Hs in Htlb, Hout. assert (Ht : tlb (machine (rest s')) = None).
  { rewrite Emb in Htlb. cbn in Htlb. rewrite Hmt in Htlb. by inversion Htlb. }
  destruct (leave_then_resume a m spa (machine (rest s')) Ha Hl Ht) as (a' & m2 & E1 & E2 & Er & Em & Et & Ep & Ez).
  exists a', m2. split; [done|]. split; [done|]. split; [done|]. split.
  - intros va size writing. unfold mmu_access, mmu_lookup. by rewrite Et, Ep, Ez.
  - intros i Hi. rewrite Em, Hout by done. by rewrite Emb.
Qed.

(** ** Two programs *)

#[export] Instance halting_confined : ConfinedKernel halting_handler.
Proof. intros e w w' _ _ [=]. Qed.

Lemma clock_callback_rest c s s' : clock_callback c s = Ret s' -> rest s' = rest s.
Proof. apply Timer_CallBack_rest. Qed.

(** [b] is [safe_program], in frame 3; the page of [a] is frame 7. *)
Definition user_a : UserThread := mkUser (replicate 40 0) (Some (mkSpace [sample_entry 0 7 false] 1)).
Definition user_b : UserThread := mkUser (registers (machine safe_program)) (Some (mkSpace [sample_entry 0 3 false] 1)).
Definition machine_of_a : Machine :=
  mkMachine (<[5%nat := 77]> (replicate 40 0)) (mainMemory (machine safe_program)) None (Some [sample_entry 0 7 false]) 1 false 0.
Definition turn_of_b : Sim unit (World unit) :=
  mkSim (mkInterrupt IntOn [mkPending 0 tt 2 TimerInt] false false UserMode) new_Ticks 1
    (mkWorld (RestoreState (mkSpace [sample_entry 0 3 false] 1) (set_registers machine_of_a (userRegisters user_b))) UserMode tt).

Lemma time_sharing_witness : exists s' a' m2,
  Run_turns halting_handler clock_callback Ret false 1 3 turn_of_b = Ret s' /\
  leave_user user_a machine_of_a = Ret a' /\ resume_user a' (machine (rest s')) = Ret m2 /\
  registers m2 = registers machine_of_a.
Proof.
  assert (HR : exists s', Run_turns halting_handler clock_callback Ret false 1 3 turn_of_b = Ret s')
    by (vm_compute; eexists; reflexivity).
  destruct HR as [s' HR].
  destruct (time_sharing halting_handler clock_callback Ret false user_a user_b machine_of_a
    (mkSpace [sample_entry 0 7 false] 1) (mkSpace [sample_entry 0 3 false] 1) 1 3 turn_of_b s' (machine (rest turn_of_b))
    clock_callback_rest) as (a' & m2 & E1 & E2 & Er & _).
  - intros s1 s2 _ Hs. injection Hs as Hs. rewrite <- Hs. exists (singleStep (machine (rest s1))), (runUntilTime (machine (rest s1))).
    destruct (machine (rest s1)). reflexivity.
  - split; [exact (wf_mem _ (proj1 (with_program_wf [0x8c08000c; 0; 0x01084821; 42] ltac:(vm_compute; lia))))|].
    simpl. lia.
  - split; try reflexivity. eexists. reflexivity.
  - reflexivity.
  - reflexivity.
  - simpl. lia.
  - unfold resume_user, user_b. cbn [space]. rewrite RestoreUserState_spec by reflexivity. reflexivity.
  - reflexivity.
  - exact HR.
  - exists s', a', m2. split; [exact HR|]. split; [exact E1|]. split; [exact E2|exact Er].
Defined.
